(** * Timer registry of merecat (src/timers.c): model and verified properties

    The timer package keeps every active timer on one of [HASH_SIZE]
    doubly linked lists, selected by a hash of the trigger time and kept
    sorted by trigger time, and keeps cancelled records on a singly linked
    free list.  The model below follows the C code statement by statement
    over an explicit store of timer records addressed by pointers.

    Conventions of the model.
    - A pointer is a natural number, a nullable pointer an [option nat].
    - [long], [time_t], [suseconds_t] and [int] values are integers [Z].
      Signed overflow is undefined in C, so the model describes the
      executions in which no signed overflow happens.  Conversions to
      [unsigned int] are written out as reductions modulo [2^32], and the C
      operators [/] and [%] are [Z.quot] and [Z.rem].
    - A computation is a function from the registry to an optional result
      and registry; [None] stands for an execution that leaves defined
      behaviour (a null or dangling dereference, an index outside the
      bucket array) or that does not return. *)

From Stdlib Require Import ZArith Lia.
From stdpp Require Import base tactics option list functions gmap.

Local Open Scope Z_scope.

(** ** Data *)

Definition HASH_SIZE : nat := 67.

Record timeval := Timeval { tv_sec : Z; tv_usec : Z }.

(** Modelled from the spec: [arg_t] is declared in timers.h, which is not
    among the files modelled here; the spec describes it as an opaque value
    passed through unexamined, and the model takes a machine word for it. *)
Definition arg_t := Z.

(** A callback is a C function pointer; the model names it by its address.
    What the pointed-to code does is given by [invoke] below. *)
Definition callback := nat.

(** Modelled from the spec: [struct timer] is declared in timers.h, which is
    not among the files modelled here; the fields are the ones timers.c uses
    (cb, arg, msecs, periodic, time, hash, prev, next).  The cached bucket
    index [hash] only ever holds a result of [hash], which is below
    [HASH_SIZE], so it is a natural number here. *)
Record timer := Timer {
  t_cb : callback;
  t_arg : arg_t;
  t_msecs : Z;
  t_periodic : Z;
  t_time : timeval;
  t_hash : nat;
  t_prev : option nat;
  t_next : option nat
}.

(** One record of the callback log: which timer fired, and the call
    [(t->cb)(t->arg, now)] that was made.  The log is ghost state. *)
Record event := Event {
  ev_timer : nat;
  ev_cb : callback;
  ev_arg : arg_t;
  ev_now : timeval
}.

(** The file-level variables of timers.c together with the store. *)
Record registry := Registry {
  heap : gmap nat timer;
  timers : list (option nat);
  free_timers : option nat;
  alloc_count : Z;
  active_count : Z;
  free_count : Z;
  calls : list event
}.

Definition set_time (tv : timeval) (t : timer) : timer :=
  Timer (t_cb t) (t_arg t) (t_msecs t) (t_periodic t) tv (t_hash t) (t_prev t) (t_next t).
Definition set_hash (h : nat) (t : timer) : timer :=
  Timer (t_cb t) (t_arg t) (t_msecs t) (t_periodic t) (t_time t) h (t_prev t) (t_next t).
Definition set_prev (p : option nat) (t : timer) : timer :=
  Timer (t_cb t) (t_arg t) (t_msecs t) (t_periodic t) (t_time t) (t_hash t) p (t_next t).
Definition set_next (n : option nat) (t : timer) : timer :=
  Timer (t_cb t) (t_arg t) (t_msecs t) (t_periodic t) (t_time t) (t_hash t) (t_prev t) n.

(** ** The computation monad *)

Definition M (A : Type) : Type := registry -> option (A * registry).

Definition ret {A} (a : A) : M A := fun s => Some (a, s).
Definition fault {A} : M A := fun _ => None.
Definition bind {A B} (m : M A) (k : A -> M B) : M B :=
  fun s => match m s with
           | Some (a, s') => k a s'
           | None => None
           end.

Notation "x <- m ;; k" := (bind m (fun x => k))
  (at level 100, m at next level, right associativity).
Notation "m ;; k" := (bind m (fun _ => k))
  (at level 100, right associativity).

(** [*p] *)
Definition load (p : nat) : M timer :=
  fun s => match heap s !! p with
           | Some t => Some (t, s)
           | None => None
           end.

(** [p->field = v], as an update [f] of the record at [p] *)
Definition store (p : nat) (f : timer -> timer) : M unit :=
  fun s => match heap s !! p with
           | Some t =>
               Some (tt, Registry (<[p := f t]> (heap s)) (timers s) (free_timers s)
                           (alloc_count s) (active_count s) (free_count s) (calls s))
           | None => None
           end.

(** [timers[h]] *)
Definition bucket (h : nat) : M (option nat) :=
  fun s => match timers s !! h with
           | Some hd => Some (hd, s)
           | None => None
           end.

(** [timers[h] = v] *)
Definition set_bucket (h : nat) (v : option nat) : M unit :=
  fun s => match timers s !! h with
           | Some _ =>
               Some (tt, Registry (heap s) (<[h := v]> (timers s)) (free_timers s)
                           (alloc_count s) (active_count s) (free_count s) (calls s))
           | None => None
           end.

Definition get_free : M (option nat) := fun s => Some (free_timers s, s).
Definition set_free (v : option nat) : M unit :=
  fun s => Some (tt, Registry (heap s) (timers s) v
                       (alloc_count s) (active_count s) (free_count s) (calls s)).

(** The three counters move by [++] and [--] only. *)
Definition add_alloc (d : Z) : M unit :=
  fun s => Some (tt, Registry (heap s) (timers s) (free_timers s)
                       (alloc_count s + d) (active_count s) (free_count s) (calls s)).
Definition add_active (d : Z) : M unit :=
  fun s => Some (tt, Registry (heap s) (timers s) (free_timers s)
                       (alloc_count s) (active_count s + d) (free_count s) (calls s)).
Definition add_free (d : Z) : M unit :=
  fun s => Some (tt, Registry (heap s) (timers s) (free_timers s)
                       (alloc_count s) (active_count s) (free_count s + d) (calls s)).

(** [malloc] hands out the address [p] with unspecified contents; every
    field is assigned by [tmr_create] and [l_add] before it is read. *)
Definition junk : timer := Timer 0%nat 0 0 0 (Timeval 0 0) 0%nat None None.
Definition alloc_at (p : nat) : M unit :=
  fun s => Some (tt, Registry (<[p := junk]> (heap s)) (timers s) (free_timers s)
                       (alloc_count s) (active_count s) (free_count s) (calls s)).

(** [free(p)] *)
Definition release (p : nat) : M unit :=
  fun s => match heap s !! p with
           | Some _ =>
               Some (tt, Registry (delete p (heap s)) (timers s) (free_timers s)
                           (alloc_count s) (active_count s) (free_count s) (calls s))
           | None => None
           end.

Definition log_call (e : event) : M unit :=
  fun s => Some (tt, Registry (heap s) (timers s) (free_timers s)
                       (alloc_count s) (active_count s) (free_count s) (calls s ++ [e])).

Definition heap_size : M nat := fun s => Some (size (heap s), s).

(** ** timers.c *)

(** [hash], lines 52-60. *)
Definition hash (tv : timeval) : nat :=
  Z.to_nat (Z.lxor (tv_sec tv mod 2 ^ 32) (tv_usec tv mod 2 ^ 32) mod Z.of_nat HASH_SIZE).

(** The test of lines 75-77 and 86-88: [t] goes in front of [t2]. *)
Definition goes_before (t t2 : timeval) : bool :=
  (tv_sec t <? tv_sec t2) || ((tv_sec t =? tv_sec t2) && (tv_usec t <=? tv_usec t2)).

(** The loop of lines 85-101.  The walk only reads until it links [t] in, so
    on a list without a cycle it takes fewer steps than there are records;
    the bound [fuel] is the number of records in the store. *)
Fixpoint l_add_walk (fuel : nat) (t t2prev : nat) (t2 : option nat) : M unit :=
  match t2 with
  | None =>
      store t2prev (set_next (Some t)) ;;
      store t (set_prev (Some t2prev)) ;;
      store t (set_next None)
  | Some q =>
      match fuel with
      | O => fault
      | S fuel' =>
          tr <- load t ;;
          t2r <- load q ;;
          if goes_before (t_time tr) (t_time t2r) then
            store t2prev (set_next (Some t)) ;;
            store t (set_prev (Some t2prev)) ;;
            store t (set_next (Some q)) ;;
            store q (set_prev (Some t))
          else
            l_add_walk fuel' t q (t_next t2r)
      end
  end.

(** [l_add], lines 63-104. *)
Definition l_add (t : nat) : M unit :=
  tr <- load t ;;
  let h := t_hash tr in
  t2 <- bucket h ;;
  match t2 with
  | None =>
      set_bucket h (Some t) ;;
      store t (set_next None) ;;
      store t (set_prev None)
  | Some q =>
      t2r <- load q ;;
      if goes_before (t_time tr) (t_time t2r) then
        set_bucket h (Some t) ;;
        store t (set_prev None) ;;
        store t (set_next (Some q)) ;;
        store q (set_prev (Some t))
      else
        n <- heap_size ;;
        l_add_walk n t q (t_next t2r)
  end.

(** [l_remove], lines 107-119. *)
Definition l_remove (t : option nat) : M unit :=
  match t with
  | None => ret tt
  | Some p =>
      tr <- load p ;;
      match t_prev tr with
      | None => set_bucket (t_hash tr) (t_next tr)
      | Some pv => store pv (set_next (t_next tr))
      end ;;
      tr' <- load p ;;
      match t_next tr' with
      | Some nx => store nx (set_prev (t_prev tr'))
      | None => ret tt
      end
  end.

(** [l_resort], lines 122-132; its callers pass a non-null [t]. *)
Definition l_resort (t : nat) : M unit :=
  l_remove (Some t) ;;
  store t (fun r => set_hash (hash (t_time r)) r) ;;
  l_add t.

(** The static variables before [tmr_init] runs. *)
Definition startup : registry :=
  Registry ∅ (replicate HASH_SIZE None) None 0 0 0 [].

(** [tmr_init], lines 135-143 (the clock set-up that follows does not touch
    the registry). *)
Definition tmr_init : M unit :=
  fun s => Some (tt, Registry (heap s) (replicate HASH_SIZE None) None 0 0 0 (calls s)).

(** The rescheduling arithmetic written out at lines 194-199, 284-289 and
    303-308: add [msecs] milliseconds to [tv] and carry the microseconds. *)
Definition tv_add_msecs (tv : timeval) (msecs : Z) : timeval :=
  let sec := tv_sec tv + Z.quot msecs 1000 in
  let usec := tv_usec tv + Z.rem msecs 1000 * 1000 in
  if 1000000 <=? usec
  then Timeval (sec + Z.quot usec 1000000) (Z.rem usec 1000000)
  else Timeval sec usec.

(** [tmr_create], lines 167-208.  [malloc] is what the allocator would
    return if asked (consulted on the [else] branch only), and [clock] is
    what [tmr_prepare_timeval] leaves in [t->time] when [now] is null.  The
    assignments of lines 185-199 (cb, arg, msecs, periodic and the trigger
    time) are one store. *)
Definition tmr_create (malloc : option nat) (clock : timeval)
    (now : option timeval) (cb : callback) (arg : arg_t)
    (msecs : Z) (periodic : Z) : M (option nat) :=
  f <- get_free ;;
  r <- match f with
       | Some t =>
           tr <- load t ;;
           set_free (t_next tr) ;;
           add_free (-1) ;;
           ret (Some t)
       | None =>
           match malloc with
           | None => ret None
           | Some t => alloc_at t ;; add_alloc 1 ;; ret (Some t)
           end
       end ;;
  match r with
  | None => ret None
  | Some t =>
      store t (fun r => Timer cb arg msecs periodic
                              (tv_add_msecs (default clock now) msecs)
                              (t_hash r) (t_prev r) (t_next r)) ;;
      store t (fun r => set_hash (hash (t_time r)) r) ;;
      l_add t ;;
      add_active 1 ;;
      ret (Some t)
  end.

(** Line 246: the time from [now] to the trigger [t], in milliseconds. *)
Definition msecs_until (now t : timeval) : Z :=
  (tv_sec t - tv_sec now) * 1000 + Z.quot (tv_usec t - tv_usec now) 1000.

(** Lines 246-252: what the head [tr] of a bucket does to the pair
    [(gotone, msecs)]. *)
Definition mstimeout_step (now : timeval) (acc : bool * Z) (tr : timer) : bool * Z :=
  let m := msecs_until now (t_time tr) in
  if negb (fst acc) then (true, m)
  else if m <? snd acc then (fst acc, m)
  else acc.

(** The loop of lines 239-253 over the bucket indices [hs]; [acc] is the pair
    [(gotone, msecs)].  An empty bucket leaves it as it is ([continue]). *)
Fixpoint mstimeout_loop (hs : list nat) (now : timeval) (acc : bool * Z)
    : M (bool * Z) :=
  match hs with
  | [] => ret acc
  | h :: hs' =>
      t <- bucket h ;;
      acc' <- match t with
              | None => ret acc
              | Some p => tr <- load p ;; ret (mstimeout_step now acc tr)
              end ;;
      mstimeout_loop hs' now acc'
  end.

(** [tmr_mstimeout], lines 227-262.  The "infinite" sentinel [INFTIM] is
    defined in a header that is not among the files modelled here, so it is a
    parameter. *)
Definition tmr_mstimeout (INFTIM : Z) (now : timeval) : M Z :=
  r <- mstimeout_loop (seq 0 HASH_SIZE) now (false, 0) ;;
  if negb (fst r) then ret INFTIM
  else if snd r <=? 0 then ret 500
  else ret (snd r).

(** [tmr_cancel], lines 313-328. *)
Definition tmr_cancel (t : option nat) : M unit :=
  match t with
  | None => ret tt
  | Some p =>
      l_remove (Some p) ;;
      add_active (-1) ;;
      store p (set_prev None) ;;
      f <- get_free ;;
      store p (set_next f) ;;
      set_free (Some p) ;;
      add_free 1
  end.

(** [tmr_reset], lines 297-310. *)
Definition tmr_reset (now : timeval) (t : option nat) : M unit :=
  match t with
  | None => ret tt
  | Some p =>
      store p (fun r => set_time (tv_add_msecs now (t_msecs r)) r) ;;
      l_resort p
  end.

(** [tmr_cleanup], lines 331-344.  Every turn of the loop frees a live
    record, so the loop makes at most as many turns as there are records;
    [fuel] is one more than that. *)
Fixpoint cleanup_loop (fuel : nat) : M unit :=
  f <- get_free ;;
  match f with
  | None => ret tt
  | Some t =>
      match fuel with
      | O => fault
      | S fuel' =>
          tr <- load t ;;
          set_free (t_next tr) ;;
          add_free (-1) ;;
          add_alloc (-1) ;;
          release t ;;
          cleanup_loop fuel'
      end
  end.

Definition tmr_cleanup : M unit :=
  n <- heap_size ;;
  cleanup_loop n.

(** [tmr_destroy], lines 347-356; [fuel] bounds the turns of each inner
    [while] loop. *)
Fixpoint destroy_bucket (fuel : nat) (h : nat) : M unit :=
  t <- bucket h ;;
  match t with
  | None => ret tt
  | Some p =>
      match fuel with
      | O => fault
      | S fuel' => tmr_cancel (Some p) ;; destroy_bucket fuel' h
      end
  end.

Fixpoint destroy_buckets (fuel : nat) (hs : list nat) : M unit :=
  match hs with
  | [] => ret tt
  | h :: hs' => destroy_bucket fuel h ;; destroy_buckets fuel hs'
  end.

Definition tmr_destroy (fuel : nat) : M unit :=
  destroy_buckets fuel (seq 0 HASH_SIZE) ;;
  tmr_cleanup.

(** The test of lines 277-278: [t] is not ready yet at [now]. *)
Definition not_ready (t now : timeval) : bool :=
  (tv_sec now <? tv_sec t) || ((tv_sec t =? tv_sec now) && (tv_usec now <? tv_usec t)).

Section Run.

(** What the code behind a callback pointer does to the registry when it is
    called with [(arg, now)]. *)
Variable invoke : callback -> arg_t -> timeval -> M unit.

(** Lines 281-292: call the callback of the due timer [p], whose record
    was [tr] when the loop read it, then reschedule or cancel the timer. *)
Definition fire (now : timeval) (p : nat) (tr : timer) : M unit :=
  log_call (Event p (t_cb tr) (t_arg tr) now) ;;
  invoke (t_cb tr) (t_arg tr) now ;;
  tr' <- load p ;;
  if t_periodic tr' =? 0 then tmr_cancel (Some p)
  else
    store p (fun r => set_time (tv_add_msecs (t_time r) (t_msecs r)) r) ;;
    l_resort p.

(** The inner loop of [tmr_run], lines 272-293, from the record [t] on;
    [fuel] bounds its turns. *)
Fixpoint run_bucket (fuel : nat) (now : timeval) (t : option nat) : M unit :=
  match t with
  | None => ret tt
  | Some p =>
      match fuel with
      | O => fault
      | S fuel' =>
          tr <- load p ;;
          let next := t_next tr in
          if not_ready (t_time tr) now then ret tt
          else
            fire now p tr ;;
            run_bucket fuel' now next
      end
  end.

Fixpoint run_buckets (fuel : nat) (now : timeval) (hs : list nat) : M unit :=
  match hs with
  | [] => ret tt
  | h :: hs' =>
      t <- bucket h ;;
      run_bucket fuel now t ;;
      run_buckets fuel now hs'
  end.

(** [tmr_run], lines 265-294. *)
Definition tmr_run (fuel : nat) (now : timeval) : M unit :=
  run_buckets fuel now (seq 0 HASH_SIZE).

End Run.

(** A callback that leaves the registry alone. *)
Definition quiet : callback -> arg_t -> timeval -> M unit := fun _ _ _ => ret tt.

(** ** Sequences of public operations *)

Inductive op :=
| Create (malloc : option nat) (clock : timeval) (now : option timeval)
         (cb : callback) (arg : arg_t) (msecs periodic : Z)
| Cancel (t : option nat)
| Reset (now : timeval) (t : option nat)
| Run (fuel : nat) (now : timeval)
| Mstimeout (INFTIM : Z) (now : timeval)
| Cleanup
| Destroy (fuel : nat).

Definition exec_op (invoke : callback -> arg_t -> timeval -> M unit) (o : op) : M unit :=
  match o with
  | Create malloc clock now cb arg msecs periodic =>
      tmr_create malloc clock now cb arg msecs periodic ;; ret tt
  | Cancel t => tmr_cancel t
  | Reset now t => tmr_reset now t
  | Run fuel now => tmr_run invoke fuel now
  | Mstimeout INFTIM now => tmr_mstimeout INFTIM now ;; ret tt
  | Cleanup => tmr_cleanup
  | Destroy fuel => tmr_destroy fuel
  end.

(** The registries seen after each operation of [ops], run in order from [s]. *)
Fixpoint observe (invoke : callback -> arg_t -> timeval -> M unit)
    (ops : list op) (s : registry) : option (list registry) :=
  match ops with
  | [] => Some []
  | o :: ops' =>
      match exec_op invoke o s with
      | Some (_, s') => cons s' <$> observe invoke ops' s'
      | None => None
      end
  end.

(** The check of [tmr_logstats], line 363. *)
Definition counts_add_up (s : registry) : Prop :=
  alloc_count s = active_count s + free_count s.

(** ** Notions used in the statements *)

(** [moves d m]: running [m] changes [alloc_count - active_count - free_count]
    by exactly [d]. *)
Definition slack (s : registry) : Z := alloc_count s - active_count s - free_count s.

Definition moves {A} (d : Z) (m : M A) : Prop :=
  forall s a s', m s = Some (a, s') -> slack s' = slack s + d.

(** [readonly m]: a run of [m] that returns leaves the registry as it was. *)
Definition readonly {A} (m : M A) : Prop :=
  forall s a s', m s = Some (a, s') -> s' = s.

(** ** The lists behind the pointers *)

(** The records met by following [next] from [p]; [None] if the walk meets a
    dangling pointer or does not end within [fuel] steps. *)
Fixpoint chain (fuel : nat) (hp : gmap nat timer) (p : option nat) : option (list nat) :=
  match p with
  | None => Some []
  | Some q =>
      match fuel with
      | O => None
      | S fuel' =>
          match hp !! q with
          | Some r => cons q <$> chain fuel' hp (t_next r)
          | None => None
          end
      end
  end.

(** The active timers of bucket [h], in list order. *)
Definition bucket_list (s : registry) (h : nat) : option (list nat) :=
  match timers s !! h with
  | Some hd => chain (size (heap s)) (heap s) hd
  | None => None
  end.

(** The records on the free list, in list order. *)
Definition free_list (s : registry) : option (list nat) :=
  chain (size (heap s)) (heap s) (free_timers s).

(** [t->time] for the record at [p]. *)
Definition time_at (hp : gmap nat timer) (p : nat) : timeval :=
  from_option t_time (Timeval 0 0) (hp !! p).

(** The fields of a record other than its two links. *)
Definition data (r : timer) : callback * arg_t * Z * Z * timeval * nat :=
  (t_cb r, t_arg r, t_msecs r, t_periodic r, t_time r, t_hash r).

(** [dseg hp pv hd l nx]: in the store [hp], following [next] from [hd]
    visits exactly the records [l] and then reaches [nx], and every record
    on the way points back to its predecessor, the first one to [pv]. *)
Fixpoint dseg (hp : gmap nat timer) (pv hd : option nat) (l : list nat)
    (nx : option nat) : Prop :=
  match l with
  | [] => hd = nx
  | p :: l' =>
      hd = Some p /\
      exists r, hp !! p = Some r /\ t_prev r = pv /\ dseg hp (Some p) (t_next r) l' nx
  end.

(** [sll hp hd l]: following [next] from [hd] visits exactly [l] and ends. *)
Fixpoint sll (hp : gmap nat timer) (hd : option nat) (l : list nat) : Prop :=
  match l with
  | [] => hd = None
  | p :: l' => hd = Some p /\ exists r, hp !! p = Some r /\ sll hp (t_next r) l'
  end.

(** Ascending order of the trigger times [tm] along [l], with respect to the
    comparison the code makes. *)
Fixpoint sorted (tm : nat -> timeval) (l : list nat) : Prop :=
  match l with
  | [] => True
  | x :: l' => Forall (fun y => goes_before (tm x) (tm y) = true) l' /\ sorted tm l'
  end.

(** Where [l_add] puts [t]: in front of the first entry it [goes_before]. *)
Fixpoint ins (tm : nat -> timeval) (t : nat) (l : list nat) : list nat :=
  match l with
  | [] => [t]
  | q :: l' => if goes_before (tm t) (tm q) then t :: q :: l' else q :: ins tm t l'
  end.

(** [shape s bs fl]: bucket [h] is the doubly linked list [bs h], the free
    list is [fl], no record is on two lists or twice on one, and every active
    record caches the index of its bucket. *)
Record shape (s : registry) (bs : nat -> list nat) (fl : list nat) : Prop := {
  shape_len : length (timers s) = HASH_SIZE;
  shape_bucket : forall h, (h < HASH_SIZE)%nat ->
    exists hd, timers s !! h = Some hd /\ dseg (heap s) None hd (bs h) None;
  shape_nodup : forall h, (h < HASH_SIZE)%nat -> NoDup (bs h);
  shape_hash : forall h p, (h < HASH_SIZE)%nat -> p ∈ bs h ->
    exists r, heap s !! p = Some r /\ t_hash r = h;
  shape_free : sll (heap s) (free_timers s) fl;
  shape_free_nodup : NoDup fl;
  shape_sep : forall h p, (h < HASH_SIZE)%nat -> p ∈ bs h -> p ∉ fl
}.

(** [good s bs fl]: the shape above, every bucket sorted by trigger time, and
    [free_count] counting the free list. *)
Record good (s : registry) (bs : nat -> list nat) (fl : list nat) : Prop := {
  good_shape : shape s bs fl;
  good_sorted : forall h, (h < HASH_SIZE)%nat -> sorted (time_at (heap s)) (bs h);
  good_free_count : free_count s = Z.of_nat (length fl)
}.

(** [relinked X hp hp']: the store [hp'] differs from [hp] at most in the
    links of the records [X]. *)
Definition relinked (X : list nat) (hp hp' : gmap nat timer) : Prop :=
  forall p, (p ∉ X -> hp' !! p = hp !! p) /\ data <$> hp' !! p = data <$> hp !! p.

(** The record before, and the link after, a piece of a list. *)
Definition last_or (pv : option nat) (l : list nat) : option nat :=
  match last l with Some x => Some x | None => pv end.

Definition head_or (l : list nat) (nx : option nat) : option nat :=
  match l with x :: _ => Some x | [] => nx end.


(** [same_statics s s']: the free-list head, the counters and the callback
    log of [s'] are those of [s]. *)
Definition same_statics (s s' : registry) : Prop :=
  free_timers s' = free_timers s /\ alloc_count s' = alloc_count s /\
  active_count s' = active_count s /\ free_count s' = free_count s /\
  calls s' = calls s.

(** [listed bs fl x]: the record [x] is on the free list or on a bucket list. *)
Definition listed (bs : nat -> list nat) (fl : list nat) (x : nat) : Prop :=
  x ∈ fl \/ exists h, (h < HASH_SIZE)%nat /\ x ∈ bs h.

(** ** Proper use of the interface *)

(** [active_in s p]: the record [p] is on some bucket list of [s]. *)
Definition active_in (s : registry) (p : nat) : Prop :=
  exists h l, bucket_list s h = Some l /\ p ∈ l.

(** A call is [legal] when the handle passed to [tmr_cancel] or [tmr_reset]
    is null or an active timer, and when [malloc] hands out only addresses
    that are not in use. *)
Definition legal (s : registry) (o : op) : Prop :=
  match o with
  | Create malloc _ _ _ _ _ _ => forall p, malloc = Some p -> heap s !! p = None
  | Cancel t => forall p, t = Some p -> active_in s p
  | Reset _ t => forall p, t = Some p -> active_in s p
  | _ => True
  end.

(** The registries that arise from [tmr_init] by legal calls, with callbacks
    that do not touch the registry. *)
Inductive reachable : registry -> Prop :=
| reachable_init s0 s :
    tmr_init s0 = Some (tt, s) -> reachable s
| reachable_step s o s' :
    reachable s -> legal s o -> exec_op quiet o s = Some (tt, s') -> reachable s'.

(** ** Time arithmetic *)

(** A [timeval] in normal form has its microseconds in [0, 1000000). *)
Definition normal (tv : timeval) : Prop := 0 <= tv_usec tv < 1000000.

(** The instant a [timeval] denotes, in microseconds. *)
Definition usecs (tv : timeval) : Z := tv_sec tv * 1000000 + tv_usec tv.

(** ** What [tmr_mstimeout] is meant to compute *)

(** All active timers, bucket by bucket. *)
Definition active_ptrs (s : registry) : list nat :=
  flat_map (fun h => default [] (bucket_list s h)) (seq 0 HASH_SIZE).

(** The time left, in milliseconds, for the timer [p] and for each active
    timer. *)
Definition wait_at (now : timeval) (s : registry) (p : nat) : Z :=
  msecs_until now (time_at (heap s) p).

Definition waits (now : timeval) (s : registry) : list Z :=
  map (wait_at now s) (active_ptrs s).

(** The least of the waits [ws], raised to 500 when it is not positive; the
    sentinel [INFTIM] when there is no wait at all. *)
Definition timeout_spec (INFTIM : Z) (ws : list Z) : Z :=
  match ws with
  | [] => INFTIM
  | w :: ws' =>
      let lo := foldr Z.min w ws' in
      if lo <=? 0 then 500 else lo
  end.

(** [is_min m ws]: [m] is the least element of [ws]. *)
Definition is_min (m : Z) (ws : list Z) : Prop :=
  m ∈ ws /\ forall w, w ∈ ws -> m <= w.

(** Every active timer has its trigger time in normal form. *)
Definition all_normal (s : registry) : Prop :=
  Forall (fun p => normal (time_at (heap s) p)) (active_ptrs s).

(** What the pair [(gotone, msecs)] of [tmr_mstimeout] stands for once the
    waits [W] have been looked at. *)
Definition acc_ok (acc : bool * Z) (W : list Z) : Prop :=
  if fst acc then is_min (snd acc) W else W = [].

(** ** Concrete registries used as examples *)

(** The registry after [m], or [s] itself if [m] does not return. *)
Definition run_from {A} (s : registry) (m : M A) : registry :=
  match m s with
  | Some (_, s') => s'
  | None => s
  end.

(** One one-shot timer, created at time 0 with a delay of one second. *)
Definition demo_oneshot : registry :=
  run_from startup
    (tmr_create (Some 1%nat) (Timeval 0 0) (Some (Timeval 0 0)) 7%nat 42 1000 0).

(** One periodic timer, created at time 0 with a period of 100 ms. *)
Definition demo_periodic : registry :=
  run_from startup
    (tmr_create (Some 1%nat) (Timeval 0 0) (Some (Timeval 0 0)) 7%nat 42 100 1).

(** [demo_periodic] after a [tmr_run] at 250 ms. *)
Definition demo_periodic_late : registry :=
  run_from demo_periodic (tmr_run quiet 10 (Timeval 0 250000)).

(** [demo_oneshot] after its timer was cancelled: one record on the free list. *)
Definition demo_cancelled : registry :=
  run_from demo_oneshot (tmr_cancel (Some 1%nat)).

(** A short session: two timers, a run that fires both, a cancel, a reset of
    a null handle, a query, and the two ways of giving records back. *)
Definition demo_ops : list op :=
  [ Create (Some 1%nat) (Timeval 0 0) (Some (Timeval 0 0)) 7%nat 42 1000 0;
    Create (Some 2%nat) (Timeval 0 0) (Some (Timeval 0 0)) 8%nat 43 100 1;
    Run 10 (Timeval 1 0);
    Cancel (Some 2%nat);
    Reset (Timeval 1 0) None;
    Mstimeout (-1) (Timeval 1 0);
    Create None (Timeval 0 0) (Some (Timeval 1 0)) 9%nat 44 10 0;
    Cleanup;
    Destroy 10 ].

(** ** A periodic timer run on schedule *)

(** How often the timer [t] has been fired according to the callback log. *)
Definition fired (t : nat) (log : list event) : nat :=
  length (filter (fun e => ev_timer e = t) log).

(** [schedule_ok fuel T p n tau s]: each of the [n] calls [tmr_run] at the
    times [tau], [tau + p], [tau + 2p], ... started from [s] returns, fires
    the timer [T] exactly once, and leaves the trigger of [T] at the time of
    the call plus [p]. *)
Fixpoint schedule_ok (fuel : nat) (T : nat) (p : Z) (n : nat) (tau : timeval)
    (s : registry) : Prop :=
  match n with
  | O => True
  | S n' =>
      exists s',
        tmr_run quiet fuel tau s = Some (tt, s') /\
        fired T (calls s') = S (fired T (calls s)) /\
        time_at (heap s') T = tv_add_msecs tau p /\
        schedule_ok fuel T p n' (tv_add_msecs tau p) s'
  end.

(** Every active timer has a trigger in normal form, and a positive period
    if it is periodic. *)
Definition sane_timer (r : timer) : Prop :=
  normal (t_time r) /\ (t_periodic r <> 0 -> 0 < t_msecs r).

Definition sane (s : registry) : Prop :=
  Forall (fun x => forall r, heap s !! x = Some r -> sane_timer r) (active_ptrs s).

(** An upper bound on how often [tmr_run] at [now] fires a timer with the
    record [r]: not at all if it is not ready, once if it is a one-shot, and
    once per period that has elapsed otherwise. *)
Definition due_count (now : timeval) (r : timer) : nat :=
  if not_ready (t_time r) now then 0%nat
  else if t_periodic r =? 0 then 1%nat
  else Z.to_nat ((usecs now - usecs (t_time r)) / (1000 * t_msecs r) + 1).

Definition firings (now : timeval) (hp : gmap nat timer) (x : nat) : nat :=
  from_option (due_count now) 0%nat (hp !! x).

Fixpoint total (f : nat -> nat) (A : list nat) : nat :=
  match A with
  | [] => 0%nat
  | x :: A' => (f x + total f A')%nat
  end.

(** [from_on l c T]: in the list [l], the entry [T] is [c] or behind [c]. *)
Definition from_on (l : list nat) (c T : nat) : Prop :=
  exists la lb, l = la ++ c :: lb /\ T ∈ c :: lb.

(** [fit now s bs fl A n]: a well-formed registry with sane timers, all of
    them among [A], that [tmr_run] at [now] fires at most [n] times. *)
Record fit (now : timeval) (s : registry) (bs : nat -> list nat) (fl : list nat)
    (A : list nat) (n : nat) : Prop := {
  fit_good : good s bs fl;
  fit_sane : forall h x r, (h < HASH_SIZE)%nat -> x ∈ bs h ->
    heap s !! x = Some r -> sane_timer r;
  fit_cover : forall h x, (h < HASH_SIZE)%nat -> x ∈ bs h -> x ∈ A;
  fit_total : (total (firings now (heap s)) A <= n)%nat
}.

(** The record of the timer of [demo_periodic]. *)
Definition demo_periodic_timer : timer :=
  Timer 7%nat 42 100 1 (Timeval 0 100000) 36%nat None None.

(** Two one-shot timers with the same trigger, and a callback (the one of
    the second timer) that cancels the first timer. *)
Definition demo_two : registry :=
  run_from demo_oneshot
    (tmr_create (Some 2%nat) (Timeval 0 0) (Some (Timeval 0 0)) 8%nat 43 1000 0).

Definition meddler : callback -> arg_t -> timeval -> M unit :=
  fun cb _ _ => if Nat.eqb cb 8 then tmr_cancel (Some 1%nat) else ret tt.

(** ** The remaining entry points *)

(** [tmr_timeout], lines 211-224.  The result is a null pointer or the
    address of the function's static [timeout].  The model threads the
    content [buf] of that static through the call and returns, with the new
    content, whether the result is a non-null pointer. *)
Definition tmr_timeout (INFTIM : Z) (now : timeval) (buf : timeval)
    : M (bool * timeval) :=
  msecs <- tmr_mstimeout INFTIM now ;;
  if msecs =? INFTIM then ret (false, buf)
  else ret (true, Timeval (Z.quot msecs 1000) (Z.rem msecs 1000 * 1000)).

(** The two messages [tmr_logstats] can hand to [syslog]: the statistics
    line, at priority LOG_INFO, with its three [%d] arguments, and the
    complaint at priority LOG_ERR. *)
Inductive syslog_msg :=
| stats_line (allocated active free : Z)
| counts_dont_add_up.

(** [tmr_logstats], lines 360-365; the argument [secs] is not used.  The
    result is the list of messages written, in order. *)
Definition tmr_logstats (secs : Z) : M (list syslog_msg) :=
  fun s =>
    Some (stats_line (alloc_count s) (active_count s) (free_count s) ::
          (if active_count s + free_count s =? alloc_count s then []
           else [counts_dont_add_up]), s).

(** ** Notions used in the further statements *)

(** [shifts da dc df m]: a run of [m] that returns has added [da], [dc] and
    [df] to [alloc_count], [active_count] and [free_count]. *)
Definition shifts {A} (da dc df : Z) (m : M A) : Prop :=
  forall s a s', m s = Some (a, s') ->
    alloc_count s' = alloc_count s + da /\
    active_count s' = active_count s + dc /\
    free_count s' = free_count s + df.

(** The number of timers on the bucket lists [bs]. *)
Definition count (bs : nat -> list nat) : nat :=
  length (flat_map bs (seq 0 HASH_SIZE)).

(** [tidy Q s bs fl]: a well-formed registry whose active timers all have
    the property [Q], whose [active_count] is the number of timers on the
    bucket lists, and whose counters add up. *)
Record tidy (Q : timer -> Prop) (s : registry) (bs : nat -> list nat)
    (fl : list nat) : Prop := {
  tidy_good : good s bs fl;
  tidy_every : forall h x r, (h < HASH_SIZE)%nat -> x ∈ bs h ->
    heap s !! x = Some r -> Q r;
  tidy_active : active_count s = Z.of_nat (count bs);
  tidy_alloc : counts_add_up s
}.

(** A timer is [filed] when the bucket index it caches is the hash of its
    trigger time. *)
Definition filed (r : timer) : Prop := t_hash r = hash (t_time r).

(** A timer is [steady] when its trigger is in normal form and its delay is
    not negative, and positive if the timer is periodic. *)
Definition steady (r : timer) : Prop :=
  normal (t_time r) /\ 0 <= t_msecs r /\ (t_periodic r <> 0 -> 0 < t_msecs r).

(** The record [tmr_run] leaves behind when it reschedules a periodic timer
    whose record was [r]. *)
Definition rescheduled (r : timer) (tv : timeval) : callback * arg_t * Z * Z * timeval * nat :=
  (t_cb r, t_arg r, t_msecs r, t_periodic r, tv, hash tv).

(** A call is [timely] when the times it passes in are in normal form and
    the delay of a new timer is not negative, and positive if the timer is
    periodic. *)
Definition timely (o : op) : Prop :=
  match o with
  | Create _ clock now _ _ msecs periodic =>
      normal (default clock now) /\ 0 <= msecs /\ (periodic <> 0 -> 0 < msecs)
  | Reset now _ => normal now
  | _ => True
  end.

(** The registries that arise from [tmr_init] by legal and timely calls,
    with callbacks that do not touch the registry. *)
Inductive kept : registry -> Prop :=
| kept_init s0 s :
    tmr_init s0 = Some (tt, s) -> kept s
| kept_step s o s' :
    kept s -> legal s o -> timely o -> exec_op quiet o s = Some (tt, s') -> kept s'.

(** [midrun Q now s0 s bs fl evs]: the registry [s] in the course of a
    [tmr_run] at [now] that started in [s0] and has made the calls [evs] so
    far.  Every active timer was active at the start and has the callback,
    argument, delay and kind it had then, and the trigger it had then as
    long as it has not been called; every call was for a timer that was
    active and due at the start; every call of a timer has moved its
    trigger by the timer's delay; a one-shot timer has been called at most
    once, and not at all while it is still active; and a timer that was
    active at the start is still active, or is a one-shot timer that has
    been called and is on the free list. *)
Record midrun (Q : timer -> Prop) (now : timeval) (s0 s : registry)
    (bs : nat -> list nat) (fl : list nat) (evs : list event) : Prop := {
  mid_tidy : tidy Q s bs fl;
  mid_calls : calls s = calls s0 ++ evs;
  mid_alloc : alloc_count s = alloc_count s0;
  mid_active : forall h x r, (h < HASH_SIZE)%nat -> x ∈ bs h -> heap s !! x = Some r ->
    x ∈ active_ptrs s0 /\
    exists r0, heap s0 !! x = Some r0 /\
      t_cb r = t_cb r0 /\ t_arg r = t_arg r0 /\ t_msecs r = t_msecs r0 /\
      t_periodic r = t_periodic r0 /\
      (fired x evs = 0%nat -> t_time r = t_time r0) /\
      usecs (t_time r)
        = usecs (t_time r0) + Z.of_nat (fired x evs) * (1000 * t_msecs r0) /\
      (t_periodic r0 = 0 -> fired x evs = 0%nat);
  mid_events : Forall (fun e =>
      ev_now e = now /\ ev_timer e ∈ active_ptrs s0 /\
      exists r0, heap s0 !! ev_timer e = Some r0 /\
        ev_cb e = t_cb r0 /\ ev_arg e = t_arg r0 /\
        not_ready (t_time r0) now = false) evs;
  mid_once : forall x r0, heap s0 !! x = Some r0 -> t_periodic r0 = 0 ->
    (fired x evs <= 1)%nat;
  mid_where : forall x, x ∈ active_ptrs s0 ->
    (exists h, (h < HASH_SIZE)%nat /\ x ∈ bs h) \/
    (x ∈ fl /\ fired x evs = 1%nat /\
     exists r0, heap s0 !! x = Some r0 /\ t_periodic r0 = 0)
}.

(** The record of the timer of [demo_oneshot], and [demo_oneshot] after a
    [tmr_run] at the trigger of that timer. *)
Definition demo_oneshot_timer : timer :=
  Timer 7%nat 42 1000 0 (Timeval 1 0) 1%nat None None.

Definition demo_oneshot_run : registry :=
  run_from demo_oneshot (tmr_run quiet 10 (Timeval 1 0)).

(** ** Callbacks that call back into the registry *)

(** [polite invoke now]: called for an active timer [p] of a well-formed
    registry, the callback of [p] returns a well-formed registry in which
    [p] and the timer that followed [p] on its list are still active.  The
    callback may create timers and cancel or reset other timers. *)
Definition polite (invoke : callback -> arg_t -> timeval -> M unit) (now : timeval)
    : Prop :=
  forall s p r s1,
    (exists bs fl, good s bs fl) -> p ∈ active_ptrs s -> heap s !! p = Some r ->
    invoke (t_cb r) (t_arg r) now s = Some (tt, s1) ->
    (exists bs1 fl1, good s1 bs1 fl1) /\ p ∈ active_ptrs s1 /\
    (forall n, t_next r = Some n -> n ∈ active_ptrs s1).

(** A callback that creates a one-shot timer with a delay of one second, if
    the free list has a record for it. *)
Definition spawner : callback -> arg_t -> timeval -> M unit :=
  fun _ _ now => tmr_create None now (Some now) 9%nat 44 1000 0 ;; ret tt.

(** The callback [cbA] cancels the timer [B]; every other callback leaves
    the registry alone. *)
Definition canceller (cbA : callback) (B : nat) : callback -> arg_t -> timeval -> M unit :=
  fun cb _ _ => if Nat.eqb cb cbA then tmr_cancel (Some B) else ret tt.

(** [demo_two] after its second timer was cancelled: one active timer and
    one record on the free list. *)
Definition demo_spare : registry :=
  run_from demo_two (tmr_cancel (Some 2%nat)).

(** [demo_spare] after a [tmr_run] at one second whose callbacks are
    [spawner]. *)
Definition demo_spawned : registry :=
  run_from demo_spare (tmr_run spawner 10 (Timeval 1 0)).

(** The records of the two timers of [demo_two], in the order of their
    bucket list. *)
Definition demo_two_first : timer :=
  Timer 8%nat 43 1000 0 (Timeval 1 0) 1%nat None (Some 1%nat).
Definition demo_two_second : timer :=
  Timer 7%nat 42 1000 0 (Timeval 1 0) 1%nat (Some 2%nat) None.

(** Two one-shot timers with different triggers: the one of [demo_oneshot]
    at one second, and one created at time 0 with a delay of 250 ms. *)
Definition demo_pair : registry :=
  run_from demo_oneshot
    (tmr_create (Some 2%nat) (Timeval 0 0) (Some (Timeval 0 0)) 8%nat 43 250 0).

(** Two timers, the second one created with a negative delay: one at
    (3 s, 600040 us) with no delay, and one at (5 s, 0 us) with a delay of
    -1500 ms, whose trigger lines 194-199 leave at (4 s, -500000 us). *)
Definition demo_negative : registry :=
  run_from
    (run_from startup
       (tmr_create (Some 1%nat) (Timeval 0 0) (Some (Timeval 3 600040)) 7%nat 42 0 0))
    (tmr_create (Some 2%nat) (Timeval 0 0) (Some (Timeval 5 0)) 8%nat 43 (-1500) 0).

(** ** The rescheduling arithmetic in [long]

    [tv_sec], [tv_usec] and [msecs] are taken to be of type [long], with
    the largest value [LONG_MAX] (a parameter: it is the platform's).  A
    sum or product that leaves the range of [long] is a signed overflow,
    which is undefined in C: [None]. *)
Definition fits_long (LONG_MAX z : Z) : bool :=
  (- LONG_MAX - 1 <=? z) && (z <=? LONG_MAX).

Definition long_of (LONG_MAX z : Z) : option Z :=
  if fits_long LONG_MAX z then Some z else None.

(** Lines 194-199 (284-289, 303-308) with every addition and the
    multiplication checked. *)
Definition tv_add_msecs_long (LONG_MAX : Z) (tv : timeval) (msecs : Z) : option timeval :=
  match long_of LONG_MAX (tv_sec tv + Z.quot msecs 1000) with
  | None => None
  | Some sec =>
      match long_of LONG_MAX (Z.rem msecs 1000 * 1000) with
      | None => None
      | Some m =>
          match long_of LONG_MAX (tv_usec tv + m) with
          | None => None
          | Some usec =>
              if 1000000 <=? usec
              then match long_of LONG_MAX (sec + Z.quot usec 1000000) with
                   | None => None
                   | Some sec' => Some (Timeval sec' (Z.rem usec 1000000))
                   end
              else Some (Timeval sec usec)
          end
      end
  end.
(** * Proofs *)

(** ** Reasoning in the monad *)

Lemma bind_Some {A B} (m : M A) (k : A -> M B) s b s' :
  bind m k s = Some (b, s') <->
  exists a s1, m s = Some (a, s1) /\ k a s1 = Some (b, s').
Proof.
  unfold bind. split.
  - destruct (m s) as [[a s1]|]; [|discriminate]. intros H. by exists a, s1.
  - intros (a & s1 & -> & H). exact H.
Qed.

Lemma bind_eq {A B} (m : M A) (k : A -> M B) s a s1 :
  m s = Some (a, s1) -> bind m k s = k a s1.
Proof. unfold bind. by intros ->. Qed.

(** ** The counters *)


Lemma moves_ret {A} (a : A) : moves 0 (ret a).
Proof. intros s a' s' [= _ <-]. lia. Qed.

Lemma moves_fault {A} d : moves d (@fault A).
Proof. intros s a s' [=]. Qed.

Lemma moves_bind {A B} d1 d2 d (m : M A) (k : A -> M B) :
  moves d1 m -> (forall a, moves d2 (k a)) -> d = d1 + d2 -> moves d (bind m k).
Proof.
  intros Hm Hk -> s b s' (a & s1 & H1 & H2)%bind_Some.
  apply Hm in H1. apply Hk in H2. lia.
Qed.

Lemma moves_load p : moves 0 (load p).
Proof. intros s a s'. unfold load. destruct (heap s !! p); intros [= _ <-]. lia. Qed.

Lemma moves_store p f : moves 0 (store p f).
Proof.
  intros s a s'. unfold store. destruct (heap s !! p); intros [= _ <-].
  unfold slack; simpl. lia.
Qed.

Lemma moves_bucket h : moves 0 (bucket h).
Proof. intros s a s'. unfold bucket. destruct (timers s !! h); intros [= _ <-]. lia. Qed.

Lemma moves_set_bucket h v : moves 0 (set_bucket h v).
Proof.
  intros s a s'. unfold set_bucket. destruct (timers s !! h); intros [= _ <-].
  unfold slack; simpl. lia.
Qed.

Lemma moves_get_free : moves 0 get_free.
Proof. intros s a s' [= _ <-]. lia. Qed.

Lemma moves_set_free v : moves 0 (set_free v).
Proof. intros s a s' [= _ <-]. unfold slack; simpl. lia. Qed.

Lemma moves_add_alloc d : moves d (add_alloc d).
Proof. intros s a s' [= _ <-]. unfold slack; simpl. lia. Qed.

Lemma moves_add_active d : moves (- d) (add_active d).
Proof. intros s a s' [= _ <-]. unfold slack; simpl. lia. Qed.

Lemma moves_add_free d : moves (- d) (add_free d).
Proof. intros s a s' [= _ <-]. unfold slack; simpl. lia. Qed.

Lemma moves_alloc_at p : moves 0 (alloc_at p).
Proof. intros s a s' [= _ <-]. unfold slack; simpl. lia. Qed.

Lemma moves_release p : moves 0 (release p).
Proof.
  intros s a s'. unfold release. destruct (heap s !! p); intros [= _ <-].
  unfold slack; simpl. lia.
Qed.

Lemma moves_log_call e : moves 0 (log_call e).
Proof. intros s a s' [= _ <-]. unfold slack; simpl. lia. Qed.

Lemma moves_heap_size : moves 0 heap_size.
Proof. intros s a s' [= _ <-]. lia. Qed.

Create HintDb moves.
#[local] Hint Resolve moves_ret moves_fault moves_load moves_store moves_bucket
  moves_set_bucket moves_get_free moves_set_free moves_add_alloc moves_add_active
  moves_add_free moves_alloc_at moves_release moves_log_call moves_heap_size : moves.

(** Split a sequence into its statements and account for each one. *)
Ltac moves_step :=
  lazymatch goal with
  | |- moves _ (bind _ _) => eapply moves_bind; [ | intros ? | ]
  | |- moves _ (if ?b then _ else _) => destruct b
  | |- moves _ (match ?x with Some _ => _ | None => _ end) => destruct x
  | |- moves _ _ => solve [eauto with moves]
  | |- _ = _ => try reflexivity; lia
  end.

Lemma moves_l_add_walk fuel t t2prev t2 : moves 0 (l_add_walk fuel t t2prev t2).
Proof.
  revert t2prev t2. induction fuel as [|fuel IH]; intros t2prev [q|]; simpl;
    repeat moves_step.
Qed.

Lemma moves_l_add t : moves 0 (l_add t).
Proof.
  pose proof moves_l_add_walk.
  unfold l_add. repeat moves_step.
Qed.

Lemma moves_l_remove t : moves 0 (l_remove t).
Proof. destruct t as [p|]; simpl; repeat moves_step. Qed.

Lemma moves_l_resort t : moves 0 (l_resort t).
Proof.
  pose proof moves_l_add. pose proof moves_l_remove.
  unfold l_resort. repeat moves_step.
Qed.

(** [tmr_create] either takes a record from the free list ([--free_count]) or
    allocates one ([++alloc_count]); both are paid for by [++active_count]. *)
Lemma moves_tmr_create malloc clock now cb arg msecs periodic :
  moves 0 (tmr_create malloc clock now cb arg msecs periodic).
Proof.
  intros s a s' H. unfold tmr_create in H.
  apply bind_Some in H as (f & s1 & [= <- <-] & H).
  apply bind_Some in H as (r & s2 & Hpick & H).
  assert (slack s2 = slack s + match r with Some _ => 1 | None => 0 end) as Hs2.
  { destruct (free_timers s) as [t|].
    - assert (moves 1 (tr <- load t ;; set_free (t_next tr) ;; add_free (-1) ;;
                       ret (Some t))) as Hm by repeat moves_step.
      pose proof (Hm _ _ _ Hpick) as E.
      apply bind_Some in Hpick as (? & ? & _ & Hpick).
      apply bind_Some in Hpick as (? & ? & _ & Hpick).
      apply bind_Some in Hpick as (? & ? & _ & [= <- _]). exact E.
    - destruct malloc as [t|].
      + assert (moves 1 (alloc_at t ;; add_alloc 1 ;; ret (Some t))) as Hm
          by repeat moves_step.
        pose proof (Hm _ _ _ Hpick) as E.
        apply bind_Some in Hpick as (? & ? & _ & Hpick).
        apply bind_Some in Hpick as (? & ? & _ & [= <- _]). exact E.
      + injection Hpick as <- <-. lia. }
  destruct r as [t|].
  - assert (moves (-1)
      (store t (fun r => Timer cb arg msecs periodic
                              (tv_add_msecs (default clock now) msecs)
                              (t_hash r) (t_prev r) (t_next r)) ;;
       store t (fun r => set_hash (hash (t_time r)) r) ;;
       l_add t ;; add_active 1 ;; ret (Some t))) as Hm.
    { pose proof moves_l_add. repeat moves_step. }
    apply Hm in H. lia.
  - injection H as _ <-. lia.
Qed.

Lemma moves_mstimeout_loop hs now acc : moves 0 (mstimeout_loop hs now acc).
Proof.
  revert acc. induction hs as [|h hs IH]; intros acc; simpl; repeat moves_step.
Qed.

Lemma moves_tmr_mstimeout INFTIM now : moves 0 (tmr_mstimeout INFTIM now).
Proof.
  pose proof moves_mstimeout_loop.
  unfold tmr_mstimeout. repeat moves_step.
Qed.

(** [tmr_cancel]: [--active_count] and [++free_count]. *)
Lemma moves_tmr_cancel t : moves 0 (tmr_cancel t).
Proof.
  pose proof moves_l_remove.
  destruct t as [p|]; simpl; repeat moves_step.
Qed.

Lemma moves_tmr_reset now t : moves 0 (tmr_reset now t).
Proof.
  pose proof moves_l_resort.
  destruct t as [p|]; simpl; repeat moves_step.
Qed.

(** [tmr_cleanup]: [--free_count] and [--alloc_count] on every turn. *)
Lemma moves_cleanup_loop fuel : moves 0 (cleanup_loop fuel).
Proof. induction fuel as [|fuel IH]; simpl; repeat moves_step. Qed.

Lemma moves_tmr_cleanup : moves 0 tmr_cleanup.
Proof.
  pose proof moves_cleanup_loop.
  unfold tmr_cleanup. repeat moves_step.
Qed.

Lemma moves_destroy_bucket fuel h : moves 0 (destroy_bucket fuel h).
Proof.
  pose proof moves_tmr_cancel.
  induction fuel as [|fuel IH]; simpl; repeat moves_step.
Qed.

Lemma moves_tmr_destroy fuel : moves 0 (tmr_destroy fuel).
Proof.
  pose proof moves_tmr_cleanup.
  unfold tmr_destroy.
  eapply (moves_bind 0 0); [ | intros _; eauto | reflexivity].
  pose proof moves_destroy_bucket.
  induction (seq 0 HASH_SIZE) as [|h hs IH]; simpl; repeat moves_step.
Qed.

Section RunCounters.

Variable invoke : callback -> arg_t -> timeval -> M unit.

(** The counters are private to timers.c: a callback reaches them through the
    public operations only, each of which keeps the balance. *)
Hypothesis invoke_moves : forall cb arg now, moves 0 (invoke cb arg now).

Lemma moves_fire now p tr : moves 0 (fire invoke now p tr).
Proof.
  pose proof moves_tmr_cancel. pose proof moves_l_resort.
  unfold fire. repeat moves_step.
Qed.

Lemma moves_run_bucket fuel now t : moves 0 (run_bucket invoke fuel now t).
Proof.
  pose proof moves_fire.
  revert t. induction fuel as [|fuel IH]; intros [p|]; simpl; repeat moves_step.
Qed.

Lemma moves_tmr_run fuel now : moves 0 (tmr_run invoke fuel now).
Proof.
  pose proof moves_run_bucket.
  unfold tmr_run.
  induction (seq 0 HASH_SIZE) as [|h hs IH]; simpl; repeat moves_step.
Qed.

Lemma moves_exec_op o : moves 0 (exec_op invoke o).
Proof.
  pose proof moves_tmr_create. pose proof moves_tmr_cancel.
  pose proof moves_tmr_reset. pose proof moves_tmr_run.
  pose proof moves_tmr_mstimeout. pose proof moves_tmr_cleanup.
  pose proof moves_tmr_destroy.
  destruct o; simpl; repeat moves_step.
Qed.

Lemma observe_counts ops : forall s ss,
  counts_add_up s -> observe invoke ops s = Some ss -> Forall counts_add_up ss.
Proof.
  induction ops as [|o ops IH]; intros s ss Hs H; simpl in H.
  - injection H as <-. constructor.
  - destruct (exec_op invoke o s) as [[u s1]|] eqn:E; [|discriminate].
    destruct (observe invoke ops s1) as [ss1|] eqn:E1; [|discriminate].
    injection H as <-.
    assert (counts_add_up s1) as Hs1.
    { apply moves_exec_op in E. unfold counts_add_up, slack in *. lia. }
    constructor; [exact Hs1 | eauto].
Qed.

End RunCounters.

(** C1.  Start from any registry, call [tmr_init], then run any sequence of
    create, cancel, reset, run, mstimeout, cleanup and destroy calls: at the
    start and after each call that returns, the counters satisfy
    [alloc_count = active_count + free_count].  The callbacks fired by
    [tmr_run] may do anything that keeps this balance, in particular call
    the public operations themselves. *)
Theorem counters_add_up_always
    (invoke : callback -> arg_t -> timeval -> M unit)
    (Hcb : forall cb arg now, moves 0 (invoke cb arg now))
    (s0 s : registry) (ops : list op) (ss : list registry) :
  tmr_init s0 = Some (tt, s) ->
  observe invoke ops s = Some ss ->
  Forall counts_add_up (s :: ss).
Proof.
  intros [= <-] Hobs.
  assert (counts_add_up
            (Registry (heap s0) (replicate HASH_SIZE None) None 0 0 0 (calls s0)))
    as H0 by reflexivity.
  constructor; [exact H0|].
  eapply observe_counts; eauto.
Qed.

(** ** Allocation failure in [tmr_create] *)

(** Take a successful sequence apart into its statements. *)
Ltac binds H :=
  repeat lazymatch type of H with
    | bind _ _ _ = Some _ =>
        let a := fresh "a" in
        let s := fresh "s" in
        let H1 := fresh "H" in
        apply bind_Some in H as (a & s & H1 & H)
    end.

Lemma tmr_create_null_inv malloc clock now cb arg msecs periodic s s' :
  tmr_create malloc clock now cb arg msecs periodic s = Some (None, s') <->
  free_timers s = None /\ malloc = None /\ s' = s.
Proof.
  unfold tmr_create. split.
  - intros H. apply bind_Some in H as (f & s1 & [= <- <-] & H).
    apply bind_Some in H as (r & s2 & Hpick & H).
    destruct (free_timers s) as [t|].
    + binds Hpick. injection Hpick as <- <-. binds H. discriminate H.
    + destruct malloc as [t|].
      * binds Hpick. injection Hpick as <- <-. binds H. discriminate H.
      * injection Hpick as <- <-. injection H as <-. auto.
  - intros (Hf & -> & ->). unfold bind, get_free. rewrite Hf. reflexivity.
Qed.

(** C7.  [tmr_create] returns a null handle exactly when the free list is
    empty and [malloc] fails, and then the registry (bucket lists, free list,
    store and the three counters) is left as it was. *)
Theorem tmr_create_null_iff_malloc_fails
    (malloc : option nat) (clock : timeval) (now : option timeval)
    (cb : callback) (arg : arg_t) (msecs periodic : Z) (s s' : registry) :
  tmr_create malloc clock now cb arg msecs periodic s = Some (None, s') <->
  free_timers s = None /\ malloc = None /\ s' = s.
Proof. apply tmr_create_null_inv. Qed.

(** ** [tmr_mstimeout] only reads *)


Lemma readonly_ret {A} (a : A) : readonly (ret a).
Proof. by intros s a' s' [= _ <-]. Qed.

Lemma readonly_bind {A B} (m : M A) (k : A -> M B) :
  readonly m -> (forall a, readonly (k a)) -> readonly (bind m k).
Proof.
  intros Hm Hk s b s' (a & s1 & H1 & H2)%bind_Some.
  apply Hm in H1 as ->. by apply Hk in H2.
Qed.

Lemma readonly_load p : readonly (load p).
Proof. intros s a s'. unfold load. by destruct (heap s !! p); intros [= _ <-]. Qed.

Lemma readonly_bucket h : readonly (bucket h).
Proof. intros s a s'. unfold bucket. by destruct (timers s !! h); intros [= _ <-]. Qed.

Lemma readonly_mstimeout_loop hs now acc : readonly (mstimeout_loop hs now acc).
Proof.
  revert acc. induction hs as [|h hs IH]; intros acc; simpl.
  - apply readonly_ret.
  - apply readonly_bind; [apply readonly_bucket|]. intros t.
    apply readonly_bind; [|intros acc'; apply IH].
    destruct t as [p|]; [|apply readonly_ret].
    apply readonly_bind; [apply readonly_load|]. intros tr. apply readonly_ret.
Qed.

Lemma readonly_tmr_mstimeout INFTIM now : readonly (tmr_mstimeout INFTIM now).
Proof.
  unfold tmr_mstimeout. apply readonly_bind; [apply readonly_mstimeout_loop|].
  intros [gotone msecs]; simpl.
  destruct (negb gotone); [apply readonly_ret|].
  destruct (msecs <=? 0); apply readonly_ret.
Qed.

(** C8.  A call of [tmr_mstimeout] that returns leaves the whole registry
    (store, bucket heads, free list, counters, callback log) as it found
    it, so a second call with the same [now] returns the same value. *)
Theorem tmr_mstimeout_reads_only (INFTIM : Z) (now : timeval) (s s' : registry) (v : Z) :
  tmr_mstimeout INFTIM now s = Some (v, s') ->
  s' = s /\ tmr_mstimeout INFTIM now s' = Some (v, s').
Proof.
  intros H. pose proof (readonly_tmr_mstimeout _ _ _ _ _ H) as ->. auto.
Qed.

(** ** Running a computation forwards *)

Lemma load_eq s p r : heap s !! p = Some r -> load p s = Some (r, s).
Proof. unfold load. by intros ->. Qed.

Lemma store_eq s p f r :
  heap s !! p = Some r ->
  store p f s = Some (tt, Registry (<[p := f r]> (heap s)) (timers s) (free_timers s)
                            (alloc_count s) (active_count s) (free_count s) (calls s)).
Proof. unfold store. by intros ->. Qed.

Lemma bucket_eq s h hd : timers s !! h = Some hd -> bucket h s = Some (hd, s).
Proof. unfold bucket. by intros ->. Qed.

Lemma set_bucket_eq s h hd v :
  timers s !! h = Some hd ->
  set_bucket h v s = Some (tt, Registry (heap s) (<[h := v]> (timers s)) (free_timers s)
                                 (alloc_count s) (active_count s) (free_count s) (calls s)).
Proof. unfold set_bucket. by intros ->. Qed.

(** ** Doubly linked segments *)

Lemma last_or_snoc pv l x : last_or pv (l ++ [x]) = Some x.
Proof. unfold last_or. by rewrite last_snoc. Qed.

Lemma last_or_cons pv x l : last_or pv (x :: l) = last_or (Some x) l.
Proof.
  unfold last_or. destruct l as [|y l]; [done|].
  change (last (x :: y :: l)) with (last (y :: l)).
  by destruct (last (y :: l)) eqn:E; [|by apply last_None in E].
Qed.

Lemma dseg_head hp pv hd l nx : dseg hp pv hd l nx -> hd = head_or l nx.
Proof. destruct l; simpl; [done|]. by intros [-> _]. Qed.

Lemma dseg_app hp pv hd l1 l2 nx :
  dseg hp pv hd (l1 ++ l2) nx <->
  exists mid, dseg hp pv hd l1 mid /\ dseg hp (last_or pv l1) mid l2 nx.
Proof.
  revert pv hd. induction l1 as [|x l1 IH]; intros pv hd; simpl.
  - split; [intros H; by exists hd | by intros (mid & -> & H)].
  - split.
    + intros (-> & r & Hr & Hpv & H). apply IH in H as (mid & H1 & H2).
      exists mid. rewrite last_or_cons. eauto 10.
    + intros (mid & (-> & r & Hr & Hpv & H1) & H2). rewrite last_or_cons in H2.
      split; [done|]. exists r. repeat split; [done..|]. apply IH. eauto.
Qed.

Lemma dseg_agree hp hp' pv hd l nx :
  (forall p, p ∈ l -> hp' !! p = hp !! p) ->
  dseg hp pv hd l nx -> dseg hp' pv hd l nx.
Proof.
  revert pv hd. induction l as [|x l IH]; intros pv hd Hag; simpl; [done|].
  intros (-> & r & Hr & Hpv & H). split; [done|]. exists r.
  rewrite Hag by set_solver. repeat split; [done..|].
  apply IH; [|done]. intros p Hp. apply Hag. set_solver.
Qed.

Lemma dseg_lookup hp pv hd l nx p :
  dseg hp pv hd l nx -> p ∈ l -> is_Some (hp !! p).
Proof.
  revert pv hd. induction l as [|x l IH]; intros pv hd; simpl; [set_solver|].
  intros (-> & r & Hr & Hpv & H) [->|Hp]%elem_of_cons; [by eexists|].
  eapply IH; eauto.
Qed.

(** The record in the middle of a segment and its two links. *)
Lemma dseg_mid hp pv hd l1 p l2 nx :
  dseg hp pv hd (l1 ++ p :: l2) nx ->
  exists r, hp !! p = Some r /\ t_prev r = last_or pv l1 /\ t_next r = head_or l2 nx.
Proof.
  intros (mid & H1 & (-> & r & Hr & Hpv & H2))%dseg_app.
  exists r. repeat split; [done..|]. by apply dseg_head in H2.
Qed.

(** Redirecting the [next] link of the last record of a segment. *)
Lemma dseg_set_next hp pv hd l q r nx nx' :
  q ∉ l -> hp !! q = Some r ->
  dseg hp pv hd (l ++ [q]) nx ->
  dseg (<[q := set_next nx' r]> hp) pv hd (l ++ [q]) nx'.
Proof.
  intros Hq Hr (mid & H1 & (-> & r' & Hr' & Hpv & H2))%dseg_app.
  apply dseg_app. exists (Some q). split.
  - eapply dseg_agree; [|done]. intros p Hp. apply lookup_insert_ne. set_solver.
  - simpl. split; [done|]. exists (set_next nx' r).
    rewrite lookup_insert_eq. simplify_eq. done.
Qed.

(** Redirecting the [prev] link of the first record of a segment. *)
Lemma dseg_set_prev hp pv pv' n l r nx :
  n ∉ l -> hp !! n = Some r ->
  dseg hp pv (Some n) (n :: l) nx ->
  dseg (<[n := set_prev pv' r]> hp) pv' (Some n) (n :: l) nx.
Proof.
  intros Hn Hr (_ & r' & Hr' & Hpv & H). simplify_eq. simpl.
  split; [done|]. exists (set_prev pv' r). rewrite lookup_insert_eq.
  repeat split; [done..|]. simpl.
  eapply dseg_agree; [|done]. intros p Hp. apply lookup_insert_ne. set_solver.
Qed.

Lemma sll_agree hp hp' hd l :
  (forall p, p ∈ l -> hp' !! p = hp !! p) -> sll hp hd l -> sll hp' hd l.
Proof.
  revert hd. induction l as [|x l IH]; intros hd Hag; simpl; [done|].
  intros (-> & r & Hr & H). split; [done|]. exists r.
  rewrite Hag by set_solver. split; [done|].
  apply IH; [|done]. intros p Hp. apply Hag. set_solver.
Qed.

Lemma sll_lookup hp hd l p : sll hp hd l -> p ∈ l -> is_Some (hp !! p).
Proof.
  revert hd. induction l as [|x l IH]; intros hd; simpl; [set_solver|].
  intros (-> & r & Hr & H) [->|Hp]%elem_of_cons; [by eexists|].
  eapply IH; eauto.
Qed.

(** ** Stores that differ in links only *)

Lemma relinked_refl X hp : relinked X hp hp.
Proof. by intros p. Qed.

Lemma relinked_trans X hp1 hp2 hp3 :
  relinked X hp1 hp2 -> relinked X hp2 hp3 -> relinked X hp1 hp3.
Proof.
  intros H1 H2 p. destruct (H1 p) as [A1 B1], (H2 p) as [A2 B2]. split.
  - intros Hp. by rewrite A2, A1.
  - by rewrite B2, B1.
Qed.

Lemma relinked_weaken X Y hp hp' : X ⊆ Y -> relinked X hp hp' -> relinked Y hp hp'.
Proof. intros HXY H p. destruct (H p) as [A B]. split; [|done]. intros Hp. apply A. set_solver. Qed.

Lemma relinked_insert X hp p r r' :
  hp !! p = Some r -> p ∈ X -> data r' = data r -> relinked X hp (<[p := r']> hp).
Proof.
  intros Hr Hp Hd q. split.
  - intros Hq. apply lookup_insert_ne. set_solver.
  - destruct (decide (p = q)) as [<-|Hne].
    + rewrite lookup_insert_eq, Hr. simpl. by rewrite Hd.
    + by rewrite lookup_insert_ne.
Qed.

Lemma relinked_lookup X hp hp' p r :
  relinked X hp hp' -> hp !! p = Some r ->
  exists r', hp' !! p = Some r' /\ data r' = data r.
Proof.
  intros H Hr. destruct (H p) as [_ B]. rewrite Hr in B.
  destruct (hp' !! p) as [r'|]; simpl in B; [|done]. exists r'. split; [done|]. congruence.
Qed.

Lemma relinked_time X hp hp' p : relinked X hp hp' -> time_at hp' p = time_at hp p.
Proof.
  intros H. destruct (H p) as [_ B]. unfold time_at.
  destruct (hp' !! p) as [r'|], (hp !! p) as [r|]; simpl in *; try done.
  injection B. unfold data. congruence.
Qed.

Lemma data_set_next n r : data (set_next n r) = data r.
Proof. done. Qed.

Lemma data_set_prev p r : data (set_prev p r) = data r.
Proof. done. Qed.

(** ** Rebuilding the shape after one bucket changed *)

Lemma shape_other_bucket s bs fl h h' p :
  shape s bs fl -> (h < HASH_SIZE)%nat -> (h' < HASH_SIZE)%nat ->
  p ∈ bs h -> p ∈ bs h' -> h = h'.
Proof.
  intros Hs Hh Hh' Hp Hp'.
  destruct (shape_hash _ _ _ Hs h p Hh Hp) as (r & Hr & <-).
  destruct (shape_hash _ _ _ Hs h' p Hh' Hp') as (r' & Hr' & <-).
  congruence.
Qed.

Lemma shape_update s bs fl h l' X s' :
  shape s bs fl -> (h < HASH_SIZE)%nat ->
  relinked X (heap s) (heap s') ->
  (forall x h', x ∈ X -> (h' < HASH_SIZE)%nat -> h' ≠ h -> x ∉ bs h') ->
  (forall x, x ∈ X -> x ∉ fl) ->
  length (timers s') = HASH_SIZE ->
  (forall h', h' ≠ h -> timers s' !! h' = timers s !! h') ->
  free_timers s' = free_timers s ->
  (exists hd, timers s' !! h = Some hd /\ dseg (heap s') None hd l' None) ->
  NoDup l' ->
  (forall p, p ∈ l' -> exists r, heap s' !! p = Some r /\ t_hash r = h) ->
  (forall p, p ∈ l' -> p ∉ fl) ->
  (forall p h', p ∈ l' -> (h' < HASH_SIZE)%nat -> h' ≠ h -> p ∉ bs h') ->
  shape s' (<[h := l']> bs) fl.
Proof.
  intros Hs Hh Hrel HXb HXf Hlen Htm Hfree Hdseg Hnd Hhash Hlf Hlb.
  split.
  - done.
  - intros h' Hh'. destruct (decide (h = h')) as [<-|Hne].
    + by rewrite fn_lookup_insert.
    + rewrite fn_lookup_insert_ne by done.
      destruct (shape_bucket _ _ _ Hs h' Hh') as (hd & Hhd & Hd).
      exists hd. rewrite Htm by done. split; [done|].
      eapply dseg_agree; [|done]. intros p Hp.
      apply Hrel. intros HpX. by eapply HXb.
  - intros h' Hh'. destruct (decide (h = h')) as [<-|Hne].
    + by rewrite fn_lookup_insert.
    + rewrite fn_lookup_insert_ne by done. by eapply shape_nodup.
  - intros h' p Hh'. destruct (decide (h = h')) as [<-|Hne].
    + rewrite fn_lookup_insert. apply Hhash.
    + rewrite fn_lookup_insert_ne by done. intros Hp.
      destruct (shape_hash _ _ _ Hs h' p Hh' Hp) as (r & Hr & Hrh).
      destruct (relinked_lookup _ _ _ _ _ Hrel Hr) as (r' & Hr' & Hd).
      exists r'. split; [done|]. unfold data in Hd. congruence.
  - rewrite Hfree. eapply sll_agree; [|by eapply shape_free].
    intros p Hp. apply Hrel. intros HpX. by eapply HXf.
  - by eapply shape_free_nodup.
  - intros h' p Hh'. destruct (decide (h = h')) as [<-|Hne].
    + rewrite fn_lookup_insert. apply Hlf.
    + rewrite fn_lookup_insert_ne by done. by eapply shape_sep.
Qed.

(** ** [l_remove] takes a record out of its bucket *)

Lemma same_statics_refl s : same_statics s s.
Proof. by repeat split. Qed.

Lemma l_remove_shape s bs fl h l1 p l2 :
  shape s bs fl -> (h < HASH_SIZE)%nat -> bs h = l1 ++ p :: l2 ->
  exists s', l_remove (Some p) s = Some (tt, s') /\
    shape s' (<[h := l1 ++ l2]> bs) fl /\
    relinked (l1 ++ l2) (heap s) (heap s') /\
    same_statics s s'.
Proof.
  intros Hs Hh Hbs.
  destruct (shape_bucket _ _ _ Hs h Hh) as (hd & Hhd & Hd). rewrite Hbs in Hd.
  pose proof (shape_nodup _ _ _ Hs h Hh) as Hnd. rewrite Hbs in Hnd.
  destruct (dseg_mid _ _ _ _ _ _ _ Hd) as (r & Hr & Hpv & Hnx).
  destruct (shape_hash _ _ _ Hs h p Hh) as (r0 & Hr0 & Hrh);
    [rewrite Hbs; set_solver|].
  assert (r0 = r) as -> by congruence. clear Hr0.
  (* what is left to do once the new store and bucket head are known *)
  assert (forall s',
    relinked (l1 ++ l2) (heap s) (heap s') ->
    length (timers s') = HASH_SIZE ->
    (forall h', h' ≠ h -> timers s' !! h' = timers s !! h') ->
    free_timers s' = free_timers s ->
    (exists hd', timers s' !! h = Some hd' /\ dseg (heap s') None hd' (l1 ++ l2) None) ->
    shape s' (<[h := l1 ++ l2]> bs) fl) as Hfin.
  { intros s' Hrel Hlen Htm Hfree Hdseg.
    assert (forall x, x ∈ l1 ++ l2 -> x ∈ bs h) as Hsub by (rewrite Hbs; set_solver).
    eapply shape_update; try done.
    - intros x h' Hx Hh' Hne Hx'. apply Hne.
      by eapply (shape_other_bucket _ _ _ h' h x Hs); auto.
    - intros x Hx. eapply shape_sep; eauto.
    - apply NoDup_app in Hnd as (N1 & N2 & N3). apply NoDup_cons in N3 as [N3 N4].
      apply NoDup_app. repeat split; [done| |done]. set_solver.
    - intros x Hx. destruct (shape_hash _ _ _ Hs h x Hh (Hsub _ Hx)) as (rx & Hrx & Hrxh).
      destruct (relinked_lookup _ _ _ _ _ Hrel Hrx) as (rx' & Hrx' & Hdx).
      exists rx'. split; [done|]. unfold data in Hdx. congruence.
    - intros x Hx. eapply shape_sep; eauto.
    - intros x h' Hx Hh' Hne Hx'. apply Hne.
      by eapply (shape_other_bucket _ _ _ h' h x Hs); auto. }
  pose proof (shape_len _ _ _ Hs) as Hlen.
  unfold l_remove. rewrite (bind_eq _ _ _ _ _ (load_eq _ _ _ Hr)).
  destruct l1 as [|q l1' _] using rev_ind.
  - (* [p] is the head of its bucket *)
    simpl in *. change (last_or None []) with (@None nat) in Hpv.
    rewrite Hpv, Hrh. simpl.
    rewrite (bind_eq _ _ _ _ _ (set_bucket_eq _ _ _ (t_next r) Hhd)).
    erewrite bind_eq by (apply load_eq; simpl; exact Hr).
    destruct Hd as (-> & r' & Hr' & _ & Hd). assert (r' = r) as -> by congruence.
    destruct l2 as [|n l2']; simpl in Hnx, Hd; rewrite Hnx, ?Hpv.
    + eexists. split; [reflexivity|]. split; [|split].
      * apply Hfin; simpl.
        -- apply relinked_refl.
        -- by rewrite length_insert.
        -- intros h' Hne. by rewrite list_lookup_insert_ne.
        -- done.
        -- exists None. split; [|done].
           apply list_lookup_insert_eq. rewrite Hlen. done.
      * apply relinked_refl.
      * by repeat split.
    + destruct Hd as (_ & rn & Hrn & Hrnp & Hd').
      erewrite store_eq by (simpl; exact Hrn).
      assert (n ∉ l2') as Hn.
      { apply NoDup_cons in Hnd as [_ Hnd]. by apply NoDup_cons in Hnd as [Hnd _]. }
      eexists. split; [reflexivity|]. split; [|split].
      * apply Hfin; simpl.
        -- eapply relinked_insert; [done|set_solver|done].
        -- by rewrite length_insert.
        -- intros h' Hne. by rewrite list_lookup_insert_ne.
        -- done.
        -- exists (Some n). split; [apply list_lookup_insert_eq; by rewrite Hlen|].
           apply (dseg_set_prev _ (Some p)); [done..|]. simpl. split; [done|]. by exists rn.
      * eapply relinked_insert; [done|set_solver|done].
      * by repeat split.
  - (* [p] follows [q] *)
    rewrite last_or_snoc in Hpv. rewrite Hpv.
    rewrite <- app_assoc in Hnd. simpl in Hnd.
    apply dseg_app in Hd as (mid & Hd1 & Hd2).
    rewrite last_or_snoc in Hd2. destruct Hd2 as (-> & r' & Hr' & _ & Hd2).
    assert (r' = r) as -> by congruence.
    destruct (dseg_lookup _ _ _ _ _ q Hd1) as [rq Hrq]; [set_solver|].
    assert ((q ∉ l1') /\ (q ≠ p) /\ (q ∉ l2)) as (Hq1 & Hq2 & Hq3).
    { apply NoDup_app in Hnd as (N1 & N2 & N3). apply NoDup_cons in N3 as [N3 N4].
      apply NoDup_cons in N4 as [N4 N5]. set_solver. }
    erewrite bind_eq by (apply store_eq; exact Hrq).
    erewrite bind_eq by (apply load_eq; simpl; rewrite lookup_insert_ne by done; exact Hr).
    destruct l2 as [|n l2']; simpl in Hnx, Hd2; rewrite Hnx, ?Hpv.
    + eexists. split; [reflexivity|]. rewrite app_nil_r. split; [|split].
      * rewrite <- (app_nil_r (l1' ++ [q])). apply Hfin; simpl.
        -- eapply relinked_insert; [done|set_solver|done].
        -- done.
        -- done.
        -- done.
        -- exists hd. split; [done|]. rewrite app_nil_r.
           eapply dseg_set_next; [done..|]. exact Hd1.
      * eapply relinked_insert; [done|set_solver|done].
      * by repeat split.
    + destruct Hd2 as (_ & rn & Hrn & Hrnp & Hd').
      assert ((n ≠ q) /\ (n ∉ l1') /\ (n ∉ l2')) as (Hn1 & Hn2 & Hn3).
      { apply NoDup_app in Hnd as (N1 & N2 & N3). apply NoDup_cons in N3 as [N3 N4].
        apply NoDup_cons in N4 as [N4 N5]. apply NoDup_cons in N5 as [N5 N6].
        set_solver. }
      erewrite store_eq by (simpl; rewrite lookup_insert_ne by done; exact Hrn).
      assert (relinked ((l1' ++ [q]) ++ n :: l2') (heap s)
                (<[n := set_prev (Some q) rn]> (<[q := set_next (Some n) rq]> (heap s))))
        as Hrel.
      { eapply (relinked_trans _ _ (<[q := set_next (Some n) rq]> (heap s))).
        - eapply relinked_insert; [exact Hrq|set_solver|done].
        - eapply relinked_insert; [by rewrite lookup_insert_ne|set_solver|done]. }
      eexists. split; [reflexivity|]. split; [|split].
      * apply Hfin; simpl; try done.
        exists hd. split; [done|]. apply dseg_app. exists (Some n). split.
        -- eapply dseg_agree;
             [|eapply (dseg_set_next _ _ _ _ _ rq); [exact Hq1|exact Hrq|exact Hd1]].
           intros x Hx. apply lookup_insert_ne. set_solver.
        -- rewrite last_or_snoc. apply (dseg_set_prev _ (Some p)); [done| |].
           ++ by rewrite lookup_insert_ne.
           ++ simpl. split; [done|]. exists rn. rewrite lookup_insert_ne by done.
              repeat split; [done..|].
              eapply dseg_agree; [|exact Hd']. intros x Hx.
              apply lookup_insert_ne. set_solver.
      * done.
      * by repeat split.
Qed.

(** ** The order of trigger times *)

Lemma goes_before_total a b : goes_before a b = false -> goes_before b a = true.
Proof. unfold goes_before. lia. Qed.

Lemma goes_before_trans a b c :
  goes_before a b = true -> goes_before b c = true -> goes_before a c = true.
Proof. unfold goes_before. lia. Qed.

Lemma goes_before_refl a : goes_before a a = true.
Proof. unfold goes_before. lia. Qed.

Lemma elem_of_ins tm t l x : x ∈ ins tm t l <-> x = t \/ x ∈ l.
Proof.
  induction l as [|q l IH]; simpl; [set_solver|].
  destruct (goes_before (tm t) (tm q)); set_solver.
Qed.

Lemma NoDup_ins tm t l : t ∉ l -> NoDup l -> NoDup (ins tm t l).
Proof.
  induction l as [|q l IH]; simpl; intros Ht Hnd.
  - apply NoDup_singleton.
  - destruct (goes_before (tm t) (tm q)).
    + by apply NoDup_cons.
    + apply NoDup_cons in Hnd as [Hq Hnd]. apply NoDup_cons. split.
      * rewrite elem_of_ins. set_solver.
      * apply IH; [set_solver|done].
Qed.

Lemma ins_ext tm tm' t l :
  (forall x, x ∈ t :: l -> tm' x = tm x) -> ins tm' t l = ins tm t l.
Proof.
  induction l as [|q l IH]; intros H; simpl; [done|].
  rewrite !H by set_solver. rewrite IH; [done|]. intros x Hx. apply H. set_solver.
Qed.

(** [ins] splits the list in two around the new entry: the entries in front
    are strictly earlier, and the entry right behind, if any, is not earlier. *)
Lemma ins_split tm t l :
  exists l1 l2, l = l1 ++ l2 /\ ins tm t l = l1 ++ t :: l2 /\
    Forall (fun x => goes_before (tm t) (tm x) = false) l1 /\
    match l2 with [] => True | y :: _ => goes_before (tm t) (tm y) = true end.
Proof.
  induction l as [|q l (l1 & l2 & -> & E & F & G)]; simpl.
  - by exists [], [].
  - destruct (goes_before (tm t) (tm q)) eqn:Eq.
    + by exists [], (q :: l1 ++ l2).
    + exists (q :: l1), l2. rewrite E. repeat split; [|done]. by constructor.
Qed.

Lemma sorted_ext tm tm' l :
  (forall x, x ∈ l -> tm' x = tm x) -> sorted tm l -> sorted tm' l.
Proof.
  induction l as [|q l IH]; intros H; simpl; [done|]. intros [F S]. split.
  - rewrite H by set_solver. rewrite Forall_forall in F |- *.
    intros y Hy. rewrite H by set_solver. by apply F.
  - apply IH; [|done]. intros x Hx. apply H. set_solver.
Qed.

Lemma sorted_ins tm t l : sorted tm l -> sorted tm (ins tm t l).
Proof.
  induction l as [|q l IH]; simpl; [done|]. intros [F S].
  destruct (goes_before (tm t) (tm q)) eqn:E; simpl.
  - repeat split; [|done..]. constructor; [done|].
    eapply Forall_impl; [exact F|]. intros y Hy. by eapply goes_before_trans.
  - split; [|by apply IH].
    rewrite Forall_forall. intros y [->|Hy]%elem_of_ins.
    + by apply goes_before_total.
    + rewrite Forall_forall in F. by apply F.
Qed.

Lemma sorted_app tm l1 l2 :
  sorted tm (l1 ++ l2) <->
  sorted tm l1 /\ sorted tm l2 /\
  forall x y, x ∈ l1 -> y ∈ l2 -> goes_before (tm x) (tm y) = true.
Proof.
  induction l1 as [|q l1 IH]; simpl.
  - split; [intros H; repeat split; [done|set_solver] | by intros (_ & H & _)].
  - rewrite Forall_app, IH. split.
    + intros ((F1 & F2) & S1 & S2 & H). repeat split; [done..|].
      intros x y [->|Hx]%elem_of_cons Hy; [|by apply H].
      rewrite Forall_forall in F2. by apply F2.
    + intros ((F1 & S1) & S2 & H). repeat split; [done| |done..|].
      * rewrite Forall_forall. intros y Hy. apply H; set_solver.
      * intros x y Hx Hy. apply H; set_solver.
Qed.

Lemma sorted_remove tm l1 p l2 : sorted tm (l1 ++ p :: l2) -> sorted tm (l1 ++ l2).
Proof.
  rewrite !sorted_app. simpl. intros (S1 & (F & S2) & H).
  repeat split; [done..|]. intros x y Hx Hy. apply H; set_solver.
Qed.

(** ** [l_add] links a record into its bucket *)

Lemma time_at_eq hp p r : hp !! p = Some r -> time_at hp p = t_time r.
Proof. unfold time_at. by intros ->. Qed.

(** The walk of lines 85-101, started behind the record [q]. *)
Lemma l_add_walk_spec t r l2 : forall fuel l1 q s pv0 hd,
  (length l2 <= fuel)%nat ->
  heap s !! t = Some r ->
  t ∉ l1 ++ q :: l2 -> NoDup (l1 ++ q :: l2) ->
  dseg (heap s) pv0 hd (l1 ++ q :: l2) None ->
  exists s', l_add_walk fuel t q (head_or l2 None) s = Some (tt, s') /\
    dseg (heap s') pv0 hd (l1 ++ q :: ins (time_at (heap s)) t l2) None /\
    relinked (t :: l1 ++ q :: l2) (heap s) (heap s') /\
    timers s' = timers s /\ same_statics s s'.
Proof.
  induction l2 as [|n l2 IH]; intros fuel l1 q s pv0 hd Hfuel Hr Ht Hnd Hd.
  - (* end of the list: add to the tail *)
    replace (l1 ++ [q]) with ((l1 ++ [q]) ++ []) in Hd by apply app_nil_r.
    destruct (dseg_lookup _ _ _ _ _ q Hd) as [rq Hrq]; [set_solver|].
    rewrite app_nil_r in Hd.
    assert ((q ∉ l1) /\ (t ≠ q) /\ (t ∉ l1)) as (Hq1 & Htq & Ht1).
    { apply NoDup_app in Hnd as (N1 & N2 & N3). set_solver. }
    simpl. destruct fuel; simpl;
      (erewrite bind_eq by (apply store_eq; exact Hrq);
       erewrite bind_eq
         by (apply store_eq; simpl; rewrite lookup_insert_ne by done; exact Hr);
       erewrite store_eq by (simpl; apply lookup_insert_eq);
       eexists; split; [reflexivity|]; simpl; split; [|split; [|by repeat split]]).
    all: try (eapply (relinked_trans _ _ (<[q := set_next (Some t) rq]> (heap s)));
      [eapply relinked_insert; [exact Hrq|set_solver|done]|];
      eapply (relinked_trans _ _ (<[t := set_prev (Some q) r]> (<[q := set_next (Some t) rq]> (heap s))));
      [eapply relinked_insert; [by rewrite lookup_insert_ne|set_solver|done]|];
      eapply relinked_insert; [apply lookup_insert_eq|set_solver|done]).
    all: change (l1 ++ [q; t]) with (l1 ++ [q] ++ [t]); rewrite app_assoc;
      apply dseg_app; exists (Some t); rewrite last_or_snoc; split;
      [ eapply dseg_agree;
        [|eapply (dseg_set_next _ _ _ _ _ rq); [exact Hq1|exact Hrq|exact Hd]];
        intros x Hx; assert (t ≠ x) by set_solver;
        rewrite !lookup_insert_ne by done; done
      | simpl; split; [done|]; eexists; split; [apply lookup_insert_eq|done] ].
  - destruct fuel as [|fuel]; [simpl in Hfuel; lia|].
    assert (dseg (heap s) pv0 hd ((l1 ++ [q]) ++ n :: l2) None) as Hd'
      by (by rewrite <- app_assoc).
    destruct (dseg_mid _ _ _ _ _ _ _ Hd') as (rn & Hrn & Hrnp & Hrnn).
    rewrite last_or_snoc in Hrnp.
    simpl head_or. simpl l_add_walk.
    rewrite (bind_eq _ _ _ _ _ (load_eq _ _ _ Hr)).
    rewrite (bind_eq _ _ _ _ _ (load_eq _ _ _ Hrn)).
    simpl ins. rewrite (time_at_eq _ _ _ Hr), (time_at_eq _ _ _ Hrn).
    destruct (goes_before (t_time r) (t_time rn)) eqn:E.
    + (* found the place: between [q] and [n] *)
      apply dseg_app in Hd' as (mid & Hd1 & Hd2). rewrite last_or_snoc in Hd2.
      destruct Hd2 as (-> & rn' & Hrn' & _ & Hd2).
      assert (rn' = rn) as -> by congruence.
      destruct (dseg_lookup _ _ _ _ _ q Hd1) as [rq Hrq]; [set_solver|].
      assert ((q ∉ l1) /\ (t ≠ q) /\ (t ∉ l1) /\ (n ≠ q) /\ (n ≠ t) /\ (n ∉ l1) /\
              (n ∉ l2) /\ (t ∉ l2) /\ (q ∉ l2)) as
        (Hq1 & Htq & Ht1 & Hnq & Hnt & Hn1 & Hn2 & Ht2 & Hq2).
      { apply NoDup_app in Hnd as (N1 & N2 & N3). apply NoDup_cons in N3 as [N3 N4].
        apply NoDup_cons in N4 as [N4 N5]. set_solver. }
      erewrite bind_eq by (apply store_eq; exact Hrq).
      erewrite bind_eq
        by (apply store_eq; simpl; rewrite lookup_insert_ne by done; exact Hr).
      erewrite bind_eq by (apply store_eq; simpl; apply lookup_insert_eq).
      erewrite store_eq
        by (simpl; rewrite !lookup_insert_ne by done; exact Hrn).
      eexists. split; [reflexivity|]. simpl. split; [|split; [|by repeat split]].
      * change (l1 ++ q :: t :: n :: l2) with (l1 ++ [q] ++ t :: n :: l2).
        rewrite app_assoc. apply dseg_app. exists (Some t). rewrite last_or_snoc. split.
        -- eapply dseg_agree;
             [|eapply (dseg_set_next _ _ _ _ _ rq); [exact Hq1|exact Hrq|exact Hd1]].
           intros x Hx. assert ((t ≠ x) /\ (n ≠ x)) as [? ?] by set_solver.
           rewrite !lookup_insert_ne by done. done.
        -- simpl. split; [done|]. eexists. split.
           { rewrite lookup_insert_ne by done. apply lookup_insert_eq. }
           split; [done|]. simpl. split; [done|]. eexists. split.
           { apply lookup_insert_eq. }
           split; [done|]. simpl.
           eapply dseg_agree; [|exact Hd2]. intros x Hx.
           assert ((t ≠ x) /\ (n ≠ x) /\ (q ≠ x)) as (? & ? & ?) by set_solver.
           rewrite !lookup_insert_ne by done. done.
      * eapply (relinked_trans _ _ (<[q := set_next (Some t) rq]> (heap s)));
          [eapply relinked_insert; [exact Hrq|set_solver|done]|].
        eapply (relinked_trans _ _ (<[t := set_prev (Some q) r]> _));
          [eapply relinked_insert; [by rewrite lookup_insert_ne|set_solver|done]|].
        eapply (relinked_trans _ _ (<[t := set_next (Some n) (set_prev (Some q) r)]> _));
          [eapply relinked_insert; [apply lookup_insert_eq|set_solver|done]|].
        eapply relinked_insert; [by rewrite !lookup_insert_ne|set_solver|done].
    + (* keep walking *)
      rewrite Hrnn.
      destruct (IH fuel (l1 ++ [q]) n s pv0 hd) as (s' & Hrun & Hd'' & Hrel & Htm & Hst).
      * simpl in Hfuel. lia.
      * done.
      * rewrite <- app_assoc. done.
      * rewrite <- app_assoc. done.
      * done.
      * exists s'. split; [done|]. rewrite <- app_assoc in Hd'', Hrel. done.
Qed.

Lemma dseg_length hp pv hd l nx :
  NoDup l -> dseg hp pv hd l nx -> (length l <= size hp)%nat.
Proof.
  intros Hnd Hd.
  assert (list_to_set l ⊆ dom hp) as Hsub.
  { intros x Hx%elem_of_list_to_set. apply elem_of_dom. by eapply dseg_lookup. }
  apply subseteq_size in Hsub.
  rewrite size_list_to_set, size_dom in Hsub; done.
Qed.

Lemma l_add_shape s bs fl t r h :
  shape s bs fl -> heap s !! t = Some r -> t_hash r = h -> (h < HASH_SIZE)%nat ->
  (forall h', (h' < HASH_SIZE)%nat -> t ∉ bs h') -> t ∉ fl ->
  exists s', l_add t s = Some (tt, s') /\
    shape s' (<[h := ins (time_at (heap s)) t (bs h)]> bs) fl /\
    relinked (t :: bs h) (heap s) (heap s') /\
    same_statics s s'.
Proof.
  intros Hs Hr Hrh Hh Htb Htf.
  destruct (shape_bucket _ _ _ Hs h Hh) as (hd & Hhd & Hd).
  pose proof (shape_nodup _ _ _ Hs h Hh) as Hnd.
  pose proof (shape_len _ _ _ Hs) as Hlen.
  pose proof (Htb h Hh) as Hth.
  set (l' := ins (time_at (heap s)) t (bs h)).
  assert (forall s',
    relinked (t :: bs h) (heap s) (heap s') ->
    length (timers s') = HASH_SIZE ->
    (forall h', h' ≠ h -> timers s' !! h' = timers s !! h') ->
    free_timers s' = free_timers s ->
    (exists hd', timers s' !! h = Some hd' /\ dseg (heap s') None hd' l' None) ->
    shape s' (<[h := l']> bs) fl) as Hfin.
  { intros s' Hrel Hlen' Htm Hfree Hdseg.
    assert (forall x, x ∈ l' -> x = t \/ x ∈ bs h) as Hsub
      by (intros x; apply elem_of_ins).
    eapply shape_update; try done.
    - intros x h' [->|Hx]%elem_of_cons Hh' Hne; [by apply Htb|].
      intros Hx'. apply Hne. by eapply (shape_other_bucket _ _ _ h' h x Hs).
    - intros x [->|Hx]%elem_of_cons; [done|]. by eapply shape_sep.
    - by apply NoDup_ins.
    - intros x Hx.
      assert (exists rx, heap s !! x = Some rx /\ t_hash rx = h) as (rx & Hrx & Hrxh).
      { destruct (Hsub _ Hx) as [->|Hx']; [by exists r|]. by eapply shape_hash. }
      destruct (relinked_lookup _ _ _ _ _ Hrel Hrx) as (rx' & Hrx' & Hdx).
      exists rx'. split; [done|]. unfold data in Hdx. congruence.
    - intros x Hx. destruct (Hsub _ Hx) as [->|Hx']; [done|]. by eapply shape_sep.
    - intros x h' Hx Hh' Hne. destruct (Hsub _ Hx) as [->|Hx']; [by apply Htb|].
      intros Hx''. apply Hne. by eapply (shape_other_bucket _ _ _ h' h x Hs). }
  unfold l_add. rewrite (bind_eq _ _ _ _ _ (load_eq _ _ _ Hr)). rewrite Hrh.
  rewrite (bind_eq _ _ _ _ _ (bucket_eq _ _ _ Hhd)).
  subst l'. destruct (bs h) as [|q l] eqn:Hbs; simpl in Hd.
  - (* the list is empty *)
    subst hd.
    rewrite (bind_eq _ _ _ _ _ (set_bucket_eq _ _ _ (Some t) Hhd)).
    erewrite bind_eq by (apply store_eq; simpl; exact Hr).
    erewrite store_eq by (simpl; apply lookup_insert_eq).
    assert (relinked [t] (heap s)
              (<[t := set_prev None (set_next None r)]> (<[t := set_next None r]> (heap s))))
      as Hrel.
    { eapply (relinked_trans _ _ (<[t := set_next None r]> (heap s))).
      - eapply relinked_insert; [done|set_solver|done].
      - eapply relinked_insert; [apply lookup_insert_eq|set_solver|done]. }
    eexists. split; [reflexivity|]. split; [|split; [|by repeat split]]; simpl; [|done].
    apply Hfin; simpl; try done.
    + by rewrite length_insert.
    + intros h' Hne. by rewrite list_lookup_insert_ne.
    + exists (Some t). split; [apply list_lookup_insert_eq; by rewrite Hlen|].
      simpl. split; [done|]. eexists. split; [apply lookup_insert_eq|done].
  - destruct Hd as (-> & rq & Hrq & Hrqp & Hd).
    assert ((t ≠ q) /\ (t ∉ l) /\ (q ∉ l)) as (Htq & Htl & Hql).
    { apply NoDup_cons in Hnd as [N1 N2]. set_solver. }
    rewrite (bind_eq _ _ _ _ _ (load_eq _ _ _ Hrq)).
    simpl ins in Hfin |- *.
    rewrite (time_at_eq _ _ _ Hr), (time_at_eq _ _ _ Hrq) in Hfin |- *.
    destruct (goes_before (t_time r) (t_time rq)) eqn:E.
    + (* the new timer goes at the head of the list *)
      rewrite (bind_eq _ _ _ _ _ (set_bucket_eq _ _ _ (Some t) Hhd)).
      erewrite bind_eq by (apply store_eq; simpl; exact Hr).
      erewrite bind_eq by (apply store_eq; simpl; apply lookup_insert_eq).
      erewrite store_eq by (simpl; rewrite !lookup_insert_ne by done; exact Hrq).
      assert (relinked (t :: q :: l) (heap s)
                (<[q := set_prev (Some t) rq]>
                   (<[t := set_next (Some q) (set_prev None r)]>
                      (<[t := set_prev None r]> (heap s))))) as Hrel.
      { eapply (relinked_trans _ _ (<[t := set_prev None r]> (heap s)));
          [eapply relinked_insert; [done|set_solver|done]|].
        eapply (relinked_trans _ _ (<[t := set_next (Some q) (set_prev None r)]> _));
          [eapply relinked_insert; [apply lookup_insert_eq|set_solver|done]|].
        eapply relinked_insert; [by rewrite !lookup_insert_ne|set_solver|done]. }
      eexists. split; [reflexivity|]. split; [|split; [|by repeat split]]; simpl; [|done].
      apply Hfin; simpl; try done.
      * by rewrite length_insert.
      * intros h' Hne. by rewrite list_lookup_insert_ne.
      * exists (Some t). split; [apply list_lookup_insert_eq; by rewrite Hlen|].
        simpl. split; [done|]. eexists. split.
        { rewrite lookup_insert_ne by done. apply lookup_insert_eq. }
        split; [done|]. simpl. split; [done|]. eexists. split.
        { apply lookup_insert_eq. }
        split; [done|]. simpl. eapply dseg_agree; [|exact Hd].
        intros x Hx. assert ((t ≠ x) /\ (q ≠ x)) as [? ?] by set_solver.
        by rewrite !lookup_insert_ne.
    + (* walk the list to find the insertion point *)
      unfold heap_size at 1. erewrite bind_eq by reflexivity.
      assert (dseg (heap s) None (Some q) ([] ++ q :: l) None) as Hd0.
      { simpl. split; [done|]. by exists rq. }
      assert (t_next rq = head_or l None) as -> by (by eapply dseg_head).
      destruct (l_add_walk_spec t r l (size (heap s)) [] q s None (Some q))
        as (s' & Hrun & Hd' & Hrel & Htm & Hst); try done.
      * pose proof (dseg_length _ _ _ _ _ Hnd Hd0) as Hsz. simpl in Hsz. lia.
      * exists s'. split; [done|]. simpl in Hd', Hrel.
        split; [|done]. destruct Hst as (Hfree & _).
        apply Hfin; try done.
        -- by rewrite Htm.
        -- intros h' _. by rewrite Htm.
        -- exists (Some q). rewrite Htm. done.
Qed.

(** ** Changes that keep every list as it is *)

Lemma dseg_links hp hp' pv hd l nx :
  (forall p r, p ∈ l -> hp !! p = Some r ->
     exists r', hp' !! p = Some r' /\ t_prev r' = t_prev r /\ t_next r' = t_next r) ->
  dseg hp pv hd l nx -> dseg hp' pv hd l nx.
Proof.
  revert pv hd. induction l as [|x l IH]; intros pv hd Hag; simpl; [done|].
  intros (-> & r & Hr & Hpv & H). split; [done|].
  destruct (Hag x r) as (r' & Hr' & Hp' & Hn'); [set_solver|done|].
  exists r'. rewrite Hp', Hn'. repeat split; [done..|].
  apply IH; [|done]. intros p rp Hp. apply Hag. set_solver.
Qed.

Lemma sll_links hp hp' hd l :
  (forall p r, p ∈ l -> hp !! p = Some r ->
     exists r', hp' !! p = Some r' /\ t_next r' = t_next r) ->
  sll hp hd l -> sll hp' hd l.
Proof.
  revert hd. induction l as [|x l IH]; intros hd Hag; simpl; [done|].
  intros (-> & r & Hr & H). split; [done|].
  destruct (Hag x r) as (r' & Hr' & Hn'); [set_solver|done|].
  exists r'. rewrite Hn'. split; [done|].
  apply IH; [|done]. intros p rp Hp. apply Hag. set_solver.
Qed.

(** [listed bs fl x]: the record [x] is on a bucket list or on the free list. *)
Lemma shape_agree s s' bs fl :
  shape s bs fl ->
  timers s' = timers s -> free_timers s' = free_timers s ->
  (forall x r, listed bs fl x -> heap s !! x = Some r ->
     exists r', heap s' !! x = Some r' /\ t_prev r' = t_prev r /\
                t_next r' = t_next r /\ t_hash r' = t_hash r) ->
  shape s' bs fl.
Proof.
  intros Hs Htm Hfree Hag. split.
  - rewrite Htm. by eapply shape_len.
  - intros h Hh. destruct (shape_bucket _ _ _ Hs h Hh) as (hd & Hhd & Hd).
    exists hd. rewrite Htm. split; [done|].
    eapply dseg_links; [|done]. intros p r Hp Hr.
    destruct (Hag p r) as (r' & ? & ? & ? & ?); [right; eauto|done|]. eauto.
  - by eapply shape_nodup.
  - intros h p Hh Hp. destruct (shape_hash _ _ _ Hs h p Hh Hp) as (r & Hr & Hrh).
    destruct (Hag p r) as (r' & ? & ? & ? & ?); [right; eauto|done|].
    exists r'. split; [done|]. congruence.
  - rewrite Hfree. eapply sll_links; [|by eapply shape_free]. intros p r Hp Hr.
    destruct (Hag p r) as (r' & ? & ? & ? & ?); [by left|done|]. eauto.
  - by eapply shape_free_nodup.
  - by eapply shape_sep.
Qed.

(** Assigning to a record that is on no list. *)
Lemma shape_outsider s bs fl p r' s' :
  shape s bs fl -> ~ listed bs fl p ->
  heap s' = <[p := r']> (heap s) ->
  timers s' = timers s -> free_timers s' = free_timers s ->
  shape s' bs fl.
Proof.
  intros Hs Hp Hheap Htm Hfree. eapply shape_agree; [done..|].
  intros x r Hx Hr. exists r. rewrite Hheap, lookup_insert_ne; [done|].
  intros ->. done.
Qed.

Lemma hash_lt tv : (hash tv < HASH_SIZE)%nat.
Proof.
  unfold hash, HASH_SIZE.
  pose proof (Z.mod_pos_bound (Z.lxor (tv_sec tv mod 2 ^ 32) (tv_usec tv mod 2 ^ 32))
                (Z.of_nat 67) ltac:(lia)).
  lia.
Qed.

Lemma listed_bucket bs fl h x : (h < HASH_SIZE)%nat -> x ∈ bs h -> listed bs fl x.
Proof. intros. right. eauto. Qed.

Lemma not_listed_bucket bs fl x h :
  ~ listed bs fl x -> (h < HASH_SIZE)%nat -> x ∉ bs h.
Proof. intros H Hh Hx. apply H. right. eauto. Qed.

Lemma not_listed_free bs fl x : ~ listed bs fl x -> x ∉ fl.
Proof. intros H Hx. apply H. by left. Qed.

(** After [l_remove] the record is on no list. *)
Lemma removed_not_listed s bs fl h l1 p l2 :
  shape s bs fl -> (h < HASH_SIZE)%nat -> bs h = l1 ++ p :: l2 ->
  ~ listed (<[h := l1 ++ l2]> bs) fl p.
Proof.
  intros Hs Hh Hbs.
  assert (p ∈ bs h) as Hp by (rewrite Hbs; set_solver).
  intros [Hf|(h' & Hh' & Hp')].
  - by eapply shape_sep.
  - destruct (decide (h = h')) as [<-|Hne].
    + rewrite fn_lookup_insert in Hp'.
      pose proof (shape_nodup _ _ _ Hs h Hh) as Hnd. rewrite Hbs in Hnd.
      apply NoDup_app in Hnd as (N1 & N2 & N3). apply NoDup_cons in N3 as [N3 N4].
      set_solver.
    + rewrite fn_lookup_insert_ne in Hp' by done.
      apply Hne. by eapply (shape_other_bucket _ _ _ h h' p Hs).
Qed.

(** ** [tmr_cancel] *)

Lemma shape_push_free s bs fl p rp s' :
  shape s bs fl -> ~ listed bs fl p ->
  heap s' !! p = Some rp -> t_next rp = free_timers s ->
  (forall x, x ≠ p -> heap s' !! x = heap s !! x) ->
  timers s' = timers s -> free_timers s' = Some p ->
  shape s' bs (p :: fl).
Proof.
  intros Hs Hp Hrp Hnx Hag Htm Hfree. split.
  - rewrite Htm. by eapply shape_len.
  - intros h Hh. destruct (shape_bucket _ _ _ Hs h Hh) as (hd & Hhd & Hd).
    exists hd. rewrite Htm. split; [done|].
    eapply dseg_agree; [|done]. intros x Hx. apply Hag. intros ->.
    by eapply not_listed_bucket.
  - by eapply shape_nodup.
  - intros h x Hh Hx. destruct (shape_hash _ _ _ Hs h x Hh Hx) as (r & Hr & Hrh).
    exists r. split; [|done]. rewrite Hag; [done|]. intros ->.
    by eapply not_listed_bucket.
  - rewrite Hfree. simpl. split; [done|]. exists rp. split; [done|]. rewrite Hnx.
    eapply sll_agree; [|by eapply shape_free]. intros x Hx. apply Hag. intros ->.
    by eapply not_listed_free.
  - apply NoDup_cons. split; [by eapply not_listed_free|by eapply shape_free_nodup].
  - intros h x Hh Hx [->|Hf]%elem_of_cons.
    + by eapply not_listed_bucket.
    + by eapply shape_sep.
Qed.

Lemma good_sorted_other s bs fl h l' tm' :
  good s bs fl -> (h < HASH_SIZE)%nat ->
  sorted tm' l' ->
  (forall h' x, (h' < HASH_SIZE)%nat -> h' ≠ h -> x ∈ bs h' -> tm' x = time_at (heap s) x) ->
  forall h', (h' < HASH_SIZE)%nat -> sorted tm' ((<[h := l']> bs) h').
Proof.
  intros Hg Hh Hl' Htm h' Hh'. destruct (decide (h = h')) as [<-|Hne].
  - by rewrite fn_lookup_insert.
  - rewrite fn_lookup_insert_ne by done.
    eapply sorted_ext; [|by eapply good_sorted]. intros x Hx. by eapply Htm.
Qed.

Lemma tmr_cancel_good s bs fl h l1 p l2 :
  good s bs fl -> (h < HASH_SIZE)%nat -> bs h = l1 ++ p :: l2 ->
  exists s', tmr_cancel (Some p) s = Some (tt, s') /\
    good s' (<[h := l1 ++ l2]> bs) (p :: fl) /\
    relinked (p :: l1 ++ l2) (heap s) (heap s') /\
    calls s' = calls s.
Proof.
  intros Hg Hh Hbs. pose proof (good_shape _ _ _ Hg) as Hs.
  destruct (l_remove_shape _ _ _ _ _ _ _ Hs Hh Hbs)
    as (s1 & Hrm & Hs1 & Hrel & Hfree & Hal & Hac & Hfc & Hcalls).
  pose proof (removed_not_listed _ _ _ _ _ _ _ Hs Hh Hbs) as Hnl.
  assert (p ∈ bs h) as Hp by (rewrite Hbs; set_solver).
  destruct (shape_hash _ _ _ Hs h p Hh Hp) as (r & Hr & Hrh).
  assert (heap s1 !! p = Some r) as Hr1.
  { destruct (Hrel p) as [A _]. rewrite A; [done|].
    intros Hp'. apply Hnl. right. exists h. by rewrite fn_lookup_insert. }
  unfold tmr_cancel. rewrite (bind_eq _ _ _ _ _ Hrm).
  unfold add_active at 1. erewrite bind_eq by reflexivity.
  erewrite bind_eq by (apply store_eq; simpl; exact Hr1).
  unfold get_free at 1. erewrite bind_eq by reflexivity.
  erewrite bind_eq by (apply store_eq; simpl; apply lookup_insert_eq).
  unfold set_free at 1. erewrite bind_eq by reflexivity.
  unfold add_free. simpl.
  assert (relinked (p :: l1 ++ l2) (heap s)
            (<[p := set_next (free_timers s1) (set_prev None r)]>
               (<[p := set_prev None r]> (heap s1)))) as Hrel'.
  { eapply (relinked_trans _ _ (heap s1));
      [eapply relinked_weaken; [|exact Hrel]; set_solver|].
    eapply (relinked_trans _ _ (<[p := set_prev None r]> (heap s1)));
      [eapply relinked_insert; [done|set_solver|done]|].
    eapply relinked_insert; [apply lookup_insert_eq|set_solver|done]. }
  eexists. split; [reflexivity|]. split; [|split; [exact Hrel'|done]].
  split.
  - eapply shape_push_free; [exact Hs1|exact Hnl|..]; simpl.
    + apply lookup_insert_eq.
    + done.
    + intros x Hx. by rewrite !lookup_insert_ne.
    + done.
    + done.
  - simpl. intros h' Hh'.
    eapply sorted_ext; [intros x _; by eapply relinked_time|].
    eapply good_sorted_other; [done..| |done|done].
    apply (sorted_remove _ _ p). rewrite <- Hbs. by eapply good_sorted.
  - simpl. rewrite Hfc, (good_free_count _ _ _ Hg). simpl length. lia.
Qed.

(** ** Rescheduling: a new trigger time, then [l_resort] *)

Lemma time_at_insert_ne hp p r x : x ≠ p -> time_at (<[p := r]> hp) x = time_at hp x.
Proof. intros Hx. unfold time_at. by rewrite lookup_insert_ne. Qed.

Lemma resched_good s bs fl h l1 p l2 r f tv :
  good s bs fl -> (h < HASH_SIZE)%nat -> bs h = l1 ++ p :: l2 ->
  heap s !! p = Some r -> f r = set_time tv r ->
  exists s', (store p f ;; l_resort p) s = Some (tt, s') /\
    good s' (<[hash tv := ins (time_at (heap s')) p ((<[h := l1 ++ l2]> bs) (hash tv))]>
               (<[h := l1 ++ l2]> bs)) fl /\
    (exists r', heap s' !! p = Some r' /\
       data r' = (t_cb r, t_arg r, t_msecs r, t_periodic r, tv, hash tv)) /\
    (forall x, x ≠ p -> data <$> heap s' !! x = data <$> heap s !! x) /\
    same_statics s s'.
Proof.
  intros Hg Hh Hbs Hr Hf. pose proof (good_shape _ _ _ Hg) as Hs.
  set (bs1 := <[h := l1 ++ l2]> bs).
  (* the new time is stored *)
  rewrite (bind_eq _ _ _ _ _ (store_eq _ _ f _ Hr)). rewrite Hf.
  set (s0 := Registry (<[p := set_time tv r]> (heap s)) (timers s) (free_timers s)
                      (alloc_count s) (active_count s) (free_count s) (calls s)).
  assert (shape s0 bs fl) as Hs0.
  { eapply shape_agree; [exact Hs|done|done|]. simpl. intros x rx _ Hrx.
    destruct (decide (x = p)) as [->|Hne].
    - rewrite lookup_insert_eq. exists (set_time tv r).
      assert (rx = r) as -> by congruence. done.
    - rewrite lookup_insert_ne by done. by exists rx. }
  (* it is taken off its old list *)
  destruct (l_remove_shape _ _ _ _ _ _ _ Hs0 Hh Hbs)
    as (s1 & Hrm & Hs1 & Hrel1 & Hfree1 & Hal1 & Hac1 & Hfc1 & Hcalls1).
  pose proof (removed_not_listed _ _ _ _ _ _ _ Hs0 Hh Hbs) as Hnl. fold bs1 in Hs1, Hnl.
  assert (p ∉ l1 ++ l2) as Hp12.
  { intros Hp'. apply Hnl. right. exists h. unfold bs1. by rewrite fn_lookup_insert. }
  assert (heap s1 !! p = Some (set_time tv r)) as Hr1.
  { destruct (Hrel1 p) as [A _]. rewrite A by done. simpl. apply lookup_insert_eq. }
  unfold l_resort. rewrite (bind_eq _ _ _ _ _ Hrm).
  (* its hash is recomputed *)
  rewrite (bind_eq _ _ _ _ _ (store_eq _ _ _ _ Hr1)).
  set (r2 := set_hash (hash (t_time (set_time tv r))) (set_time tv r)).
  set (s2 := Registry (<[p := r2]> (heap s1)) (timers s1) (free_timers s1)
                      (alloc_count s1) (active_count s1) (free_count s1) (calls s1)).
  assert (shape s2 bs1 fl) as Hs2 by (by eapply shape_outsider).
  (* and it is put on its new list *)
  destruct (l_add_shape s2 bs1 fl p r2 (hash tv) Hs2)
    as (s3 & Hadd & Hs3 & Hrel3 & Hfree3 & Hal3 & Hac3 & Hfc3 & Hcalls3).
  { simpl. apply lookup_insert_eq. }
  { done. }
  { apply hash_lt. }
  { intros h' Hh'. by eapply not_listed_bucket. }
  { by eapply not_listed_free. }
  exists s3. split; [exact Hadd|].
  assert (forall x, time_at (heap s3) x = time_at (heap s2) x) as Ht32
    by (intros x; by eapply relinked_time).
  assert (forall x, x ≠ p -> time_at (heap s3) x = time_at (heap s) x) as Ht3.
  { intros x Hx. rewrite Ht32. simpl. rewrite time_at_insert_ne by done.
    rewrite (relinked_time _ _ _ _ Hrel1). simpl. by rewrite time_at_insert_ne. }
  assert (forall h', (h' < HASH_SIZE)%nat -> sorted (time_at (heap s3)) (bs1 h')) as Hsorted1.
  { intros h' Hh'.
    assert (sorted (time_at (heap s)) (bs1 h')) as Hs'.
    { unfold bs1. eapply good_sorted_other; [done..| |done|done].
      apply (sorted_remove _ _ p). rewrite <- Hbs. by eapply good_sorted. }
    eapply sorted_ext; [|exact Hs']. intros x Hx. apply Ht3. intros ->.
    by eapply (not_listed_bucket bs1 fl p h'). }
  assert (ins (time_at (heap s3)) p (bs1 (hash tv)) = ins (time_at (heap s2)) p (bs1 (hash tv)))
    as Hins by (apply ins_ext; intros x _; apply Ht32).
  rewrite Hins. split; [|split; [|split]].
  - split; [done| |].
    + intros h' Hh'. destruct (decide (hash tv = h')) as [<-|Hne].
      * rewrite fn_lookup_insert, <- Hins. apply sorted_ins. apply Hsorted1, hash_lt.
      * rewrite fn_lookup_insert_ne by done. by apply Hsorted1.
    + rewrite Hfc3. simpl. rewrite Hfc1. simpl. by eapply good_free_count.
  - assert (heap s2 !! p = Some r2) as Hr2 by (simpl; apply lookup_insert_eq).
    destruct (relinked_lookup _ _ _ _ _ Hrel3 Hr2) as (r3 & Hr3 & Hd3).
    exists r3. split; [done|]. rewrite Hd3. done.
  - intros x Hx. destruct (Hrel3 x) as [_ ->]. simpl. rewrite lookup_insert_ne by done.
    destruct (Hrel1 x) as [_ ->]. simpl. by rewrite lookup_insert_ne.
  - repeat split; simpl in *; congruence.
Qed.

(** ** [tmr_reset] *)

Lemma tmr_reset_good s bs fl h l1 p l2 r now :
  good s bs fl -> (h < HASH_SIZE)%nat -> bs h = l1 ++ p :: l2 ->
  heap s !! p = Some r ->
  let tv := tv_add_msecs now (t_msecs r) in
  exists s', tmr_reset now (Some p) s = Some (tt, s') /\
    good s' (<[hash tv := ins (time_at (heap s')) p ((<[h := l1 ++ l2]> bs) (hash tv))]>
               (<[h := l1 ++ l2]> bs)) fl /\
    (exists r', heap s' !! p = Some r' /\
       data r' = (t_cb r, t_arg r, t_msecs r, t_periodic r, tv, hash tv)) /\
    (forall x, x ≠ p -> data <$> heap s' !! x = data <$> heap s !! x) /\
    same_statics s s'.
Proof.
  intros Hg Hh Hbs Hr tv. unfold tmr_reset.
  by eapply resched_good.
Qed.

(** ** [tmr_create] *)

Lemma listed_in_heap s bs fl x : shape s bs fl -> listed bs fl x -> is_Some (heap s !! x).
Proof.
  intros Hs [Hf|(h & Hh & Hx)].
  - eapply sll_lookup; [by eapply shape_free|done].
  - destruct (shape_hash _ _ _ Hs h x Hh Hx) as (r & Hr & _). by eexists.
Qed.

Lemma shape_pop_free s bs t fl s' :
  shape s bs (t :: fl) ->
  heap s' = heap s -> timers s' = timers s ->
  free_timers s' = from_option t_next None (heap s !! t) ->
  shape s' bs fl /\ ~ listed bs fl t.
Proof.
  intros Hs Hheap Htm Hfree.
  pose proof (shape_free _ _ _ Hs) as (Hft & r & Hr & Hsll).
  pose proof (shape_free_nodup _ _ _ Hs) as [Ht Hnd]%NoDup_cons.
  rewrite Hr in Hfree. simpl in Hfree. split.
  - split.
    + rewrite Htm. by eapply shape_len.
    + rewrite Hheap, Htm. by eapply shape_bucket.
    + by eapply shape_nodup.
    + rewrite Hheap. by eapply shape_hash.
    + by rewrite Hheap, Hfree.
    + done.
    + intros h p Hh Hp Hf. eapply shape_sep; [done..|]. set_solver.
  - intros [Hf|(h & Hh & Hx)]; [done|].
    eapply shape_sep; [done..|]. set_solver.
Qed.

(** The second half of [tmr_create]: fill in the record [t], which is on no
    list, and link it in. *)
Lemma create_tail s bs fl t r0 cb arg msecs periodic tv :
  shape s bs fl ->
  (forall h, (h < HASH_SIZE)%nat -> sorted (time_at (heap s)) (bs h)) ->
  heap s !! t = Some r0 -> ~ listed bs fl t ->
  exists s',
    (store t (fun r => Timer cb arg msecs periodic tv (t_hash r) (t_prev r) (t_next r)) ;;
     store t (fun r => set_hash (hash (t_time r)) r) ;;
     l_add t ;; add_active 1 ;; ret (Some t)) s = Some (Some t, s') /\
    shape s' (<[hash tv := ins (time_at (heap s')) t (bs (hash tv))]> bs) fl /\
    (forall h, (h < HASH_SIZE)%nat ->
       sorted (time_at (heap s'))
         ((<[hash tv := ins (time_at (heap s')) t (bs (hash tv))]> bs) h)) /\
    (exists r', heap s' !! t = Some r' /\
       data r' = (cb, arg, msecs, periodic, tv, hash tv)) /\
    (forall x, x ≠ t -> data <$> heap s' !! x = data <$> heap s !! x) /\
    free_timers s' = free_timers s /\ free_count s' = free_count s /\
    alloc_count s' = alloc_count s /\ active_count s' = active_count s + 1 /\
    calls s' = calls s.
Proof.
  intros Hs Hsorted Hr0 Hnl.
  rewrite (bind_eq _ _ _ _ _ (store_eq _ _ _ _ Hr0)).
  erewrite bind_eq by (apply store_eq; simpl; apply lookup_insert_eq).
  simpl.
  set (r2 := set_hash (hash tv) (Timer cb arg msecs periodic tv (t_hash r0) (t_prev r0) (t_next r0))).
  set (hp1 := <[t := Timer cb arg msecs periodic tv (t_hash r0) (t_prev r0) (t_next r0)]> (heap s)).
  set (s2 := Registry (<[t := r2]> hp1) (timers s) (free_timers s)
                      (alloc_count s) (active_count s) (free_count s) (calls s)).
  assert (heap s2 = <[t := r2]> (heap s)) as Hheap2.
  { simpl. unfold hp1. apply insert_insert_eq. }
  assert (shape s2 bs fl) as Hs2 by (by eapply shape_outsider).
  destruct (l_add_shape s2 bs fl t r2 (hash tv) Hs2)
    as (s3 & Hadd & Hs3 & Hrel3 & Hfree3 & Hal3 & Hac3 & Hfc3 & Hcalls3).
  { simpl. apply lookup_insert_eq. }
  { done. }
  { apply hash_lt. }
  { intros h' Hh'. by eapply not_listed_bucket. }
  { by eapply not_listed_free. }
  rewrite (bind_eq _ _ _ _ _ Hadd). unfold add_active at 1.
  erewrite bind_eq by reflexivity. unfold ret.
  eexists. split; [reflexivity|]. simpl.
  assert (forall x, time_at (heap s3) x = time_at (heap s2) x) as Ht32
    by (intros x; by eapply relinked_time).
  assert (forall x, x ≠ t -> time_at (heap s3) x = time_at (heap s) x) as Ht3.
  { intros x Hx. rewrite Ht32, Hheap2. by apply time_at_insert_ne. }
  assert (ins (time_at (heap s3)) t (bs (hash tv)) = ins (time_at (heap s2)) t (bs (hash tv)))
    as Hins by (apply ins_ext; intros x _; apply Ht32).
  assert (forall h', (h' < HASH_SIZE)%nat -> sorted (time_at (heap s3)) (bs h')) as Hsorted3.
  { intros h' Hh'. eapply sorted_ext; [|by apply Hsorted]. intros x Hx. apply Ht3.
    intros ->. by eapply (not_listed_bucket bs fl t h'). }
  rewrite Hins. split; [|split; [|split; [|split]]].
  - eapply shape_agree; [exact Hs3|done..|]. intros x r _ Hr. by exists r.
  - intros h' Hh'. destruct (decide (hash tv = h')) as [<-|Hne].
    + rewrite fn_lookup_insert, <- Hins. apply sorted_ins. apply Hsorted3, hash_lt.
    + rewrite fn_lookup_insert_ne by done. by apply Hsorted3.
  - assert (heap s2 !! t = Some r2) as Hr2 by (simpl; apply lookup_insert_eq).
    destruct (relinked_lookup _ _ _ _ _ Hrel3 Hr2) as (r3 & Hr3 & Hd3).
    exists r3. split; [done|]. rewrite Hd3. done.
  - intros x Hx. destruct (Hrel3 x) as [_ ->]. rewrite Hheap2.
    by rewrite lookup_insert_ne.
  - simpl in *. repeat split; congruence.
Qed.

(** [tmr_create] when the free list has a record to reuse. *)
Lemma tmr_create_reuse_good s bs t fl malloc clock now cb arg msecs periodic :
  good s bs (t :: fl) ->
  let tv := tv_add_msecs (default clock now) msecs in
  exists s', tmr_create malloc clock now cb arg msecs periodic s = Some (Some t, s') /\
    good s' (<[hash tv := ins (time_at (heap s')) t (bs (hash tv))]> bs) fl /\
    (exists r', heap s' !! t = Some r' /\
       data r' = (cb, arg, msecs, periodic, tv, hash tv)) /\
    (forall x, x ≠ t -> data <$> heap s' !! x = data <$> heap s !! x) /\
    alloc_count s' = alloc_count s /\ calls s' = calls s.
Proof.
  intros Hg tv. pose proof (good_shape _ _ _ Hg) as Hs.
  pose proof (shape_free _ _ _ Hs) as (Hft & r & Hr & Hsll).
  unfold tmr_create. unfold get_free at 1. erewrite bind_eq by reflexivity.
  rewrite Hft.
  set (s1 := Registry (heap s) (timers s) (t_next r)
                      (alloc_count s) (active_count s) (free_count s + -1) (calls s)).
  assert ((tr <- load t ;; set_free (t_next tr) ;; add_free (-1) ;; ret (Some t)) s
          = Some (Some t, s1)) as Hpick.
  { rewrite (bind_eq _ _ _ _ _ (load_eq _ _ _ Hr)). reflexivity. }
  rewrite (bind_eq _ _ _ _ _ Hpick).
  destruct (shape_pop_free s bs t fl s1 Hs) as [Hs1 Hnl]; [done|done|by simpl; rewrite Hr|].
  destruct (create_tail s1 bs fl t r cb arg msecs periodic tv Hs1)
    as (s' & Hrun & Hs' & Hsorted' & Hdata & Hothers & Hfree' & Hfc' & Hal' & Hac' & Hcalls');
    [intros h Hh; simpl; by apply (good_sorted _ _ _ Hg)|done|done|].
  exists s'. split; [exact Hrun|]. split; [|done].
  split; [done|done|].
  rewrite Hfc'. simpl. rewrite (good_free_count _ _ _ Hg). simpl length. lia.
Qed.

(** [tmr_create] when the free list is empty and [malloc] succeeds. *)
Lemma tmr_create_fresh_good s bs t clock now cb arg msecs periodic :
  good s bs [] -> heap s !! t = None ->
  let tv := tv_add_msecs (default clock now) msecs in
  exists s', tmr_create (Some t) clock now cb arg msecs periodic s = Some (Some t, s') /\
    good s' (<[hash tv := ins (time_at (heap s')) t (bs (hash tv))]> bs) [] /\
    (exists r', heap s' !! t = Some r' /\
       data r' = (cb, arg, msecs, periodic, tv, hash tv)) /\
    (forall x, x ≠ t -> data <$> heap s' !! x = data <$> heap s !! x) /\
    alloc_count s' = alloc_count s + 1 /\ calls s' = calls s.
Proof.
  intros Hg Hfresh tv. pose proof (good_shape _ _ _ Hg) as Hs.
  pose proof (shape_free _ _ _ Hs) as Hft. simpl in Hft.
  unfold tmr_create. unfold get_free at 1. erewrite bind_eq by reflexivity.
  rewrite Hft.
  set (s1 := Registry (<[t := junk]> (heap s)) (timers s) (free_timers s)
                      (alloc_count s + 1) (active_count s) (free_count s) (calls s)).
  assert ((alloc_at t ;; add_alloc 1 ;; ret (Some t)) s = Some (Some t, s1)) as Hpick
    by reflexivity.
  rewrite (bind_eq _ _ _ _ _ Hpick).
  assert (~ listed bs [] t) as Hnl.
  { intros Hl. destruct (listed_in_heap _ _ _ _ Hs Hl) as [r Hr]. congruence. }
  assert (shape s1 bs []) as Hs1 by (by eapply shape_outsider).
  assert (forall x, x ≠ t -> time_at (heap s1) x = time_at (heap s) x) as Ht1
    by (intros x Hx; simpl; by apply time_at_insert_ne).
  destruct (create_tail s1 bs [] t junk cb arg msecs periodic tv Hs1)
    as (s' & Hrun & Hs' & Hsorted' & Hdata & Hothers & Hfree' & Hfc' & Hal' & Hac' & Hcalls').
  { intros h Hh. eapply sorted_ext; [|by eapply good_sorted]. intros x Hx. apply Ht1.
    intros ->. by eapply (not_listed_bucket bs [] t h). }
  { simpl. apply lookup_insert_eq. }
  { done. }
  exists s'. split; [exact Hrun|]. split; [|split; [done|split; [|done]]].
  - split; [done|done|]. rewrite Hfc'. simpl. apply (good_free_count _ _ _ Hg).
  - intros x Hx. rewrite Hothers by done. simpl. by rewrite lookup_insert_ne.
Qed.

(** ** One firing, with callbacks that leave the registry alone *)

Lemma good_agree s s' bs fl :
  good s bs fl ->
  heap s' = heap s -> timers s' = timers s -> free_timers s' = free_timers s ->
  free_count s' = free_count s ->
  good s' bs fl.
Proof.
  intros [Hs Hsorted Hfc] Hheap Htm Hfree Hfc'. split.
  - eapply shape_agree; [exact Hs|done..|]. intros x r _ Hr. exists r. by rewrite Hheap.
  - by rewrite Hheap.
  - by rewrite Hfc'.
Qed.

Lemma fire_good s bs fl h l1 p l2 r now :
  good s bs fl -> (h < HASH_SIZE)%nat -> bs h = l1 ++ p :: l2 ->
  heap s !! p = Some r ->
  exists s2 bs2 fl2,
    fire quiet now p r s = Some (tt, s2) /\ good s2 bs2 fl2 /\
    calls s2 = calls s ++ [Event p (t_cb r) (t_arg r) now] /\
    (forall x, x ≠ p -> data <$> heap s2 !! x = data <$> heap s !! x) /\
    ((t_periodic r = 0 /\ bs2 = <[h := l1 ++ l2]> bs /\ fl2 = p :: fl /\
      data <$> heap s2 !! p = Some (data r))
     \/
     (t_periodic r ≠ 0 /\ fl2 = fl /\
      bs2 = <[hash (tv_add_msecs (t_time r) (t_msecs r)) :=
                ins (time_at (heap s2)) p
                    ((<[h := l1 ++ l2]> bs) (hash (tv_add_msecs (t_time r) (t_msecs r))))]>
              (<[h := l1 ++ l2]> bs) /\
      exists r', heap s2 !! p = Some r' /\
        data r' = (t_cb r, t_arg r, t_msecs r, t_periodic r,
                   tv_add_msecs (t_time r) (t_msecs r),
                   hash (tv_add_msecs (t_time r) (t_msecs r))))).
Proof.
  intros Hg Hh Hbs Hr.
  set (e := Event p (t_cb r) (t_arg r) now).
  set (s1 := Registry (heap s) (timers s) (free_timers s)
                      (alloc_count s) (active_count s) (free_count s) (calls s ++ [e])).
  assert (good s1 bs fl) as Hg1 by (by eapply good_agree).
  unfold fire. unfold log_call at 1. erewrite bind_eq by reflexivity.
  unfold quiet at 1. erewrite bind_eq by reflexivity.
  fold e. fold s1.
  erewrite bind_eq by (apply load_eq; simpl; exact Hr).
  destruct (Z.eqb_spec (t_periodic r) 0) as [Hper|Hper].
  - destruct (tmr_cancel_good _ _ _ _ _ _ _ Hg1 Hh Hbs) as (s2 & Hrun & Hg2 & Hrel & Hcalls).
    exists s2, (<[h := l1 ++ l2]> bs), (p :: fl).
    split; [done|]. split; [done|]. split; [done|]. split.
    + intros x _. by destruct (Hrel x) as [_ ->].
    + left. repeat split; [done|]. destruct (Hrel p) as [_ ->]. simpl. by rewrite Hr.
  - destruct (resched_good s1 bs fl h l1 p l2 r
                (fun r => set_time (tv_add_msecs (t_time r) (t_msecs r)) r)
                (tv_add_msecs (t_time r) (t_msecs r)) Hg1 Hh Hbs)
      as (s2 & Hrun & Hg2 & Hdata & Hothers & Hfree & Hal & Hac & Hfc & Hcalls);
      [done|done|].
    eexists s2, _, fl. split; [done|]. split; [exact Hg2|]. split; [done|].
    split; [done|]. right. done.
Qed.

(** ** The lists read back from the pointers *)

Lemma chain_dseg hp pv hd l fuel :
  dseg hp pv hd l None -> (length l <= fuel)%nat -> chain fuel hp hd = Some l.
Proof.
  revert pv hd fuel. induction l as [|x l IH]; intros pv hd fuel; simpl.
  - intros -> _. by destruct fuel.
  - intros (-> & r & Hr & _ & Hd) Hlen. destruct fuel as [|fuel]; [lia|].
    simpl. rewrite Hr. erewrite IH; [done|done|lia].
Qed.

Lemma sll_dseg_free hp hd l fuel :
  sll hp hd l -> (length l <= fuel)%nat -> chain fuel hp hd = Some l.
Proof.
  revert hd fuel. induction l as [|x l IH]; intros hd fuel; simpl.
  - intros -> _. by destruct fuel.
  - intros (-> & r & Hr & Hd) Hlen. destruct fuel as [|fuel]; [lia|].
    simpl. rewrite Hr. erewrite IH; [done|done|lia].
Qed.

Lemma sll_length hp hd l : NoDup l -> sll hp hd l -> (length l <= size hp)%nat.
Proof.
  intros Hnd Hd.
  assert (list_to_set l ⊆ dom hp) as Hsub.
  { intros x Hx%elem_of_list_to_set. apply elem_of_dom. by eapply sll_lookup. }
  apply subseteq_size in Hsub.
  rewrite size_list_to_set, size_dom in Hsub; done.
Qed.

Lemma shape_bucket_list s bs fl h :
  shape s bs fl -> (h < HASH_SIZE)%nat -> bucket_list s h = Some (bs h).
Proof.
  intros Hs Hh. destruct (shape_bucket _ _ _ Hs h Hh) as (hd & Hhd & Hd).
  unfold bucket_list. rewrite Hhd. eapply chain_dseg; [done|].
  eapply dseg_length; [by eapply shape_nodup|done].
Qed.

Lemma shape_free_list s bs fl : shape s bs fl -> free_list s = Some fl.
Proof.
  intros Hs. unfold free_list. eapply sll_dseg_free; [by eapply shape_free|].
  eapply sll_length; [by eapply shape_free_nodup|by eapply shape_free].
Qed.

Lemma bucket_list_lt s h l : bucket_list s h = Some l -> (h < length (timers s))%nat.
Proof.
  unfold bucket_list. destruct (timers s !! h) eqn:E; [|done].
  intros _. by eapply lookup_lt_Some.
Qed.

(** ** [tmr_init] *)

Lemma good_initial hp log :
  good (Registry hp (replicate HASH_SIZE None) None 0 0 0 log) (fun _ => []) [].
Proof.
  split; [split|..]; cbn [heap timers free_timers free_count].
  - by rewrite length_replicate.
  - intros h Hh. exists None. split; [|done]. by apply lookup_replicate_2.
  - intros. apply NoDup_nil_2.
  - intros h p _ Hp. by apply elem_of_nil in Hp.
  - done.
  - apply NoDup_nil_2.
  - intros h p _ Hp. by apply elem_of_nil in Hp.
  - done.
  - done.
Qed.

Lemma tmr_init_good s0 s : tmr_init s0 = Some (tt, s) -> good s (fun _ => []) [].
Proof. intros [= <-]. apply (good_initial (heap s0) (calls s0)). Qed.

(** ** [tmr_cleanup] and [tmr_destroy] *)

Lemma time_at_delete_ne hp p x : x ≠ p -> time_at (delete p hp) x = time_at hp x.
Proof. intros Hx. unfold time_at. by rewrite lookup_delete_ne. Qed.

Lemma cleanup_loop_good bs fl : forall fuel s,
  good s bs fl -> (length fl <= fuel)%nat ->
  exists s', cleanup_loop fuel s = Some (tt, s') /\ good s' bs [] /\
    calls s' = calls s.
Proof.
  induction fl as [|t fl IH]; intros fuel s Hg Hfuel;
    pose proof (good_shape _ _ _ Hg) as Hs;
    pose proof (shape_free _ _ _ Hs) as Hft; simpl in Hft.
  - exists s. split; [|done]. destruct fuel; simpl; unfold bind, get_free; by rewrite Hft.
  - destruct Hft as (Hft & r & Hr & Hsll).
    destruct fuel as [|fuel]; [simpl in Hfuel; lia|].
    set (s1 := Registry (delete t (heap s)) (timers s) (t_next r)
                 (alloc_count s + -1) (active_count s) (free_count s + -1) (calls s)).
    assert (cleanup_loop (S fuel) s = cleanup_loop fuel s1) as ->.
    { simpl. unfold get_free at 1. erewrite bind_eq by reflexivity. rewrite Hft.
      rewrite (bind_eq _ _ _ _ _ (load_eq _ _ _ Hr)).
      unfold set_free at 1. erewrite bind_eq by reflexivity.
      unfold add_free at 1. erewrite bind_eq by reflexivity.
      unfold add_alloc at 1. erewrite bind_eq by reflexivity.
      unfold release at 1. unfold bind at 1. simpl. by rewrite Hr. }
    destruct (shape_pop_free s bs t fl
                (Registry (heap s) (timers s) (t_next r) (alloc_count s) (active_count s)
                          (free_count s) (calls s)) Hs) as [Hs0 Hnl];
      [done|done|by simpl; rewrite Hr|].
    assert (good s1 bs fl) as Hg1.
    { split.
      - eapply shape_agree; [exact Hs0|done|done|]. intros x rx Hx Hrx.
        exists rx. simpl in *. rewrite lookup_delete_ne; [done|]. by intros ->.
      - intros h Hh. simpl. eapply sorted_ext; [|by apply (good_sorted _ _ _ Hg)].
        intros x Hx. apply time_at_delete_ne. intros ->.
        by eapply (not_listed_bucket bs fl t h).
      - simpl. rewrite (good_free_count _ _ _ Hg). simpl length. lia. }
    destruct (IH fuel s1 Hg1) as (s' & Hrun & Hg' & Hcalls); [simpl in Hfuel; lia|].
    exists s'. done.
Qed.

Lemma tmr_cleanup_good s bs fl :
  good s bs fl ->
  exists s', tmr_cleanup s = Some (tt, s') /\ good s' bs [] /\ calls s' = calls s.
Proof.
  intros Hg. unfold tmr_cleanup. unfold heap_size at 1. erewrite bind_eq by reflexivity.
  apply (cleanup_loop_good bs fl); [done|]. simpl.
  pose proof (good_shape _ _ _ Hg) as Hs.
  eapply sll_length; [by eapply shape_free_nodup|by eapply shape_free].
Qed.

Lemma destroy_bucket_good h fuel : forall s bs fl s',
  good s bs fl -> (h < HASH_SIZE)%nat ->
  destroy_bucket fuel h s = Some (tt, s') ->
  exists bs' fl', good s' bs' fl'.
Proof.
  induction fuel as [|fuel IH]; intros s bs fl s' Hg Hh Hrun;
    pose proof (good_shape _ _ _ Hg) as Hs;
    destruct (shape_bucket _ _ _ Hs h Hh) as (hd & Hhd & Hd);
    simpl in Hrun; rewrite (bind_eq _ _ _ _ _ (bucket_eq _ _ _ Hhd)) in Hrun;
    (destruct hd as [p|]; [|injection Hrun as <-; eauto]).
  - discriminate Hrun.
  - destruct (bs h) as [|q l] eqn:Hbs; simpl in Hd; [done|].
    destruct Hd as ([= <-] & _).
    destruct (tmr_cancel_good s bs fl h [] p l Hg Hh Hbs) as (s1 & Hc & Hg1 & _).
    rewrite (bind_eq _ _ _ _ _ Hc) in Hrun. eapply IH; eauto.
Qed.

Lemma destroy_buckets_good fuel hs : forall s bs fl s',
  good s bs fl -> Forall (fun h => (h < HASH_SIZE)%nat) hs ->
  destroy_buckets fuel hs s = Some (tt, s') ->
  exists bs' fl', good s' bs' fl'.
Proof.
  induction hs as [|h hs IH]; intros s bs fl s' Hg Hhs Hrun; simpl in Hrun.
  - injection Hrun as <-. eauto.
  - apply Forall_cons in Hhs as [Hh Hhs].
    apply bind_Some in Hrun as ([] & s1 & H1 & H2).
    destruct (destroy_bucket_good _ _ _ _ _ _ Hg Hh H1) as (bs1 & fl1 & Hg1).
    eapply IH; eauto.
Qed.

Lemma seq_lt n : Forall (fun h => (h < n)%nat) (seq 0 n).
Proof. apply Forall_forall. intros h Hh%elem_of_seq. lia. Qed.

Lemma tmr_destroy_good fuel s bs fl s' :
  good s bs fl -> tmr_destroy fuel s = Some (tt, s') ->
  exists bs' fl', good s' bs' fl'.
Proof.
  intros Hg Hrun. unfold tmr_destroy in Hrun.
  apply bind_Some in Hrun as ([] & s1 & H1 & H2).
  destruct (destroy_buckets_good _ _ _ _ _ _ Hg (seq_lt _) H1) as (bs1 & fl1 & Hg1).
  destruct (tmr_cleanup_good _ _ _ Hg1) as (s2 & Hc & Hg2 & _).
  rewrite Hc in H2. injection H2 as <-. eauto.
Qed.

(** ** [tmr_run] keeps the lists well formed *)

Lemma ins_incl tm p l x : x ∈ l -> x ∈ ins tm p l.
Proof. intros Hx. apply elem_of_ins. by right. Qed.

Lemma run_bucket_good now fuel : forall c s s',
  (exists bs fl, good s bs fl /\
     forall p, c = Some p -> exists h, (h < HASH_SIZE)%nat /\ p ∈ bs h) ->
  run_bucket quiet fuel now c s = Some (tt, s') ->
  exists bs' fl', good s' bs' fl'.
Proof.
  induction fuel as [|fuel IH]; intros c s s' (bs & fl & Hg & Hc) Hrun;
    (destruct c as [p|]; simpl in Hrun; [|injection Hrun as <-; eauto]).
  - discriminate Hrun.
  - destruct (Hc p eq_refl) as (h & Hh & Hp).
    pose proof (good_shape _ _ _ Hg) as Hs.
    apply list_elem_of_split in Hp as (l1 & l2 & Hbs).
    destruct (shape_bucket _ _ _ Hs h Hh) as (hd & Hhd & Hd). rewrite Hbs in Hd.
    destruct (dseg_mid _ _ _ _ _ _ _ Hd) as (r & Hr & Hpv & Hnx).
    rewrite (bind_eq _ _ _ _ _ (load_eq _ _ _ Hr)) in Hrun.
    destruct (not_ready (t_time r) now); [injection Hrun as <-; eauto|].
    destruct (fire_good _ _ _ _ _ _ _ _ now Hg Hh Hbs Hr)
      as (s2 & bs2 & fl2 & Hfire & Hg2 & _ & _ & Hcase).
    rewrite (bind_eq _ _ _ _ _ Hfire) in Hrun.
    eapply IH; [|exact Hrun]. exists bs2, fl2. split; [done|].
    intros n Hn. exists h. split; [done|].
    assert (n ∈ l1 ++ l2) as Hn12.
    { rewrite Hnx in Hn. destruct l2; simpl in Hn; [done|]. injection Hn as ->. set_solver. }
    destruct Hcase as [(_ & -> & _)|(_ & _ & -> & _)].
    + by rewrite fn_lookup_insert.
    + destruct (decide (hash (tv_add_msecs (t_time r) (t_msecs r)) = h)) as [E|E].
      * rewrite E, fn_lookup_insert. apply ins_incl. by rewrite fn_lookup_insert.
      * rewrite fn_lookup_insert_ne by done. by rewrite fn_lookup_insert.
Qed.

Lemma run_buckets_good now fuel hs : forall s s',
  (exists bs fl, good s bs fl) -> Forall (fun h => (h < HASH_SIZE)%nat) hs ->
  run_buckets quiet fuel now hs s = Some (tt, s') ->
  exists bs' fl', good s' bs' fl'.
Proof.
  induction hs as [|h hs IH]; intros s s' (bs & fl & Hg) Hhs Hrun; simpl in Hrun.
  - injection Hrun as <-. eauto.
  - apply Forall_cons in Hhs as [Hh Hhs].
    pose proof (good_shape _ _ _ Hg) as Hs.
    destruct (shape_bucket _ _ _ Hs h Hh) as (hd & Hhd & Hd).
    rewrite (bind_eq _ _ _ _ _ (bucket_eq _ _ _ Hhd)) in Hrun.
    apply bind_Some in Hrun as ([] & s1 & H1 & H2).
    eapply IH; [|done|exact H2].
    eapply run_bucket_good; [|exact H1]. exists bs, fl. split; [done|].
    intros p ->. exists h. split; [done|].
    apply dseg_head in Hd. destruct (bs h); simpl in Hd; [done|].
    injection Hd as ->. set_solver.
Qed.

Lemma tmr_run_good now fuel s bs fl s' :
  good s bs fl -> tmr_run quiet fuel now s = Some (tt, s') ->
  exists bs' fl', good s' bs' fl'.
Proof.
  intros Hg Hrun. eapply run_buckets_good; [eauto|apply seq_lt|exact Hrun].
Qed.

(** ** Every reachable registry is well formed *)

Lemma active_in_good s bs fl p :
  good s bs fl -> active_in s p -> exists h, (h < HASH_SIZE)%nat /\ p ∈ bs h.
Proof.
  intros Hg (h & l & Hl & Hp). pose proof (good_shape _ _ _ Hg) as Hs.
  pose proof (bucket_list_lt _ _ _ Hl) as Hh. rewrite (shape_len _ _ _ Hs) in Hh.
  rewrite (shape_bucket_list _ _ _ _ Hs Hh) in Hl. injection Hl as <-. eauto.
Qed.

Lemma exec_op_good s bs fl o s' :
  good s bs fl -> legal s o -> exec_op quiet o s = Some (tt, s') ->
  exists bs' fl', good s' bs' fl'.
Proof.
  intros Hg Hlegal Hrun. destruct o as [malloc clock now cb arg msecs periodic
    | t | now t | fuel now | INFTIM now | | fuel]; cbn [exec_op legal] in Hrun, Hlegal.
  - apply bind_Some in Hrun as (r & s1 & Hc & [= <-]).
    destruct fl as [|t fl].
    + destruct malloc as [t|].
      * destruct (tmr_create_fresh_good s bs t clock now cb arg msecs periodic Hg)
          as (s2 & Hc2 & Hg2 & _); [by apply Hlegal|].
        rewrite Hc2 in Hc. injection Hc as _ <-. eauto.
      * assert (tmr_create None clock now cb arg msecs periodic s = Some (None, s)) as Hn.
        { apply tmr_create_null_inv. repeat split.
          by pose proof (shape_free _ _ _ (good_shape _ _ _ Hg)). }
        rewrite Hn in Hc. injection Hc as _ <-. eauto.
    + destruct (tmr_create_reuse_good s bs t fl malloc clock now cb arg msecs periodic Hg)
        as (s2 & Hc2 & Hg2 & _).
      rewrite Hc2 in Hc. injection Hc as _ <-. eauto.
  - destruct t as [p|]; [|injection Hrun as <-; eauto].
    destruct (active_in_good _ _ _ _ Hg (Hlegal p eq_refl)) as (h & Hh & Hp).
    apply list_elem_of_split in Hp as (l1 & l2 & Hbs).
    destruct (tmr_cancel_good _ _ _ _ _ _ _ Hg Hh Hbs) as (s2 & Hc & Hg2 & _).
    rewrite Hc in Hrun. injection Hrun as <-. eauto.
  - destruct t as [p|]; [|injection Hrun as <-; eauto].
    destruct (active_in_good _ _ _ _ Hg (Hlegal p eq_refl)) as (h & Hh & Hp).
    destruct (shape_hash _ _ _ (good_shape _ _ _ Hg) h p Hh Hp) as (r & Hr & _).
    apply list_elem_of_split in Hp as (l1 & l2 & Hbs).
    destruct (tmr_reset_good _ _ _ _ _ _ _ _ now Hg Hh Hbs Hr) as (s2 & Hc & Hg2 & _).
    rewrite Hc in Hrun. injection Hrun as <-. eauto.
  - by eapply tmr_run_good.
  - apply bind_Some in Hrun as (v & s1 & Hc & [= <-]).
    apply readonly_tmr_mstimeout in Hc as ->. eauto.
  - destruct (tmr_cleanup_good _ _ _ Hg) as (s2 & Hc & Hg2 & _).
    rewrite Hc in Hrun. injection Hrun as <-. eauto.
  - by eapply tmr_destroy_good.
Qed.

Lemma reachable_good s : reachable s -> exists bs fl, good s bs fl.
Proof.
  induction 1 as [s0 s Hinit|s o s' _ (bs & fl & Hg) Hlegal Hrun].
  - eexists _, _. by eapply tmr_init_good.
  - by eapply exec_op_good.
Qed.


(** ** Time arithmetic *)

Lemma goes_before_usecs a b :
  normal a -> normal b -> (goes_before a b = true <-> usecs a <= usecs b).
Proof. unfold normal, usecs, goes_before. lia. Qed.

Lemma not_ready_usecs t now :
  normal t -> normal now -> (not_ready t now = true <-> usecs now < usecs t).
Proof. unfold normal, usecs, not_ready. lia. Qed.

Lemma not_ready_goes_before t now : not_ready t now = negb (goes_before t now).
Proof. unfold not_ready, goes_before. lia. Qed.

Lemma normal_inj a b : normal a -> normal b -> usecs a = usecs b -> a = b.
Proof.
  destruct a as [sa ua], b as [sb ub]. unfold normal, usecs. simpl.
  intros Ha Hb E. assert (sa = sb) by lia. f_equal; lia.
Qed.

(** Adding a non-negative number of milliseconds to a normal time gives the
    normal form of the exact sum. *)
Lemma tv_add_msecs_exact tv ms :
  normal tv -> 0 <= ms ->
  normal (tv_add_msecs tv ms) /\ usecs (tv_add_msecs tv ms) = usecs tv + 1000 * ms.
Proof.
  unfold normal, usecs, tv_add_msecs. intros Hn Hms.
  rewrite (Z.quot_div_nonneg ms 1000), (Z.rem_mod_nonneg ms 1000) by lia.
  pose proof (Z.div_mod ms 1000 ltac:(lia)) as Hdm.
  pose proof (Z.mod_pos_bound ms 1000 ltac:(lia)) as Hmb.
  set (u := tv_usec tv + ms mod 1000 * 1000) in *.
  destruct (Z.leb_spec 1000000 u) as [Hu|Hu]; simpl.
  - rewrite (Z.quot_div_nonneg u 1000000), (Z.rem_mod_nonneg u 1000000) by lia.
    pose proof (Z.div_mod u 1000000 ltac:(lia)) as Hdu.
    pose proof (Z.mod_pos_bound u 1000000 ltac:(lia)) as Hub.
    split; [lia|]. subst u. lia.
  - subst u. lia.
Qed.

(** ** Buckets that [tmr_run] has nothing to do in *)

Lemma empty_bucket_head s bs fl h :
  shape s bs fl -> (h < HASH_SIZE)%nat -> bs h = [] -> timers s !! h = Some None.
Proof.
  intros Hs Hh Hbs. destruct (shape_bucket _ _ _ Hs h Hh) as (hd & Hhd & Hd).
  rewrite Hbs in Hd. simpl in Hd. by subst hd.
Qed.

Lemma run_buckets_empty invoke fuel now hs s :
  Forall (fun h => timers s !! h = Some None) hs ->
  run_buckets invoke fuel now hs s = Some (tt, s).
Proof.
  induction hs as [|h hs IH]; intros Hhs; simpl; [done|].
  apply Forall_cons in Hhs as [Hh Hhs].
  rewrite (bind_eq _ _ _ _ _ (bucket_eq _ _ _ Hh)).
  assert (run_bucket invoke fuel now None s = Some (tt, s)) as Hr by (by destruct fuel).
  rewrite (bind_eq _ _ _ _ _ Hr). by apply IH.
Qed.

Lemma run_buckets_app invoke fuel now hs1 hs2 s :
  run_buckets invoke fuel now (hs1 ++ hs2) s =
  (run_buckets invoke fuel now hs1 ;; run_buckets invoke fuel now hs2) s.
Proof.
  revert s. induction hs1 as [|h hs1 IH]; intros s; simpl; [done|].
  unfold bind. destruct (bucket h s) as [[t s1]|]; [|done].
  destruct (run_bucket invoke fuel now t s1) as [[[] s2]|]; [|done].
  rewrite IH. done.
Qed.

Lemma seq_split_at n h :
  (h < n)%nat -> seq 0 n = seq 0 h ++ h :: seq (S h) (n - S h).
Proof.
  intros Hh. replace n with (h + S (n - S h))%nat at 1 by lia.
  rewrite seq_app. simpl. done.
Qed.

(** ** [tmr_create] never fails while the free list has a record *)

(** C10.  In a reachable registry with [free_count > 0], [tmr_create]
    returns the head of the free list as a valid handle whatever [malloc]
    would have answered: it does not allocate, [alloc_count] stays as it is
    and [free_count] drops by one. *)
Theorem tmr_create_reuses_free_record
    (s : registry) (malloc : option nat) (clock : timeval) (now : option timeval)
    (cb : callback) (arg : arg_t) (msecs periodic : Z) :
  reachable s -> 0 < free_count s ->
  exists t s',
    free_timers s = Some t /\
    tmr_create malloc clock now cb arg msecs periodic s = Some (Some t, s') /\
    (forall malloc',
       tmr_create malloc' clock now cb arg msecs periodic s = Some (Some t, s')) /\
    alloc_count s' = alloc_count s /\
    free_count s' = free_count s - 1.
Proof.
  intros (bs & fl & Hg)%reachable_good Hfc.
  rewrite (good_free_count _ _ _ Hg) in Hfc.
  destruct fl as [|t fl]; [simpl in Hfc; lia|].
  pose proof (shape_free _ _ _ (good_shape _ _ _ Hg)) as (Hft & _).
  destruct (tmr_create_reuse_good s bs t fl malloc clock now cb arg msecs periodic Hg)
    as (s' & Hc & Hg' & _ & _ & Hal & _).
  exists t, s'. split; [done|]. split; [done|]. split; [|split; [done|]].
  - intros malloc'.
    destruct (tmr_create_reuse_good s bs t fl malloc' clock now cb arg msecs periodic Hg)
      as (s'' & Hc' & _).
    rewrite Hc'. f_equal. f_equal.
    (* both runs take the same steps: [malloc] is never consulted *)
    unfold tmr_create in Hc, Hc'. unfold get_free, bind in Hc, Hc'.
    rewrite Hft in Hc, Hc'. congruence.
  - rewrite (good_free_count _ _ _ Hg'), (good_free_count _ _ _ Hg). simpl length. lia.
Qed.

(** ** A one-shot timer: create, run at the trigger time, freed *)

Lemma good_ext s bs bs' fl :
  (forall h, (h < HASH_SIZE)%nat -> bs' h = bs h) -> good s bs fl -> good s bs' fl.
Proof.
  intros E [[H1 H2 H3 H4 H5 H6 H7] Hsorted Hfc]. split; [split|..]; try done.
  - intros h Hh. rewrite E by done. by apply H2.
  - intros h Hh. rewrite E by done. by apply H3.
  - intros h p Hh. rewrite E by done. by apply H4.
  - intros h p Hh. rewrite E by done. by apply H7.
  - intros h Hh. rewrite E by done. by apply Hsorted.
Qed.

Lemma not_ready_refl tv : not_ready tv tv = false.
Proof. unfold not_ready. lia. Qed.

(** What a successful [tmr_create] leaves behind, whichever way it got its
    record. *)
Lemma tmr_create_good s bs fl malloc clock now cb arg msecs periodic t s1 :
  good s bs fl ->
  (forall p, malloc = Some p -> heap s !! p = None) ->
  tmr_create malloc clock now cb arg msecs periodic s = Some (Some t, s1) ->
  exists fl1 r1,
    good s1 (<[hash (tv_add_msecs (default clock now) msecs) :=
               ins (time_at (heap s1)) t (bs (hash (tv_add_msecs (default clock now) msecs)))]>
             bs) fl1 /\
    heap s1 !! t = Some r1 /\
    data r1 = (cb, arg, msecs, periodic, tv_add_msecs (default clock now) msecs,
               hash (tv_add_msecs (default clock now) msecs)) /\
    (forall x, x ≠ t -> data <$> heap s1 !! x = data <$> heap s !! x) /\
    ~ (exists h, (h < HASH_SIZE)%nat /\ t ∈ bs h) /\
    calls s1 = calls s.
Proof.
  intros Hg Hfresh Hc. pose proof (good_shape _ _ _ Hg) as Hs.
  destruct fl as [|t0 fl].
  - destruct malloc as [t0|].
    + destruct (tmr_create_fresh_good s bs t0 clock now cb arg msecs periodic Hg)
        as (s2 & Hc2 & Hg2 & (r1 & Hr1 & Hd1) & Ho & _ & Hcalls); [by apply Hfresh|].
      rewrite Hc2 in Hc. injection Hc as <- <-.
      exists [], r1. do 4 (split; [done|]). split; [|done].
      intros (h & Hh & Hx). destruct (shape_hash _ _ _ Hs h t0 Hh Hx) as (r & Hr & _).
      rewrite (Hfresh t0 eq_refl) in Hr. done.
    + assert (tmr_create None clock now cb arg msecs periodic s = Some (None, s)) as Hn.
      { apply tmr_create_null_inv. repeat split.
        by pose proof (shape_free _ _ _ Hs). }
      rewrite Hn in Hc. discriminate Hc.
  - destruct (tmr_create_reuse_good s bs t0 fl malloc clock now cb arg msecs periodic Hg)
      as (s2 & Hc2 & Hg2 & (r1 & Hr1 & Hd1) & Ho & _ & Hcalls).
    rewrite Hc2 in Hc. injection Hc as <- <-.
    exists fl, r1. do 4 (split; [done|]). split; [|done].
    intros (h & Hh & Hx). eapply shape_sep; [done..|]. set_solver.
Qed.

(** C5.  In a reachable registry without active timers, create a one-shot
    timer with delay [d >= 0] at the time [t0] and call [tmr_run] once at
    [now = t0 + d]: the run returns, it has called the timer's callback
    exactly once, with [(arg, now)], and it leaves the record at the head of
    the free list and every bucket empty. *)
Theorem one_shot_fires_once_and_is_freed
    (s s1 : registry) (malloc : option nat) (clock t0 now : timeval)
    (cb : callback) (arg : arg_t) (d : Z) (t : nat) (fuel : nat) :
  reachable s ->
  (forall h, (h < HASH_SIZE)%nat -> bucket_list s h = Some []) ->
  (forall p, malloc = Some p -> heap s !! p = None) ->
  0 <= d -> normal t0 -> normal now -> usecs now = usecs t0 + 1000 * d ->
  tmr_create malloc clock (Some t0) cb arg d 0 s = Some (Some t, s1) ->
  (0 < fuel)%nat ->
  exists s2 fl,
    tmr_run quiet fuel now s1 = Some (tt, s2) /\
    calls s2 = calls s ++ [Event t cb arg now] /\
    free_list s2 = Some (t :: fl) /\
    forall h, (h < HASH_SIZE)%nat -> bucket_list s2 h = Some [].
Proof.
  intros (bs & fl & Hg)%reachable_good Hempty Hfresh Hd Ht0 Hnow Hsum Hc Hfuel.
  assert (good s (fun _ => []) fl) as Hg0.
  { eapply good_ext; [|exact Hg]. intros h Hh. cbv beta.
    pose proof (shape_bucket_list _ _ _ _ (good_shape _ _ _ Hg) Hh) as E.
    rewrite Hempty in E by done. by injection E. }
  clear Hg bs.
  destruct (tmr_create_good _ _ _ _ _ _ _ _ _ _ _ _ Hg0 Hfresh Hc)
    as (fl1 & r1 & Hg1 & Hr1 & Hd1 & _ & _ & Hcalls1).
  simpl default in *. simpl ins in Hg1.
  destruct (tv_add_msecs_exact t0 d Ht0 Hd) as [Hn Hu].
  assert (tv_add_msecs t0 d = now) as Htv by (apply normal_inj; [done..|lia]).
  rewrite Htv in *. clear Hn Hu Htv.
  set (h := hash now) in *. pose proof (hash_lt now) as Hh. fold h in Hh.
  set (bs1 := <[h := [t]]> (fun _ : nat => @nil nat)) in *.
  pose proof (good_shape _ _ _ Hg1) as Hs1.
  assert (bs1 h = [] ++ t :: []) as Hbs1 by (unfold bs1; by rewrite fn_lookup_insert).
  (* the one firing *)
  destruct (fire_good _ _ _ _ _ _ _ _ now Hg1 Hh Hbs1 Hr1)
    as (s2 & bs2 & fl2 & Hfire & Hg2 & Hcalls2 & _ & Hcase).
  assert (t_periodic r1 = 0 /\ t_cb r1 = cb /\ t_arg r1 = arg /\ t_time r1 = now)
    as (Hper & Hcb & Harg & Htime) by (unfold data in Hd1; by simplify_eq).
  destruct Hcase as [(_ & -> & -> & _)|(Hper' & _)]; [|done].
  pose proof (good_shape _ _ _ Hg2) as Hs2.
  assert (forall h', (h' < HASH_SIZE)%nat -> (<[h := [] ++ []]> bs1) h' = []) as Hbs2.
  { intros h' _. destruct (decide (h = h')) as [<-|Hne].
    - by rewrite fn_lookup_insert.
    - rewrite fn_lookup_insert_ne by done. unfold bs1. by rewrite fn_lookup_insert_ne. }
  (* the run: empty buckets, the bucket of [t], empty buckets *)
  exists s2, fl1. split; [|split; [|split]].
  - unfold tmr_run. rewrite (seq_split_at HASH_SIZE h Hh), run_buckets_app.
    erewrite bind_eq.
    2:{ apply run_buckets_empty. apply Forall_forall. intros h' Hh'%elem_of_seq.
        eapply empty_bucket_head; [exact Hs1|lia|].
        unfold bs1. rewrite fn_lookup_insert_ne by lia. done. }
    cbn [run_buckets].
    destruct (shape_bucket _ _ _ Hs1 h Hh) as (hd & Hhd & Hdseg).
    rewrite Hbs1 in Hdseg. destruct (dseg_mid _ _ _ _ _ _ _ Hdseg) as (r & Hr & _ & Hnx).
    assert (r = r1) as -> by congruence. simpl in Hnx.
    apply dseg_head in Hdseg. simpl in Hdseg. subst hd.
    rewrite (bind_eq _ _ _ _ _ (bucket_eq _ _ _ Hhd)).
    destruct fuel as [|fuel]; [lia|].
    assert (run_bucket quiet (S fuel) now (Some t) s1 = Some (tt, s2)) as Hrb.
    { cbn [run_bucket]. rewrite (bind_eq _ _ _ _ _ (load_eq _ _ _ Hr1)).
      rewrite Htime, not_ready_refl, Hnx.
      rewrite (bind_eq _ _ _ _ _ Hfire). by destruct fuel. }
    rewrite (bind_eq _ _ _ _ _ Hrb).
    apply run_buckets_empty. apply Forall_forall. intros h' Hh'%elem_of_seq.
    eapply empty_bucket_head; [exact Hs2|lia|]. apply Hbs2. lia.
  - rewrite Hcalls2, Hcalls1, Hcb, Harg. done.
  - by eapply shape_free_list.
  - intros h' Hh'. erewrite shape_bucket_list by done. by rewrite Hbs2.
Qed.

(** ** [tmr_mstimeout] returns the least wait *)

Lemma quot_1000_bounds x :
  (0 <= x -> 1000 * (x ÷ 1000) <= x < 1000 * (x ÷ 1000) + 1000) /\
  (x <= 0 -> 1000 * (x ÷ 1000) - 1000 < x <= 1000 * (x ÷ 1000)).
Proof.
  split; intros Hx.
  - rewrite Z.quot_div_nonneg by lia.
    pose proof (Z.div_mod x 1000 ltac:(lia)). pose proof (Z.mod_pos_bound x 1000 ltac:(lia)).
    lia.
  - replace x with (- (- x)) at 1 2 4 by lia. rewrite Z.quot_opp_l by lia.
    rewrite Z.quot_div_nonneg by lia.
    pose proof (Z.div_mod (- x) 1000 ltac:(lia)).
    pose proof (Z.mod_pos_bound (- x) 1000 ltac:(lia)). lia.
Qed.

(** The wait computed at line 246 grows with the trigger time. *)
Lemma msecs_until_mono now a b :
  normal now -> normal a -> normal b -> goes_before a b = true ->
  msecs_until now a <= msecs_until now b.
Proof.
  unfold normal, goes_before, msecs_until. intros Hn Ha Hb Hab.
  pose proof (quot_1000_bounds (tv_usec a - tv_usec now)) as [A1 A2].
  pose proof (quot_1000_bounds (tv_usec b - tv_usec now)) as [B1 B2].
  destruct (Z.le_gt_cases 0 (tv_usec a - tv_usec now)),
           (Z.le_gt_cases 0 (tv_usec b - tv_usec now)); lia.
Qed.

(** It is the exact difference in milliseconds up to rounding: less than one
    millisecond off. *)
Lemma msecs_until_close now t :
  usecs t - usecs now - 1000 < 1000 * msecs_until now t < usecs t - usecs now + 1000.
Proof.
  unfold usecs, msecs_until.
  pose proof (quot_1000_bounds (tv_usec t - tv_usec now)) as [A1 A2].
  destruct (Z.le_gt_cases 0 (tv_usec t - tv_usec now)); lia.
Qed.

Lemma is_min_unique m m' ws : is_min m ws -> is_min m' ws -> m = m'.
Proof. intros [H1 H2] [H1' H2']. apply H2 in H1'. apply H2' in H1. lia. Qed.

Lemma is_min_foldr w ws : is_min (foldr Z.min w ws) (w :: ws).
Proof.
  induction ws as [|x ws [IH1 IH2]]; simpl.
  - split; [set_solver|]. intros y Hy. assert (y = w) by set_solver. lia.
  - split.
    + destruct (Z.min_spec x (foldr Z.min w ws)) as [[_ ->]|[_ ->]]; set_solver.
    + intros y Hy.
      assert (y = x \/ y ∈ w :: ws) as [->|Hy'] by set_solver; [lia|].
      apply IH2 in Hy'. lia.
Qed.

Lemma active_ptrs_good s bs fl :
  shape s bs fl -> active_ptrs s = flat_map bs (seq 0 HASH_SIZE).
Proof.
  intros Hs. unfold active_ptrs.
  pose proof (seq_lt HASH_SIZE) as Hlt.
  induction (seq 0 HASH_SIZE) as [|h hs IH]; simpl; [done|].
  apply Forall_cons in Hlt as [Hh Hlt].
  rewrite (shape_bucket_list _ _ _ _ Hs Hh). simpl. by rewrite IH.
Qed.

Lemma elem_of_map {A B} (f : A -> B) (l : list A) (y : B) :
  y ∈ map f l <-> exists x, y = f x /\ x ∈ l.
Proof.
  rewrite list_elem_of_In, in_map_iff. split; intros (x & H1 & H2); exists x.
  - by rewrite list_elem_of_In.
  - by rewrite <- list_elem_of_In.
Qed.

Lemma elem_of_flat_map {A B} (f : A -> list B) (l : list A) (y : B) :
  y ∈ flat_map f l <-> exists x, x ∈ l /\ y ∈ f x.
Proof.
  rewrite list_elem_of_In, in_flat_map. split; intros (x & H1 & H2); exists x.
  - by rewrite !list_elem_of_In.
  - by rewrite <- !list_elem_of_In.
Qed.

Section Mstimeout.

Variables (s : registry) (bs : nat -> list nat) (fl : list nat) (now : timeval).
Hypothesis Hgood : good s bs fl.
Hypothesis Hnow : normal now.
Hypothesis Hnormal : forall h p, (h < HASH_SIZE)%nat -> p ∈ bs h -> normal (time_at (heap s) p).

Notation wait := (wait_at now s).

(** The head of a bucket has the least wait of the bucket. *)
Lemma bucket_head_least h q l :
  (h < HASH_SIZE)%nat -> bs h = q :: l -> forall x, x ∈ q :: l -> wait q <= wait x.
Proof.
  intros Hh Hbs x Hx.
  pose proof (good_sorted _ _ _ Hgood h Hh) as Hsorted. rewrite Hbs in Hsorted.
  destruct Hsorted as [F _]. rewrite Forall_forall in F.
  unfold wait_at. apply msecs_until_mono; [done|..].
  - apply (Hnormal h); [done|]. rewrite Hbs. set_solver.
  - apply (Hnormal h); [done|]. by rewrite Hbs.
  - apply elem_of_cons in Hx as [->|Hx]; [apply goes_before_refl|by apply F].
Qed.

Lemma mstimeout_loop_spec hs : forall acc W,
  Forall (fun h => (h < HASH_SIZE)%nat) hs -> acc_ok acc W ->
  exists acc', mstimeout_loop hs now acc s = Some (acc', s) /\
    acc_ok acc' (W ++ map wait (flat_map bs hs)).
Proof.
  pose proof (good_shape _ _ _ Hgood) as Hs.
  induction hs as [|h hs IH]; intros acc W Hhs Hacc; simpl.
  - exists acc. by rewrite app_nil_r.
  - apply Forall_cons in Hhs as [Hh Hhs].
    destruct (shape_bucket _ _ _ Hs h Hh) as (hd & Hhd & Hd).
    rewrite (bind_eq _ _ _ _ _ (bucket_eq _ _ _ Hhd)).
    rewrite map_app, app_assoc.
    destruct (bs h) as [|q l] eqn:Hbs; simpl in Hd.
    + subst hd. erewrite bind_eq by reflexivity. simpl map. rewrite app_nil_r.
      by apply IH.
    + destruct Hd as (-> & rq & Hrq & _ & _).
      erewrite bind_eq by (rewrite (bind_eq _ _ _ _ _ (load_eq _ _ _ Hrq)); reflexivity).
      apply IH; [done|].
      pose proof (bucket_head_least h q l Hh Hbs) as Hleast.
      assert (msecs_until now (t_time rq) = wait q) as Hm
        by (unfold wait_at; by rewrite (time_at_eq _ _ _ Hrq)).
      unfold mstimeout_step, acc_ok in *. rewrite Hm. destruct acc as [[] msecs]; simpl in *.
      * destruct Hacc as [Hin Hle]. destruct (Z.ltb_spec (wait q) msecs) as [Hlt|Hge]; simpl.
        -- split; [set_solver|]. intros w [Hw|Hw]%elem_of_app.
           ++ apply Hle in Hw. lia.
           ++ apply elem_of_cons in Hw as [->|(x & -> & Hx)%elem_of_map]; [lia|].
              apply Hleast. set_solver.
        -- split; [set_solver|]. intros w [Hw|Hw]%elem_of_app; [by apply Hle|].
           apply elem_of_cons in Hw as [->|(x & -> & Hx)%elem_of_map]; [lia|].
           assert (wait q <= wait x) by (apply Hleast; set_solver). lia.
      * subst W. simpl. split; [set_solver|].
        intros w [->|(x & -> & Hx)%elem_of_map]%elem_of_cons; [lia|].
        apply Hleast. set_solver.
Qed.

(** The value [tmr_mstimeout] returns, and the registry it leaves. *)
Lemma tmr_mstimeout_spec INFTIM :
  tmr_mstimeout INFTIM now s
  = Some (timeout_spec INFTIM (map wait (flat_map bs (seq 0 HASH_SIZE))), s).
Proof.
  destruct (mstimeout_loop_spec (seq 0 HASH_SIZE) (false, 0) [] (seq_lt _) eq_refl)
    as ([gotone msecs] & Hrun & Hacc).
  unfold tmr_mstimeout. rewrite (bind_eq _ _ _ _ _ Hrun).
  rewrite app_nil_l in Hacc.
  set (ws := map wait (flat_map bs (seq 0 HASH_SIZE))) in *. clearbody ws.
  unfold acc_ok in Hacc. cbn [fst snd negb] in *.
  destruct gotone; cbn [negb].
  - destruct ws as [|w ws].
    + destruct Hacc as [Hin _]. by apply elem_of_nil in Hin.
    + cbn [timeout_spec]. rewrite (is_min_unique _ _ _ Hacc (is_min_foldr w ws)).
      by destruct (_ <=? 0).
  - by rewrite Hacc.
Qed.

End Mstimeout.

Lemma all_normal_good s bs fl :
  shape s bs fl -> all_normal s ->
  forall h p, (h < HASH_SIZE)%nat -> p ∈ bs h -> normal (time_at (heap s) p).
Proof.
  intros Hs Hn h p Hh Hp. unfold all_normal in Hn.
  rewrite (active_ptrs_good _ _ _ Hs), Forall_forall in Hn. apply Hn.
  apply elem_of_flat_map. exists h. split; [|done]. apply elem_of_seq. lia.
Qed.

Lemma reachable_mstimeout INFTIM now s :
  reachable s -> all_normal s -> normal now ->
  tmr_mstimeout INFTIM now s = Some (timeout_spec INFTIM (waits now s), s).
Proof.
  intros (bs & fl & Hg)%reachable_good Hn Hnow.
  pose proof (good_shape _ _ _ Hg) as Hs.
  unfold waits. rewrite (active_ptrs_good _ _ _ Hs).
  eapply tmr_mstimeout_spec; [done..|]. by eapply all_normal_good.
Qed.

(** C2.  In a reachable registry whose trigger times are in normal form, and
    for a [now] in normal form, [tmr_mstimeout] returns, leaves the registry
    as it is, and its value is [INFTIM] when there is no active timer;
    otherwise it is the least, over all active timers, of the time from [now]
    to the trigger in milliseconds, except that 500 is returned when that
    least value is zero or negative.  The time to a trigger in milliseconds
    is the one line 246 computes; it is less than one millisecond away from
    the exact difference. *)
Theorem tmr_mstimeout_least_wait (INFTIM : Z) (now : timeval) (s : registry) :
  reachable s -> all_normal s -> normal now ->
  exists v, tmr_mstimeout INFTIM now s = Some (v, s) /\
    (active_ptrs s = [] -> v = INFTIM) /\
    (active_ptrs s <> [] ->
       exists m, is_min m (waits now s) /\ v = if m <=? 0 then 500 else m) /\
    (forall p, p ∈ active_ptrs s ->
       usecs (time_at (heap s) p) - usecs now - 1000
       < 1000 * wait_at now s p
       < usecs (time_at (heap s) p) - usecs now + 1000).
Proof.
  intros Hr Hn Hnow. exists (timeout_spec INFTIM (waits now s)).
  split; [by apply reachable_mstimeout|]. unfold waits. split; [|split].
  - by intros ->.
  - intros Hne. destruct (active_ptrs s) as [|p ps]; [done|]. cbn [map timeout_spec].
    eexists. split; [apply is_min_foldr|done].
  - intros p _. apply msecs_until_close.
Qed.

(** ** Waits below one millisecond *)

Lemma msecs_until_sub_msec now t :
  normal now -> normal t -> 0 < usecs t - usecs now < 1000 ->
  msecs_until now t = if tv_sec t =? tv_sec now then 0 else 1.
Proof.
  unfold normal, usecs, msecs_until. intros Hn Ht Hd.
  pose proof (quot_1000_bounds (tv_usec t - tv_usec now)) as [A1 A2].
  destruct (Z.eqb_spec (tv_sec t) (tv_sec now)) as [E|E].
  - rewrite E in *. lia.
  - assert (tv_sec t = tv_sec now + 1) as E' by lia. rewrite E' in *. lia.
Qed.

(** C9, as the code has it.  In a reachable registry in normal form, let the
    earliest active trigger be later than [now] by less than one
    millisecond.  Then [tmr_mstimeout] returns 500 when that trigger lies in
    the same second as [now] (the difference is truncated to 0 and the
    clamp applies), and 1 when it lies in the next second (the negative
    microsecond difference is truncated towards zero, which rounds the wait
    up to one millisecond). *)
Theorem tmr_mstimeout_sub_millisecond (INFTIM : Z) (now : timeval) (s : registry) (p : nat) :
  reachable s -> all_normal s -> normal now ->
  p ∈ active_ptrs s ->
  (forall x, x ∈ active_ptrs s -> usecs (time_at (heap s) p) <= usecs (time_at (heap s) x)) ->
  0 < usecs (time_at (heap s) p) - usecs now < 1000 ->
  tmr_mstimeout INFTIM now s
  = Some (if tv_sec (time_at (heap s) p) =? tv_sec now then 500 else 1, s).
Proof.
  intros Hr Hn Hnow Hp Hleast Hd.
  rewrite (reachable_mstimeout INFTIM now s Hr Hn Hnow). f_equal. f_equal.
  unfold all_normal in Hn. rewrite Forall_forall in Hn.
  assert (is_min (wait_at now s p) (waits now s)) as Hmin'.
  { unfold waits. split.
    - apply elem_of_map. eauto.
    - intros w (x & -> & Hx)%elem_of_map. unfold wait_at.
      apply msecs_until_mono; [done|by apply Hn|by apply Hn|].
      apply goes_before_usecs; [by apply Hn|by apply Hn|by apply Hleast]. }
  destruct (waits now s) as [|w ws] eqn:E.
  { destruct Hmin' as [Hin _]. by apply elem_of_nil in Hin. }
  cbn [timeout_spec]. rewrite (is_min_unique _ _ _ (is_min_foldr w ws) Hmin').
  unfold wait_at. rewrite (msecs_until_sub_msec now _ Hnow (Hn p Hp) Hd).
  by destruct (_ =? _).
Qed.

(** ** The example registries *)

Lemma reachable_startup : reachable startup.
Proof. by apply (reachable_init startup). Qed.

Lemma reachable_demo_oneshot : reachable demo_oneshot.
Proof.
  apply (reachable_step startup
           (Create (Some 1%nat) (Timeval 0 0) (Some (Timeval 0 0)) 7%nat 42 1000 0)).
  - apply reachable_startup.
  - intros p [= <-]. reflexivity.
  - vm_compute. reflexivity.
Qed.

Lemma reachable_demo_periodic : reachable demo_periodic.
Proof.
  apply (reachable_step startup
           (Create (Some 1%nat) (Timeval 0 0) (Some (Timeval 0 0)) 7%nat 42 100 1)).
  - apply reachable_startup.
  - intros p [= <-]. reflexivity.
  - vm_compute. reflexivity.
Qed.

Lemma reachable_demo_cancelled : reachable demo_cancelled.
Proof.
  apply (reachable_step demo_oneshot (Cancel (Some 1%nat))).
  - apply reachable_demo_oneshot.
  - intros p [= <-]. exists 1%nat, [1%nat]. split; [vm_compute; reflexivity|by apply list_elem_of_singleton].
  - vm_compute. reflexivity.
Qed.

Lemma startup_empty h : (h < HASH_SIZE)%nat -> bucket_list startup h = Some [].
Proof.
  intros Hh. unfold bucket_list, startup. cbn [timers heap].
  by rewrite lookup_replicate_2.
Qed.

(** ** A periodic timer that is run late *)

(** C6, as the code has it.  In a reachable registry without active timers,
    create a periodic timer with a period of 100 ms at time (0 s, 0 us) and
    call [tmr_run] once at (0 s, 250000 us).  The run returns; it has called
    the callback exactly once, for the trigger at 100 ms; the new trigger is
    200 ms; and the timer now sits alone in bucket 5.  It was in bucket 36
    when it fired, and the loop over the buckets had passed bucket 5 by then,
    so the trigger at 200 ms, although due, is not served by this call. *)
Theorem periodic_late_run_fires_once
    (s s1 : registry) (malloc : option nat) (clock : timeval)
    (cb : callback) (arg : arg_t) (periodic : Z) (t : nat) (fuel : nat) :
  reachable s ->
  (forall h, (h < HASH_SIZE)%nat -> bucket_list s h = Some []) ->
  (forall p, malloc = Some p -> heap s !! p = None) ->
  periodic <> 0 ->
  tmr_create malloc clock (Some (Timeval 0 0)) cb arg 100 periodic s = Some (Some t, s1) ->
  (0 < fuel)%nat ->
  exists s2,
    tmr_run quiet fuel (Timeval 0 250000) s1 = Some (tt, s2) /\
    calls s2 = calls s ++ [Event t cb arg (Timeval 0 250000)] /\
    time_at (heap s2) t = Timeval 0 200000 /\
    forall h, (h < HASH_SIZE)%nat ->
      bucket_list s2 h = Some (if decide (h = 5%nat) then [t] else []).
Proof.
  intros (bs & fl & Hg)%reachable_good Hempty Hfresh Hper Hc Hfuel.
  assert (good s (fun _ => []) fl) as Hg0.
  { eapply good_ext; [|exact Hg]. intros h Hh. cbv beta.
    pose proof (shape_bucket_list _ _ _ _ (good_shape _ _ _ Hg) Hh) as E.
    rewrite Hempty in E by done. by injection E. }
  clear Hg bs.
  destruct (tmr_create_good _ _ _ _ _ _ _ _ _ _ _ _ Hg0 Hfresh Hc)
    as (fl1 & r1 & Hg1 & Hr1 & Hd1 & _ & _ & Hcalls1).
  set (now := Timeval 0 250000).
  change (tv_add_msecs (default clock (Some (Timeval 0 0))) 100)
    with (Timeval 0 100000) in *.
  change (hash (Timeval 0 100000)) with 36%nat in *.
  cbn [ins] in Hg1.
  set (bs1 := <[36%nat := [t]]> (fun _ : nat => @nil nat)) in *.
  assert ((36 < HASH_SIZE)%nat) as H36 by (unfold HASH_SIZE; lia).
  pose proof (good_shape _ _ _ Hg1) as Hs1.
  assert (bs1 36%nat = [] ++ t :: []) as Hbs1 by (unfold bs1; by rewrite fn_lookup_insert).
  (* the one firing *)
  destruct (fire_good _ _ _ _ _ _ _ _ now Hg1 H36 Hbs1 Hr1)
    as (s2 & bs2 & fl2 & Hfire & Hg2 & Hcalls2 & _ & Hcase).
  assert (t_periodic r1 = periodic /\ t_cb r1 = cb /\ t_arg r1 = arg /\
          t_time r1 = Timeval 0 100000 /\ t_msecs r1 = 100)
    as (Hp1 & Hcb & Harg & Htime & Hms) by (unfold data in Hd1; by simplify_eq).
  destruct Hcase as [(Hper' & _)|(_ & -> & Hbs2 & r2 & Hr2 & Hd2)]; [congruence|].
  rewrite Htime, Hms in Hbs2, Hd2.
  change (tv_add_msecs (Timeval 0 100000) 100) with (Timeval 0 200000) in *.
  change (hash (Timeval 0 200000)) with 5%nat in *.
  rewrite fn_lookup_insert_ne in Hbs2 by lia.
  unfold bs1 in Hbs2 at 1. rewrite fn_lookup_insert_ne in Hbs2 by lia.
  cbn [ins app] in Hbs2.
  pose proof (good_shape _ _ _ Hg2) as Hs2.
  assert (forall h', (h' < HASH_SIZE)%nat ->
            bs2 h' = if decide (h' = 5%nat) then [t] else []) as Hbs2'.
  { intros h' _. rewrite Hbs2. destruct (decide (h' = 5%nat)) as [->|Hne].
    - by rewrite fn_lookup_insert.
    - rewrite fn_lookup_insert_ne by done.
      destruct (decide (36%nat = h')) as [<-|Hne'].
      + by rewrite fn_lookup_insert.
      + rewrite fn_lookup_insert_ne by done. unfold bs1. by rewrite fn_lookup_insert_ne. }
  exists s2. split; [|split; [|split]].
  - unfold tmr_run. rewrite (seq_split_at HASH_SIZE 36 H36), run_buckets_app.
    erewrite bind_eq.
    2:{ apply run_buckets_empty. apply Forall_forall. intros h' Hh'%elem_of_seq.
        eapply empty_bucket_head; [exact Hs1|lia|].
        unfold bs1. rewrite fn_lookup_insert_ne by lia. done. }
    cbn [run_buckets].
    destruct (shape_bucket _ _ _ Hs1 36%nat H36) as (hd & Hhd & Hdseg).
    rewrite Hbs1 in Hdseg. destruct (dseg_mid _ _ _ _ _ _ _ Hdseg) as (r & Hr & _ & Hnx).
    assert (r = r1) as -> by congruence. simpl in Hnx.
    apply dseg_head in Hdseg. simpl in Hdseg. subst hd.
    rewrite (bind_eq _ _ _ _ _ (bucket_eq _ _ _ Hhd)).
    destruct fuel as [|fuel]; [lia|].
    assert (run_bucket quiet (S fuel) now (Some t) s1 = Some (tt, s2)) as Hrb.
    { cbn [run_bucket]. rewrite (bind_eq _ _ _ _ _ (load_eq _ _ _ Hr1)).
      rewrite Htime, Hnx.
      change (not_ready (Timeval 0 100000) now) with false. cbv iota.
      rewrite (bind_eq _ _ _ _ _ Hfire). by destruct fuel. }
    rewrite (bind_eq _ _ _ _ _ Hrb).
    apply run_buckets_empty. apply Forall_forall. intros h' Hh'%elem_of_seq.
    eapply empty_bucket_head; [exact Hs2|unfold HASH_SIZE in *; lia|].
    rewrite Hbs2' by (unfold HASH_SIZE in *; lia).
    destruct (decide (h' = 5%nat)); [lia|done].
  - rewrite Hcalls2, Hcalls1, Hcb, Harg. done.
  - rewrite (time_at_eq _ _ _ Hr2). unfold data in Hd2. by simplify_eq.
  - intros h' Hh'. erewrite shape_bucket_list by done. by rewrite Hbs2'.
Qed.

(** At the concrete input of the scenario the run makes one call, not two,
    and leaves the trigger at 200 ms, not at 300 ms. *)
Lemma periodic_late_run_not_twice :
  exists s1 s2,
    tmr_create (Some 1%nat) (Timeval 0 0) (Some (Timeval 0 0)) 7%nat 42 100 1 startup
      = Some (Some 1%nat, s1) /\
    tmr_run quiet 10 (Timeval 0 250000) s1 = Some (tt, s2) /\
    length (calls s2) = 1%nat /\
    time_at (heap s2) 1%nat = Timeval 0 200000 /\
    ~ (length (calls s2) = 2%nat /\ time_at (heap s2) 1%nat = Timeval 0 300000).
Proof.
  exists demo_periodic, demo_periodic_late.
  split; [vm_compute; reflexivity|]. split; [vm_compute; reflexivity|].
  split; [vm_compute; reflexivity|]. split; [vm_compute; reflexivity|].
  intros [H _]. vm_compute in H. discriminate H.
Qed.

(** ** A wait of one microsecond across a second boundary *)

(** The one-shot timer of [demo_oneshot] triggers at (1 s, 0 us).  At
    (0 s, 999999 us) it is the only active timer, it is due in one
    microsecond, and [tmr_mstimeout] returns 1, not 500. *)
Lemma sub_millisecond_wait_returns_one :
  reachable demo_oneshot /\ all_normal demo_oneshot /\ normal (Timeval 0 999999) /\
  active_ptrs demo_oneshot = [1%nat] /\
  usecs (time_at (heap demo_oneshot) 1%nat) - usecs (Timeval 0 999999) = 1 /\
  tmr_mstimeout (-1) (Timeval 0 999999) demo_oneshot = Some (1, demo_oneshot) /\
  tmr_mstimeout (-1) (Timeval 0 999999) demo_oneshot <> Some (500, demo_oneshot).
Proof.
  split; [apply reachable_demo_oneshot|].
  split.
  { unfold all_normal.
    replace (active_ptrs demo_oneshot) with [1%nat] by (vm_compute; reflexivity).
    constructor; [|constructor]. vm_compute. split; [discriminate|reflexivity]. }
  split; [vm_compute; split; [discriminate|reflexivity]|].
  split; [vm_compute; reflexivity|]. split; [vm_compute; reflexivity|].
  split; [vm_compute; reflexivity|].
  intros H.
  assert (tmr_mstimeout (-1) (Timeval 0 999999) demo_oneshot = Some (1, demo_oneshot)) as E
    by (vm_compute; reflexivity).
  rewrite E in H. discriminate H.
Qed.

(** ** A trigger out of normal form, and the least wait *)

Lemma reachable_demo_negative : reachable demo_negative.
Proof.
  apply (reachable_step
           (run_from startup
              (tmr_create (Some 1%nat) (Timeval 0 0) (Some (Timeval 3 600040)) 7%nat 42 0 0))
           (Create (Some 2%nat) (Timeval 0 0) (Some (Timeval 5 0)) 8%nat 43 (-1500) 0)).
  - apply (reachable_step startup
             (Create (Some 1%nat) (Timeval 0 0) (Some (Timeval 3 600040)) 7%nat 42 0 0)).
    + apply reachable_startup.
    + intros p [= <-]. reflexivity.
    + vm_compute. reflexivity.
  - intros p [= <-]. reflexivity.
  - vm_compute. reflexivity.
Qed.

(** Two legal calls of [tmr_create], the second with a delay of -1500 ms,
    leave the triggers (3 s, 600040 us) and (4 s, -500000 us) on the list of
    one bucket, in this order: the list is sorted by seconds first.  The
    second timer is due 3500 ms after time 0 and the first one 3600 ms after
    it, but [tmr_mstimeout] looks at the head of the list only and returns
    3600, which is not the least wait. *)
Lemma negative_delay_hides_the_least_wait :
  reachable demo_negative /\ normal (Timeval 0 0) /\
  bucket_list demo_negative (hash (Timeval 3 600040)) = Some [1%nat; 2%nat] /\
  active_ptrs demo_negative = [1%nat; 2%nat] /\
  time_at (heap demo_negative) 1%nat = Timeval 3 600040 /\
  time_at (heap demo_negative) 2%nat = Timeval 4 (-500000) /\
  usecs (time_at (heap demo_negative) 1%nat) - usecs (Timeval 0 0) = 3600040 /\
  usecs (time_at (heap demo_negative) 2%nat) - usecs (Timeval 0 0) = 3500000 /\
  waits (Timeval 0 0) demo_negative = [3600; 3500] /\
  is_min 3500 (waits (Timeval 0 0) demo_negative) /\
  tmr_mstimeout (-1) (Timeval 0 0) demo_negative = Some (3600, demo_negative) /\
  ~ (exists m, is_min m (waits (Timeval 0 0) demo_negative) /\
               3600 = if m <=? 0 then 500 else m) /\
  ~ all_normal demo_negative.
Proof.
  assert (is_min 3500 [3600; 3500]) as Hmin0.
  { split; [set_solver|]. intros w Hw'.
    apply elem_of_cons in Hw' as [->|Hw']; [lia|].
    apply list_elem_of_singleton in Hw' as ->. lia. }
  assert (waits (Timeval 0 0) demo_negative = [3600; 3500]) as Hw
    by (vm_compute; reflexivity).
  pose proof (eq_ind_r (is_min 3500) Hmin0 Hw) as Hmin. clear Hmin0.
  split; [apply reachable_demo_negative|].
  split; [unfold normal; simpl; lia|].
  split; [vm_compute; reflexivity|]. split; [vm_compute; reflexivity|].
  split; [vm_compute; reflexivity|]. split; [vm_compute; reflexivity|].
  split; [vm_compute; reflexivity|]. split; [vm_compute; reflexivity|].
  split; [exact Hw|]. split; [exact Hmin|].
  split; [vm_compute; reflexivity|]. split.
  - intros (m & Hm & Hv). pose proof (is_min_unique _ _ _ Hm Hmin) as E.
    clear Hm Hmin Hw. subst m. vm_compute in Hv. discriminate Hv.
  - clear Hw Hmin. intros Hn.
    assert ([1%nat; 2%nat] = active_ptrs demo_negative) as Ea by (vm_compute; reflexivity).
    assert (2%nat ∈ active_ptrs demo_negative) as H2.
    { assert (2%nat ∈ [1%nat; 2%nat]) as H0 by (clear; set_solver).
      exact (eq_ind _ (fun l => 2%nat ∈ l) H0 _ Ea). }
    pose proof (proj1 (Forall_forall _ _) Hn 2%nat H2) as Hn2. clear Hn H2 Ea.
    assert (tv_usec (time_at (heap demo_negative) 2%nat) = -500000) as E'
      by (vm_compute; reflexivity).
    unfold normal in Hn2. rewrite E' in Hn2. lia.
Qed.

(** ** The theorems at concrete inputs *)

Lemma all_normal_demo_oneshot : all_normal demo_oneshot.
Proof.
  unfold all_normal.
  replace (active_ptrs demo_oneshot) with [1%nat] by (vm_compute; reflexivity).
  constructor; [|constructor]. vm_compute. split; [discriminate|reflexivity].
Qed.

Lemma counters_add_up_always_witness :
  (forall cb arg now, moves 0 (quiet cb arg now)) /\
  tmr_init startup = Some (tt, startup) /\
  exists ss, observe quiet demo_ops startup = Some ss /\
             length ss = 9%nat /\ Forall counts_add_up (startup :: ss).
Proof.
  split; [intros; apply moves_ret|]. split; [reflexivity|].
  destruct (observe quiet demo_ops startup) as [ss|] eqn:E;
    [|vm_compute in E; discriminate E].
  exists ss. split; [reflexivity|]. split.
  - assert (length <$> observe quiet demo_ops startup = Some 9%nat) as L
      by (vm_compute; reflexivity).
    rewrite E in L. by injection L.
  - exact (counters_add_up_always quiet (fun _ _ _ => moves_ret tt)
             startup startup demo_ops ss eq_refl E).
Defined.

Lemma reachable_demo_pair : reachable demo_pair.
Proof.
  apply (reachable_step demo_oneshot
           (Create (Some 2%nat) (Timeval 0 0) (Some (Timeval 0 0)) 8%nat 43 250 0)).
  - apply reachable_demo_oneshot.
  - intros p [= <-]. reflexivity.
  - vm_compute. reflexivity.
Qed.

Lemma all_normal_demo_pair : all_normal demo_pair.
Proof.
  unfold all_normal.
  replace (active_ptrs demo_pair) with [1%nat; 2%nat] by (vm_compute; reflexivity).
  constructor; [|constructor; [|constructor]];
    vm_compute; (split; [discriminate|reflexivity]).
Qed.

Lemma tmr_mstimeout_least_wait_witness :
  reachable demo_pair /\ all_normal demo_pair /\ normal (Timeval 0 0) /\
  exists v, tmr_mstimeout (-1) (Timeval 0 0) demo_pair = Some (v, demo_pair) /\
    (active_ptrs demo_pair = [] -> v = -1) /\
    (active_ptrs demo_pair <> [] ->
       exists m, is_min m (waits (Timeval 0 0) demo_pair) /\
                 v = if m <=? 0 then 500 else m) /\
    (forall p, p ∈ active_ptrs demo_pair ->
       usecs (time_at (heap demo_pair) p) - usecs (Timeval 0 0) - 1000
       < 1000 * wait_at (Timeval 0 0) demo_pair p
       < usecs (time_at (heap demo_pair) p) - usecs (Timeval 0 0) + 1000).
Proof.
  assert (normal (Timeval 0 0)) as Hn by (unfold normal; simpl; lia).
  split; [apply reachable_demo_pair|]. split; [apply all_normal_demo_pair|].
  split; [exact Hn|].
  exact (tmr_mstimeout_least_wait (-1) (Timeval 0 0) demo_pair
           reachable_demo_pair all_normal_demo_pair Hn).
Defined.

(** The two timers of [demo_pair] are in different buckets, 1000 ms and
    250 ms away: the wait is 250 ms. *)
Example least_wait_of_two_timers :
  bucket_list demo_pair 1 = Some [1%nat] /\ bucket_list demo_pair 23 = Some [2%nat] /\
  waits (Timeval 0 0) demo_pair = [1000; 250] /\
  tmr_mstimeout (-1) (Timeval 0 0) demo_pair = Some (250, demo_pair).
Proof. repeat split; vm_compute; reflexivity. Qed.

(** With the timer of [demo_oneshot] one second away, the wait is 1000 ms. *)
Example one_second_wait :
  tmr_mstimeout (-1) (Timeval 0 0) demo_oneshot = Some (1000, demo_oneshot) /\
  tmr_mstimeout (-1) (Timeval 0 0) startup = Some (-1, startup).
Proof. split; vm_compute; reflexivity. Qed.


(** Two timers with the same trigger: the later one is put in front. *)
Example equal_triggers_newest_first :
  bucket_list
    (run_from demo_oneshot
       (tmr_create (Some 2%nat) (Timeval 0 0) (Some (Timeval 0 0)) 8%nat 43 1000 0))
    (hash (Timeval 1 0))
  = Some [2%nat; 1%nat].
Proof. vm_compute. reflexivity. Qed.

Lemma one_shot_fires_once_and_is_freed_witness :
  tmr_create (Some 1%nat) (Timeval 0 0) (Some (Timeval 0 0)) 7%nat 42 1000 0 startup
    = Some (Some 1%nat, demo_oneshot) /\
  usecs (Timeval 1 0) = usecs (Timeval 0 0) + 1000 * 1000 /\
  exists s2 fl,
    tmr_run quiet 1 (Timeval 1 0) demo_oneshot = Some (tt, s2) /\
    calls s2 = calls startup ++ [Event 1%nat 7%nat 42 (Timeval 1 0)] /\
    free_list s2 = Some (1%nat :: fl) /\
    forall h, (h < HASH_SIZE)%nat -> bucket_list s2 h = Some [].
Proof.
  assert (tmr_create (Some 1%nat) (Timeval 0 0) (Some (Timeval 0 0)) 7%nat 42 1000 0 startup
          = Some (Some 1%nat, demo_oneshot)) as Hc by (vm_compute; reflexivity).
  split; [exact Hc|]. split; [reflexivity|].
  apply (one_shot_fires_once_and_is_freed startup demo_oneshot (Some 1%nat)
           (Timeval 0 0) (Timeval 0 0) (Timeval 1 0) 7%nat 42 1000 1%nat 1%nat).
  - apply reachable_startup.
  - apply startup_empty.
  - intros p _. apply lookup_empty.
  - lia.
  - unfold normal; simpl; lia.
  - unfold normal; simpl; lia.
  - reflexivity.
  - exact Hc.
  - lia.
Defined.

Lemma periodic_late_run_fires_once_witness :
  tmr_create (Some 1%nat) (Timeval 0 0) (Some (Timeval 0 0)) 7%nat 42 100 1 startup
    = Some (Some 1%nat, demo_periodic) /\
  exists s2,
    tmr_run quiet 10 (Timeval 0 250000) demo_periodic = Some (tt, s2) /\
    calls s2 = calls startup ++ [Event 1%nat 7%nat 42 (Timeval 0 250000)] /\
    time_at (heap s2) 1%nat = Timeval 0 200000 /\
    forall h, (h < HASH_SIZE)%nat ->
      bucket_list s2 h = Some (if decide (h = 5%nat) then [1%nat] else []).
Proof.
  assert (tmr_create (Some 1%nat) (Timeval 0 0) (Some (Timeval 0 0)) 7%nat 42 100 1 startup
          = Some (Some 1%nat, demo_periodic)) as Hc by (vm_compute; reflexivity).
  split; [exact Hc|].
  apply (periodic_late_run_fires_once startup demo_periodic (Some 1%nat)
           (Timeval 0 0) 7%nat 42 1 1%nat 10%nat).
  - apply reachable_startup.
  - apply startup_empty.
  - intros p _. apply lookup_empty.
  - lia.
  - exact Hc.
  - lia.
Defined.

Lemma tmr_create_null_iff_malloc_fails_witness :
  free_timers startup = None /\
  tmr_create None (Timeval 0 0) None 7%nat 42 1000 0 startup = Some (None, startup).
Proof.
  split; [reflexivity|].
  apply (proj2 (tmr_create_null_iff_malloc_fails None (Timeval 0 0) None 7%nat 42 1000 0
                  startup startup)).
  repeat split.
Defined.

Lemma tmr_mstimeout_reads_only_witness :
  tmr_mstimeout (-1) (Timeval 0 0) demo_oneshot = Some (1000, demo_oneshot) /\
  demo_oneshot = demo_oneshot /\
  tmr_mstimeout (-1) (Timeval 0 0) demo_oneshot = Some (1000, demo_oneshot).
Proof.
  assert (tmr_mstimeout (-1) (Timeval 0 0) demo_oneshot = Some (1000, demo_oneshot)) as H
    by (vm_compute; reflexivity).
  split; [exact H|].
  exact (tmr_mstimeout_reads_only (-1) (Timeval 0 0) demo_oneshot demo_oneshot 1000 H).
Defined.

Lemma tmr_mstimeout_sub_millisecond_witness :
  1%nat ∈ active_ptrs demo_oneshot /\
  0 < usecs (time_at (heap demo_oneshot) 1%nat) - usecs (Timeval 0 999999) < 1000 /\
  tmr_mstimeout (-1) (Timeval 0 999999) demo_oneshot
  = Some (if tv_sec (time_at (heap demo_oneshot) 1%nat) =? tv_sec (Timeval 0 999999)
          then 500 else 1, demo_oneshot).
Proof.
  assert (active_ptrs demo_oneshot = [1%nat]) as Ha by (vm_compute; reflexivity).
  assert (usecs (time_at (heap demo_oneshot) 1%nat) = 1000000) as Hu
    by (vm_compute; reflexivity).
  assert (usecs (Timeval 0 999999) = 999999) as Hv by reflexivity.
  split; [rewrite Ha; by apply list_elem_of_singleton|]. split; [rewrite Hu, Hv; lia|].
  apply (tmr_mstimeout_sub_millisecond (-1) (Timeval 0 999999) demo_oneshot 1%nat).
  - apply reachable_demo_oneshot.
  - apply all_normal_demo_oneshot.
  - unfold normal; simpl; lia.
  - rewrite Ha. by apply list_elem_of_singleton.
  - intros x Hx. rewrite Ha in Hx. apply list_elem_of_singleton in Hx as ->. lia.
  - rewrite Hu, Hv. lia.
Defined.

Lemma tmr_create_reuses_free_record_witness :
  0 < free_count demo_cancelled /\
  exists t s',
    free_timers demo_cancelled = Some t /\
    tmr_create None (Timeval 0 0) (Some (Timeval 5 0)) 8%nat 43 20 0 demo_cancelled
      = Some (Some t, s') /\
    (forall malloc',
       tmr_create malloc' (Timeval 0 0) (Some (Timeval 5 0)) 8%nat 43 20 0 demo_cancelled
         = Some (Some t, s')) /\
    alloc_count s' = alloc_count demo_cancelled /\
    free_count s' = free_count demo_cancelled - 1.
Proof.
  assert (0 < free_count demo_cancelled) as Hfc by (vm_compute; reflexivity).
  split; [exact Hfc|].
  exact (tmr_create_reuses_free_record demo_cancelled None (Timeval 0 0)
           (Some (Timeval 5 0)) 8%nat 43 20 0 reachable_demo_cancelled Hfc).
Defined.

(** ** How often a run can fire *)

Lemma total_ext f g A : (forall x, x ∈ A -> f x = g x) -> total f A = total g A.
Proof.
  induction A as [|a A IH]; intros H; simpl; [done|].
  rewrite H by set_solver. rewrite IH; [done|]. intros x Hx. apply H. set_solver.
Qed.

Lemma total_le f g A : (forall x, x ∈ A -> (f x <= g x)%nat) -> (total f A <= total g A)%nat.
Proof.
  induction A as [|a A IH]; intros H; simpl; [done|].
  assert (f a <= g a)%nat by (apply H; set_solver).
  assert (total f A <= total g A)%nat by (apply IH; intros x Hx; apply H; set_solver).
  lia.
Qed.

(** One entry needs fewer firings, the others as many as before. *)
Lemma total_drop f g A x :
  x ∈ A -> (g x < f x)%nat -> (forall y, y ≠ x -> g y = f y) ->
  (total g A < total f A)%nat.
Proof.
  induction A as [|a A IH]; intros Hx Hlt Hsame; [by apply elem_of_nil in Hx|].
  simpl. destruct (decide (a = x)) as [->|Hne].
  - assert (total g A <= total f A)%nat.
    { apply total_le. intros y _. destruct (decide (y = x)) as [->|Hy]; [lia|].
      by rewrite Hsame. }
    lia.
  - rewrite (Hsame a Hne).
    assert (total g A < total f A)%nat by (apply IH; [set_solver|done..]). lia.
Qed.

Lemma total_filter_le f g A x :
  (forall y, y ≠ x -> g y = f y) ->
  (total g (filter (fun y => y ≠ x) A) <= total f A)%nat.
Proof.
  intros Hsame. induction A as [|a A IH]; simpl; [done|].
  destruct (decide (a = x)) as [->|Hne].
  - rewrite filter_cons_False by (intros H; by apply H). lia.
  - rewrite filter_cons_True by done. simpl. rewrite (Hsame a Hne). lia.
Qed.

(** One entry leaves, the others need as many firings as before. *)
Lemma total_filter f g A x :
  x ∈ A -> (1 <= f x)%nat -> (forall y, y ≠ x -> g y = f y) ->
  (total g (filter (fun y => y ≠ x) A) < total f A)%nat.
Proof.
  induction A as [|a A IH]; intros Hx Hlt Hsame; [by apply elem_of_nil in Hx|].
  simpl. destruct (decide (a = x)) as [->|Hne].
  - rewrite filter_cons_False by (intros H; by apply H).
    pose proof (total_filter_le f g A x Hsame). lia.
  - rewrite filter_cons_True by done. simpl. rewrite (Hsame a Hne).
    assert (total g (filter (fun y => y ≠ x) A) < total f A)%nat
      by (apply IH; [set_solver|done..]).
    lia.
Qed.

Lemma due_count_data now r r' : data r' = data r -> due_count now r' = due_count now r.
Proof. unfold data, due_count. intros [= E1 E2 E3 E4 E5 E6]. by rewrite E3, E4, E5. Qed.

Lemma sane_timer_data r r' : data r' = data r -> sane_timer r -> sane_timer r'.
Proof. unfold data, sane_timer. intros [= E1 E2 E3 E4 E5 E6]. by rewrite E3, E4, E5. Qed.

Lemma firings_data now hp hp' x :
  data <$> hp' !! x = data <$> hp !! x -> firings now hp' x = firings now hp x.
Proof.
  unfold firings. destruct (hp' !! x) as [r'|], (hp !! x) as [r|]; simpl; try done.
  intros E. apply due_count_data. congruence.
Qed.

(** A timer that is due counts for at least one firing. *)
Lemma due_count_pos now r :
  normal now -> sane_timer r -> not_ready (t_time r) now = false ->
  (1 <= due_count now r)%nat.
Proof.
  intros Hnow [Hn Hp] Hdue. unfold due_count. rewrite Hdue.
  destruct (Z.eqb_spec (t_periodic r) 0) as [|Hper]; [done|].
  assert (usecs (t_time r) <= usecs now) as Hle.
  { destruct (Z.le_gt_cases (usecs (t_time r)) (usecs now)) as [|Hgt]; [done|].
    apply not_ready_usecs in Hgt; [congruence|done..]. }
  specialize (Hp Hper).
  assert (0 <= (usecs now - usecs (t_time r)) / (1000 * t_msecs r))
    by (apply Z.div_pos; lia).
  lia.
Qed.

(** Rescheduling a due periodic timer takes one firing off its count. *)
Lemma due_count_rescheduled now r r' :
  normal now -> sane_timer r -> not_ready (t_time r) now = false ->
  t_periodic r <> 0 ->
  t_time r' = tv_add_msecs (t_time r) (t_msecs r) ->
  t_periodic r' = t_periodic r -> t_msecs r' = t_msecs r ->
  sane_timer r' /\ (due_count now r' < due_count now r)%nat.
Proof.
  intros Hnow [Hn Hp] Hdue Hper Ht' Hp' Hm'. specialize (Hp Hper).
  destruct (tv_add_msecs_exact (t_time r) (t_msecs r) Hn ltac:(lia)) as [Hn' Hu'].
  rewrite <- Ht' in Hn', Hu'.
  split; [split; [done|by rewrite Hm']|].
  pose proof (due_count_pos now r Hnow (conj Hn (fun _ => Hp)) Hdue) as Hpos.
  unfold due_count in *. rewrite Hdue in *. rewrite Hp', Hm'.
  destruct (Z.eqb_spec (t_periodic r) 0) as [|_]; [done|].
  destruct (not_ready (t_time r') now) eqn:Hdue'; [lia|].
  assert (usecs (t_time r') <= usecs now) as Hle.
  { destruct (Z.le_gt_cases (usecs (t_time r')) (usecs now)) as [|Hgt]; [done|].
    apply not_ready_usecs in Hgt; [congruence|done..]. }
  rewrite Hu'.
  replace (usecs now - (usecs (t_time r) + 1000 * t_msecs r))
    with ((usecs now - usecs (t_time r)) + (-1) * (1000 * t_msecs r)) by lia.
  rewrite Z.div_add by lia.
  assert (1 <= (usecs now - usecs (t_time r)) / (1000 * t_msecs r)).
  { apply Z.div_le_lower_bound; lia. }
  lia.
Qed.

(** ** Where the walk stands relative to a timer further down the list *)

Lemma ins_from_on tm x l1 c l2 T :
  T ∈ c :: l2 -> from_on (ins tm x (l1 ++ c :: l2)) c T.
Proof.
  intros HT. induction l1 as [|a l1 (la & lb & E & Hin)]; simpl.
  - destruct (goes_before (tm x) (tm c)).
    + by exists [x], l2.
    + exists [], (ins tm x l2). split; [done|].
      apply elem_of_cons in HT as [->|HT]; [set_solver|].
      apply elem_of_cons. right. by apply ins_incl.
  - destruct (goes_before (tm x) (tm a)).
    + by exists (x :: a :: l1), l2.
    + exists (a :: la), lb. split; [|done]. simpl. by rewrite E.
Qed.

Lemma from_on_here l1 c l2 T : T ∈ c :: l2 -> from_on (l1 ++ c :: l2) c T.
Proof. intros HT. by exists l1, l2. Qed.

(** ** One firing, with the bound on the firings still to come *)

Lemma removed_members (bs : nat -> list nat) h l1 x l2 h' y :
  bs h = l1 ++ x :: l2 -> y ≠ x ->
  (y ∈ (<[h := l1 ++ l2]> bs) h' <-> y ∈ bs h').
Proof.
  intros Hbs Hy. destruct (decide (h = h')) as [<-|Hne].
  - rewrite fn_lookup_insert, Hbs. set_solver.
  - by rewrite fn_lookup_insert_ne.
Qed.

Lemma fire_fit now s bs fl A n h l1 x l2 r :
  normal now -> fit now s bs fl A n ->
  (h < HASH_SIZE)%nat -> bs h = l1 ++ x :: l2 -> heap s !! x = Some r ->
  not_ready (t_time r) now = false ->
  exists s2 bs2 fl2 A2 n2,
    fire quiet now x r s = Some (tt, s2) /\ n = S n2 /\
    fit now s2 bs2 fl2 A2 n2 /\
    calls s2 = calls s ++ [Event x (t_cb r) (t_arg r) now] /\
    (forall y, y ≠ x -> data <$> heap s2 !! y = data <$> heap s !! y) /\
    (forall h' y, (h' < HASH_SIZE)%nat -> y ≠ x -> (y ∈ bs2 h' <-> y ∈ bs h')) /\
    (forall c T, head l2 = Some c -> T ∈ l2 -> from_on (bs2 h) c T) /\
    (t_periodic r <> 0 ->
       exists r', heap s2 !! x = Some r' /\
         data r' = (t_cb r, t_arg r, t_msecs r, t_periodic r,
                    tv_add_msecs (t_time r) (t_msecs r),
                    hash (tv_add_msecs (t_time r) (t_msecs r))) /\
         x ∈ bs2 (hash (tv_add_msecs (t_time r) (t_msecs r)))).
Proof.
  intros Hnow [Hg Hsane Hcover Htotal] Hh Hbs Hr Hdue.
  assert (x ∈ bs h) as Hx by (rewrite Hbs; set_solver).
  pose proof (Hsane h x r Hh Hx Hr) as Hsx.
  pose proof (Hcover h x Hh Hx) as HxA.
  pose proof (due_count_pos now r Hnow Hsx Hdue) as Hpos.
  destruct (fire_good _ _ _ _ _ _ _ _ now Hg Hh Hbs Hr)
    as (s2 & bs2 & fl2 & Hfire & Hg2 & Hcalls & Hothers & Hcase).
  assert (forall y, y ≠ x -> firings now (heap s2) y = firings now (heap s) y) as Hfir.
  { intros y Hy. apply firings_data. by apply Hothers. }
  assert (firings now (heap s) x = due_count now r) as Hfx
    by (unfold firings; by rewrite Hr).
  assert (forall h' y ry, (h' < HASH_SIZE)%nat -> y ≠ x -> y ∈ bs h' ->
            heap s2 !! y = Some ry -> sane_timer ry) as Hsane_others.
  { intros h' y ry Hh' Hy Hyb Hry. pose proof (Hothers y Hy) as E. rewrite Hry in E.
    destruct (heap s !! y) as [ry0|] eqn:Hry0; [|done]. simpl in E.
    eapply sane_timer_data; [|by eapply (Hsane h' y ry0)]. congruence. }
  destruct Hcase as [(Hper & -> & -> & Hdx)|(Hper & -> & -> & r' & Hr' & Hd')].
  - (* a one-shot timer: it leaves the active timers *)
    assert (total (firings now (heap s2)) (filter (fun y => y ≠ x) A)
            < total (firings now (heap s)) A)%nat as Hlt.
    { apply total_filter; [done|by rewrite Hfx|done]. }
    destruct n as [|n2]; [lia|].
    exists s2, (<[h := l1 ++ l2]> bs), (x :: fl), (filter (fun y => y ≠ x) A), n2.
    split; [done|]. split; [done|]. split; [|split; [done|split; [done|split; [|split]]]].
    + pose proof (removed_not_listed _ _ _ _ _ _ _ (good_shape _ _ _ Hg) Hh Hbs) as Hnl.
      assert (forall h' y, (h' < HASH_SIZE)%nat -> y ∈ (<[h := l1 ++ l2]> bs) h' ->
                y ≠ x /\ y ∈ bs h') as Hmem.
      { intros h' y Hh' Hy. assert (y ≠ x) as Hne.
        { intros ->. apply Hnl. right. eauto. }
        split; [done|]. by eapply removed_members. }
      split; [done| | |lia].
      * intros h' y ry Hh' Hy Hry. destruct (Hmem h' y Hh' Hy) as [Hne Hyb].
        by eapply Hsane_others.
      * intros h' y Hh' Hy. destruct (Hmem h' y Hh' Hy) as [Hne Hyb].
        apply list_elem_of_filter. split; [done|]. by eapply Hcover.
    + intros h' y Hh' Hy. by eapply removed_members.
    + intros c T Hc HT. rewrite fn_lookup_insert.
      destruct l2 as [|c' l2']; simpl in Hc; [done|]. injection Hc as ->.
      by apply from_on_here.
    + done.
  - (* a periodic timer: it moves to the bucket of its next trigger *)
    set (tv := tv_add_msecs (t_time r) (t_msecs r)) in *.
    set (bs1 := <[h := l1 ++ l2]> bs) in *.
    assert (sane_timer r' /\ (due_count now r' < due_count now r)%nat) as [Hsr' Hdc].
    { pose proof Hd' as Hd''. unfold data in Hd''.
      injection Hd'' as E1 E2 E3 E4 E5 E6. by apply due_count_rescheduled. }
    assert (total (firings now (heap s2)) A < total (firings now (heap s)) A)%nat as Hlt.
    { apply (total_drop _ _ _ x); [done| |done].
      rewrite Hfx. unfold firings. by rewrite Hr'. }
    destruct n as [|n2]; [lia|].
    assert (forall h' y, (h' < HASH_SIZE)%nat -> y ≠ x ->
              (y ∈ (<[hash tv := ins (time_at (heap s2)) x (bs1 (hash tv))]> bs1) h'
               <-> y ∈ bs h')) as Hmem.
    { intros h' y Hh' Hy. rewrite <- (removed_members bs h l1 x l2 h' y Hbs Hy). fold bs1.
      destruct (decide (hash tv = h')) as [<-|Hne].
      - rewrite fn_lookup_insert, elem_of_ins. naive_solver.
      - by rewrite fn_lookup_insert_ne. }
    assert (x ∈ (<[hash tv := ins (time_at (heap s2)) x (bs1 (hash tv))]> bs1) (hash tv))
      as Hxnew by (rewrite fn_lookup_insert, elem_of_ins; by left).
    eexists s2, _, fl, A, n2.
    split; [done|]. split; [done|]. split; [|split; [done|split; [done|split; [|split]]]].
    + split; [done| | |lia].
      * intros h' y ry Hh' Hy Hry. destruct (decide (y = x)) as [->|Hne].
        -- by assert (ry = r') as -> by congruence.
        -- eapply Hsane_others; [done|done| |done]. by eapply Hmem.
      * intros h' y Hh' Hy. destruct (decide (y = x)) as [->|Hne]; [done|].
        eapply Hcover; [done|]. by eapply Hmem.
    + done.
    + intros c T Hc HT. destruct l2 as [|c' l2']; simpl in Hc; [done|]. injection Hc as ->.
      destruct (decide (hash tv = h)) as [E|E].
      * rewrite E, fn_lookup_insert. unfold bs1. rewrite fn_lookup_insert.
        by apply ins_from_on.
      * rewrite fn_lookup_insert_ne by done. unfold bs1. rewrite fn_lookup_insert.
        by apply from_on_here.
    + intros _. exists r'. done.
Qed.

(** ** More fuel does not change a run *)

Lemma run_bucket_more_fuel invoke now fuel : forall fuel' c s r,
  run_bucket invoke fuel now c s = Some r -> (fuel <= fuel')%nat ->
  run_bucket invoke fuel' now c s = Some r.
Proof.
  induction fuel as [|fuel IH]; intros fuel' c s r Hrun Hle;
    (destruct c as [p|]; [|by destruct fuel']).
  - discriminate Hrun.
  - destruct fuel' as [|fuel']; [lia|]. simpl in Hrun |- *.
    unfold bind in Hrun |- *. destruct (load p s) as [[tr s1]|]; [|done].
    destruct (not_ready (t_time tr) now); [done|].
    destruct (fire invoke now p tr s1) as [[[] s2]|]; [|done].
    apply IH; [done|lia].
Qed.

Lemma run_buckets_more_fuel invoke now fuel fuel' hs : forall s r,
  run_buckets invoke fuel now hs s = Some r -> (fuel <= fuel')%nat ->
  run_buckets invoke fuel' now hs s = Some r.
Proof.
  induction hs as [|h hs IH]; intros s r Hrun Hle; simpl in Hrun |- *; [done|].
  unfold bind in Hrun |- *. destruct (bucket h s) as [[t s1]|]; [|done].
  destruct (run_bucket invoke fuel now t s1) as [[[] s2]|] eqn:E; [|done].
  rewrite (run_bucket_more_fuel _ _ _ _ _ _ _ E Hle). by apply IH.
Qed.

Lemma tmr_run_more_fuel invoke now fuel fuel' s r :
  tmr_run invoke fuel now s = Some r -> (fuel <= fuel')%nat ->
  tmr_run invoke fuel' now s = Some r.
Proof. apply run_buckets_more_fuel. Qed.

(** ** Counting the firings of one timer *)

Lemma fired_app_other T log e : ev_timer e ≠ T -> fired T (log ++ [e]) = fired T log.
Proof.
  intros He. unfold fired. rewrite filter_app, length_app.
  rewrite filter_cons_False by done. rewrite filter_nil. simpl. lia.
Qed.

Lemma fired_app_self T log e : ev_timer e = T -> fired T (log ++ [e]) = S (fired T log).
Proof.
  intros He. unfold fired. rewrite filter_app, length_app.
  rewrite filter_cons_True by done. rewrite filter_nil. simpl. lia.
Qed.

Lemma time_at_data hp hp' x :
  data <$> hp' !! x = data <$> hp !! x -> time_at hp' x = time_at hp x.
Proof.
  unfold time_at. destruct (hp' !! x) as [r'|], (hp !! x) as [r|]; simpl; try done.
  unfold data. intros [= E1 E2 E3 E4 E5 E6]. done.
Qed.

(** ** The walk through a bucket while the timer [T] is not to be fired *)

Section OnTime.

Variables (now : timeval) (T : nat).
Hypothesis Hnow : normal now.

Lemma run_bucket_skip fuel : forall n c s bs fl A h hT,
  fit now s bs fl A n -> (n < fuel)%nat ->
  (h < HASH_SIZE)%nat -> (forall p, c = Some p -> p ∈ bs h) ->
  (hT < HASH_SIZE)%nat -> T ∈ bs hT ->
  (h ≠ hT \/ not_ready (time_at (heap s) T) now = true) ->
  exists s' bs' fl' A' n',
    run_bucket quiet fuel now c s = Some (tt, s') /\
    fit now s' bs' fl' A' n' /\ (n' <= n)%nat /\
    T ∈ bs' hT /\ data <$> heap s' !! T = data <$> heap s !! T /\
    fired T (calls s') = fired T (calls s).
Proof.
  induction fuel as [|fuel IH]; intros n c s bs fl A h hT Hfit Hfuel Hh Hc HhT HT Hcond;
    [lia|].
  destruct c as [p|]; [|by exists s, bs, fl, A, n].
  pose proof (fit_good _ _ _ _ _ _ Hfit) as Hg. pose proof (good_shape _ _ _ Hg) as Hs.
  pose proof (Hc p eq_refl) as Hp.
  apply list_elem_of_split in Hp as (l1 & l2 & Hbs).
  destruct (shape_bucket _ _ _ Hs h Hh) as (hd & Hhd & Hd). rewrite Hbs in Hd.
  destruct (dseg_mid _ _ _ _ _ _ _ Hd) as (r & Hr & _ & Hnx).
  cbn [run_bucket]. rewrite (bind_eq _ _ _ _ _ (load_eq _ _ _ Hr)).
  destruct (not_ready (t_time r) now) eqn:Hdue; [by exists s, bs, fl, A, n|].
  assert (p ≠ T) as HpT.
  { intros ->. destruct Hcond as [Hne|Hnr].
    - apply Hne. eapply (shape_other_bucket _ _ _ h hT T Hs); [done..| |done].
      rewrite Hbs. set_solver.
    - rewrite (time_at_eq _ _ _ Hr) in Hnr. congruence. }
  destruct (fire_fit now s bs fl A n h l1 p l2 r Hnow Hfit Hh Hbs Hr Hdue)
    as (s2 & bs2 & fl2 & A2 & n2 & Hfire & -> & Hfit2 & Hcalls & Hothers & Hmem & _ & _).
  rewrite (bind_eq _ _ _ _ _ Hfire).
  pose proof (shape_nodup _ _ _ Hs h Hh) as Hnd. rewrite Hbs in Hnd.
  destruct (IH n2 (t_next r) s2 bs2 fl2 A2 h hT)
    as (s' & bs' & fl' & A' & n' & Hrun & Hfit' & Hle & HT' & Hdata' & Hfired');
    [done|lia|done| |done| | |].
  - intros q Hq. rewrite Hnx in Hq. destruct l2 as [|q' l2']; simpl in Hq; [done|].
    injection Hq as ->. apply Hmem; [done| |rewrite Hbs; set_solver].
    apply NoDup_app in Hnd as (_ & _ & [Hn _]%NoDup_cons). set_solver.
  - apply Hmem; [done|done|done].
  - destruct Hcond as [Hne|Hnr]; [by left|right].
    by rewrite (time_at_data _ _ _ (Hothers T (not_eq_sym HpT))).
  - exists s', bs', fl', A', n'. split; [done|]. split; [done|]. split; [lia|].
    split; [done|]. split; [by rewrite Hdata', (Hothers T (not_eq_sym HpT))|].
    rewrite Hfired', Hcalls. by apply fired_app_other.
Qed.

(** The same for a range of buckets. *)
Lemma run_buckets_skip fuel hs : forall n s bs fl A hT,
  fit now s bs fl A n -> (n < fuel)%nat ->
  Forall (fun h => (h < HASH_SIZE)%nat) hs ->
  (hT < HASH_SIZE)%nat -> T ∈ bs hT ->
  (hT ∉ hs \/ not_ready (time_at (heap s) T) now = true) ->
  exists s' bs' fl' A' n',
    run_buckets quiet fuel now hs s = Some (tt, s') /\
    fit now s' bs' fl' A' n' /\ (n' <= n)%nat /\
    T ∈ bs' hT /\ data <$> heap s' !! T = data <$> heap s !! T /\
    fired T (calls s') = fired T (calls s).
Proof.
  induction hs as [|h hs IH]; intros n s bs fl A hT Hfit Hfuel Hhs HhT HT Hcond.
  - by exists s, bs, fl, A, n.
  - apply Forall_cons in Hhs as [Hh Hhs].
    pose proof (good_shape _ _ _ (fit_good _ _ _ _ _ _ Hfit)) as Hs.
    destruct (shape_bucket _ _ _ Hs h Hh) as (hd & Hhd & Hd).
    cbn [run_buckets]. rewrite (bind_eq _ _ _ _ _ (bucket_eq _ _ _ Hhd)).
    destruct (run_bucket_skip fuel n hd s bs fl A h hT Hfit Hfuel Hh)
      as (s1 & bs1 & fl1 & A1 & n1 & Hrun1 & Hfit1 & Hle1 & HT1 & Hdata1 & Hfired1);
      [|done|done| |].
    + intros p ->. apply dseg_head in Hd. destruct (bs h); simpl in Hd; [done|].
      injection Hd as ->. set_solver.
    + destruct Hcond as [Hni|Hnr]; [left|by right]. intros ->. apply Hni. set_solver.
    + rewrite (bind_eq _ _ _ _ _ Hrun1).
      destruct (IH n1 s1 bs1 fl1 A1 hT Hfit1 ltac:(lia) Hhs HhT HT1)
        as (s' & bs' & fl' & A' & n' & Hrun & Hfit' & Hle & HT' & Hdata' & Hfired').
      * destruct Hcond as [Hni|Hnr]; [left; set_solver|right].
        by rewrite (time_at_data _ _ _ Hdata1).
      * exists s', bs', fl', A', n'. split; [done|]. split; [done|]. split; [lia|].
        split; [done|]. split; [by rewrite Hdata', Hdata1|by rewrite Hfired', Hfired1].
Qed.

(** The walk through the bucket of [T], whose trigger is [now], from an
    entry [c] at or in front of [T]: it reaches [T] and fires it once. *)
Lemma run_bucket_reach fuel : forall n c s bs fl A hT rT,
  fit now s bs fl A n -> (n < fuel)%nat ->
  (hT < HASH_SIZE)%nat -> from_on (bs hT) c T ->
  heap s !! T = Some rT -> t_time rT = now -> t_periodic rT <> 0 ->
  exists s' bs' fl' A' n' r',
    run_bucket quiet fuel now (Some c) s = Some (tt, s') /\
    fit now s' bs' fl' A' n' /\ (n' <= n)%nat /\
    fired T (calls s') = S (fired T (calls s)) /\
    heap s' !! T = Some r' /\
    data r' = (t_cb rT, t_arg rT, t_msecs rT, t_periodic rT,
               tv_add_msecs now (t_msecs rT), hash (tv_add_msecs now (t_msecs rT))) /\
    T ∈ bs' (hash (tv_add_msecs now (t_msecs rT))).
Proof.
  induction fuel as [|fuel IH]; intros n c s bs fl A hT rT Hfit Hfuel HhT Hfrom HrT Htime Hper;
    [lia|].
  pose proof (fit_good _ _ _ _ _ _ Hfit) as Hg. pose proof (good_shape _ _ _ Hg) as Hs.
  destruct Hfrom as (l1 & l2 & Hbs & HTin).
  destruct (shape_bucket _ _ _ Hs hT HhT) as (hd & Hhd & Hd). rewrite Hbs in Hd.
  destruct (dseg_mid _ _ _ _ _ _ _ Hd) as (r & Hr & _ & Hnx).
  pose proof (shape_nodup _ _ _ Hs hT HhT) as Hnd. rewrite Hbs in Hnd.
  assert (c ∉ l2) as Hcl2 by (apply NoDup_app in Hnd as (_ & _ & [Hn _]%NoDup_cons); done).
  assert (T ∈ bs hT) as HTb by (rewrite Hbs; set_solver).
  assert (sane_timer rT) as HsT by (by eapply (fit_sane _ _ _ _ _ _ Hfit hT T rT)).
  cbn [run_bucket]. rewrite (bind_eq _ _ _ _ _ (load_eq _ _ _ Hr)).
  destruct (decide (c = T)) as [->|HcT].
  - (* the walk is at [T] *)
    assert (r = rT) as -> by congruence.
    rewrite Htime, not_ready_refl.
    destruct (fire_fit now s bs fl A n hT l1 T l2 rT Hnow Hfit HhT Hbs HrT)
      as (s2 & bs2 & fl2 & A2 & n2 & Hfire & -> & Hfit2 & Hcalls & Hothers & Hmem & _ & Hnew);
      [by rewrite Htime, not_ready_refl|].
    rewrite (bind_eq _ _ _ _ _ Hfire).
    destruct (Hnew Hper) as (r' & Hr' & Hd' & HT').
    rewrite Htime in Hd', HT'.
    assert (not_ready (time_at (heap s2) T) now = true) as Hnr.
    { rewrite (time_at_eq _ _ _ Hr'). unfold data in Hd'.
      injection Hd' as _ _ _ _ E _. rewrite E.
      destruct HsT as [HnT HpT]. specialize (HpT Hper). rewrite Htime in HnT.
      destruct (tv_add_msecs_exact now (t_msecs rT) HnT ltac:(lia)) as [Hn' Hu'].
      apply not_ready_usecs; [done..|lia]. }
    destruct (run_bucket_skip fuel n2 (t_next rT) s2 bs2 fl2 A2 hT
                (hash (tv_add_msecs now (t_msecs rT))) Hfit2 ltac:(lia) HhT)
      as (s' & bs' & fl' & A' & n' & Hrun & Hfit' & Hle & HT'' & Hdata' & Hfired');
      [|apply hash_lt|done|by right|].
    + intros q Hq. rewrite Hnx in Hq. destruct l2 as [|q' l2']; simpl in Hq; [done|].
      injection Hq as ->. apply Hmem; [done|set_solver|rewrite Hbs; set_solver].
    + rewrite Hr' in Hdata'. destruct (heap s' !! T) as [r''|] eqn:Hr''; [|done].
      simpl in Hdata'. exists s', bs', fl', A', n', r''.
      split; [done|]. split; [done|]. split; [lia|].
      split; [rewrite Hfired', Hcalls; by apply fired_app_self|].
      split; [done|]. split; [congruence|done].
  - (* the walk is in front of [T] *)
    assert (T ∈ l2) as HTl2 by set_solver.
    assert (not_ready (t_time r) now = false) as Hdue.
    { rewrite not_ready_goes_before.
      pose proof (good_sorted _ _ _ Hg hT HhT) as Hsorted. rewrite Hbs in Hsorted.
      apply sorted_app in Hsorted as (_ & [F _] & _). rewrite Forall_forall in F.
      specialize (F T HTl2).
      rewrite (time_at_eq _ _ _ Hr), (time_at_eq _ _ _ HrT), Htime in F. by rewrite F. }
    rewrite Hdue.
    destruct (fire_fit now s bs fl A n hT l1 c l2 r Hnow Hfit HhT Hbs Hr Hdue)
      as (s2 & bs2 & fl2 & A2 & n2 & Hfire & -> & Hfit2 & Hcalls & Hothers & Hmem & Hord & _).
    rewrite (bind_eq _ _ _ _ _ Hfire).
    destruct l2 as [|c' l2']; [by apply elem_of_nil in HTl2|]. simpl in Hnx. rewrite Hnx.
    pose proof (Hothers T (not_eq_sym HcT)) as HdT. rewrite HrT in HdT.
    destruct (heap s2 !! T) as [r2|] eqn:Hr2; [|done]. simpl in HdT.
    unfold data in HdT. injection HdT as E1 E2 E3 E4 E5 E6.
    destruct (IH n2 c' s2 bs2 fl2 A2 hT r2 Hfit2 ltac:(lia) HhT)
      as (s' & bs' & fl' & A' & n' & r' & Hrun & Hfit' & Hle & Hfired' & Hr' & Hd' & HT');
      [by apply Hord|done|congruence|congruence|].
    exists s', bs', fl', A', n', r'. split; [done|]. split; [done|]. split; [lia|].
    split; [rewrite Hfired', Hcalls; f_equal; by apply fired_app_other|].
    assert (t_cb r2 = t_cb rT /\ t_arg r2 = t_arg rT /\ t_msecs r2 = t_msecs rT /\
            t_periodic r2 = t_periodic rT) as (Ea & Eb & Ec & Ed) by (repeat split; congruence).
    rewrite Ea, Eb, Ec, Ed in Hd'. rewrite Ec in HT'. done.
Qed.

End OnTime.

(** ** One run at the trigger time of a periodic timer *)

Lemma rescheduled_not_ready now p :
  normal now -> 0 < p -> not_ready (tv_add_msecs now p) now = true.
Proof.
  intros Hn Hp. destruct (tv_add_msecs_exact now p Hn ltac:(lia)) as [Hn' Hu'].
  apply not_ready_usecs; [done..|lia].
Qed.

Lemma tmr_run_on_time now T fuel n s bs fl A hT rT :
  normal now -> fit now s bs fl A n -> (n < fuel)%nat ->
  (hT < HASH_SIZE)%nat -> T ∈ bs hT ->
  heap s !! T = Some rT -> t_time rT = now -> t_periodic rT <> 0 ->
  exists s' bs' fl' A' n' r',
    tmr_run quiet fuel now s = Some (tt, s') /\
    fit now s' bs' fl' A' n' /\
    fired T (calls s') = S (fired T (calls s)) /\
    heap s' !! T = Some r' /\
    data r' = (t_cb rT, t_arg rT, t_msecs rT, t_periodic rT,
               tv_add_msecs now (t_msecs rT), hash (tv_add_msecs now (t_msecs rT))) /\
    T ∈ bs' (hash (tv_add_msecs now (t_msecs rT))).
Proof.
  intros Hnow Hfit Hfuel HhT HT HrT Htime Hper.
  assert (sane_timer rT) as [_ Hpos] by (by eapply (fit_sane _ _ _ _ _ _ Hfit hT T rT)).
  specialize (Hpos Hper).
  unfold tmr_run. rewrite (seq_split_at HASH_SIZE hT HhT), run_buckets_app.
  (* the buckets in front of the bucket of [T] *)
  destruct (run_buckets_skip now T Hnow fuel (seq 0 hT) n s bs fl A hT Hfit Hfuel)
    as (s1 & bs1 & fl1 & A1 & n1 & Hrun1 & Hfit1 & Hle1 & HT1 & Hdata1 & Hfired1);
    [|done|done| |].
  { apply Forall_forall. intros h Hh%elem_of_seq. lia. }
  { left. intros Hin%elem_of_seq. lia. }
  rewrite (bind_eq _ _ _ _ _ Hrun1).
  rewrite HrT in Hdata1. destruct (heap s1 !! T) as [r1|] eqn:Hr1; [|done].
  simpl in Hdata1. unfold data in Hdata1. injection Hdata1 as E1 E2 E3 E4 E5 E6.
  (* the bucket of [T] *)
  pose proof (good_shape _ _ _ (fit_good _ _ _ _ _ _ Hfit1)) as Hs1.
  destruct (shape_bucket _ _ _ Hs1 hT HhT) as (hd & Hhd & Hd).
  cbn [run_buckets]. rewrite (bind_eq _ _ _ _ _ (bucket_eq _ _ _ Hhd)).
  destruct (bs1 hT) as [|c l] eqn:Hbs1; [by apply elem_of_nil in HT1|].
  apply dseg_head in Hd. simpl in Hd. subst hd.
  destruct (run_bucket_reach now T Hnow fuel n1 c s1 bs1 fl1 A1 hT r1 Hfit1 ltac:(lia) HhT)
    as (s2 & bs2 & fl2 & A2 & n2 & r2 & Hrun2 & Hfit2 & Hle2 & Hfired2 & Hr2 & Hd2 & HT2);
    [|done|congruence|congruence|].
  { exists [], l. by rewrite Hbs1. }
  rewrite (bind_eq _ _ _ _ _ Hrun2).
  rewrite E1, E2, E3, E4 in Hd2. rewrite E3 in HT2.
  (* the buckets behind it *)
  destruct (run_buckets_skip now T Hnow fuel (seq (S hT) (HASH_SIZE - S hT)) n2 s2 bs2 fl2 A2
              (hash (tv_add_msecs now (t_msecs rT))) Hfit2 ltac:(lia))
    as (s3 & bs3 & fl3 & A3 & n3 & Hrun3 & Hfit3 & Hle3 & HT3 & Hdata3 & Hfired3);
    [|apply hash_lt|done| |].
  { apply Forall_forall. intros h Hh%elem_of_seq. lia. }
  { right. rewrite (time_at_eq _ _ _ Hr2). unfold data in Hd2.
    injection Hd2 as _ _ _ _ E _. rewrite E. by apply rescheduled_not_ready. }
  rewrite Hr2 in Hdata3. destruct (heap s3 !! T) as [r3|] eqn:Hr3; [|done].
  simpl in Hdata3.
  exists s3, bs3, fl3, A3, n3, r3. split; [done|]. split; [done|].
  split; [by rewrite Hfired3, Hfired2, Hfired1|].
  split; [done|]. split; [congruence|done].
Qed.

(** ** The schedule *)

Lemma elem_of_active s bs fl x :
  shape s bs fl -> (x ∈ active_ptrs s <-> exists h, (h < HASH_SIZE)%nat /\ x ∈ bs h).
Proof.
  intros Hs. rewrite (active_ptrs_good _ _ _ Hs), elem_of_flat_map. split.
  - intros (h & Hh%elem_of_seq & Hx). exists h. split; [lia|done].
  - intros (h & Hh & Hx). exists h. split; [apply elem_of_seq; lia|done].
Qed.

Lemma schedule_from T p n : forall tau s bs fl hT rT,
  good s bs fl ->
  (forall h x r, (h < HASH_SIZE)%nat -> x ∈ bs h -> heap s !! x = Some r -> sane_timer r) ->
  (hT < HASH_SIZE)%nat -> T ∈ bs hT ->
  heap s !! T = Some rT -> t_time rT = tau -> t_periodic rT <> 0 -> t_msecs rT = p ->
  exists fuel0, forall fuel, (fuel0 <= fuel)%nat -> schedule_ok fuel T p n tau s.
Proof.
  induction n as [|n IH]; intros tau s bs fl hT rT Hg Hsane HhT HT HrT Htime Hper Hms.
  - by exists 0%nat.
  - pose proof (good_shape _ _ _ Hg) as Hs.
    assert (normal tau) as Hnow.
    { rewrite <- Htime. by eapply (Hsane hT T rT). }
    set (A := active_ptrs s).
    set (N := total (firings tau (heap s)) A).
    assert (fit tau s bs fl A N) as Hfit.
    { split; [done|done| |done]. intros h x Hh Hx. apply (elem_of_active _ _ _ _ Hs). eauto. }
    destruct (tmr_run_on_time tau T (S N) N s bs fl A hT rT Hnow Hfit ltac:(lia)
                HhT HT HrT Htime Hper)
      as (s' & bs' & fl' & A' & n' & r' & Hrun & Hfit' & Hfired & Hr' & Hd' & HT').
    rewrite Hms in Hd', HT'. unfold data in Hd'. injection Hd' as E1 E2 E3 E4 E5 E6.
    destruct (IH (tv_add_msecs tau p) s' bs' fl' (hash (tv_add_msecs tau p)) r')
      as (fuel1 & Hsched).
    + by eapply fit_good.
    + by eapply fit_sane.
    + apply hash_lt.
    + done.
    + done.
    + congruence.
    + congruence.
    + congruence.
    + exists (max (S N) fuel1). intros fuel Hfuel. cbn [schedule_ok]. exists s'.
      split; [eapply tmr_run_more_fuel; [exact Hrun|lia]|].
      split; [done|]. split; [by rewrite (time_at_eq _ _ _ Hr')|].
      apply Hsched. lia.
Qed.

(** C4.  In a reachable registry whose active timers are sane (triggers in
    normal form, positive periods) and whose callbacks do not touch the
    registry, let [T] be an active periodic timer with period [p] and
    trigger [tau].  Call [tmr_run] at [tau], [tau + p], [tau + 2p], ..., any
    number [n] of times: with enough fuel every call returns, fires [T]
    exactly once, and leaves the trigger of [T] at its previous value plus
    [p]. *)
Theorem periodic_timer_keeps_schedule (s : registry) (T : nat) (r : timer) (n : nat) :
  reachable s -> sane s ->
  T ∈ active_ptrs s -> heap s !! T = Some r -> t_periodic r <> 0 ->
  exists fuel0, forall fuel, (fuel0 <= fuel)%nat ->
    schedule_ok fuel T (t_msecs r) n (t_time r) s.
Proof.
  intros (bs & fl & Hg)%reachable_good Hsane HT Hr Hper.
  pose proof (good_shape _ _ _ Hg) as Hs.
  apply (elem_of_active _ _ _ _ Hs) in HT as (hT & HhT & HT).
  eapply (schedule_from T (t_msecs r) n (t_time r) s bs fl hT r); try done.
  intros h x rx Hh Hx Hrx. unfold sane in Hsane. rewrite Forall_forall in Hsane.
  apply (Hsane x); [|done]. apply (elem_of_active _ _ _ _ Hs). eauto.
Qed.

Lemma sane_demo_periodic : sane demo_periodic.
Proof.
  unfold sane.
  replace (active_ptrs demo_periodic) with [1%nat] by (vm_compute; reflexivity).
  constructor; [|constructor]. intros r Hr.
  assert (heap demo_periodic !! 1%nat = Some demo_periodic_timer) as E
    by (vm_compute; reflexivity).
  rewrite E in Hr. injection Hr as <-.
  split; [|intros _]; vm_compute; [split; [discriminate|reflexivity]|reflexivity].
Qed.

Lemma periodic_timer_keeps_schedule_witness :
  sane demo_periodic /\
  1%nat ∈ active_ptrs demo_periodic /\
  heap demo_periodic !! 1%nat = Some demo_periodic_timer /\
  exists fuel0, forall fuel, (fuel0 <= fuel)%nat ->
    schedule_ok fuel 1%nat 100 3 (Timeval 0 100000) demo_periodic.
Proof.
  assert (active_ptrs demo_periodic = [1%nat]) as Ha by (vm_compute; reflexivity).
  assert (heap demo_periodic !! 1%nat = Some demo_periodic_timer) as Hr
    by (vm_compute; reflexivity).
  assert (1%nat ∈ active_ptrs demo_periodic) as Hin
    by (rewrite Ha; by apply list_elem_of_singleton).
  split; [apply sane_demo_periodic|]. split; [exact Hin|]. split; [exact Hr|].
  apply (periodic_timer_keeps_schedule demo_periodic 1%nat demo_periodic_timer 3
           reachable_demo_periodic sane_demo_periodic Hin Hr).
  vm_compute. discriminate.
Defined.

(** Three runs on schedule of the timer of [demo_periodic]: three calls of
    the callback, one per run, and the trigger ends at 400 ms. *)
Example three_runs_on_schedule :
  let s3 := run_from (run_from (run_from demo_periodic
                (tmr_run quiet 10 (Timeval 0 100000)))
                (tmr_run quiet 10 (Timeval 0 200000)))
                (tmr_run quiet 10 (Timeval 0 300000)) in
  map ev_now (calls s3) = [Timeval 0 100000; Timeval 0 200000; Timeval 0 300000] /\
  time_at (heap s3) 1%nat = Timeval 0 400000.
Proof. vm_compute. split; reflexivity. Qed.

(** ** Why the callbacks are assumed to leave the registry alone *)

(** [tmr_run] reads [t->next] before it calls the callback of [t].  When
    that callback cancels the timer next in line, the loop goes on with the
    cancelled record: its callback is called all the same, it is cancelled a
    second time, and the free list ends up cyclic.  The counters still
    balance. *)
Example callback_cancelling_next_timer :
  let s := run_from demo_two (tmr_run meddler 10 (Timeval 1 0)) in
  bucket_list demo_two 1 = Some [2%nat; 1%nat] /\
  map ev_timer (calls s) = [2%nat; 1%nat] /\
  free_list s = None /\
  (alloc_count s, active_count s, free_count s) = (2, -1, 3).
Proof. vm_compute. repeat split; reflexivity. Qed.

(** * Further properties of the code *)

(** ** The rescheduling arithmetic and the two comparisons *)

Lemma usecs_tv_add_msecs tv msecs :
  usecs (tv_add_msecs tv msecs) = usecs tv + 1000 * msecs.
Proof.
  unfold usecs, tv_add_msecs.
  pose proof (Z.quot_rem' msecs 1000) as Hm.
  set (u := tv_usec tv + Z.rem msecs 1000 * 1000) in *.
  pose proof (Z.quot_rem' u 1000000) as Hu.
  destruct (1000000 <=? u); cbn [tv_sec tv_usec]; subst u; lia.
Qed.

(** X1.  If the sums of lines 194-199 (repeated at 284-289 and 303-308)
    stay in the range of [long], whose largest value is at least 2^31 - 1,
    the code runs without a signed overflow and adds exactly [msecs]
    milliseconds: its result is the sum in unbounded integers.  For a time
    in normal form and a delay that is not negative the result is in normal
    form again.  For a negative delay nothing is borrowed from the seconds:
    the two fields are added separately, and the microseconds of the result
    can be negative. *)
Theorem tv_add_msecs_adds_exactly (LONG_MAX : Z) (tv : timeval) (msecs : Z) :
  2147483647 <= LONG_MAX ->
  fits_long LONG_MAX (tv_sec tv + Z.quot msecs 1000) = true ->
  fits_long LONG_MAX (tv_usec tv + Z.rem msecs 1000 * 1000) = true ->
  fits_long LONG_MAX (tv_sec (tv_add_msecs tv msecs)) = true ->
  tv_add_msecs_long LONG_MAX tv msecs = Some (tv_add_msecs tv msecs) /\
  usecs (tv_add_msecs tv msecs) = usecs tv + 1000 * msecs /\
  (normal tv -> 0 <= msecs -> normal (tv_add_msecs tv msecs)) /\
  (normal tv -> msecs < 0 ->
     tv_add_msecs tv msecs
     = Timeval (tv_sec tv + Z.quot msecs 1000) (tv_usec tv + Z.rem msecs 1000 * 1000) /\
     -1000000 < tv_usec (tv_add_msecs tv msecs) < 1000000).
Proof.
  intros Hmax Hsec Husec Hres. split; [|split; [apply usecs_tv_add_msecs|split]].
  - assert (fits_long LONG_MAX (Z.rem msecs 1000 * 1000) = true) as Hm.
    { pose proof (Z.rem_bound_abs msecs 1000 ltac:(lia)) as Hr.
      unfold fits_long. apply andb_true_intro. split; apply Z.leb_le; lia. }
    unfold tv_add_msecs_long, long_of. rewrite Hsec, Hm, Husec.
    unfold tv_add_msecs in Hres |- *.
    destruct (1000000 <=? tv_usec tv + Z.rem msecs 1000 * 1000);
      cbn [tv_sec] in Hres; [by rewrite Hres|done].
  - intros Hn Hms. by apply tv_add_msecs_exact.
  - intros Hn Hms. unfold normal in Hn.
    pose proof (Z.rem_bound_pos_neg msecs 1000 ltac:(lia) ltac:(lia)) as Hr.
    unfold tv_add_msecs.
    destruct (Z.leb_spec 1000000 (tv_usec tv + Z.rem msecs 1000 * 1000)) as [Hu|Hu];
      [lia|]. split; [done|]. cbn [tv_usec]. lia.
Qed.

(** Without the range the sum is not what the code gives: one second added
    to the last second of [long] is a signed overflow. *)
Example tv_add_msecs_overflows :
  tv_add_msecs_long (2 ^ 63 - 1) (Timeval (2 ^ 63 - 1) 0) 1000 = None /\
  tv_add_msecs (Timeval (2 ^ 63 - 1) 0) 1000 = Timeval (2 ^ 63) 0.
Proof. split; vm_compute; reflexivity. Qed.

(** X2.  On times in normal form the two comparisons of the code are the
    order of the instants: [t] is put in front of [t2] by [l_add] exactly
    when it is not later than [t2], and [tmr_run] leaves a timer alone
    exactly when its trigger is later than [now]. *)
Theorem comparisons_follow_the_clock (a b : timeval) :
  normal a -> normal b ->
  (goes_before a b = true <-> usecs a <= usecs b) /\
  (not_ready a b = true <-> usecs b < usecs a) /\
  (goes_before a b = true /\ goes_before b a = true <-> a = b).
Proof.
  intros Ha Hb. split; [by apply goes_before_usecs|]. split; [by apply not_ready_usecs|].
  rewrite !goes_before_usecs by done. split.
  - intros [H1 H2]. apply normal_inj; [done..|lia].
  - intros ->. lia.
Qed.

(** ** The value of [tmr_mstimeout] on any registry *)

Lemma mstimeout_step_gotone now acc tr : fst (mstimeout_step now acc tr) = true.
Proof.
  unfold mstimeout_step. destruct acc as [[] m]; cbn [fst snd negb]; [|done].
  by destruct (_ <? m).
Qed.

Lemma mstimeout_loop_gotone now hs : forall acc s acc' s',
  mstimeout_loop hs now acc s = Some (acc', s') ->
  (fst acc' = true <->
   fst acc = true \/ exists h p, h ∈ hs /\ timers s !! h = Some (Some p)).
Proof.
  induction hs as [|h hs IH]; intros acc s acc' s' Hrun; cbn [mstimeout_loop] in Hrun.
  - injection Hrun as <- <-. split; [by left|]. intros [H|(h & p & Hh & _)]; [done|].
    by apply elem_of_nil in Hh.
  - apply bind_Some in Hrun as (t & s1 & Hb & Hrun).
    pose proof (readonly_bucket _ _ _ _ Hb) as ->.
    unfold bucket in Hb. destruct (timers s !! h) as [hd|] eqn:Hhd; [|done].
    injection Hb as <-.
    apply bind_Some in Hrun as (acc1 & s1 & Hstep & Hrun).
    destruct hd as [p|].
    + apply bind_Some in Hstep as (tr & s2 & Hl & [= <- <-]).
      pose proof (readonly_load _ _ _ _ Hl) as ->.
      apply IH in Hrun. rewrite Hrun, mstimeout_step_gotone. split.
      * intros _. right. exists h, p. split; [by left|done].
      * intros _. by left.
    + injection Hstep as <- <-. apply IH in Hrun. rewrite Hrun. split.
      * intros [H|(h' & p & Hh' & Hp)]; [by left|]. right. exists h', p.
        split; [by right|done].
      * intros [H|(h' & p & Hh' & Hp)]; [by left|]. right. exists h', p.
        split; [|done]. apply elem_of_cons in Hh' as [->|Hh']; [congruence|done].
Qed.

Lemma tmr_mstimeout_cases INFTIM now s v s' :
  tmr_mstimeout INFTIM now s = Some (v, s') ->
  s' = s /\
  ((exists h p, (h < HASH_SIZE)%nat /\ timers s !! h = Some (Some p)) /\ 1 <= v
   \/
   (forall h p, (h < HASH_SIZE)%nat -> timers s !! h <> Some (Some p)) /\ v = INFTIM).
Proof.
  intros Hrun. split; [by eapply readonly_tmr_mstimeout|].
  unfold tmr_mstimeout in Hrun.
  apply bind_Some in Hrun as ([gotone msecs] & s1 & Hloop & Hrun).
  apply mstimeout_loop_gotone in Hloop. cbn [fst snd] in *.
  destruct gotone; cbn [negb] in Hrun.
  - left. split.
    + destruct (proj1 Hloop eq_refl) as [?|(h & p & Hh%elem_of_seq & Hp)]; [done|].
      exists h, p. split; [lia|done].
    + destruct (Z.leb_spec msecs 0); injection Hrun as <- _; lia.
  - right. injection Hrun as <- _. split; [|done].
    intros h p Hh Hp. assert (false = true) as ?; [|done].
    apply Hloop. right. exists h, p. split; [apply elem_of_seq; lia|done].
Qed.

(** X3.  Whatever the registry holds, a call of [tmr_mstimeout] that
    returns gives [INFTIM] when no bucket has a first record and a wait of
    at least one millisecond when some bucket has one: the value is never
    zero or negative because of a timer that is due.  (The floor is 1, not
    500: a timer 10 ms away gives 10.) *)
Theorem tmr_mstimeout_at_least_one (INFTIM : Z) (now : timeval) (s s' : registry) (v : Z) :
  tmr_mstimeout INFTIM now s = Some (v, s') ->
  ((forall h, (h < HASH_SIZE)%nat -> timers s !! h = Some None) -> v = INFTIM) /\
  ((exists h p, (h < HASH_SIZE)%nat /\ timers s !! h = Some (Some p)) -> 1 <= v) /\
  (v = INFTIM \/ 1 <= v).
Proof.
  intros Hrun. apply tmr_mstimeout_cases in Hrun as [_ [[(h & p & Hh & Hp) Hv]|[Hnone ->]]].
  - split; [|split; [done|by right]]. intros Hall. rewrite (Hall h Hh) in Hp. done.
  - split; [done|]. split; [|by left]. intros (h & p & Hh & Hp). by destruct (Hnone h p Hh).
Qed.

(** ** [tmr_timeout] *)

Lemma tmr_timeout_inv INFTIM now buf s nonnull tv s' :
  tmr_timeout INFTIM now buf s = Some ((nonnull, tv), s') ->
  s' = s /\
  exists v, tmr_mstimeout INFTIM now s = Some (v, s) /\
    (nonnull = false <-> v = INFTIM) /\
    (nonnull = false -> tv = buf) /\
    (nonnull = true -> tv = Timeval (Z.quot v 1000) (Z.rem v 1000 * 1000)).
Proof.
  unfold tmr_timeout. intros Hrun.
  apply bind_Some in Hrun as (v & s1 & Hms & Hrun).
  pose proof (readonly_tmr_mstimeout _ _ _ _ _ Hms) as ->.
  destruct (Z.eqb_spec v INFTIM) as [E|E]; injection Hrun as <- <- <-.
  - split; [done|]. exists v. by repeat split.
  - split; [done|]. exists v. repeat split; try done.
Qed.

(** X4.  [tmr_timeout] leaves the registry as it is.  Its result is null
    exactly when [tmr_mstimeout] gives [INFTIM], and then the static buffer
    keeps its content.  Otherwise the buffer holds the wait of
    [tmr_mstimeout] as a time in normal form, a multiple of one millisecond
    that is greater than zero. *)
Theorem tmr_timeout_null_or_positive (INFTIM : Z) (now buf : timeval) (s s' : registry)
    (nonnull : bool) (tv : timeval) :
  tmr_timeout INFTIM now buf s = Some ((nonnull, tv), s') ->
  s' = s /\
  exists v, tmr_mstimeout INFTIM now s = Some (v, s) /\
    (nonnull = false <-> v = INFTIM) /\
    (nonnull = false -> tv = buf) /\
    (nonnull = true ->
       normal tv /\ 0 <= tv_sec tv /\ usecs tv = 1000 * v /\ 0 < usecs tv).
Proof.
  intros Hrun. apply tmr_timeout_inv in Hrun as (-> & v & Hms & Hnull & Hbuf & Htv).
  split; [done|]. exists v. split; [done|]. split; [done|]. split; [done|].
  intros Hnn. rewrite (Htv Hnn).
  assert (1 <= v) as Hv.
  { apply tmr_mstimeout_cases in Hms as [_ [[_ Hv]|[_ Hv]]]; [done|].
    apply Hnull in Hv. congruence. }
  unfold normal, usecs. cbn [tv_sec tv_usec].
  rewrite (Z.quot_div_nonneg v 1000), (Z.rem_mod_nonneg v 1000) by lia.
  pose proof (Z.div_mod v 1000 ltac:(lia)). pose proof (Z.mod_pos_bound v 1000 ltac:(lia)).
  assert (0 <= v / 1000) by (apply Z.div_pos; lia). lia.
Qed.

(** ** [tmr_logstats] *)

(** X5.  After [tmr_init] and any sequence of calls of the public
    operations, with callbacks that keep the counters balanced,
    [tmr_logstats] writes the statistics line and nothing else: the message
    that the timer counts do not add up is never written.  The call leaves
    the registry as it is. *)
Theorem tmr_logstats_never_complains
    (invoke : callback -> arg_t -> timeval -> M unit)
    (Hcb : forall cb arg now, moves 0 (invoke cb arg now))
    (s0 s : registry) (ops : list op) (ss : list registry) (secs : Z) :
  tmr_init s0 = Some (tt, s) ->
  observe invoke ops s = Some ss ->
  Forall (fun s' =>
            tmr_logstats secs s'
            = Some ([stats_line (alloc_count s') (active_count s') (free_count s')], s'))
         (s :: ss).
Proof.
  intros [= <-] Hobs.
  assert (counts_add_up
            (Registry (heap s0) (replicate HASH_SIZE None) None 0 0 0 (calls s0)))
    as H0 by reflexivity.
  pose proof (observe_counts invoke Hcb ops _ ss H0 Hobs) as Hss.
  assert (forall s', counts_add_up s' ->
            tmr_logstats secs s'
            = Some ([stats_line (alloc_count s') (active_count s') (free_count s')], s'))
    as Hlog.
  { intros s' Hs'. unfold tmr_logstats, counts_add_up in *.
    by rewrite (proj2 (Z.eqb_eq _ _)) by lia. }
  constructor; [by apply Hlog|]. eapply Forall_impl; [exact Hss|]. exact Hlog.
Qed.

(** ** The three counters, one by one *)

Lemma shifts_ret {A} (a : A) : shifts 0 0 0 (ret a).
Proof. intros s a' s' [= _ <-]. lia. Qed.

Lemma shifts_fault {A} da dc df : shifts da dc df (@fault A).
Proof. intros s a s' [=]. Qed.

Lemma shifts_bind {A B} a1 c1 f1 a2 c2 f2 da dc df (m : M A) (k : A -> M B) :
  shifts a1 c1 f1 m -> (forall a, shifts a2 c2 f2 (k a)) ->
  da = a1 + a2 -> dc = c1 + c2 -> df = f1 + f2 -> shifts da dc df (bind m k).
Proof.
  intros Hm Hk -> -> -> s b s' (a & s1 & H1 & H2)%bind_Some.
  apply Hm in H1. apply Hk in H2. lia.
Qed.

Lemma shifts_load p : shifts 0 0 0 (load p).
Proof. intros s a s'. unfold load. destruct (heap s !! p); intros [= _ <-]. lia. Qed.

Lemma shifts_store p f : shifts 0 0 0 (store p f).
Proof.
  intros s a s'. unfold store. destruct (heap s !! p); intros [= _ <-]. simpl. lia.
Qed.

Lemma shifts_bucket h : shifts 0 0 0 (bucket h).
Proof. intros s a s'. unfold bucket. destruct (timers s !! h); intros [= _ <-]. lia. Qed.

Lemma shifts_set_bucket h v : shifts 0 0 0 (set_bucket h v).
Proof.
  intros s a s'. unfold set_bucket. destruct (timers s !! h); intros [= _ <-]. simpl. lia.
Qed.

Lemma shifts_get_free : shifts 0 0 0 get_free.
Proof. intros s a s' [= _ <-]. lia. Qed.

Lemma shifts_set_free v : shifts 0 0 0 (set_free v).
Proof. intros s a s' [= _ <-]. simpl. lia. Qed.

Lemma shifts_add_active d : shifts 0 d 0 (add_active d).
Proof. intros s a s' [= _ <-]. simpl. lia. Qed.

Lemma shifts_add_free d : shifts 0 0 d (add_free d).
Proof. intros s a s' [= _ <-]. simpl. lia. Qed.

Lemma shifts_heap_size : shifts 0 0 0 heap_size.
Proof. intros s a s' [= _ <-]. lia. Qed.

Create HintDb shifts.
#[local] Hint Resolve shifts_ret shifts_fault shifts_load shifts_store shifts_bucket
  shifts_set_bucket shifts_get_free shifts_set_free shifts_add_active shifts_add_free
  shifts_heap_size : shifts.

Ltac shifts_step :=
  lazymatch goal with
  | |- shifts _ _ _ (bind _ _) => eapply shifts_bind; [ | intros ? | | | ]
  | |- shifts _ _ _ (if ?b then _ else _) => destruct b
  | |- shifts _ _ _ (match ?x with Some _ => _ | None => _ end) => destruct x
  | |- shifts _ _ _ _ => solve [eauto with shifts]
  | |- _ = _ => try reflexivity; lia
  end.

Lemma shifts_l_remove t : shifts 0 0 0 (l_remove t).
Proof. destruct t as [p|]; simpl; repeat shifts_step. Qed.

(** [tmr_cancel] of a handle that is not null: [--active_count] and
    [++free_count]. *)
Lemma shifts_tmr_cancel p : shifts 0 (-1) 1 (tmr_cancel (Some p)).
Proof.
  pose proof shifts_l_remove. cbn [tmr_cancel].
  eapply (shifts_bind 0 0 0 0 (-1) 1); [eauto| |done..]. intros _.
  eapply (shifts_bind 0 (-1) 0 0 0 1); [eauto with shifts| |done..]. intros _.
  eapply (shifts_bind 0 0 0 0 0 1); [eauto with shifts| |done..]. intros _.
  eapply (shifts_bind 0 0 0 0 0 1); [eauto with shifts| |done..]. intros f.
  eapply (shifts_bind 0 0 0 0 0 1); [eauto with shifts| |done..]. intros _.
  eapply (shifts_bind 0 0 0 0 0 1); [eauto with shifts| |done..]. intros _.
  apply shifts_add_free.
Qed.

(** ** Counting the active timers *)

Lemma flat_map_insert_out (bs : nat -> list nat) h l' hs :
  h ∉ hs -> flat_map (<[h := l']> bs) hs = flat_map bs hs.
Proof.
  induction hs as [|x hs IH]; intros Hh; simpl; [done|].
  rewrite fn_lookup_insert_ne by set_solver. rewrite IH by set_solver. done.
Qed.

Lemma count_insert (bs : nat -> list nat) h l' :
  (h < HASH_SIZE)%nat ->
  (count (<[h := l']> bs) + length (bs h) = count bs + length l')%nat.
Proof.
  intros Hh. unfold count. rewrite (seq_split_at HASH_SIZE h Hh).
  rewrite !flat_map_app. cbn [flat_map]. rewrite !length_app.
  rewrite fn_lookup_insert.
  rewrite !flat_map_insert_out; [lia| |]; intros Hin%elem_of_seq; lia.
Qed.

Lemma count_ext (bs bs' : nat -> list nat) :
  (forall h, (h < HASH_SIZE)%nat -> bs' h = bs h) -> count bs' = count bs.
Proof.
  intros E. unfold count. pose proof (seq_lt HASH_SIZE) as Hlt.
  induction (seq 0 HASH_SIZE) as [|h hs IH]; simpl; [done|].
  apply Forall_cons in Hlt as [Hh Hlt]. rewrite !length_app, E by done.
  f_equal. by apply IH.
Qed.

Lemma count_bucket (bs : nat -> list nat) h :
  (h < HASH_SIZE)%nat -> (length (bs h) <= count bs)%nat.
Proof.
  intros Hh. unfold count. rewrite (seq_split_at HASH_SIZE h Hh).
  rewrite flat_map_app. cbn [flat_map]. rewrite !length_app. lia.
Qed.

Lemma count_empty : count (fun _ => []) = 0%nat.
Proof. unfold count. by induction (seq 0 HASH_SIZE). Qed.

Lemma length_ins tm t l : length (ins tm t l) = S (length l).
Proof.
  induction l as [|q l IH]; simpl; [done|].
  destruct (goes_before _ _); simpl; [done|]. by rewrite IH.
Qed.

(** ** An invariant with room for a property of the active timers *)

Lemma tidy_ext Q s bs bs' fl :
  (forall h, (h < HASH_SIZE)%nat -> bs' h = bs h) -> tidy Q s bs fl -> tidy Q s bs' fl.
Proof.
  intros E [Hg He Ha Hc]. split; [by eapply good_ext| |by rewrite (count_ext bs bs')|done].
  intros h x r Hh. rewrite E by done. by apply He.
Qed.

Lemma tidy_agree Q s s' bs fl :
  tidy Q s bs fl ->
  heap s' = heap s -> timers s' = timers s -> free_timers s' = free_timers s ->
  alloc_count s' = alloc_count s -> active_count s' = active_count s ->
  free_count s' = free_count s ->
  tidy Q s' bs fl.
Proof.
  intros [Hg He Ha Hc] Hheap Htm Hfree Hal Hac Hfc. split.
  - by eapply good_agree.
  - rewrite Hheap. exact He.
  - by rewrite Hac.
  - unfold counts_add_up in *. lia.
Qed.

Section Tidy.

Variable Q : timer -> Prop.
Hypothesis Q_data : forall r r', data r' = data r -> Q r -> Q r'.

(** [tmr_cancel] of an active timer. *)
Lemma cancel_tidy s bs fl h l1 p l2 :
  tidy Q s bs fl -> (h < HASH_SIZE)%nat -> bs h = l1 ++ p :: l2 ->
  exists s', tmr_cancel (Some p) s = Some (tt, s') /\
    tidy Q s' (<[h := l1 ++ l2]> bs) (p :: fl) /\
    relinked (p :: l1 ++ l2) (heap s) (heap s') /\
    calls s' = calls s /\ alloc_count s' = alloc_count s.
Proof.
  intros [Hg He Ha Hc] Hh Hbs.
  destruct (tmr_cancel_good _ _ _ _ _ _ _ Hg Hh Hbs) as (s' & Hrun & Hg' & Hrel & Hcalls).
  destruct (shifts_tmr_cancel _ _ _ _ Hrun) as (Hal & Hac & Hfc).
  exists s'. split; [done|]. split; [|split; [done|split; [done|lia]]]. split.
  - done.
  - intros h' x r' Hh' Hx Hr'.
    assert (x ∈ bs h') as Hx'.
    { destruct (decide (h = h')) as [<-|Hne].
      - rewrite fn_lookup_insert in Hx. rewrite Hbs. set_solver.
      - by rewrite fn_lookup_insert_ne in Hx. }
    destruct (shape_hash _ _ _ (good_shape _ _ _ Hg) h' x Hh' Hx') as (r & Hr & _).
    destruct (relinked_lookup _ _ _ _ _ Hrel Hr) as (r'' & Hr'' & Hd).
    assert (r'' = r') as -> by congruence.
    eapply Q_data; [exact Hd|]. by eapply He.
  - pose proof (count_insert bs h (l1 ++ l2) Hh) as Hcnt.
    rewrite Hbs, !length_app in Hcnt. cbn [length] in Hcnt. lia.
  - unfold counts_add_up in *. lia.
Qed.

(** A new trigger time for an active timer, then [l_resort]. *)
Lemma resched_tidy s bs fl h l1 p l2 r f tv :
  tidy Q s bs fl -> (h < HASH_SIZE)%nat -> bs h = l1 ++ p :: l2 ->
  heap s !! p = Some r -> f r = set_time tv r ->
  (forall r', data r' = rescheduled r tv -> Q r') ->
  exists s', (store p f ;; l_resort p) s = Some (tt, s') /\
    tidy Q s' (<[hash tv := ins (time_at (heap s')) p ((<[h := l1 ++ l2]> bs) (hash tv))]>
                 (<[h := l1 ++ l2]> bs)) fl /\
    (exists r', heap s' !! p = Some r' /\ data r' = rescheduled r tv) /\
    (forall x, x ≠ p -> data <$> heap s' !! x = data <$> heap s !! x) /\
    same_statics s s'.
Proof.
  intros [Hg He Ha Hc] Hh Hbs Hr Hf Hnew.
  destruct (resched_good _ _ _ _ _ _ _ _ _ tv Hg Hh Hbs Hr Hf)
    as (s' & Hrun & Hg' & (r' & Hr' & Hd') & Hothers & Hst).
  pose proof Hst as (Hfree & Hal & Hac & Hfc & Hcalls).
  exists s'. split; [done|]. split; [|split; [by exists r'|done]]. split.
  - done.
  - intros h' x rx Hh' Hx Hrx.
    destruct (decide (x = p)) as [->|Hxp].
    { apply Hnew. assert (rx = r') as -> by congruence. exact Hd'. }
    assert (x ∈ bs h') as Hx'.
    { destruct (decide (hash tv = h')) as [<-|Hne].
      - rewrite fn_lookup_insert in Hx. apply elem_of_ins in Hx as [?|Hx]; [done|].
        destruct (decide (h = hash tv)) as [E|Hne'].
        + rewrite <- E in Hx |- *. rewrite fn_lookup_insert in Hx. rewrite Hbs. set_solver.
        + by rewrite fn_lookup_insert_ne in Hx.
      - rewrite fn_lookup_insert_ne in Hx by done.
        destruct (decide (h = h')) as [<-|Hne'].
        + rewrite fn_lookup_insert in Hx. rewrite Hbs. set_solver.
        + by rewrite fn_lookup_insert_ne in Hx. }
    destruct (shape_hash _ _ _ (good_shape _ _ _ Hg) h' x Hh' Hx') as (r0 & Hr0 & _).
    pose proof (Hothers x Hxp) as Hd. rewrite Hr0, Hrx in Hd.
    assert (data rx = data r0) as Hd2 by (simpl in Hd; unfold data in *; congruence).
    eapply Q_data; [exact Hd2|]. by eapply He.
  - rewrite Hac, Ha. f_equal.
    pose proof (count_insert bs h (l1 ++ l2) Hh) as C1.
    pose proof (count_insert (<[h := l1 ++ l2]> bs) (hash tv)
                  (ins (time_at (heap s')) p ((<[h := l1 ++ l2]> bs) (hash tv)))
                  (hash_lt tv)) as C2.
    rewrite length_ins in C2. rewrite Hbs, !length_app in C1. cbn [length] in C1. lia.
  - unfold counts_add_up in *. lia.
Qed.

(** [tmr_create] that returns a handle. *)
Lemma create_tidy s bs fl malloc clock now cb arg msecs periodic t s1 :
  tidy Q s bs fl ->
  (fl = [] -> forall p, malloc = Some p -> heap s !! p = None) ->
  tmr_create malloc clock now cb arg msecs periodic s = Some (Some t, s1) ->
  let tv := tv_add_msecs (default clock now) msecs in
  (forall r', data r' = (cb, arg, msecs, periodic, tv, hash tv) -> Q r') ->
  exists fl1 r1,
    tidy Q s1 (<[hash tv := ins (time_at (heap s1)) t (bs (hash tv))]> bs) fl1 /\
    heap s1 !! t = Some r1 /\ data r1 = (cb, arg, msecs, periodic, tv, hash tv) /\
    (forall x, x ≠ t -> data <$> heap s1 !! x = data <$> heap s !! x) /\
    ~ (exists h, (h < HASH_SIZE)%nat /\ t ∈ bs h) /\
    calls s1 = calls s /\
    ((fl = t :: fl1 /\ alloc_count s1 = alloc_count s) \/
     (fl = [] /\ fl1 = [] /\ malloc = Some t /\ alloc_count s1 = alloc_count s + 1)).
Proof.
  intros [Hg He Ha Hc] Hfresh Hrun tv Hnew.
  pose proof (good_shape _ _ _ Hg) as Hs.
  pose proof (moves_tmr_create _ _ _ _ _ _ _ _ _ _ Hrun) as Hslack. unfold slack in Hslack.
  assert (exists fl1 r1,
    good s1 (<[hash tv := ins (time_at (heap s1)) t (bs (hash tv))]> bs) fl1 /\
    heap s1 !! t = Some r1 /\ data r1 = (cb, arg, msecs, periodic, tv, hash tv) /\
    (forall x, x ≠ t -> data <$> heap s1 !! x = data <$> heap s !! x) /\
    ~ (exists h, (h < HASH_SIZE)%nat /\ t ∈ bs h) /\
    calls s1 = calls s /\
    ((fl = t :: fl1 /\ alloc_count s1 = alloc_count s) \/
     (fl = [] /\ fl1 = [] /\ malloc = Some t /\ alloc_count s1 = alloc_count s + 1)))
    as (fl1 & r1 & Hg1 & Hr1 & Hd1 & Ho & Hnot & Hcalls & Hcase).
  { destruct fl as [|t0 fl].
    - destruct malloc as [t0|].
      + destruct (tmr_create_fresh_good s bs t0 clock now cb arg msecs periodic Hg)
          as (s2 & Hc2 & Hg2 & (r1 & Hr1 & Hd1) & Ho & Hal & Hcalls); [by apply Hfresh|].
        rewrite Hc2 in Hrun. injection Hrun as <- <-.
        exists [], r1. do 4 (split; [done|]). split; [|split; [done|by right]].
        intros (h & Hh & Hx). destruct (shape_hash _ _ _ Hs h t0 Hh Hx) as (r & Hr & _).
        rewrite (Hfresh eq_refl t0 eq_refl) in Hr. done.
      + assert (tmr_create None clock now cb arg msecs periodic s = Some (None, s)) as Hn.
        { apply tmr_create_null_inv. repeat split.
          by pose proof (shape_free _ _ _ Hs). }
        rewrite Hn in Hrun. discriminate Hrun.
    - destruct (tmr_create_reuse_good s bs t0 fl malloc clock now cb arg msecs periodic Hg)
        as (s2 & Hc2 & Hg2 & (r1 & Hr1 & Hd1) & Ho & Hal & Hcalls).
      rewrite Hc2 in Hrun. injection Hrun as <- <-.
      exists fl, r1. do 4 (split; [done|]). split; [|split; [done|by left]].
      intros (h & Hh & Hx). eapply shape_sep; [done..|]. set_solver. }
  exists fl1, r1. split; [|done]. split.
  - done.
  - intros h' x rx Hh' Hx Hrx.
    destruct (decide (x = t)) as [->|Hxt].
    { apply Hnew. assert (rx = r1) as -> by congruence. exact Hd1. }
    assert (x ∈ bs h') as Hx'.
    { destruct (decide (hash tv = h')) as [<-|Hne].
      - rewrite fn_lookup_insert in Hx. by apply elem_of_ins in Hx as [?|Hx].
      - by rewrite fn_lookup_insert_ne in Hx. }
    destruct (shape_hash _ _ _ Hs h' x Hh' Hx') as (r0 & Hr0 & _).
    pose proof (Ho x Hxt) as Hd. rewrite Hr0, Hrx in Hd.
    assert (data rx = data r0) as Hd2 by (simpl in Hd; unfold data in *; congruence).
    eapply Q_data; [exact Hd2|]. by eapply He.
  - pose proof (count_insert bs (hash tv) (ins (time_at (heap s1)) t (bs (hash tv)))
                  (hash_lt tv)) as C1.
    rewrite length_ins in C1.
    pose proof (good_free_count _ _ _ Hg) as F0.
    pose proof (good_free_count _ _ _ Hg1) as F1.
    unfold counts_add_up in Hc.
    destruct Hcase as [[-> Hal]|(-> & -> & _ & Hal)]; cbn [length] in *; lia.
  - pose proof (good_free_count _ _ _ Hg) as F0.
    pose proof (good_free_count _ _ _ Hg1) as F1.
    unfold counts_add_up in *. lia.
Qed.

(** The loop of [tmr_cleanup]. *)
Lemma cleanup_loop_tidy bs fl : forall fuel s,
  tidy Q s bs fl -> (length fl <= fuel)%nat ->
  exists s', cleanup_loop fuel s = Some (tt, s') /\ tidy Q s' bs [] /\
    calls s' = calls s /\ timers s' = timers s /\
    (forall x, x ∉ fl -> heap s' !! x = heap s !! x) /\
    (forall x, x ∈ fl -> heap s' !! x = None) /\
    alloc_count s' = alloc_count s - Z.of_nat (length fl) /\
    active_count s' = active_count s.
Proof.
  induction fl as [|t fl IH]; intros fuel s Ht Hfuel;
    pose proof (tidy_good _ _ _ _ Ht) as Hg;
    pose proof (good_shape _ _ _ Hg) as Hs;
    pose proof (shape_free _ _ _ Hs) as Hft; simpl in Hft.
  - exists s. split; [destruct fuel; simpl; unfold bind, get_free; by rewrite Hft|].
    split; [done|]. do 3 (split; [done|]). split; [by intros x Hx%elem_of_nil|].
    simpl. lia.
  - destruct Hft as (Hft & r & Hr & Hsll).
    destruct fuel as [|fuel]; [simpl in Hfuel; lia|].
    set (s1 := Registry (delete t (heap s)) (timers s) (t_next r)
                 (alloc_count s + -1) (active_count s) (free_count s + -1) (calls s)).
    assert (cleanup_loop (S fuel) s = cleanup_loop fuel s1) as ->.
    { simpl. unfold get_free at 1. erewrite bind_eq by reflexivity. rewrite Hft.
      rewrite (bind_eq _ _ _ _ _ (load_eq _ _ _ Hr)).
      unfold set_free at 1. erewrite bind_eq by reflexivity.
      unfold add_free at 1. erewrite bind_eq by reflexivity.
      unfold add_alloc at 1. erewrite bind_eq by reflexivity.
      unfold release at 1. unfold bind at 1. simpl. by rewrite Hr. }
    destruct (shape_pop_free s bs t fl
                (Registry (heap s) (timers s) (t_next r) (alloc_count s) (active_count s)
                          (free_count s) (calls s)) Hs) as [Hs0 Hnl];
      [done|done|by simpl; rewrite Hr|].
    pose proof (shape_free_nodup _ _ _ Hs) as [Htfl _]%NoDup_cons.
    assert (tidy Q s1 bs fl) as Ht1.
    { split; [split|..].
      - eapply shape_agree; [exact Hs0|done|done|]. intros x rx Hx Hrx.
        exists rx. simpl in *. rewrite lookup_delete_ne; [done|]. by intros ->.
      - intros h Hh. simpl. eapply sorted_ext; [|by apply (good_sorted _ _ _ Hg)].
        intros x Hx. apply time_at_delete_ne. intros ->.
        by eapply (not_listed_bucket bs fl t h).
      - simpl. rewrite (good_free_count _ _ _ Hg). simpl length. lia.
      - intros h x rx Hh Hx Hrx. simpl in Hrx.
        rewrite lookup_delete_ne in Hrx; [by eapply (tidy_every _ _ _ _ Ht)|].
        intros ->. by eapply (not_listed_bucket bs fl x h).
      - simpl. apply (tidy_active _ _ _ _ Ht).
      - pose proof (tidy_alloc _ _ _ _ Ht). unfold counts_add_up in *. simpl. lia. }
    destruct (IH fuel s1 Ht1) as (s' & Hrun & Ht' & Hcalls & Htm & Hkeep & Hgone & Hal & Hac);
      [simpl in Hfuel; lia|].
    exists s'. split; [done|]. split; [done|]. split; [done|]. split; [done|].
    split; [|split; [|split; [|done]]].
    + intros x Hx. rewrite Hkeep by set_solver. simpl. apply lookup_delete_ne. set_solver.
    + intros x Hx. destruct (decide (x ∈ fl)) as [Hin|Hout]; [by apply Hgone|].
      rewrite Hkeep by done. assert (x = t) as -> by set_solver. simpl.
      apply lookup_delete_eq.
    + rewrite Hal. simpl. lia.
Qed.

Lemma cleanup_tidy s bs fl :
  tidy Q s bs fl ->
  exists s', tmr_cleanup s = Some (tt, s') /\ tidy Q s' bs [] /\
    calls s' = calls s /\ timers s' = timers s /\
    (forall x, x ∉ fl -> heap s' !! x = heap s !! x) /\
    (forall x, x ∈ fl -> heap s' !! x = None) /\
    alloc_count s' = alloc_count s - Z.of_nat (length fl) /\
    active_count s' = active_count s.
Proof.
  intros Ht. unfold tmr_cleanup. unfold heap_size at 1. erewrite bind_eq by reflexivity.
  apply (cleanup_loop_tidy bs fl); [done|]. simpl.
  pose proof (good_shape _ _ _ (tidy_good _ _ _ _ Ht)) as Hs.
  eapply sll_length; [by eapply shape_free_nodup|by eapply shape_free].
Qed.

(** The inner loop of [tmr_destroy]: bucket [h] is emptied. *)
Lemma destroy_bucket_tidy h : forall l fuel s bs fl,
  tidy Q s bs fl -> (h < HASH_SIZE)%nat -> bs h = l -> (length l <= fuel)%nat ->
  exists s' fl', destroy_bucket fuel h s = Some (tt, s') /\
    tidy Q s' (<[h := []]> bs) fl' /\ calls s' = calls s /\
    alloc_count s' = alloc_count s /\
    (forall x, data <$> heap s' !! x = data <$> heap s !! x) /\
    (forall x, x ∉ l -> heap s' !! x = heap s !! x) /\
    (forall x, x ∈ fl' <-> x ∈ fl \/ x ∈ l).
Proof.
  induction l as [|p l IH]; intros fuel s bs fl Ht Hh Hbs Hfuel;
    pose proof (tidy_good _ _ _ _ Ht) as Hg;
    pose proof (good_shape _ _ _ Hg) as Hs;
    destruct (shape_bucket _ _ _ Hs h Hh) as (hd & Hhd & Hd); rewrite Hbs in Hd.
  - simpl in Hd. subst hd. exists s, fl.
    split; [destruct fuel; simpl; by rewrite (bind_eq _ _ _ _ _ (bucket_eq _ _ _ Hhd))|].
    split; [|split; [done|split; [done|split; [done|split; [done|set_solver]]]]].
    eapply tidy_ext; [|exact Ht]. intros h' _. destruct (decide (h = h')) as [<-|Hne].
    + by rewrite fn_lookup_insert.
    + by rewrite fn_lookup_insert_ne.
  - destruct Hd as (-> & _). destruct fuel as [|fuel]; [simpl in Hfuel; lia|].
    cbn [destroy_bucket]. rewrite (bind_eq _ _ _ _ _ (bucket_eq _ _ _ Hhd)).
    destruct (cancel_tidy s bs fl h [] p l Ht Hh Hbs)
      as (s1 & Hc & Ht1 & Hrel & Hcalls1 & Hal1).
    rewrite (bind_eq _ _ _ _ _ Hc).
    destruct (IH fuel s1 (<[h := [] ++ l]> bs) (p :: fl) Ht1 Hh)
      as (s' & fl' & Hrun & Ht' & Hcalls & Hal & Hdata & Hsame & Hfl');
      [by rewrite fn_lookup_insert|simpl in Hfuel; lia|].
    exists s', fl'.
    split; [done|]. split; [|split; [congruence|split; [congruence|split; [|split]]]].
    + eapply tidy_ext; [|exact Ht']. intros h' _. destruct (decide (h = h')) as [<-|Hne].
      * by rewrite !fn_lookup_insert.
      * by rewrite !fn_lookup_insert_ne.
    + intros x. rewrite Hdata. by destruct (Hrel x) as [_ ->].
    + intros x Hx. rewrite Hsame by set_solver. destruct (Hrel x) as [-> _]; set_solver.
    + intros x. rewrite Hfl'. set_solver.
Qed.

Lemma destroy_buckets_tidy fuel hs : forall s bs fl,
  tidy Q s bs fl -> Forall (fun h => (h < HASH_SIZE)%nat) hs ->
  (forall h, (h < HASH_SIZE)%nat -> (length (bs h) <= fuel)%nat) ->
  exists s' bs' fl', destroy_buckets fuel hs s = Some (tt, s') /\
    tidy Q s' bs' fl' /\ calls s' = calls s /\ alloc_count s' = alloc_count s /\
    (forall x, data <$> heap s' !! x = data <$> heap s !! x) /\
    (forall x, (forall h, h ∈ hs -> x ∉ bs h) -> heap s' !! x = heap s !! x) /\
    (forall h, h ∈ hs -> bs' h = []) /\
    (forall h, h ∉ hs -> bs' h = bs h) /\
    (forall x, x ∈ fl' <-> x ∈ fl \/ exists h, h ∈ hs /\ x ∈ bs h).
Proof.
  induction hs as [|h hs IH]; intros s bs fl Ht Hhs Hfuel.
  - exists s, bs, fl. split; [done|]. split; [done|]. do 4 (split; [done|]).
    split; [by intros h Hh%elem_of_nil|]. split; [done|].
    intros x. split; [by left|]. intros [?|(h & Hh%elem_of_nil & _)]; done.
  - apply Forall_cons in Hhs as [Hh Hhs]. cbn [destroy_buckets].
    destruct (destroy_bucket_tidy h (bs h) fuel s bs fl Ht Hh eq_refl (Hfuel h Hh))
      as (s1 & fl1 & Hrun1 & Ht1 & Hcalls1 & Hal1 & Hdata1 & Hsame1 & Hfl1).
    rewrite (bind_eq _ _ _ _ _ Hrun1).
    destruct (IH s1 (<[h := []]> bs) fl1 Ht1 Hhs)
      as (s' & bs' & fl' & Hrun & Ht' & Hcalls & Hal & Hdata & Hsame & Hin & Hout & Hfl').
    { intros h' Hh'. destruct (decide (h = h')) as [<-|Hne].
      - rewrite fn_lookup_insert. simpl. lia.
      - rewrite fn_lookup_insert_ne by done. by apply Hfuel. }
    exists s', bs', fl'. split; [done|]. split; [done|].
    split; [congruence|]. split; [congruence|]. split; [|split; [|split; [|split]]].
    + intros x. by rewrite Hdata, Hdata1.
    + intros x Hx. rewrite Hsame, Hsame1; [done|apply Hx; set_solver|].
      intros h' Hh'. destruct (decide (h = h')) as [<-|Hne].
      * rewrite fn_lookup_insert. by intros ?%elem_of_nil.
      * rewrite fn_lookup_insert_ne by done. apply Hx. set_solver.
    + intros h' Hh'. destruct (decide (h' ∈ hs)) as [?|Hni]; [by apply Hin|].
      rewrite Hout by done. assert (h' = h) as -> by set_solver.
      by rewrite fn_lookup_insert.
    + intros h' Hh'. rewrite Hout by set_solver. rewrite fn_lookup_insert_ne; set_solver.
    + intros x. rewrite Hfl', Hfl1. split.
      * intros [[?|?]|(h' & Hh' & Hx)]; [by left|right; exists h; set_solver|].
        right. exists h'. split; [set_solver|].
        destruct (decide (h = h')) as [<-|Hne];
          [rewrite fn_lookup_insert in Hx; by apply elem_of_nil in Hx|].
        by rewrite fn_lookup_insert_ne in Hx.
      * intros [?|(h' & Hh' & Hx)]; [by left; left|].
        destruct (decide (h' = h)) as [->|Hne]; [by left; right|].
        right. exists h'. split; [set_solver|]. by rewrite fn_lookup_insert_ne.
Qed.

End Tidy.

(** ** [tmr_run], call by call *)

Lemma fired_nil T : fired T [] = 0%nat.
Proof. reflexivity. Qed.

Lemma fired_app T l1 l2 : fired T (l1 ++ l2) = (fired T l1 + fired T l2)%nat.
Proof. unfold fired. by rewrite filter_app, length_app. Qed.

Lemma fired_pos T evs : fired T evs <> 0%nat -> exists e, e ∈ evs /\ ev_timer e = T.
Proof.
  unfold fired. intros Hn.
  destruct (filter (fun e => ev_timer e = T) evs) as [|e l] eqn:E; [done|].
  assert (e ∈ filter (fun e => ev_timer e = T) evs) as He by (rewrite E; set_solver).
  apply list_elem_of_filter in He as [He1 He2]. eauto.
Qed.

Section TidyRun.

Variable Q : timer -> Prop.
Hypothesis Q_data : forall r r', data r' = data r -> Q r -> Q r'.
Hypothesis Q_resched : forall r r', Q r -> t_periodic r <> 0 ->
  data r' = rescheduled r (tv_add_msecs (t_time r) (t_msecs r)) -> Q r'.

(** One turn of the inner loop of [tmr_run] on the due timer [p]. *)
Lemma fire_tidy s bs fl h l1 p l2 r now :
  tidy Q s bs fl -> (h < HASH_SIZE)%nat -> bs h = l1 ++ p :: l2 ->
  heap s !! p = Some r ->
  exists s2 bs2 fl2,
    fire quiet now p r s = Some (tt, s2) /\ tidy Q s2 bs2 fl2 /\
    calls s2 = calls s ++ [Event p (t_cb r) (t_arg r) now] /\
    alloc_count s2 = alloc_count s /\
    (forall x, x ≠ p -> data <$> heap s2 !! x = data <$> heap s !! x) /\
    (forall h' x, (h' < HASH_SIZE)%nat -> x ≠ p -> (x ∈ bs2 h' <-> x ∈ bs h')) /\
    ((t_periodic r = 0 /\ fl2 = p :: fl /\
      forall h', (h' < HASH_SIZE)%nat -> p ∉ bs2 h')
     \/
     (t_periodic r <> 0 /\ fl2 = fl /\
      p ∈ bs2 (hash (tv_add_msecs (t_time r) (t_msecs r))) /\
      exists r', heap s2 !! p = Some r' /\
        data r' = rescheduled r (tv_add_msecs (t_time r) (t_msecs r)))).
Proof.
  intros Ht Hh Hbs Hr.
  pose proof (good_shape _ _ _ (tidy_good _ _ _ _ Ht)) as Hs.
  set (e := Event p (t_cb r) (t_arg r) now).
  set (s1 := Registry (heap s) (timers s) (free_timers s)
                      (alloc_count s) (active_count s) (free_count s) (calls s ++ [e])).
  assert (tidy Q s1 bs fl) as Ht1 by (by eapply tidy_agree).
  unfold fire. unfold log_call at 1. erewrite bind_eq by reflexivity.
  unfold quiet at 1. erewrite bind_eq by reflexivity.
  fold e. fold s1.
  erewrite bind_eq by (apply load_eq; simpl; exact Hr).
  pose proof (shape_nodup _ _ _ Hs h Hh) as Hnd. rewrite Hbs in Hnd.
  assert (p ∉ l1 ++ l2) as Hp12.
  { apply NoDup_app in Hnd as (_ & Hd1 & [Hd2 _]%NoDup_cons). set_solver. }
  assert (forall h' x, x ≠ p -> x ∈ (<[h := l1 ++ l2]> bs) h' <-> x ∈ bs h') as Hrem.
  { intros h' x Hx. by eapply removed_members. }
  destruct (Z.eqb_spec (t_periodic r) 0) as [Hper|Hper].
  - destruct (cancel_tidy Q Q_data _ _ _ _ _ _ _ Ht1 Hh Hbs)
      as (s2 & Hrun & Ht2 & Hrel & Hcalls & Hal).
    exists s2, (<[h := l1 ++ l2]> bs), (p :: fl).
    split; [done|]. split; [done|]. split; [done|]. split; [done|]. split; [|split].
    + intros x _. by destruct (Hrel x) as [_ ->].
    + intros h' x _ Hx. by apply Hrem.
    + left. split; [done|]. split; [done|]. intros h' Hh' Hin.
      destruct (decide (h = h')) as [<-|Hne].
      * by rewrite fn_lookup_insert in Hin.
      * rewrite fn_lookup_insert_ne in Hin by done.
        apply Hne. eapply (shape_other_bucket _ _ _ h h' p Hs); [done..| |done].
        rewrite Hbs. set_solver.
  - set (tv := tv_add_msecs (t_time r) (t_msecs r)).
    destruct (resched_tidy Q Q_data s1 bs fl h l1 p l2 r
                (fun r => set_time (tv_add_msecs (t_time r) (t_msecs r)) r) tv Ht1 Hh Hbs)
      as (s2 & Hrun & Ht2 & Hdata & Hothers & Hfree & Hal & Hac & Hfc & Hcalls);
      [done|done| |].
    { intros r' Hr'. eapply (Q_resched r); [|done|done].
      by eapply (tidy_every _ _ _ _ Ht h p r Hh); [rewrite Hbs; set_solver|]. }
    eexists s2, _, fl. split; [done|]. split; [exact Ht2|]. split; [done|].
    split; [done|]. split; [done|]. split.
    + intros h' x Hh' Hx. destruct (decide (hash tv = h')) as [<-|Hne].
      * rewrite fn_lookup_insert, elem_of_ins. rewrite Hrem by done. naive_solver.
      * rewrite fn_lookup_insert_ne by done. by apply Hrem.
    + right. split; [done|]. split; [done|]. split; [|done].
      rewrite fn_lookup_insert. apply elem_of_ins. by left.
Qed.

Section Mid.

Variables (now : timeval) (s0 : registry).

Lemma midrun_start bs fl : tidy Q s0 bs fl -> midrun Q now s0 s0 bs fl [].
Proof.
  intros Ht. pose proof (good_shape _ _ _ (tidy_good _ _ _ _ Ht)) as Hs.
  split; [done|by rewrite app_nil_r|done| |apply Forall_nil_2|intros; rewrite fired_nil; lia|].
  - intros h x r Hh Hx Hr. split; [apply (elem_of_active _ _ _ _ Hs); eauto|].
    exists r. rewrite fired_nil. repeat split; try done. simpl. lia.
  - intros x Hx. left. by apply (elem_of_active _ _ _ _ Hs).
Qed.

Lemma fire_mid s bs fl evs h l1 p l2 r :
  midrun Q now s0 s bs fl evs ->
  (h < HASH_SIZE)%nat -> bs h = l1 ++ p :: l2 -> heap s !! p = Some r ->
  not_ready (t_time r) now = false ->
  exists s2 bs2 fl2 e,
    fire quiet now p r s = Some (tt, s2) /\
    midrun Q now s0 s2 bs2 fl2 (evs ++ [e]) /\
    (forall x, x ∈ l1 ++ l2 -> x ∈ bs2 h).
Proof.
  intros [Ht Hcalls Hal Hact Hev Honce Hwhere] Hh Hbs Hr Hdue.
  pose proof (good_shape _ _ _ (tidy_good _ _ _ _ Ht)) as Hs.
  assert (p ∈ bs h) as Hp by (rewrite Hbs; set_solver).
  destruct (Hact h p r Hh Hp Hr)
    as (Hp0 & r0 & Hr0 & Ecb & Earg & Ems & Eper & Etime & Eus & Eone).
  destruct (fire_tidy s bs fl h l1 p l2 r now Ht Hh Hbs Hr)
    as (s2 & bs2 & fl2 & Hfire & Ht2 & Hcalls2 & Hal2 & Hothers & Hmem & Hcase).
  set (e := Event p (t_cb r) (t_arg r) now) in *.
  pose proof (shape_nodup _ _ _ Hs h Hh) as Hnd. rewrite Hbs in Hnd.
  assert (p ∉ l1 ++ l2) as Hp12.
  { apply NoDup_app in Hnd as (_ & Hd1 & [Hd2 _]%NoDup_cons). set_solver. }
  exists s2, bs2, fl2, e. split; [done|]. split; [split|].
  - done.
  - by rewrite Hcalls2, Hcalls, app_assoc.
  - congruence.
  - intros h' x rx Hh' Hx Hrx. destruct (decide (x = p)) as [->|Hxp].
    + split; [done|]. exists r0. split; [done|].
      destruct Hcase as [(_ & _ & Hnot)|(Hper & _ & _ & r' & Hr' & Hd')];
        [by destruct (Hnot h' Hh')|].
      assert (rx = r') as -> by congruence.
      unfold data, rescheduled in Hd'. injection Hd' as E1 E2 E3 E4 E5 E6.
      rewrite fired_app_self by done.
      split; [congruence|]. split; [congruence|]. split; [congruence|].
      split; [congruence|]. split; [done|]. split; [|intros Hz; congruence].
      rewrite E5, usecs_tv_add_msecs, Eus, Ems. lia.
    + apply Hmem in Hx; [|done|done].
      destruct (shape_hash _ _ _ Hs h' x Hh' Hx) as (rx0 & Hrx0 & _).
      pose proof (Hothers x Hxp) as Hd. rewrite Hrx0, Hrx in Hd.
      assert (data rx = data rx0) as Hd2 by (simpl in Hd; unfold data in *; congruence).
      unfold data in Hd2. injection Hd2 as E1 E2 E3 E4 E5 E6.
      destruct (Hact h' x rx0 Hh' Hx Hrx0)
        as (Hx0 & rr & Hrr & F1 & F2 & F3 & F4 & F5 & F7 & F6).
      split; [done|]. exists rr. split; [done|].
      rewrite fired_app_other by done.
      split; [congruence|]. split; [congruence|]. split; [congruence|].
      split; [congruence|]. split; [intros Hz; rewrite E5; by apply F5|].
      split; [by rewrite E5|done].
  - apply Forall_app. split; [done|]. constructor; [|constructor].
    split; [done|]. split; [done|]. exists r0. split; [done|].
    split; [done|]. split; [done|].
    destruct (decide (fired p evs = 0%nat)) as [Hz|Hnz].
    + by rewrite <- (Etime Hz).
    + destruct (fired_pos _ _ Hnz) as (e' & He' & Ee').
      rewrite Forall_forall in Hev. destruct (Hev e' He') as (_ & _ & r0' & Hr0' & _ & _ & D).
      rewrite Ee' in Hr0'. congruence.
  - intros x rx0 Hrx0 Hper. destruct (decide (x = p)) as [->|Hxp].
    + rewrite fired_app_self by done. assert (rx0 = r0) as -> by congruence.
      rewrite (Eone Hper). lia.
    + rewrite fired_app_other by done. by eapply Honce.
  - intros x Hx. destruct (Hwhere x Hx) as [(h' & Hh' & Hin)|(Hin & Hf & Hone)].
    + destruct (decide (x = p)) as [->|Hxp].
      * destruct Hcase as [(Hper & -> & _)|(_ & _ & Hin2 & _)].
        -- right. split; [set_solver|]. rewrite fired_app_self by done.
           split; [rewrite Eone; [done|congruence]|]. exists r0. split; [done|congruence].
        -- left. eexists. split; [apply hash_lt|done].
      * left. exists h'. split; [done|]. by apply Hmem.
    + right. assert (x ≠ p) as Hxp.
      { intros ->. by eapply (shape_sep _ _ _ Hs h p). }
      rewrite fired_app_other by done. split; [|done].
      destruct Hcase as [(_ & -> & _)|(_ & -> & _)]; set_solver.
  - intros x Hx. apply Hmem; [done|set_solver|rewrite Hbs; set_solver].
Qed.

Lemma run_bucket_mid fuel : forall c s s' bs fl evs h,
  midrun Q now s0 s bs fl evs -> (h < HASH_SIZE)%nat ->
  (forall p, c = Some p -> p ∈ bs h) ->
  run_bucket quiet fuel now c s = Some (tt, s') ->
  exists bs' fl' evs', midrun Q now s0 s' bs' fl' evs'.
Proof.
  induction fuel as [|fuel IH]; intros c s s' bs fl evs h Hmid Hh Hc Hrun;
    (destruct c as [p|]; simpl in Hrun; [|injection Hrun as <-; eauto]).
  - discriminate Hrun.
  - pose proof (good_shape _ _ _ (tidy_good _ _ _ _ (mid_tidy _ _ _ _ _ _ _ Hmid))) as Hs.
    pose proof (Hc p eq_refl) as Hp.
    apply list_elem_of_split in Hp as (l1 & l2 & Hbs).
    destruct (shape_bucket _ _ _ Hs h Hh) as (hd & Hhd & Hd). rewrite Hbs in Hd.
    destruct (dseg_mid _ _ _ _ _ _ _ Hd) as (r & Hr & Hpv & Hnx).
    rewrite (bind_eq _ _ _ _ _ (load_eq _ _ _ Hr)) in Hrun.
    destruct (not_ready (t_time r) now) eqn:Hdue; [injection Hrun as <-; eauto|].
    destruct (fire_mid _ _ _ _ _ _ _ _ _ Hmid Hh Hbs Hr Hdue)
      as (s2 & bs2 & fl2 & e & Hfire & Hmid2 & Hrest).
    rewrite (bind_eq _ _ _ _ _ Hfire) in Hrun.
    eapply (IH _ _ _ _ _ _ h Hmid2 Hh); [|exact Hrun].
    intros n Hn. apply Hrest.
    rewrite Hnx in Hn. destruct l2; simpl in Hn; [done|]. injection Hn as ->. set_solver.
Qed.

Lemma run_buckets_mid fuel hs : forall s s' bs fl evs,
  midrun Q now s0 s bs fl evs -> Forall (fun h => (h < HASH_SIZE)%nat) hs ->
  run_buckets quiet fuel now hs s = Some (tt, s') ->
  exists bs' fl' evs', midrun Q now s0 s' bs' fl' evs'.
Proof.
  induction hs as [|h hs IH]; intros s s' bs fl evs Hmid Hhs Hrun; simpl in Hrun.
  - injection Hrun as <-. eauto.
  - apply Forall_cons in Hhs as [Hh Hhs].
    pose proof (good_shape _ _ _ (tidy_good _ _ _ _ (mid_tidy _ _ _ _ _ _ _ Hmid))) as Hs.
    destruct (shape_bucket _ _ _ Hs h Hh) as (hd & Hhd & Hd).
    rewrite (bind_eq _ _ _ _ _ (bucket_eq _ _ _ Hhd)) in Hrun.
    apply bind_Some in Hrun as ([] & s1 & H1 & H2).
    destruct (run_bucket_mid fuel hd s s1 bs fl evs h Hmid Hh) as (bs1 & fl1 & evs1 & Hmid1);
      [|done|by eapply IH].
    intros p ->. apply dseg_head in Hd. destruct (bs h); simpl in Hd; [done|].
    injection Hd as ->. set_solver.
Qed.

End Mid.

Lemma tmr_run_mid now fuel s bs fl s' :
  tidy Q s bs fl -> tmr_run quiet fuel now s = Some (tt, s') ->
  exists bs' fl' evs, midrun Q now s s' bs' fl' evs.
Proof.
  intros Ht Hrun.
  eapply run_buckets_mid; [by apply midrun_start|apply seq_lt|exact Hrun].
Qed.

End TidyRun.

(** ** The invariant along the public operations *)

Lemma NoDup_flat_map (bs : nat -> list nat) hs :
  NoDup hs -> (forall h, h ∈ hs -> NoDup (bs h)) ->
  (forall h h' x, h ∈ hs -> h' ∈ hs -> x ∈ bs h -> x ∈ bs h' -> h = h') ->
  NoDup (flat_map bs hs).
Proof.
  induction hs as [|h hs IH]; intros Hnd Hb Hsep; simpl; [apply NoDup_nil_2|].
  apply NoDup_cons in Hnd as [Hh Hnd]. apply NoDup_app. split; [|split].
  - apply Hb. set_solver.
  - intros x Hx (h' & Hh' & Hx')%elem_of_flat_map.
    assert (h = h') as -> by (apply (Hsep h h' x); set_solver). done.
  - apply IH; [done| |]; intros; [apply Hb|eapply Hsep]; set_solver.
Qed.

Section TidyOps.

Variable Q : timer -> Prop.
Hypothesis Q_data : forall r r', data r' = data r -> Q r -> Q r'.
Hypothesis Q_resched : forall r r', Q r -> t_periodic r <> 0 ->
  data r' = rescheduled r (tv_add_msecs (t_time r) (t_msecs r)) -> Q r'.

Lemma init_tidy s0 s : tmr_init s0 = Some (tt, s) -> tidy Q s (fun _ => []) [].
Proof.
  intros [= <-]. split.
  - apply good_initial.
  - intros h x r _ Hx. by apply elem_of_nil in Hx.
  - by rewrite count_empty.
  - reflexivity.
Qed.

Lemma destroy_bucket_fwd h fuel : forall s bs fl s',
  tidy Q s bs fl -> (h < HASH_SIZE)%nat ->
  destroy_bucket fuel h s = Some (tt, s') ->
  exists bs' fl', tidy Q s' bs' fl'.
Proof.
  induction fuel as [|fuel IH]; intros s bs fl s' Ht Hh Hrun;
    pose proof (good_shape _ _ _ (tidy_good _ _ _ _ Ht)) as Hs;
    destruct (shape_bucket _ _ _ Hs h Hh) as (hd & Hhd & Hd);
    cbn [destroy_bucket] in Hrun;
    rewrite (bind_eq _ _ _ _ _ (bucket_eq _ _ _ Hhd)) in Hrun;
    (destruct hd as [p|]; [|injection Hrun as <-; eauto]).
  - discriminate Hrun.
  - apply dseg_head in Hd. destruct (bs h) as [|q l] eqn:Hbs; simpl in Hd; [done|].
    injection Hd as <-.
    destruct (cancel_tidy Q Q_data s bs fl h [] p l Ht Hh Hbs) as (s1 & Hc & Ht1 & _).
    rewrite (bind_eq _ _ _ _ _ Hc) in Hrun. by eapply IH.
Qed.

Lemma destroy_buckets_fwd fuel hs : forall s bs fl s',
  tidy Q s bs fl -> Forall (fun h => (h < HASH_SIZE)%nat) hs ->
  destroy_buckets fuel hs s = Some (tt, s') ->
  exists bs' fl', tidy Q s' bs' fl'.
Proof.
  induction hs as [|h hs IH]; intros s bs fl s' Ht Hhs Hrun; cbn [destroy_buckets] in Hrun.
  - injection Hrun as <-. eauto.
  - apply Forall_cons in Hhs as [Hh Hhs].
    apply bind_Some in Hrun as ([] & s1 & H1 & H2).
    destruct (destroy_bucket_fwd _ _ _ _ _ _ Ht Hh H1) as (bs1 & fl1 & Ht1).
    by eapply IH.
Qed.

(** What a call has to see to for the property [Q]. *)
Lemma exec_op_tidy s bs fl o s' :
  tidy Q s bs fl -> legal s o ->
  match o with
  | Create _ clock now cb arg msecs periodic =>
      forall r', data r' = (cb, arg, msecs, periodic,
                            tv_add_msecs (default clock now) msecs,
                            hash (tv_add_msecs (default clock now) msecs)) -> Q r'
  | Reset now t =>
      forall p r r', t = Some p -> heap s !! p = Some r -> Q r ->
        data r' = rescheduled r (tv_add_msecs now (t_msecs r)) -> Q r'
  | _ => True
  end ->
  exec_op quiet o s = Some (tt, s') ->
  exists bs' fl', tidy Q s' bs' fl'.
Proof.
  intros Ht Hlegal HQ Hrun.
  pose proof (tidy_good _ _ _ _ Ht) as Hg. pose proof (good_shape _ _ _ Hg) as Hs.
  destruct o as [malloc clock now cb arg msecs periodic
    | t | now t | fuel now | INFTIM now | | fuel]; cbn [exec_op legal] in Hrun, Hlegal.
  - apply bind_Some in Hrun as ([t|] & s1 & Hc & [= <-]).
    + destruct (create_tidy Q Q_data _ _ _ _ _ _ _ _ _ _ _ _ Ht (fun _ => Hlegal) Hc HQ)
        as (fl1 & r1 & Ht1 & _). eauto.
    + apply tmr_create_null_inv in Hc as (_ & _ & ->). eauto.
  - destruct t as [p|]; [|injection Hrun as <-; eauto].
    destruct (active_in_good _ _ _ _ Hg (Hlegal p eq_refl)) as (h & Hh & Hp).
    apply list_elem_of_split in Hp as (l1 & l2 & Hbs).
    destruct (cancel_tidy Q Q_data _ _ _ _ _ _ _ Ht Hh Hbs) as (s2 & Hc & Ht2 & _).
    rewrite Hc in Hrun. injection Hrun as <-. eauto.
  - destruct t as [p|]; [|injection Hrun as <-; eauto].
    destruct (active_in_good _ _ _ _ Hg (Hlegal p eq_refl)) as (h & Hh & Hp).
    destruct (shape_hash _ _ _ Hs h p Hh Hp) as (r & Hr & _).
    pose proof (tidy_every _ _ _ _ Ht h p r Hh Hp Hr) as HQr.
    apply list_elem_of_split in Hp as (l1 & l2 & Hbs).
    destruct (resched_tidy Q Q_data s bs fl h l1 p l2 r
                (fun r => set_time (tv_add_msecs now (t_msecs r)) r)
                (tv_add_msecs now (t_msecs r)) Ht Hh Hbs Hr eq_refl)
      as (s2 & Hc & Ht2 & _).
    { intros r' Hr'. by eapply (HQ p r r'). }
    unfold tmr_reset in Hrun. rewrite Hc in Hrun. injection Hrun as <-. eauto.
  - destruct (tmr_run_mid Q Q_data Q_resched _ _ _ _ _ _ Ht Hrun) as (bs' & fl' & evs & Hmid).
    exists bs', fl'. by eapply mid_tidy.
  - apply bind_Some in Hrun as (v & s1 & Hc & [= <-]).
    apply readonly_tmr_mstimeout in Hc as ->. eauto.
  - destruct (cleanup_tidy Q Q_data _ _ _ Ht) as (s2 & Hc & Ht2 & _).
    rewrite Hc in Hrun. injection Hrun as <-. eauto.
  - unfold tmr_destroy in Hrun. apply bind_Some in Hrun as ([] & s1 & H1 & H2).
    destruct (destroy_buckets_fwd _ _ _ _ _ _ Ht (seq_lt _) H1) as (bs1 & fl1 & Ht1).
    destruct (cleanup_tidy Q Q_data _ _ _ Ht1) as (s2 & Hc & Ht2 & _).
    rewrite Hc in H2. injection H2 as <-. eauto.
Qed.

End TidyOps.

Lemma filed_data r r' : data r' = data r -> filed r -> filed r'.
Proof. unfold data, filed. intros [= _ _ _ _ -> ->]. done. Qed.

Lemma filed_new r' cb arg msecs periodic tv :
  data r' = (cb, arg, msecs, periodic, tv, hash tv) -> filed r'.
Proof. unfold data, filed. intros [= _ _ _ _ -> ->]. done. Qed.

Lemma steady_data r r' : data r' = data r -> steady r -> steady r'.
Proof. unfold data, steady. intros [= _ _ -> -> -> _]. done. Qed.

Lemma steady_rescheduled r r' tv :
  steady r -> normal tv ->
  data r' = rescheduled r (tv_add_msecs tv (t_msecs r)) -> steady r'.
Proof.
  unfold data, steady, rescheduled. intros (Hn & Hms & Hper) Htv [= _ _ -> -> -> _].
  split; [|done]. by apply tv_add_msecs_exact.
Qed.

(** Every reachable registry is tidy, with every active timer filed under
    the hash of its trigger time. *)
Lemma reachable_tidy s : reachable s -> exists bs fl, tidy filed s bs fl.
Proof.
  induction 1 as [s0 s Hinit|s o s' _ (bs & fl & Ht) Hlegal Hrun].
  - eexists _, _. by eapply init_tidy.
  - eapply (exec_op_tidy filed filed_data); [| |done| |done]; try done.
    + intros r r' _ _ Hd. by eapply filed_new.
    + destruct o; try done.
      * intros r' Hr'. by eapply filed_new.
      * intros p r r' _ _ _ Hd. by eapply filed_new.
Qed.

Lemma kept_reachable s : kept s -> reachable s.
Proof.
  induction 1 as [s0 s Hinit|s o s' _ IH Hlegal _ Hrun].
  - by eapply reachable_init.
  - by eapply reachable_step.
Qed.

Lemma kept_tidy s : kept s -> exists bs fl, tidy steady s bs fl.
Proof.
  induction 1 as [s0 s Hinit|s o s' _ (bs & fl & Ht) Hlegal Htimely Hrun].
  - eexists _, _. by eapply init_tidy.
  - eapply (exec_op_tidy steady steady_data); [| |done| |done]; try done.
    + intros r r' Hr _ Hd. eapply steady_rescheduled; [done| |done]. by destruct Hr.
    + destruct o as [malloc clock now cb arg msecs periodic| |now t| | | |]; try done.
      * intros r' Hd. destruct Htimely as (Hn & Hms & Hper).
        unfold data, steady in *. injection Hd as _ _ -> -> -> _.
        split; [by apply tv_add_msecs_exact|done].
      * intros p r r' _ _ Hr Hd. by eapply steady_rescheduled.
Qed.

(** ** What holds in every reachable registry *)

Lemma bucket_list_out s h : (HASH_SIZE <= h)%nat -> length (timers s) = HASH_SIZE ->
  bucket_list s h = None.
Proof.
  intros Hh Hlen. unfold bucket_list. rewrite lookup_ge_None_2; [done|lia].
Qed.

Lemma bucket_list_shape s bs fl h l :
  shape s bs fl -> bucket_list s h = Some l -> (h < HASH_SIZE)%nat /\ l = bs h.
Proof.
  intros Hs Hl. pose proof (bucket_list_lt _ _ _ Hl) as Hh.
  rewrite (shape_len _ _ _ Hs) in Hh. split; [done|].
  rewrite (shape_bucket_list _ _ _ _ Hs Hh) in Hl. by injection Hl.
Qed.

(** Two registries with the same lists have the same [bucket_list]s. *)
Lemma bucket_list_same s s' bs bs' fl fl' h :
  shape s bs fl -> shape s' bs' fl' -> ((h < HASH_SIZE)%nat -> bs' h = bs h) ->
  bucket_list s' h = bucket_list s h.
Proof.
  intros Hs Hs' E. destruct (decide (h < HASH_SIZE)%nat) as [Hh|Hh].
  - rewrite (shape_bucket_list _ _ _ _ Hs Hh), (shape_bucket_list _ _ _ _ Hs' Hh).
    by rewrite E.
  - rewrite !bucket_list_out; [done|lia|by eapply shape_len|lia|by eapply shape_len].
Qed.

(** X6.  In every reachable registry an active timer is on the list of the
    bucket whose index is the hash of its current trigger time, and that
    index, which is below [HASH_SIZE], is the one the record caches: the
    trigger can change, by [tmr_reset] and by a periodic firing, but the
    timer is moved along. *)
Theorem active_timer_is_filed_under_its_hash (s : registry) (h : nat) (l : list nat)
    (p : nat) :
  reachable s -> bucket_list s h = Some l -> p ∈ l ->
  exists r, heap s !! p = Some r /\
    hash (t_time r) = h /\ t_hash r = h /\ (h < HASH_SIZE)%nat.
Proof.
  intros (bs & fl & Ht)%reachable_tidy Hl Hp.
  pose proof (good_shape _ _ _ (tidy_good _ _ _ _ Ht)) as Hs.
  destruct (bucket_list_shape _ _ _ _ _ Hs Hl) as [Hh ->].
  destruct (shape_hash _ _ _ Hs h p Hh Hp) as (r & Hr & Hrh).
  exists r. split; [done|]. split; [|done].
  pose proof (tidy_every _ _ _ _ Ht h p r Hh Hp Hr) as Hf. unfold filed in Hf. congruence.
Qed.

(** X7.  In every reachable registry the counters are exact: [active_count]
    is the number of timers on the bucket lists, [free_count] the length of
    the free list and [alloc_count] the number of records on all lists
    together.  No record is on two lists or twice on one, and every record
    on a list is allocated. *)
Theorem counters_count_the_lists (s : registry) :
  reachable s ->
  exists fl, free_list s = Some fl /\
    active_count s = Z.of_nat (length (active_ptrs s)) /\
    free_count s = Z.of_nat (length fl) /\
    alloc_count s = Z.of_nat (length (active_ptrs s) + length fl) /\
    NoDup (active_ptrs s ++ fl) /\
    (forall x, x ∈ active_ptrs s ++ fl -> is_Some (heap s !! x)).
Proof.
  intros (bs & fl & Ht)%reachable_tidy.
  pose proof (tidy_good _ _ _ _ Ht) as Hg. pose proof (good_shape _ _ _ Hg) as Hs.
  pose proof (tidy_active _ _ _ _ Ht) as Ha. pose proof (tidy_alloc _ _ _ _ Ht) as Hc.
  pose proof (good_free_count _ _ _ Hg) as Hf.
  exists fl. split; [by eapply shape_free_list|].
  rewrite (active_ptrs_good _ _ _ Hs). fold (count bs).
  split; [done|]. split; [done|]. split; [unfold counts_add_up in Hc; lia|]. split.
  - apply NoDup_app. split; [|split; [|by eapply shape_free_nodup]].
    + apply NoDup_flat_map.
      * apply NoDup_seq.
      * intros h Hh%elem_of_seq. apply (shape_nodup _ _ _ Hs). lia.
      * intros h h' x Hh%elem_of_seq Hh'%elem_of_seq Hx Hx'.
        by eapply (shape_other_bucket _ _ _ h h' x Hs); [lia|lia|..].
    + intros x (h & Hh%elem_of_seq & Hx)%elem_of_flat_map.
      apply (shape_sep _ _ _ Hs h x); [lia|done].
  - intros x [(h & Hh%elem_of_seq & Hx)%elem_of_flat_map|Hx]%elem_of_app.
    + eapply listed_in_heap; [done|]. right. exists h. split; [lia|done].
    + eapply listed_in_heap; [done|]. by left.
Qed.

Lemma kept_steady s : kept s -> all_normal s /\ sane s.
Proof.
  intros Hk. destruct (kept_tidy _ Hk) as (bs & fl & Ht).
  pose proof (good_shape _ _ _ (tidy_good _ _ _ _ Ht)) as Hs.
  assert (forall x, x ∈ active_ptrs s ->
            exists r, heap s !! x = Some r /\ steady r) as Hall.
  { intros x (h & Hh & Hx)%(elem_of_active _ _ _ _ Hs).
    destruct (shape_hash _ _ _ Hs h x Hh Hx) as (r & Hrx & _).
    exists r. split; [done|]. by eapply (tidy_every _ _ _ _ Ht h x r). }
  split.
  - unfold all_normal. apply Forall_forall. intros x Hx.
    destruct (Hall x Hx) as (r & Hrx & Hn & _). by rewrite (time_at_eq _ _ _ Hrx).
  - unfold sane. apply Forall_forall. intros x Hx r Hrx.
    destruct (Hall x Hx) as (r' & Hrx' & Hn & _ & Hp).
    assert (r' = r) as -> by congruence. by split.
Qed.

(** X8.  Timely calls keep the timers steady.  In a registry that legal and
    timely calls have made (times passed in are in normal form, delays are
    not negative, periods are positive), every active timer has its trigger
    in normal form, and every periodic one a positive period: the registry
    is reachable, and [all_normal] and [sane]. *)
Theorem timely_calls_keep_timers_steady (s : registry) :
  kept s -> reachable s /\ all_normal s /\ sane s.
Proof.
  intros Hk. split; [by apply kept_reachable|by apply kept_steady].
Qed.

(** ** Legal calls return *)

Lemma head_in_bucket s bs fl h p :
  shape s bs fl -> (h < HASH_SIZE)%nat -> timers s !! h = Some (Some p) ->
  exists l, bs h = p :: l.
Proof.
  intros Hs Hh Hp. destruct (shape_bucket _ _ _ Hs h Hh) as (hd & Hhd & Hd).
  assert (hd = Some p) as -> by congruence.
  apply dseg_head in Hd. destruct (bs h) as [|q l]; simpl in Hd; [done|].
  injection Hd as ->. by exists l.
Qed.

Lemma mstimeout_loop_total s bs fl now hs :
  shape s bs fl -> Forall (fun h => (h < HASH_SIZE)%nat) hs ->
  forall acc, exists acc', mstimeout_loop hs now acc s = Some (acc', s).
Proof.
  intros Hs. induction hs as [|h hs IH]; intros Hhs acc; cbn [mstimeout_loop].
  - by exists acc.
  - apply Forall_cons in Hhs as [Hh Hhs].
    destruct (shape_bucket _ _ _ Hs h Hh) as (hd & Hhd & Hd).
    rewrite (bind_eq _ _ _ _ _ (bucket_eq _ _ _ Hhd)).
    destruct hd as [p|].
    + destruct (head_in_bucket _ _ _ _ _ Hs Hh Hhd) as (l & Hbs).
      destruct (shape_hash _ _ _ Hs h p Hh) as (r & Hr & _); [rewrite Hbs; set_solver|].
      erewrite bind_eq; [by apply IH|].
      by rewrite (bind_eq _ _ _ _ _ (load_eq _ _ _ Hr)).
    + erewrite bind_eq; [by apply IH|done].
Qed.

Lemma tmr_mstimeout_total s bs fl INFTIM now :
  shape s bs fl -> exists v, tmr_mstimeout INFTIM now s = Some (v, s).
Proof.
  intros Hs. unfold tmr_mstimeout.
  destruct (mstimeout_loop_total s bs fl now (seq 0 HASH_SIZE) Hs (seq_lt _) (false, 0))
    as ([gotone msecs] & Hloop).
  rewrite (bind_eq _ _ _ _ _ Hloop). cbn [fst snd].
  destruct gotone; cbn [negb]; [|by eexists]. destruct (msecs <=? 0); by eexists.
Qed.

(** X9.  A legal call of [tmr_create], [tmr_cancel], [tmr_reset],
    [tmr_mstimeout] or [tmr_cleanup] on a reachable registry returns: it
    follows no null or stale pointer, stays inside the bucket array, and its
    loops come to an end.  The registry it leaves is reachable again. *)
Theorem legal_calls_return (s : registry) (o : op) :
  reachable s -> legal s o ->
  match o with
  | Run _ _ | Destroy _ => True
  | _ => exists s', exec_op quiet o s = Some (tt, s') /\ reachable s'
  end.
Proof.
  intros Hr Hlegal.
  assert (forall s', exec_op quiet o s = Some (tt, s') ->
            exists s', exec_op quiet o s = Some (tt, s') /\ reachable s') as Hstep.
  { intros s' Hrun. exists s'. split; [done|]. by eapply reachable_step. }
  destruct (reachable_good _ Hr) as (bs & fl & Hg).
  pose proof (good_shape _ _ _ Hg) as Hs.
  destruct o as [malloc clock now cb arg msecs periodic
    | t | now t | fuel now | INFTIM now | | fuel]; [| | |done| | |done];
    cbn [exec_op legal] in Hlegal, Hstep |- *.
  - destruct fl as [|t fl].
    + destruct malloc as [t|].
      * destruct (tmr_create_fresh_good s bs t clock now cb arg msecs periodic Hg)
          as (s2 & Hc2 & _); [by apply Hlegal|].
        apply (Hstep s2). by rewrite (bind_eq _ _ _ _ _ Hc2).
      * assert (tmr_create None clock now cb arg msecs periodic s = Some (None, s)) as Hn.
        { apply tmr_create_null_inv. repeat split. by pose proof (shape_free _ _ _ Hs). }
        apply (Hstep s). by rewrite (bind_eq _ _ _ _ _ Hn).
    + destruct (tmr_create_reuse_good s bs t fl malloc clock now cb arg msecs periodic Hg)
        as (s2 & Hc2 & _).
      apply (Hstep s2). by rewrite (bind_eq _ _ _ _ _ Hc2).
  - destruct t as [p|]; [|by apply (Hstep s)].
    destruct (active_in_good _ _ _ _ Hg (Hlegal p eq_refl)) as (h & Hh & Hp).
    apply list_elem_of_split in Hp as (l1 & l2 & Hbs).
    destruct (tmr_cancel_good _ _ _ _ _ _ _ Hg Hh Hbs) as (s2 & Hc & _). by apply (Hstep s2).
  - destruct t as [p|]; [|by apply (Hstep s)].
    destruct (active_in_good _ _ _ _ Hg (Hlegal p eq_refl)) as (h & Hh & Hp).
    destruct (shape_hash _ _ _ Hs h p Hh Hp) as (r & Hrp & _).
    apply list_elem_of_split in Hp as (l1 & l2 & Hbs).
    destruct (tmr_reset_good _ _ _ _ _ _ _ _ now Hg Hh Hbs Hrp) as (s2 & Hc & _).
    by apply (Hstep s2).
  - destruct (tmr_mstimeout_total s bs fl INFTIM now Hs) as (v & Hv).
    apply (Hstep s). by rewrite (bind_eq _ _ _ _ _ Hv).
  - destruct (tmr_cleanup_good _ _ _ Hg) as (s2 & Hc & _). by apply (Hstep s2).
Qed.

(** ** [tmr_timeout] in a reachable registry *)

Lemma no_active_no_heads s bs fl :
  shape s bs fl ->
  (active_ptrs s = [] <->
   forall h p, (h < HASH_SIZE)%nat -> timers s !! h <> Some (Some p)).
Proof.
  intros Hs. split.
  - intros Hnone h p Hh Hp. destruct (head_in_bucket _ _ _ _ _ Hs Hh Hp) as (l & Hbs).
    assert (p ∈ active_ptrs s) as Hin.
    { apply (elem_of_active _ _ _ _ Hs). exists h. split; [done|]. rewrite Hbs. set_solver. }
    rewrite Hnone in Hin. by apply elem_of_nil in Hin.
  - intros Hnone. destruct (active_ptrs s) as [|x l] eqn:E; [done|].
    assert (x ∈ active_ptrs s) as Hx by (rewrite E; set_solver).
    apply (elem_of_active _ _ _ _ Hs) in Hx as (h & Hh & Hx).
    destruct (shape_bucket _ _ _ Hs h Hh) as (hd & Hhd & Hd).
    apply dseg_head in Hd. destruct (bs h) as [|q l']; [by apply elem_of_nil in Hx|].
    simpl in Hd. subst hd. by destruct (Hnone h q Hh).
Qed.

(** X10.  In a reachable registry, and with an [INFTIM] that is not a
    positive number, [tmr_timeout] returns, and its result is a null pointer
    exactly when there is no active timer. *)
Theorem tmr_timeout_null_iff_no_timer (INFTIM : Z) (now buf : timeval) (s : registry) :
  reachable s -> INFTIM <= 0 ->
  exists nonnull tv,
    tmr_timeout INFTIM now buf s = Some ((nonnull, tv), s) /\
    (nonnull = false <-> active_ptrs s = []).
Proof.
  intros (bs & fl & Hg)%reachable_good Hinf. pose proof (good_shape _ _ _ Hg) as Hs.
  destruct (tmr_mstimeout_total s bs fl INFTIM now Hs) as (v & Hv).
  unfold tmr_timeout. rewrite (bind_eq _ _ _ _ _ Hv).
  pose proof (no_active_no_heads _ _ _ Hs) as Hact.
  apply tmr_mstimeout_cases in Hv as [_ [[(h & p & Hh & Hp) Hv]|[Hnone ->]]].
  - destruct (Z.eqb_spec v INFTIM) as [E|E]; [lia|].
    eexists _, _. split; [done|]. rewrite Hact. split; [done|].
    intros Hnone. by destruct (Hnone h p Hh).
  - rewrite Z.eqb_refl. eexists _, _. split; [done|]. by rewrite Hact.
Qed.

(** ** What the operations do to a reachable registry *)

Lemma active_in_tidy Q s bs fl p :
  tidy Q s bs fl -> active_in s p ->
  exists h l1 l2, (h < HASH_SIZE)%nat /\ bs h = l1 ++ p :: l2.
Proof.
  intros Ht Hp.
  destruct (active_in_good _ _ _ _ (tidy_good _ _ _ _ Ht) Hp) as (h & Hh & Hin).
  apply list_elem_of_split in Hin as (l1 & l2 & Hbs). eauto.
Qed.

(** X11.  [tmr_cancel] of an active timer in a reachable registry takes the
    timer out of its bucket list, leaving the order of the others, and puts
    it at the head of the free list.  The other bucket lists stay as they
    are, [active_count] drops by one, [free_count] grows by one,
    [alloc_count] stays, no callback is called, and no record changes
    anything but its links. *)
Theorem tmr_cancel_moves_timer_to_free_list (s : registry) (p h : nat) (l fl : list nat) :
  reachable s -> bucket_list s h = Some l -> p ∈ l -> free_list s = Some fl ->
  exists s' l1 l2, tmr_cancel (Some p) s = Some (tt, s') /\
    l = l1 ++ p :: l2 /\ bucket_list s' h = Some (l1 ++ l2) /\
    (forall h', h' ≠ h -> bucket_list s' h' = bucket_list s h') /\
    free_list s' = Some (p :: fl) /\
    alloc_count s' = alloc_count s /\ active_count s' = active_count s - 1 /\
    free_count s' = free_count s + 1 /\ calls s' = calls s /\
    (forall x, data <$> heap s' !! x = data <$> heap s !! x).
Proof.
  intros (bs & fl0 & Hg)%reachable_good Hl Hp Hfl. pose proof (good_shape _ _ _ Hg) as Hs.
  rewrite (shape_free_list _ _ _ Hs) in Hfl. injection Hfl as <-.
  destruct (bucket_list_shape _ _ _ _ _ Hs Hl) as [Hh ->].
  apply list_elem_of_split in Hp as (l1 & l2 & Hbs).
  destruct (tmr_cancel_good _ _ _ _ _ _ _ Hg Hh Hbs) as (s' & Hrun & Hg' & Hrel & Hcalls).
  pose proof (good_shape _ _ _ Hg') as Hs'.
  destruct (shifts_tmr_cancel _ _ _ _ Hrun) as (Hal & Hac & Hfc).
  exists s', l1, l2. split; [done|]. split; [done|]. split; [|split; [|split]].
  - by rewrite (shape_bucket_list _ _ _ _ Hs' Hh), fn_lookup_insert.
  - intros h' Hne. eapply bucket_list_same; [done..|]. intros _.
    by rewrite fn_lookup_insert_ne.
  - by eapply shape_free_list.
  - do 4 (split; [done || lia|]). intros x. by destruct (Hrel x) as [_ ->].
Qed.

(** X12.  The free list is a stack.  Cancel an active timer of a reachable
    registry and call [tmr_create] next: the call returns the handle that
    was just cancelled, whatever [malloc] would have answered, and the
    counters and the free list are as before the two calls. *)
Theorem cancelled_record_is_reused_first (s : registry) (p : nat)
    (malloc : option nat) (clock : timeval) (now : option timeval)
    (cb : callback) (arg : arg_t) (msecs periodic : Z) :
  reachable s -> active_in s p ->
  exists s1 s2,
    tmr_cancel (Some p) s = Some (tt, s1) /\
    tmr_create malloc clock now cb arg msecs periodic s1 = Some (Some p, s2) /\
    alloc_count s2 = alloc_count s /\ active_count s2 = active_count s /\
    free_count s2 = free_count s /\ free_list s2 = free_list s.
Proof.
  intros (bs & fl & Ht)%reachable_tidy Hp.
  destruct (active_in_tidy _ _ _ _ _ Ht Hp) as (h & l1 & l2 & Hh & Hbs).
  destruct (cancel_tidy filed filed_data _ _ _ _ _ _ _ Ht Hh Hbs)
    as (s1 & Hc & Ht1 & _ & _ & Hal1).
  destruct (tmr_create_reuse_good s1 _ p fl malloc clock now cb arg msecs periodic
              (tidy_good _ _ _ _ Ht1)) as (s2 & Hrun & _).
  destruct (create_tidy filed filed_data _ _ _ _ _ _ _ _ _ _ _ _ Ht1 ltac:(done) Hrun)
    as (fl1 & r1 & Ht2 & _ & _ & _ & _ & _ & Hcase).
  { intros r' Hr'. by eapply filed_new. }
  destruct Hcase as [[[= <-] Hal2]|(? & _)]; [|done].
  exists s1, s2. split; [done|]. split; [done|].
  pose proof (tidy_good _ _ _ _ Ht) as Hg. pose proof (tidy_good _ _ _ _ Ht2) as Hg2.
  split; [congruence|]. split; [|split].
  - rewrite (tidy_active _ _ _ _ Ht), (tidy_active _ _ _ _ Ht2). f_equal.
    set (tv := tv_add_msecs (default clock now) msecs).
    pose proof (count_insert bs h (l1 ++ l2) Hh) as C1.
    pose proof (count_insert (<[h := l1 ++ l2]> bs) (hash tv)
                  (ins (time_at (heap s2)) p ((<[h := l1 ++ l2]> bs) (hash tv)))
                  (hash_lt tv)) as C2.
    rewrite length_ins in C2. rewrite Hbs, !length_app in C1. cbn [length] in C1.
    fold tv. lia.
  - by rewrite (good_free_count _ _ _ Hg), (good_free_count _ _ _ Hg2).
  - by rewrite (shape_free_list _ _ _ (good_shape _ _ _ Hg)),
               (shape_free_list _ _ _ (good_shape _ _ _ Hg2)).
Qed.

(** X13.  [tmr_reset] of an active timer in a reachable registry sets the
    trigger to [now] plus the delay the timer was created with, and files
    the timer under the hash of the new trigger.  The callback, argument,
    delay and kind of the timer stay, the other records change in their
    links at most, the same timers are active as before, and the free list,
    the counters and the callback log are untouched.  With a null handle
    the call does nothing. *)
Theorem tmr_reset_restarts_the_delay (s : registry) (now : timeval) (p : nat) :
  reachable s -> active_in s p ->
  exists s' r r' l,
    tmr_reset now (Some p) s = Some (tt, s') /\
    heap s !! p = Some r /\ heap s' !! p = Some r' /\
    data r' = rescheduled r (tv_add_msecs now (t_msecs r)) /\
    bucket_list s' (hash (tv_add_msecs now (t_msecs r))) = Some l /\ p ∈ l /\
    (forall x, x ≠ p -> data <$> heap s' !! x = data <$> heap s !! x) /\
    (forall x, x ∈ active_ptrs s' <-> x ∈ active_ptrs s) /\
    same_statics s s' /\ free_list s' = free_list s /\
    tmr_reset now None s = Some (tt, s).
Proof.
  intros (bs & fl & Ht)%reachable_tidy Hp.
  pose proof (tidy_good _ _ _ _ Ht) as Hg. pose proof (good_shape _ _ _ Hg) as Hs.
  destruct (active_in_tidy _ _ _ _ _ Ht Hp) as (h & l1 & l2 & Hh & Hbs).
  destruct (shape_hash _ _ _ Hs h p Hh) as (r & Hr & _); [rewrite Hbs; set_solver|].
  destruct (tmr_reset_good _ _ _ _ _ _ _ _ now Hg Hh Hbs Hr)
    as (s' & Hrun & Hg' & (r' & Hr' & Hd') & Hothers & Hst).
  pose proof (good_shape _ _ _ Hg') as Hs'.
  set (tv := tv_add_msecs now (t_msecs r)) in *.
  eexists s', r, r', _. split; [done|]. split; [done|]. split; [done|]. split; [done|].
  split; [by apply (shape_bucket_list _ _ _ _ Hs'), hash_lt|].
  rewrite fn_lookup_insert. split; [apply elem_of_ins; by left|]. split; [done|].
  split; [|split; [done|split; [|done]]].
  - pose proof (shape_nodup _ _ _ Hs h Hh) as Hnd. rewrite Hbs in Hnd.
    intros x. rewrite (elem_of_active _ _ _ _ Hs'), (elem_of_active _ _ _ _ Hs).
    destruct (decide (x = p)) as [->|Hxp].
    + split; intros _.
      * exists h. split; [done|]. rewrite Hbs. set_solver.
      * exists (hash tv). split; [apply hash_lt|]. rewrite fn_lookup_insert.
        apply elem_of_ins. by left.
    + split; intros (h' & Hh' & Hx); exists h'; (split; [done|]).
      * destruct (decide (hash tv = h')) as [<-|Hne].
        -- rewrite fn_lookup_insert in Hx. apply elem_of_ins in Hx as [?|Hx]; [done|].
           by apply (removed_members bs h l1 p l2 (hash tv) x Hbs Hxp).
        -- rewrite fn_lookup_insert_ne in Hx by done.
           by apply (removed_members bs h l1 p l2 h' x Hbs Hxp).
      * destruct (decide (hash tv = h')) as [<-|Hne].
        -- rewrite fn_lookup_insert. apply elem_of_ins. right.
           by apply (removed_members bs h l1 p l2 (hash tv) x Hbs Hxp).
        -- rewrite fn_lookup_insert_ne by done.
           by apply (removed_members bs h l1 p l2 h' x Hbs Hxp).
  - by rewrite (shape_free_list _ _ _ Hs), (shape_free_list _ _ _ Hs').
Qed.

(** X14.  A [tmr_create] that returns a handle in a reachable registry has
    stored the callback, the argument, the delay and the kind it was given
    and the trigger [now + msecs] (the clock's time plus [msecs] when [now]
    is null).  The timer was not active before and is now on the list of
    the bucket given by the hash of its trigger; the timers that were active
    stay active, their records change in their links at most,
    [active_count] grows by one and no callback is called. *)
Theorem tmr_create_files_the_new_timer (s s' : registry) (malloc : option nat)
    (clock : timeval) (now : option timeval) (cb : callback) (arg : arg_t)
    (msecs periodic : Z) (t : nat) :
  reachable s -> (forall p, malloc = Some p -> heap s !! p = None) ->
  tmr_create malloc clock now cb arg msecs periodic s = Some (Some t, s') ->
  exists r l,
    heap s' !! t = Some r /\
    data r = (cb, arg, msecs, periodic, tv_add_msecs (default clock now) msecs,
              hash (tv_add_msecs (default clock now) msecs)) /\
    bucket_list s' (hash (tv_add_msecs (default clock now) msecs)) = Some l /\ t ∈ l /\
    t ∉ active_ptrs s /\
    (forall x, x ∈ active_ptrs s' <-> x = t \/ x ∈ active_ptrs s) /\
    (forall x, x ≠ t -> data <$> heap s' !! x = data <$> heap s !! x) /\
    active_count s' = active_count s + 1 /\ calls s' = calls s.
Proof.
  intros (bs & fl & Ht)%reachable_tidy Hfresh Hrun.
  pose proof (tidy_good _ _ _ _ Ht) as Hg. pose proof (good_shape _ _ _ Hg) as Hs.
  destruct (create_tidy filed filed_data _ _ _ _ _ _ _ _ _ _ _ _ Ht (fun _ => Hfresh) Hrun)
    as (fl1 & r1 & Ht1 & Hr1 & Hd1 & Hothers & Hnot & Hcalls & Hcase).
  { intros r' Hr'. by eapply filed_new. }
  pose proof (good_shape _ _ _ (tidy_good _ _ _ _ Ht1)) as Hs1.
  set (tv := tv_add_msecs (default clock now) msecs) in *.
  eexists r1, _. split; [done|]. split; [done|].
  split; [by apply (shape_bucket_list _ _ _ _ Hs1), hash_lt|].
  rewrite fn_lookup_insert. split; [apply elem_of_ins; by left|]. split; [|split].
  - by rewrite (elem_of_active _ _ _ _ Hs).
  - intros x. rewrite (elem_of_active _ _ _ _ Hs1), (elem_of_active _ _ _ _ Hs). split.
    + intros (h' & Hh' & Hx). destruct (decide (hash tv = h')) as [<-|Hne].
      * rewrite fn_lookup_insert in Hx. apply elem_of_ins in Hx as [?|Hx]; [by left|].
        right. eauto.
      * rewrite fn_lookup_insert_ne in Hx by done. right. eauto.
    + intros [->|(h' & Hh' & Hx)].
      * exists (hash tv). split; [apply hash_lt|]. rewrite fn_lookup_insert.
        apply elem_of_ins. by left.
      * exists h'. split; [done|]. destruct (decide (hash tv = h')) as [<-|Hne].
        -- rewrite fn_lookup_insert. apply elem_of_ins. by right.
        -- by rewrite fn_lookup_insert_ne.
  - split; [done|]. split; [|done].
    rewrite (tidy_active _ _ _ _ Ht), (tidy_active _ _ _ _ Ht1).
    pose proof (count_insert bs (hash tv) (ins (time_at (heap s')) t (bs (hash tv)))
                  (hash_lt tv)) as C1.
    rewrite length_ins in C1. lia.
Qed.

(** X15.  [tmr_cleanup] on a reachable registry returns, frees exactly the
    records of the free list and leaves an empty free list with
    [free_count = 0] and [alloc_count = active_count].  The bucket lists,
    the records that were not on the free list, [active_count] and the
    callback log are untouched, and a second call right after does
    nothing. *)
Theorem tmr_cleanup_frees_the_free_list (s : registry) (fl : list nat) :
  reachable s -> free_list s = Some fl ->
  exists s', tmr_cleanup s = Some (tt, s') /\
    free_list s' = Some [] /\ free_count s' = 0 /\
    alloc_count s' = active_count s' /\ active_count s' = active_count s /\
    alloc_count s' = alloc_count s - Z.of_nat (length fl) /\
    (forall h, bucket_list s' h = bucket_list s h) /\
    (forall x, x ∈ fl -> heap s' !! x = None) /\
    (forall x, x ∉ fl -> heap s' !! x = heap s !! x) /\
    calls s' = calls s /\
    tmr_cleanup s' = Some (tt, s').
Proof.
  intros (bs & fl0 & Ht)%reachable_tidy Hfl.
  pose proof (tidy_good _ _ _ _ Ht) as Hg. pose proof (good_shape _ _ _ Hg) as Hs.
  rewrite (shape_free_list _ _ _ Hs) in Hfl. injection Hfl as <-.
  destruct (cleanup_tidy filed filed_data _ _ _ Ht)
    as (s' & Hrun & Ht' & Hcalls & Htm & Hkeep & Hgone & Hal & Hac).
  pose proof (tidy_good _ _ _ _ Ht') as Hg'. pose proof (good_shape _ _ _ Hg') as Hs'.
  pose proof (good_free_count _ _ _ Hg') as Hfc. cbn [length] in Hfc.
  pose proof (tidy_alloc _ _ _ _ Ht') as Hadd. unfold counts_add_up in Hadd.
  exists s'. split; [done|]. split; [by eapply shape_free_list|].
  split; [done|]. split; [lia|]. split; [done|]. split; [done|].
  split; [intros h; by eapply bucket_list_same|]. do 3 (split; [done|]).
  pose proof (shape_free _ _ _ Hs') as Hnone. simpl in Hnone.
  unfold tmr_cleanup, heap_size, bind.
  destruct (size (heap s')); cbn [cleanup_loop]; unfold bind, get_free; by rewrite Hnone.
Qed.

(** X16.  [tmr_destroy] on a reachable registry, with fuel for as many
    turns of its inner loop as there are active timers, returns and leaves
    nothing behind: every bucket list and the free list are empty, the three
    counters are zero, and every record that was on a list has been freed.
    Records that were on no list are untouched, and no callback is called. *)
Theorem tmr_destroy_empties_the_registry (s : registry) (fuel : nat) :
  reachable s -> (length (active_ptrs s) <= fuel)%nat ->
  exists s' fl, free_list s = Some fl /\
    tmr_destroy fuel s = Some (tt, s') /\
    (forall h, (h < HASH_SIZE)%nat -> bucket_list s' h = Some []) /\
    active_ptrs s' = [] /\ free_list s' = Some [] /\
    alloc_count s' = 0 /\ active_count s' = 0 /\ free_count s' = 0 /\
    (forall x, x ∈ active_ptrs s ++ fl -> heap s' !! x = None) /\
    (forall x, x ∉ active_ptrs s ++ fl -> heap s' !! x = heap s !! x) /\
    calls s' = calls s.
Proof.
  intros (bs & fl & Ht)%reachable_tidy Hfuel.
  pose proof (tidy_good _ _ _ _ Ht) as Hg. pose proof (good_shape _ _ _ Hg) as Hs.
  rewrite (active_ptrs_good _ _ _ Hs) in Hfuel. fold (count bs) in Hfuel.
  destruct (destroy_buckets_tidy filed filed_data fuel (seq 0 HASH_SIZE) s bs fl Ht
              (seq_lt _))
    as (s1 & bs1 & fl1 & Hrun1 & Ht1 & Hcalls1 & Hal1 & Hdata1 & Hsame1 & Hin1 & _ & Hfl1).
  { intros h Hh. pose proof (count_bucket bs h Hh). lia. }
  destruct (cleanup_tidy filed filed_data _ _ _ Ht1)
    as (s' & Hrun & Ht' & Hcalls & Htm & Hkeep & Hgone & Hal & Hac).
  assert (tidy filed s' (fun _ => []) []) as Ht''.
  { eapply tidy_ext; [|exact Ht']. intros h Hh. symmetry. apply Hin1, elem_of_seq. lia. }
  pose proof (tidy_good _ _ _ _ Ht'') as Hg'. pose proof (good_shape _ _ _ Hg') as Hs'.
  pose proof (good_free_count _ _ _ Hg') as Hfc. cbn [length] in Hfc.
  pose proof (tidy_active _ _ _ _ Ht'') as Hact. rewrite count_empty in Hact.
  pose proof (tidy_alloc _ _ _ _ Ht'') as Hadd. unfold counts_add_up in Hadd.
  assert (forall x, x ∈ active_ptrs s ++ fl <-> x ∈ fl1) as Hlisted.
  { intros x. rewrite Hfl1, elem_of_app, (elem_of_active _ _ _ _ Hs). split.
    - intros [(h & Hh & Hx)|?]; [right|by left]. exists h. split; [|done].
      apply elem_of_seq. lia.
    - intros [?|(h & Hh%elem_of_seq & Hx)]; [by right|left]. exists h. split; [lia|done]. }
  exists s', fl. split; [by eapply shape_free_list|]. split.
  { unfold tmr_destroy. by rewrite (bind_eq _ _ _ _ _ Hrun1). }
  split; [intros h Hh; by rewrite (shape_bucket_list _ _ _ _ Hs' Hh)|].
  split.
  { rewrite (active_ptrs_good _ _ _ Hs').
    apply nil_length_inv. exact count_empty. }
  split; [by eapply shape_free_list|].
  split; [lia|]. split; [done|]. split; [done|]. split; [|split; [|congruence]].
  - intros x Hx. apply Hgone. by apply Hlisted.
  - intros x Hx. rewrite Hkeep by (by rewrite <- Hlisted). apply Hsame1.
    intros h Hh%elem_of_seq Hin. apply Hx. apply elem_of_app. left.
    apply (elem_of_active _ _ _ _ Hs). exists h. split; [lia|done].
Qed.

(** ** [tmr_run] comes to an end *)

Section Fit.

Variable now : timeval.
Hypothesis Hnow : normal now.

(** The walk through one bucket, with the bound on the calls it makes. *)
Lemma run_bucket_fit fuel : forall n c s bs fl A h,
  fit now s bs fl A n -> (n < fuel)%nat -> (h < HASH_SIZE)%nat ->
  (forall p, c = Some p -> p ∈ bs h) ->
  exists s' bs' fl' A' n' evs,
    run_bucket quiet fuel now c s = Some (tt, s') /\
    fit now s' bs' fl' A' n' /\ calls s' = calls s ++ evs /\
    (length evs + n' <= n)%nat.
Proof.
  induction fuel as [|fuel IH]; intros n c s bs fl A h Hfit Hfuel Hh Hc; [lia|].
  destruct c as [p|].
  2:{ exists s, bs, fl, A, n, []. rewrite app_nil_r. simpl.
    split; [done|]. split; [done|]. split; [done|]. lia. }
  pose proof (fit_good _ _ _ _ _ _ Hfit) as Hg. pose proof (good_shape _ _ _ Hg) as Hs.
  pose proof (Hc p eq_refl) as Hp.
  apply list_elem_of_split in Hp as (l1 & l2 & Hbs).
  destruct (shape_bucket _ _ _ Hs h Hh) as (hd & Hhd & Hd). rewrite Hbs in Hd.
  destruct (dseg_mid _ _ _ _ _ _ _ Hd) as (r & Hr & _ & Hnx).
  cbn [run_bucket]. rewrite (bind_eq _ _ _ _ _ (load_eq _ _ _ Hr)).
  destruct (not_ready (t_time r) now) eqn:Hdue.
  { exists s, bs, fl, A, n, []. rewrite app_nil_r. simpl.
    split; [done|]. split; [done|]. split; [done|]. lia. }
  destruct (fire_fit now s bs fl A n h l1 p l2 r Hnow Hfit Hh Hbs Hr Hdue)
    as (s2 & bs2 & fl2 & A2 & n2 & Hfire & -> & Hfit2 & Hcalls & Hothers & Hmem & _ & _).
  rewrite (bind_eq _ _ _ _ _ Hfire).
  pose proof (shape_nodup _ _ _ Hs h Hh) as Hnd. rewrite Hbs in Hnd.
  destruct (IH n2 (t_next r) s2 bs2 fl2 A2 h Hfit2 ltac:(lia) Hh)
    as (s' & bs' & fl' & A' & n' & evs & Hrun & Hfit' & Hcalls' & Hle).
  { intros q Hq. rewrite Hnx in Hq. destruct l2 as [|q' l2']; simpl in Hq; [done|].
    injection Hq as ->. apply Hmem; [done| |rewrite Hbs; set_solver].
    apply NoDup_app in Hnd as (_ & _ & [Hn _]%NoDup_cons). set_solver. }
  exists s', bs', fl', A', n', (Event p (t_cb r) (t_arg r) now :: evs).
  split; [done|]. split; [done|]. split; [|simpl; lia].
  by rewrite Hcalls', Hcalls, <- app_assoc.
Qed.

Lemma run_buckets_fit fuel hs : forall n s bs fl A,
  fit now s bs fl A n -> (n < fuel)%nat ->
  Forall (fun h => (h < HASH_SIZE)%nat) hs ->
  exists s' bs' fl' A' n' evs,
    run_buckets quiet fuel now hs s = Some (tt, s') /\
    fit now s' bs' fl' A' n' /\ calls s' = calls s ++ evs /\
    (length evs + n' <= n)%nat.
Proof.
  induction hs as [|h hs IH]; intros n s bs fl A Hfit Hfuel Hhs.
  - exists s, bs, fl, A, n, []. rewrite app_nil_r. simpl.
    split; [done|]. split; [done|]. split; [done|]. lia.
  - apply Forall_cons in Hhs as [Hh Hhs].
    pose proof (good_shape _ _ _ (fit_good _ _ _ _ _ _ Hfit)) as Hs.
    destruct (shape_bucket _ _ _ Hs h Hh) as (hd & Hhd & Hd).
    cbn [run_buckets]. rewrite (bind_eq _ _ _ _ _ (bucket_eq _ _ _ Hhd)).
    destruct (run_bucket_fit fuel n hd s bs fl A h Hfit Hfuel Hh)
      as (s1 & bs1 & fl1 & A1 & n1 & evs1 & Hrun1 & Hfit1 & Hcalls1 & Hle1).
    { intros p ->. apply dseg_head in Hd. destruct (bs h); simpl in Hd; [done|].
      injection Hd as ->. set_solver. }
    rewrite (bind_eq _ _ _ _ _ Hrun1).
    destruct (IH n1 s1 bs1 fl1 A1 Hfit1 ltac:(lia) Hhs)
      as (s' & bs' & fl' & A' & n' & evs & Hrun & Hfit' & Hcalls & Hle).
    exists s', bs', fl', A', n', (evs1 ++ evs). split; [done|]. split; [done|].
    split; [by rewrite Hcalls, Hcalls1, <- app_assoc|]. rewrite length_app. lia.
Qed.

(** The walk through the bucket of a due timer [T], from an entry [c] at
    or in front of [T]: it reaches [T] and calls it. *)
Lemma run_bucket_due T fuel : forall n c s bs fl A hT rT,
  fit now s bs fl A n -> (n < fuel)%nat ->
  (hT < HASH_SIZE)%nat -> from_on (bs hT) c T ->
  heap s !! T = Some rT -> not_ready (t_time rT) now = false ->
  exists s' bs' fl' A' n' evs,
    run_bucket quiet fuel now (Some c) s = Some (tt, s') /\
    fit now s' bs' fl' A' n' /\ calls s' = calls s ++ evs /\
    (length evs + n' <= n)%nat /\ (1 <= fired T evs)%nat.
Proof.
  induction fuel as [|fuel IH]; intros n c s bs fl A hT rT Hfit Hfuel HhT Hfrom HrT Hready;
    [lia|].
  pose proof (fit_good _ _ _ _ _ _ Hfit) as Hg. pose proof (good_shape _ _ _ Hg) as Hs.
  destruct Hfrom as (l1 & l2 & Hbs & HTin).
  destruct (shape_bucket _ _ _ Hs hT HhT) as (hd & Hhd & Hd). rewrite Hbs in Hd.
  destruct (dseg_mid _ _ _ _ _ _ _ Hd) as (r & Hr & _ & Hnx).
  pose proof (shape_nodup _ _ _ Hs hT HhT) as Hnd. rewrite Hbs in Hnd.
  assert (c ∉ l2) as Hcl2 by (apply NoDup_app in Hnd as (_ & _ & [Hn _]%NoDup_cons); done).
  cbn [run_bucket]. rewrite (bind_eq _ _ _ _ _ (load_eq _ _ _ Hr)).
  assert (not_ready (t_time r) now = false) as Hdue.
  { destruct (decide (c = T)) as [->|HcT]; [congruence|].
    assert (T ∈ l2) as HTl2 by set_solver.
    rewrite not_ready_goes_before in Hready |- *.
    pose proof (good_sorted _ _ _ Hg hT HhT) as Hsorted. rewrite Hbs in Hsorted.
    apply sorted_app in Hsorted as (_ & [F _] & _). rewrite Forall_forall in F.
    specialize (F T HTl2).
    rewrite (time_at_eq _ _ _ Hr), (time_at_eq _ _ _ HrT) in F.
    apply negb_false_iff in Hready. apply negb_false_iff.
    by eapply goes_before_trans. }
  rewrite Hdue.
  destruct (fire_fit now s bs fl A n hT l1 c l2 r Hnow Hfit HhT Hbs Hr Hdue)
    as (s2 & bs2 & fl2 & A2 & n2 & Hfire & -> & Hfit2 & Hcalls & Hothers & Hmem & Hord & _).
  rewrite (bind_eq _ _ _ _ _ Hfire).
  set (e := Event c (t_cb r) (t_arg r) now) in *.
  destruct (decide (c = T)) as [->|HcT].
  - (* the walk is at [T] *)
    destruct (run_bucket_fit fuel n2 (t_next r) s2 bs2 fl2 A2 hT Hfit2 ltac:(lia) HhT)
      as (s' & bs' & fl' & A' & n' & evs & Hrun & Hfit' & Hcalls' & Hle).
    { intros q Hq. rewrite Hnx in Hq. destruct l2 as [|q' l2']; simpl in Hq; [done|].
      injection Hq as ->. apply Hmem; [done|set_solver|rewrite Hbs; set_solver]. }
    exists s', bs', fl', A', n', (e :: evs). split; [done|]. split; [done|].
    split; [by rewrite Hcalls', Hcalls, <- app_assoc|]. split; [simpl; lia|].
    change (e :: evs) with ([e] ++ evs). rewrite fired_app.
    change [e] with ([] ++ [e]). rewrite fired_app_self by done. lia.
  - (* the walk is in front of [T] *)
    assert (T ∈ l2) as HTl2 by set_solver.
    destruct l2 as [|c' l2']; [by apply elem_of_nil in HTl2|]. simpl in Hnx. rewrite Hnx.
    pose proof (Hothers T (not_eq_sym HcT)) as HdT. rewrite HrT in HdT.
    destruct (heap s2 !! T) as [r2|] eqn:Hr2; [|done]. simpl in HdT.
    unfold data in HdT. injection HdT as E1 E2 E3 E4 E5 E6.
    destruct (IH n2 c' s2 bs2 fl2 A2 hT r2 Hfit2 ltac:(lia) HhT)
      as (s' & bs' & fl' & A' & n' & evs & Hrun & Hfit' & Hcalls' & Hle & Hfired);
      [by apply Hord|done|congruence|].
    exists s', bs', fl', A', n', (e :: evs). split; [done|]. split; [done|].
    split; [by rewrite Hcalls', Hcalls, <- app_assoc|]. split; [simpl; lia|].
    change (e :: evs) with ([e] ++ evs). rewrite fired_app. lia.
Qed.

(** The whole run when the timer [T] is due. *)
Lemma tmr_run_due T fuel n s bs fl A hT rT :
  fit now s bs fl A n -> (n < fuel)%nat ->
  (hT < HASH_SIZE)%nat -> T ∈ bs hT ->
  heap s !! T = Some rT -> not_ready (t_time rT) now = false ->
  exists s', tmr_run quiet fuel now s = Some (tt, s') /\
    (S (fired T (calls s)) <= fired T (calls s'))%nat.
Proof.
  intros Hfit Hfuel HhT HT HrT Hready.
  unfold tmr_run. rewrite (seq_split_at HASH_SIZE hT HhT), run_buckets_app.
  destruct (run_buckets_skip now T Hnow fuel (seq 0 hT) n s bs fl A hT Hfit Hfuel)
    as (s1 & bs1 & fl1 & A1 & n1 & Hrun1 & Hfit1 & Hle1 & HT1 & Hdata1 & Hfired1);
    [apply Forall_forall; intros h Hh%elem_of_seq; lia|done|done| |].
  { left. intros Hin%elem_of_seq. lia. }
  rewrite (bind_eq _ _ _ _ _ Hrun1). cbn [run_buckets].
  pose proof (good_shape _ _ _ (fit_good _ _ _ _ _ _ Hfit1)) as Hs1.
  destruct (shape_bucket _ _ _ Hs1 hT HhT) as (hd & Hhd & Hd).
  rewrite (bind_eq _ _ _ _ _ (bucket_eq _ _ _ Hhd)).
  apply dseg_head in Hd. destruct (bs1 hT) as [|c l] eqn:Hbs1; [by apply elem_of_nil in HT1|].
  simpl in Hd. subst hd.
  rewrite HrT in Hdata1. destruct (heap s1 !! T) as [r1|] eqn:Hr1; [|done].
  simpl in Hdata1. unfold data in Hdata1. injection Hdata1 as E1 E2 E3 E4 E5 E6.
  destruct (run_bucket_due T fuel n1 c s1 bs1 fl1 A1 hT r1 Hfit1 ltac:(lia) HhT)
    as (s2 & bs2 & fl2 & A2 & n2 & evs2 & Hrun2 & Hfit2 & Hcalls2 & Hle2 & Hfired2);
    [exists [], l; by rewrite Hbs1|done|congruence|].
  rewrite (bind_eq _ _ _ _ _ Hrun2).
  destruct (run_buckets_fit fuel (seq (S hT) (HASH_SIZE - S hT)) n2 s2 bs2 fl2 A2 Hfit2)
    as (s3 & bs3 & fl3 & A3 & n3 & evs3 & Hrun3 & Hfit3 & Hcalls3 & Hle3);
    [lia|apply Forall_forall; intros h Hh%elem_of_seq; lia|].
  exists s3. split; [done|].
  rewrite Hcalls3, Hcalls2, !fired_app, Hfired1. lia.
Qed.

End Fit.

(** A reachable registry with sane timers fits the bound that the due
    counts of its timers give. *)
Lemma sane_fit now s bs fl :
  good s bs fl -> sane s ->
  fit now s bs fl (active_ptrs s) (total (firings now (heap s)) (active_ptrs s)).
Proof.
  intros Hg Hsane. pose proof (good_shape _ _ _ Hg) as Hs. split; [done| |..|done].
  - intros h x r Hh Hx Hr. unfold sane in Hsane. rewrite Forall_forall in Hsane.
    apply (Hsane x); [|done]. apply (elem_of_active _ _ _ _ Hs). eauto.
  - intros h x Hh Hx. apply (elem_of_active _ _ _ _ Hs). eauto.
Qed.

(** ** What one [tmr_run] does *)

(** What has become of a timer that was active when the run started. *)
Lemma midrun_fate Q now s0 s' bs' fl' evs x r :
  midrun Q now s0 s' bs' fl' evs -> x ∈ active_ptrs s0 -> heap s0 !! x = Some r ->
  (fired x evs = 0%nat -> x ∈ active_ptrs s' /\ time_at (heap s') x = t_time r) /\
  (t_periodic r <> 0 ->
     x ∈ active_ptrs s' /\
     usecs (time_at (heap s') x)
     = usecs (t_time r) + Z.of_nat (fired x evs) * (1000 * t_msecs r)) /\
  (t_periodic r = 0 ->
     (fired x evs <= 1)%nat /\
     (fired x evs = 1%nat -> x ∉ active_ptrs s' /\ free_list s' = Some fl' /\ x ∈ fl')).
Proof.
  intros [Ht Hcalls Hal Hact Hev Honce Hwhere] Hx Hr.
  pose proof (good_shape _ _ _ (tidy_good _ _ _ _ Ht)) as Hs'.
  assert (forall h, (h < HASH_SIZE)%nat -> x ∈ bs' h ->
            x ∈ active_ptrs s' /\
            exists r', heap s' !! x = Some r' /\
              (fired x evs = 0%nat -> t_time r' = t_time r) /\
              usecs (t_time r')
              = usecs (t_time r) + Z.of_nat (fired x evs) * (1000 * t_msecs r) /\
              (t_periodic r = 0 -> fired x evs = 0%nat)) as Hin.
  { intros h Hh Hxh. split; [apply (elem_of_active _ _ _ _ Hs'); eauto|].
    destruct (shape_hash _ _ _ Hs' h x Hh Hxh) as (r' & Hr' & _).
    destruct (Hact h x r' Hh Hxh Hr') as (_ & r0 & Hr0 & _ & _ & _ & _ & F1 & F2 & F3).
    assert (r0 = r) as -> by congruence. by exists r'. }
  split; [|split].
  - intros Hz. destruct (Hwhere x Hx) as [(h & Hh & Hxh)|(_ & Hone & _)]; [|lia].
    destruct (Hin h Hh Hxh) as (Ha & r' & Hr' & F1 & _). split; [done|].
    rewrite (time_at_eq _ _ _ Hr'). by apply F1.
  - intros Hper. destruct (Hwhere x Hx) as [(h & Hh & Hxh)|(_ & _ & r0 & Hr0 & Hone)].
    + destruct (Hin h Hh Hxh) as (Ha & r' & Hr' & _ & F2 & _). split; [done|].
      by rewrite (time_at_eq _ _ _ Hr').
    + assert (r0 = r) as -> by congruence. done.
  - intros Hper. split; [by eapply Honce|]. intros Hone.
    destruct (Hwhere x Hx) as [(h & Hh & Hxh)|(Hfl & _)].
    + destruct (Hin h Hh Hxh) as (_ & r' & _ & _ & _ & F3). specialize (F3 Hper). lia.
    + split; [|split; [by eapply shape_free_list|done]].
      intros (h & Hh & Hxh)%(elem_of_active _ _ _ _ Hs').
      destruct (Hin h Hh Hxh) as (_ & r' & _ & _ & _ & F3). specialize (F3 Hper). lia.
Qed.

(** X17.  A [tmr_run] on a reachable registry, with callbacks that leave
    the registry alone, calls only timers that were active and due when it
    was entered, each with the callback and the argument of the timer and
    with [now].  A timer that is not active (one that was cancelled, say)
    or whose trigger is later than [now] is not called.  The run allocates
    and frees nothing and makes no timer active that was not. *)
Theorem tmr_run_calls_only_due_timers (s s' : registry) (fuel : nat) (now : timeval) :
  reachable s -> tmr_run quiet fuel now s = Some (tt, s') ->
  exists evs, calls s' = calls s ++ evs /\
    Forall (fun e =>
      ev_now e = now /\ ev_timer e ∈ active_ptrs s /\
      exists r, heap s !! ev_timer e = Some r /\
        ev_cb e = t_cb r /\ ev_arg e = t_arg r /\
        not_ready (t_time r) now = false) evs /\
    (forall x, x ∉ active_ptrs s -> fired x evs = 0%nat) /\
    (forall x r, heap s !! x = Some r -> not_ready (t_time r) now = true ->
       fired x evs = 0%nat) /\
    (forall x, x ∈ active_ptrs s' -> x ∈ active_ptrs s) /\
    alloc_count s' = alloc_count s.
Proof.
  intros (bs & fl & Ht)%reachable_tidy Hrun.
  destruct (tmr_run_mid filed filed_data ltac:(intros; by eapply filed_new) _ _ _ _ _ _
              Ht Hrun) as (bs' & fl' & evs & Hmid).
  pose proof Hmid as [Ht' Hcalls Hal Hact Hev Honce Hwhere].
  pose proof (good_shape _ _ _ (tidy_good _ _ _ _ Ht')) as Hs'.
  exists evs. split; [done|]. split; [done|]. rewrite Forall_forall in Hev.
  split; [|split; [|split; [|done]]].
  - intros x Hx. destruct (decide (fired x evs = 0%nat)) as [|Hn]; [done|].
    destruct (fired_pos _ _ Hn) as (e & He & <-). by destruct (Hev e He) as (_ & ? & _).
  - intros x r Hr Hnr. destruct (decide (fired x evs = 0%nat)) as [|Hn]; [done|].
    destruct (fired_pos _ _ Hn) as (e & He & <-).
    destruct (Hev e He) as (_ & _ & r0 & Hr0 & _ & _ & Hdue). congruence.
  - intros x (h & Hh & Hx)%(elem_of_active _ _ _ _ Hs').
    destruct (shape_hash _ _ _ Hs' h x Hh Hx) as (r' & Hr' & _).
    by destruct (Hact h x r' Hh Hx Hr') as (? & _).
Qed.

(** X18.  What a [tmr_run] on a reachable registry makes of each timer
    that was active.  A timer that is not called stays active with its
    trigger.  A periodic timer stays active, and every call moves its
    trigger by exactly its period: afterwards the trigger is the old one
    plus the period times the number of calls, whatever [now] is.  A
    one-shot timer is called at most once, and once called it is no longer
    active but on the free list. *)
Theorem tmr_run_fate_of_each_timer (s s' : registry) (fuel : nat) (now : timeval)
    (x : nat) (r : timer) :
  reachable s -> tmr_run quiet fuel now s = Some (tt, s') ->
  x ∈ active_ptrs s -> heap s !! x = Some r ->
  exists evs, calls s' = calls s ++ evs /\
    (fired x evs = 0%nat -> x ∈ active_ptrs s' /\ time_at (heap s') x = t_time r) /\
    (t_periodic r <> 0 ->
       x ∈ active_ptrs s' /\
       usecs (time_at (heap s') x)
       = usecs (t_time r) + Z.of_nat (fired x evs) * (1000 * t_msecs r)) /\
    (t_periodic r = 0 ->
       (fired x evs <= 1)%nat /\
       (fired x evs = 1%nat ->
          x ∉ active_ptrs s' /\ exists fl', free_list s' = Some fl' /\ x ∈ fl')).
Proof.
  intros (bs & fl & Ht)%reachable_tidy Hrun Hx Hr.
  destruct (tmr_run_mid filed filed_data ltac:(intros; by eapply filed_new) _ _ _ _ _ _
              Ht Hrun) as (bs' & fl' & evs & Hmid).
  destruct (midrun_fate _ _ _ _ _ _ _ _ _ Hmid Hx Hr) as (F1 & F2 & F3).
  exists evs. split; [by eapply mid_calls|]. split; [done|]. split; [done|].
  intros Hper. destruct (F3 Hper) as [Hle Hone]. split; [done|].
  intros H1. destruct (Hone H1) as (? & ? & ?). eauto.
Qed.

(** X19.  [tmr_run] comes to an end.  In a reachable registry whose timers
    are sane, and for a [now] in normal form, the run returns whenever its
    fuel exceeds the sum of the due counts of the active timers (one for a
    due one-shot timer, one per period elapsed since the trigger, plus one,
    for a due periodic timer), and it makes no more calls than that sum.
    The registry it leaves is reachable again. *)
Theorem tmr_run_returns (s : registry) (now : timeval) (fuel : nat) :
  reachable s -> sane s -> normal now ->
  (total (firings now (heap s)) (active_ptrs s) < fuel)%nat ->
  exists s' evs,
    tmr_run quiet fuel now s = Some (tt, s') /\
    calls s' = calls s ++ evs /\
    (length evs <= total (firings now (heap s)) (active_ptrs s))%nat /\
    reachable s'.
Proof.
  intros Hr Hsane Hnow Hfuel. destruct (reachable_good _ Hr) as (bs & fl & Hg).
  destruct (run_buckets_fit now Hnow fuel (seq 0 HASH_SIZE) _ s bs fl _
              (sane_fit now s bs fl Hg Hsane) Hfuel (seq_lt _))
    as (s' & bs' & fl' & A' & n' & evs & Hrun & _ & Hcalls & Hle).
  exists s', evs. split; [done|]. split; [done|]. split; [lia|].
  by apply (reachable_step s (Run fuel now) s' Hr).
Qed.

(** X20.  No due timer is passed over.  In a reachable registry whose
    timers are sane, a timer that is active and due at [now] is called by
    [tmr_run] at [now] at least once, however many other timers there are,
    and exactly once if it is a one-shot timer, which is then on the free
    list and no longer active. *)
Theorem due_timer_is_called (s : registry) (now : timeval) (fuel : nat)
    (T : nat) (r : timer) :
  reachable s -> sane s -> normal now ->
  (total (firings now (heap s)) (active_ptrs s) < fuel)%nat ->
  T ∈ active_ptrs s -> heap s !! T = Some r -> not_ready (t_time r) now = false ->
  exists s',
    tmr_run quiet fuel now s = Some (tt, s') /\
    (S (fired T (calls s)) <= fired T (calls s'))%nat /\
    (t_periodic r = 0 ->
       fired T (calls s') = S (fired T (calls s)) /\
       T ∉ active_ptrs s' /\ exists fl', free_list s' = Some fl' /\ T ∈ fl').
Proof.
  intros Hr Hsane Hnow Hfuel HT HrT Hdue.
  destruct (reachable_tidy _ Hr) as (bs & fl & Ht).
  pose proof (tidy_good _ _ _ _ Ht) as Hg. pose proof (good_shape _ _ _ Hg) as Hs.
  pose proof HT as (hT & HhT & HTb)%(elem_of_active _ _ _ _ Hs).
  destruct (tmr_run_due now Hnow T fuel _ s bs fl _ hT r
              (sane_fit now s bs fl Hg Hsane) Hfuel HhT HTb HrT Hdue)
    as (s' & Hrun & Hfired).
  exists s'. split; [done|]. split; [done|]. intros Hper.
  destruct (tmr_run_mid filed filed_data ltac:(intros; by eapply filed_new) _ _ _ _ _ _
              Ht Hrun) as (bs' & fl' & evs & Hmid).
  destruct (midrun_fate _ _ _ _ _ _ _ _ _ Hmid HT HrT) as (_ & _ & F3).
  destruct (F3 Hper) as [Hle Hone].
  pose proof (mid_calls _ _ _ _ _ _ _ Hmid) as Hcalls.
  rewrite Hcalls, fired_app in Hfired |- *.
  assert (fired T evs = 1%nat) as H1 by lia.
  split; [lia|]. destruct (Hone H1) as (? & ? & ?). eauto.
Qed.

(** X21.  A run before any trigger changes nothing.  If no active timer of
    a reachable registry is due at [now], [tmr_run] at [now] returns after
    a look at the first timer of each bucket and leaves the registry
    exactly as it was; it needs fuel for one turn only. *)
Theorem tmr_run_before_any_trigger_does_nothing (s : registry) (now : timeval)
    (fuel : nat) :
  reachable s -> (0 < fuel)%nat ->
  (forall x, x ∈ active_ptrs s -> not_ready (time_at (heap s) x) now = true) ->
  tmr_run quiet fuel now s = Some (tt, s).
Proof.
  intros (bs & fl & Hg)%reachable_good Hfuel Hnone.
  pose proof (good_shape _ _ _ Hg) as Hs.
  unfold tmr_run. pose proof (seq_lt HASH_SIZE) as Hhs.
  induction (seq 0 HASH_SIZE) as [|h hs IH]; [done|].
  apply Forall_cons in Hhs as [Hh Hhs]. cbn [run_buckets].
  destruct (shape_bucket _ _ _ Hs h Hh) as (hd & Hhd & Hd).
  rewrite (bind_eq _ _ _ _ _ (bucket_eq _ _ _ Hhd)).
  assert (run_bucket quiet fuel now hd s = Some (tt, s)) as Hb;
    [|rewrite (bind_eq _ _ _ _ _ Hb); by apply IH].
  destruct fuel as [|fuel]; [lia|]. destruct hd as [p|]; [|done].
  destruct (head_in_bucket _ _ _ _ _ Hs Hh Hhd) as (l & Hbs).
  assert (p ∈ bs h) as Hp by (rewrite Hbs; set_solver).
  destruct (shape_hash _ _ _ Hs h p Hh Hp) as (r & Hr & _).
  cbn [run_bucket]. rewrite (bind_eq _ _ _ _ _ (load_eq _ _ _ Hr)).
  rewrite <- (time_at_eq _ _ _ Hr), Hnone; [done|].
  apply (elem_of_active _ _ _ _ Hs). eauto.
Qed.

(** ** Cancelling a timer twice *)

(** Following [next] from a record that is its own successor never ends. *)
Lemma chain_loop hp p r : hp !! p = Some r -> t_next r = Some p ->
  forall fuel, chain fuel hp (Some p) = None.
Proof.
  intros Hr Hnx. induction fuel as [|fuel IH]; simpl; [done|].
  by rewrite Hr, Hnx, IH.
Qed.

Ltac fields :=
  cbn [heap timers free_timers alloc_count active_count free_count calls].

(** [tmr_cancel] of the record at the head of the free list. *)
Lemma cancel_free_head s p r hd :
  heap s !! p = Some r -> t_prev r = None -> timers s !! t_hash r = Some hd ->
  free_timers s = Some p ->
  (forall nx, t_next r = Some nx -> nx ≠ p /\ is_Some (heap s !! nx)) ->
  exists s' r',
    tmr_cancel (Some p) s = Some (tt, s') /\
    free_timers s' = Some p /\ heap s' !! p = Some r' /\ t_next r' = Some p /\
    t_hash r' = t_hash r /\ timers s' !! t_hash r = Some (t_next r) /\
    alloc_count s' = alloc_count s /\ active_count s' = active_count s - 1 /\
    free_count s' = free_count s + 1 /\ calls s' = calls s.
Proof.
  intros Hr Hpv Hhd Hfree Hnx.
  unfold tmr_cancel, l_remove, bind, load, store, set_bucket, add_active, get_free,
    set_free, add_free, ret.
  rewrite Hr, Hpv, Hhd. fields. rewrite Hr.
  destruct (t_next r) as [nx|] eqn:Enx.
  - destruct (Hnx nx eq_refl) as [Hne [rn Hrn]]. fields. rewrite Hrn. fields.
    rewrite lookup_insert_ne, Hr by done. fields.
    rewrite lookup_insert_eq, Hfree.
    eexists _, _. split; [reflexivity|]. fields.
    rewrite lookup_insert_eq, list_lookup_insert_eq by (by eapply lookup_lt_Some).
    repeat split; first [lia | reflexivity].
  - fields. rewrite Hr. fields.
    rewrite lookup_insert_eq, Hfree.
    eexists _, _. split; [reflexivity|]. fields.
    rewrite lookup_insert_eq, list_lookup_insert_eq by (by eapply lookup_lt_Some).
    repeat split; first [lia | reflexivity].
Qed.

Lemma sll_head hp hd l : sll hp hd l -> hd = head l.
Proof. destruct l; simpl; [done|]. by intros [-> _]. Qed.

(** [tmr_cancel] leaves the record without a predecessor. *)
Lemma tmr_cancel_prev p s s' :
  tmr_cancel (Some p) s = Some (tt, s') ->
  exists r', heap s' !! p = Some r' /\ t_prev r' = None.
Proof.
  intros H. cbn [tmr_cancel] in H. binds H.
  unfold add_active in H1. injection H1 as _ <-.
  unfold store in H2. cbn [heap] in H2.
  destruct (heap s0 !! p) as [rb|] eqn:Hrb; [|done]. injection H2 as _ <-.
  unfold get_free in H3. injection H3 as <- <-.
  unfold store in H4. cbn [heap] in H4. rewrite lookup_insert_eq in H4.
  injection H4 as _ <-.
  unfold set_free in H5. injection H5 as _ <-.
  unfold add_free in H. injection H as <-. cbn [heap].
  rewrite lookup_insert_eq. by eexists.
Qed.

(** X22.  [tmr_cancel] must not be called twice for the same timer.  In a
    reachable registry, cancel an active timer and cancel it once more: the
    second call returns as well, but it makes the record its own successor
    on the free list, which is a list no longer; it puts what was the head
    of the free list at the head of the bucket the timer was in; and it
    counts one active timer less and one free record more a second time.
    A [tmr_cleanup] after that frees the record and then reads it again. *)
Theorem double_cancel_corrupts_the_free_list (s : registry) (p : nat) :
  reachable s -> active_in s p ->
  exists s1 s2 r2,
    tmr_cancel (Some p) s = Some (tt, s1) /\
    tmr_cancel (Some p) s1 = Some (tt, s2) /\
    free_timers s2 = Some p /\ heap s2 !! p = Some r2 /\ t_next r2 = Some p /\
    free_list s2 = None /\
    timers s2 !! t_hash r2 = Some (free_timers s) /\
    alloc_count s2 = alloc_count s /\ active_count s2 = active_count s - 2 /\
    free_count s2 = free_count s + 2 /\
    tmr_cleanup s2 = None.
Proof.
  intros (bs & fl & Hg)%reachable_good Hp. pose proof (good_shape _ _ _ Hg) as Hs.
  destruct (active_in_good _ _ _ _ Hg Hp) as (h & Hh & Hin).
  destruct (shape_hash _ _ _ Hs h p Hh Hin) as (r & Hr & Hrh).
  apply list_elem_of_split in Hin as (l1 & l2 & Hbs).
  destruct (tmr_cancel_good _ _ _ _ _ _ _ Hg Hh Hbs) as (s1 & Hc1 & Hg1 & Hrel & _).
  pose proof (good_shape _ _ _ Hg1) as Hs1.
  destruct (shifts_tmr_cancel _ _ _ _ Hc1) as (Hal1 & Hac1 & Hfc1).
  destruct (tmr_cancel_prev _ _ _ Hc1) as (r1 & Hr1 & Hpv1).
  pose proof (shape_free _ _ _ Hs1) as (Hfree1 & r1' & Hr1' & Hsll1).
  assert (r1' = r1) as -> by congruence.
  destruct (relinked_lookup _ _ _ _ _ Hrel Hr) as (r1' & Hr1'' & Hd1).
  assert (r1' = r1) as -> by congruence.
  assert (t_hash r1 = h) as Hh1 by (unfold data in Hd1; congruence).
  assert (t_next r1 = free_timers s) as Hnx1.
  { rewrite (sll_head _ _ _ Hsll1). symmetry. apply sll_head with (heap s).
    by eapply shape_free. }
  destruct (shape_bucket _ _ _ Hs1 h Hh) as (hd & Hhd & _).
  destruct (cancel_free_head s1 p r1 hd Hr1 Hpv1)
    as (s2 & r2 & Hc2 & Hfree2 & Hr2 & Hnx2 & Hh2 & Hb2 & Hal2 & Hac2 & Hfc2 & _);
    [by rewrite Hh1|done| |].
  { intros nx Hnx. rewrite Hnx in Hsll1.
    pose proof (shape_free_nodup _ _ _ Hs1) as [Hpfl _]%NoDup_cons.
    destruct fl as [|x fl']; simpl in Hsll1; [done|].
    destruct Hsll1 as ([= ->] & rx & Hrx & _). split; [set_solver|by eexists]. }
  exists s1, s2, r2. split; [done|]. split; [done|]. split; [done|]. split; [done|].
  split; [done|]. split; [|split; [|split; [lia|split; [lia|split; [lia|]]]]].
  - unfold free_list. rewrite Hfree2. by eapply chain_loop.
  - by rewrite Hh2, Hb2, Hnx1.
  - unfold tmr_cleanup, heap_size, bind.
    destruct (size (heap s2)) as [|n]; cbn [cleanup_loop]; unfold bind, get_free;
      rewrite Hfree2; [done|].
    unfold load. rewrite Hr2. unfold set_free, add_free, add_alloc, release. fields.
    rewrite Hr2. destruct n as [|n]; cbn [cleanup_loop]; unfold bind, get_free; fields;
      rewrite Hnx2; [done|].
    unfold load. fields. by rewrite lookup_delete_eq.
Qed.

(** ** A new timer and the next wait *)

Lemma msecs_until_exact now msecs :
  normal now -> 0 <= msecs -> msecs_until now (tv_add_msecs now msecs) = msecs.
Proof.
  intros Hn Hms. pose proof (msecs_until_close now (tv_add_msecs now msecs)) as Hc.
  rewrite usecs_tv_add_msecs in Hc. lia.
Qed.

(** X23.  A new timer bounds the next wait.  In a registry made by legal
    and timely calls, create a timer with a positive delay at [now] and ask
    [tmr_mstimeout] at the same [now]: the answer is at least one and at
    most the delay of the new timer, unless it is the 500 ms that stand for
    a timer that is already due. *)
Theorem new_timer_bounds_the_next_wait (s s' : registry) (malloc : option nat)
    (clock now : timeval) (cb : callback) (arg : arg_t) (msecs periodic : Z)
    (t : nat) (INFTIM : Z) :
  kept s -> (forall p, malloc = Some p -> heap s !! p = None) ->
  normal now -> 0 < msecs ->
  tmr_create malloc clock (Some now) cb arg msecs periodic s = Some (Some t, s') ->
  exists v, tmr_mstimeout INFTIM now s' = Some (v, s') /\
    1 <= v /\ (v <= msecs \/ v = 500).
Proof.
  intros Hk Hfresh Hnow Hms Hrun.
  assert (kept s') as Hk'.
  { apply (kept_step s (Create malloc clock (Some now) cb arg msecs periodic) s' Hk).
    - exact Hfresh.
    - cbn [timely default]. split; [done|]. split; lia.
    - cbn [exec_op]. by rewrite (bind_eq _ _ _ _ _ Hrun). }
  destruct (kept_steady _ Hk') as [Hn' _].
  pose proof (kept_reachable _ Hk') as Hr'.
  exists (timeout_spec INFTIM (waits now s')).
  split; [by apply reachable_mstimeout|].
  destruct (reachable_good _ (kept_reachable _ Hk)) as (bs & fl & Hg).
  destruct (tmr_create_good _ _ _ _ _ _ _ _ _ _ _ _ Hg Hfresh Hrun)
    as (fl1 & r1 & Hg1 & Hr1 & Hd1 & _).
  pose proof (good_shape _ _ _ Hg1) as Hs1. cbn [default] in *.
  assert (t ∈ active_ptrs s') as Ht.
  { apply (elem_of_active _ _ _ _ Hs1). eexists. split; [apply hash_lt|].
    rewrite fn_lookup_insert. apply elem_of_ins. by left. }
  assert (wait_at now s' t = msecs) as Hw.
  { unfold wait_at. rewrite (time_at_eq _ _ _ Hr1). unfold data in Hd1.
    injection Hd1 as _ _ _ _ -> _. apply msecs_until_exact; [done|lia]. }
  unfold waits. destruct (active_ptrs s') as [|x xs] eqn:E; [by apply elem_of_nil in Ht|].
  cbn [map timeout_spec].
  destruct (is_min_foldr (wait_at now s' x) (map (wait_at now s') xs)) as [_ Hmin].
  specialize (Hmin msecs). rewrite <- Hw in Hmin at 1.
  assert (foldr Z.min (wait_at now s' x) (map (wait_at now s') xs) <= msecs) as Hle.
  { apply Hmin. change (wait_at now s' x :: map (wait_at now s') xs)
      with (map (wait_at now s') (x :: xs)). apply elem_of_map. eauto. }
  destruct (Z.leb_spec (foldr Z.min (wait_at now s' x) (map (wait_at now s') xs)) 0); lia.
Qed.

(** ** The further theorems at concrete inputs *)

Lemma kept_startup : kept startup.
Proof. by apply (kept_init startup). Qed.

Lemma kept_demo_oneshot : kept demo_oneshot.
Proof.
  apply (kept_step startup
           (Create (Some 1%nat) (Timeval 0 0) (Some (Timeval 0 0)) 7%nat 42 1000 0)).
  - apply kept_startup.
  - intros p [= <-]. reflexivity.
  - cbn [timely default]. unfold normal. simpl. lia.
  - vm_compute. reflexivity.
Qed.

Lemma kept_demo_periodic : kept demo_periodic.
Proof.
  apply (kept_step startup
           (Create (Some 1%nat) (Timeval 0 0) (Some (Timeval 0 0)) 7%nat 42 100 1)).
  - apply kept_startup.
  - intros p [= <-]. reflexivity.
  - cbn [timely default]. unfold normal. simpl. lia.
  - vm_compute. reflexivity.
Qed.

Lemma active_demo_oneshot : active_ptrs demo_oneshot = [1%nat].
Proof. vm_compute. reflexivity. Qed.

Lemma in_active_demo_oneshot : 1%nat ∈ active_ptrs demo_oneshot.
Proof. rewrite active_demo_oneshot. by apply list_elem_of_singleton. Qed.

Lemma active_in_demo_oneshot : active_in demo_oneshot 1%nat.
Proof.
  exists 1%nat, [1%nat]. split; [vm_compute; reflexivity|by apply list_elem_of_singleton].
Qed.

Lemma heap_demo_oneshot : heap demo_oneshot !! 1%nat = Some demo_oneshot_timer.
Proof. vm_compute. reflexivity. Qed.

Lemma run_demo_oneshot :
  tmr_run quiet 10 (Timeval 1 0) demo_oneshot = Some (tt, demo_oneshot_run).
Proof. vm_compute. reflexivity. Qed.

Lemma normal_1_0 : normal (Timeval 1 0).
Proof. unfold normal. simpl. lia. Qed.

Lemma normal_0_0 : normal (Timeval 0 0).
Proof. unfold normal. simpl. lia. Qed.

Lemma comparisons_follow_the_clock_witness :
  normal (Timeval 0 0) /\ normal (Timeval 1 0) /\
  (goes_before (Timeval 0 0) (Timeval 1 0) = true
   <-> usecs (Timeval 0 0) <= usecs (Timeval 1 0)) /\
  (not_ready (Timeval 0 0) (Timeval 1 0) = true
   <-> usecs (Timeval 1 0) < usecs (Timeval 0 0)) /\
  (goes_before (Timeval 0 0) (Timeval 1 0) = true /\
   goes_before (Timeval 1 0) (Timeval 0 0) = true <-> Timeval 0 0 = Timeval 1 0).
Proof.
  split; [exact normal_0_0|]. split; [exact normal_1_0|].
  exact (comparisons_follow_the_clock (Timeval 0 0) (Timeval 1 0) normal_0_0 normal_1_0).
Defined.

Lemma tmr_mstimeout_at_least_one_witness :
  tmr_mstimeout (-1) (Timeval 0 0) demo_oneshot = Some (1000, demo_oneshot) /\
  ((forall h, (h < HASH_SIZE)%nat -> timers demo_oneshot !! h = Some None) -> 1000 = -1) /\
  ((exists h p, (h < HASH_SIZE)%nat /\ timers demo_oneshot !! h = Some (Some p)) ->
   1 <= 1000) /\
  (1000 = -1 \/ 1 <= 1000).
Proof.
  assert (tmr_mstimeout (-1) (Timeval 0 0) demo_oneshot = Some (1000, demo_oneshot)) as H
    by (vm_compute; reflexivity).
  split; [exact H|].
  exact (tmr_mstimeout_at_least_one (-1) (Timeval 0 0) demo_oneshot demo_oneshot 1000 H).
Defined.

Lemma tmr_timeout_null_or_positive_witness :
  tmr_timeout (-1) (Timeval 0 0) (Timeval 9 9) demo_oneshot
    = Some ((true, Timeval 1 0), demo_oneshot) /\
  demo_oneshot = demo_oneshot /\
  exists v, tmr_mstimeout (-1) (Timeval 0 0) demo_oneshot = Some (v, demo_oneshot) /\
    (true = false <-> v = -1) /\
    (true = false -> Timeval 1 0 = Timeval 9 9) /\
    (true = true ->
       normal (Timeval 1 0) /\ 0 <= tv_sec (Timeval 1 0) /\
       usecs (Timeval 1 0) = 1000 * v /\ 0 < usecs (Timeval 1 0)).
Proof.
  assert (tmr_timeout (-1) (Timeval 0 0) (Timeval 9 9) demo_oneshot
          = Some ((true, Timeval 1 0), demo_oneshot)) as H by (vm_compute; reflexivity).
  split; [exact H|].
  exact (tmr_timeout_null_or_positive (-1) (Timeval 0 0) (Timeval 9 9) demo_oneshot
           demo_oneshot true (Timeval 1 0) H).
Defined.

Lemma tmr_logstats_never_complains_witness :
  (forall cb arg now, moves 0 (quiet cb arg now)) /\
  tmr_init startup = Some (tt, startup) /\
  exists ss, observe quiet demo_ops startup = Some ss /\
    Forall (fun s' =>
              tmr_logstats 60 s'
              = Some ([stats_line (alloc_count s') (active_count s') (free_count s')], s'))
           (startup :: ss).
Proof.
  split; [intros; apply moves_ret|]. split; [reflexivity|].
  destruct (observe quiet demo_ops startup) as [ss|] eqn:E;
    [|vm_compute in E; discriminate E].
  exists ss. split; [reflexivity|].
  exact (tmr_logstats_never_complains quiet (fun _ _ _ => moves_ret tt)
           startup startup demo_ops ss 60 eq_refl E).
Defined.

Lemma active_timer_is_filed_under_its_hash_witness :
  bucket_list demo_oneshot 1 = Some [1%nat] /\ 1%nat ∈ [1%nat] /\
  exists r, heap demo_oneshot !! 1%nat = Some r /\
    hash (t_time r) = 1%nat /\ t_hash r = 1%nat /\ (1 < HASH_SIZE)%nat.
Proof.
  assert (bucket_list demo_oneshot 1 = Some [1%nat]) as Hl by (vm_compute; reflexivity).
  assert (1%nat ∈ [1%nat]) as Hin by (by apply list_elem_of_singleton).
  split; [exact Hl|]. split; [exact Hin|].
  exact (active_timer_is_filed_under_its_hash demo_oneshot 1 [1%nat] 1
           reachable_demo_oneshot Hl Hin).
Defined.

Lemma counters_count_the_lists_witness :
  reachable demo_cancelled /\
  exists fl, free_list demo_cancelled = Some fl /\
    active_count demo_cancelled = Z.of_nat (length (active_ptrs demo_cancelled)) /\
    free_count demo_cancelled = Z.of_nat (length fl) /\
    alloc_count demo_cancelled
    = Z.of_nat (length (active_ptrs demo_cancelled) + length fl) /\
    NoDup (active_ptrs demo_cancelled ++ fl) /\
    (forall x, x ∈ active_ptrs demo_cancelled ++ fl -> is_Some (heap demo_cancelled !! x)).
Proof.
  split; [exact reachable_demo_cancelled|].
  exact (counters_count_the_lists demo_cancelled reachable_demo_cancelled).
Defined.

Lemma timely_calls_keep_timers_steady_witness :
  kept demo_periodic /\
  reachable demo_periodic /\ all_normal demo_periodic /\ sane demo_periodic.
Proof.
  split; [exact kept_demo_periodic|].
  exact (timely_calls_keep_timers_steady demo_periodic kept_demo_periodic).
Defined.

Lemma legal_calls_return_witness :
  reachable demo_oneshot /\ legal demo_oneshot (Cancel (Some 1%nat)) /\
  exists s', exec_op quiet (Cancel (Some 1%nat)) demo_oneshot = Some (tt, s') /\
             reachable s'.
Proof.
  assert (legal demo_oneshot (Cancel (Some 1%nat))) as Hl.
  { intros p [= <-]. exact active_in_demo_oneshot. }
  split; [exact reachable_demo_oneshot|]. split; [exact Hl|].
  exact (legal_calls_return demo_oneshot (Cancel (Some 1%nat)) reachable_demo_oneshot Hl).
Defined.

Lemma tmr_timeout_null_iff_no_timer_witness :
  reachable demo_oneshot /\ -1 <= 0 /\
  exists nonnull tv,
    tmr_timeout (-1) (Timeval 0 0) (Timeval 9 9) demo_oneshot
      = Some ((nonnull, tv), demo_oneshot) /\
    (nonnull = false <-> active_ptrs demo_oneshot = []).
Proof.
  assert (-1 <= 0) as H by lia.
  split; [exact reachable_demo_oneshot|]. split; [exact H|].
  exact (tmr_timeout_null_iff_no_timer (-1) (Timeval 0 0) (Timeval 9 9) demo_oneshot
           reachable_demo_oneshot H).
Defined.

Lemma tmr_cancel_moves_timer_to_free_list_witness :
  bucket_list demo_oneshot 1 = Some [1%nat] /\ 1%nat ∈ [1%nat] /\
  free_list demo_oneshot = Some [] /\
  exists s' l1 l2, tmr_cancel (Some 1%nat) demo_oneshot = Some (tt, s') /\
    [1%nat] = l1 ++ 1%nat :: l2 /\ bucket_list s' 1 = Some (l1 ++ l2) /\
    (forall h', h' ≠ 1%nat -> bucket_list s' h' = bucket_list demo_oneshot h') /\
    free_list s' = Some [1%nat] /\
    alloc_count s' = alloc_count demo_oneshot /\
    active_count s' = active_count demo_oneshot - 1 /\
    free_count s' = free_count demo_oneshot + 1 /\ calls s' = calls demo_oneshot /\
    (forall x, data <$> heap s' !! x = data <$> heap demo_oneshot !! x).
Proof.
  assert (bucket_list demo_oneshot 1 = Some [1%nat]) as Hl by (vm_compute; reflexivity).
  assert (1%nat ∈ [1%nat]) as Hin by (by apply list_elem_of_singleton).
  assert (free_list demo_oneshot = Some []) as Hfl by (vm_compute; reflexivity).
  split; [exact Hl|]. split; [exact Hin|]. split; [exact Hfl|].
  exact (tmr_cancel_moves_timer_to_free_list demo_oneshot 1 1 [1%nat] []
           reachable_demo_oneshot Hl Hin Hfl).
Defined.

Lemma cancelled_record_is_reused_first_witness :
  active_in demo_oneshot 1%nat /\
  exists s1 s2,
    tmr_cancel (Some 1%nat) demo_oneshot = Some (tt, s1) /\
    tmr_create None (Timeval 0 0) (Some (Timeval 5 0)) 8%nat 43 20 0 s1
      = Some (Some 1%nat, s2) /\
    alloc_count s2 = alloc_count demo_oneshot /\
    active_count s2 = active_count demo_oneshot /\
    free_count s2 = free_count demo_oneshot /\ free_list s2 = free_list demo_oneshot.
Proof.
  split; [exact active_in_demo_oneshot|].
  exact (cancelled_record_is_reused_first demo_oneshot 1 None (Timeval 0 0)
           (Some (Timeval 5 0)) 8%nat 43 20 0 reachable_demo_oneshot active_in_demo_oneshot).
Defined.

Lemma tmr_reset_restarts_the_delay_witness :
  active_in demo_oneshot 1%nat /\
  exists s' r r' l,
    tmr_reset (Timeval 5 0) (Some 1%nat) demo_oneshot = Some (tt, s') /\
    heap demo_oneshot !! 1%nat = Some r /\ heap s' !! 1%nat = Some r' /\
    data r' = rescheduled r (tv_add_msecs (Timeval 5 0) (t_msecs r)) /\
    bucket_list s' (hash (tv_add_msecs (Timeval 5 0) (t_msecs r))) = Some l /\
    1%nat ∈ l /\
    (forall x, x ≠ 1%nat -> data <$> heap s' !! x = data <$> heap demo_oneshot !! x) /\
    (forall x, x ∈ active_ptrs s' <-> x ∈ active_ptrs demo_oneshot) /\
    same_statics demo_oneshot s' /\ free_list s' = free_list demo_oneshot /\
    tmr_reset (Timeval 5 0) None demo_oneshot = Some (tt, demo_oneshot).
Proof.
  split; [exact active_in_demo_oneshot|].
  exact (tmr_reset_restarts_the_delay demo_oneshot (Timeval 5 0) 1
           reachable_demo_oneshot active_in_demo_oneshot).
Defined.

Lemma tmr_create_files_the_new_timer_witness :
  (forall p, Some 2%nat = Some p -> heap demo_oneshot !! p = None) /\
  tmr_create (Some 2%nat) (Timeval 0 0) (Some (Timeval 0 0)) 8%nat 43 1000 0 demo_oneshot
    = Some (Some 2%nat, demo_two) /\
  exists r l,
    heap demo_two !! 2%nat = Some r /\
    data r = (8%nat, 43, 1000, 0, tv_add_msecs (default (Timeval 0 0) (Some (Timeval 0 0))) 1000,
              hash (tv_add_msecs (default (Timeval 0 0) (Some (Timeval 0 0))) 1000)) /\
    bucket_list demo_two
      (hash (tv_add_msecs (default (Timeval 0 0) (Some (Timeval 0 0))) 1000)) = Some l /\
    2%nat ∈ l /\ 2%nat ∉ active_ptrs demo_oneshot /\
    (forall x, x ∈ active_ptrs demo_two <-> x = 2%nat \/ x ∈ active_ptrs demo_oneshot) /\
    (forall x, x ≠ 2%nat -> data <$> heap demo_two !! x = data <$> heap demo_oneshot !! x) /\
    active_count demo_two = active_count demo_oneshot + 1 /\
    calls demo_two = calls demo_oneshot.
Proof.
  assert (forall p, Some 2%nat = Some p -> heap demo_oneshot !! p = None) as Hf.
  { intros p [= <-]. vm_compute. reflexivity. }
  assert (tmr_create (Some 2%nat) (Timeval 0 0) (Some (Timeval 0 0)) 8%nat 43 1000 0
            demo_oneshot = Some (Some 2%nat, demo_two)) as Hc by (vm_compute; reflexivity).
  split; [exact Hf|]. split; [exact Hc|].
  exact (tmr_create_files_the_new_timer demo_oneshot demo_two (Some 2%nat) (Timeval 0 0)
           (Some (Timeval 0 0)) 8%nat 43 1000 0 2 reachable_demo_oneshot Hf Hc).
Defined.

Lemma tmr_cleanup_frees_the_free_list_witness :
  free_list demo_cancelled = Some [1%nat] /\
  exists s', tmr_cleanup demo_cancelled = Some (tt, s') /\
    free_list s' = Some [] /\ free_count s' = 0 /\
    alloc_count s' = active_count s' /\ active_count s' = active_count demo_cancelled /\
    alloc_count s' = alloc_count demo_cancelled - Z.of_nat (length [1%nat]) /\
    (forall h, bucket_list s' h = bucket_list demo_cancelled h) /\
    (forall x, x ∈ [1%nat] -> heap s' !! x = None) /\
    (forall x, x ∉ [1%nat] -> heap s' !! x = heap demo_cancelled !! x) /\
    calls s' = calls demo_cancelled /\
    tmr_cleanup s' = Some (tt, s').
Proof.
  assert (free_list demo_cancelled = Some [1%nat]) as Hfl by (vm_compute; reflexivity).
  split; [exact Hfl|].
  exact (tmr_cleanup_frees_the_free_list demo_cancelled [1%nat]
           reachable_demo_cancelled Hfl).
Defined.

Lemma tmr_destroy_empties_the_registry_witness :
  (length (active_ptrs demo_oneshot) <= 5)%nat /\
  exists s' fl, free_list demo_oneshot = Some fl /\
    tmr_destroy 5 demo_oneshot = Some (tt, s') /\
    (forall h, (h < HASH_SIZE)%nat -> bucket_list s' h = Some []) /\
    active_ptrs s' = [] /\ free_list s' = Some [] /\
    alloc_count s' = 0 /\ active_count s' = 0 /\ free_count s' = 0 /\
    (forall x, x ∈ active_ptrs demo_oneshot ++ fl -> heap s' !! x = None) /\
    (forall x, x ∉ active_ptrs demo_oneshot ++ fl ->
       heap s' !! x = heap demo_oneshot !! x) /\
    calls s' = calls demo_oneshot.
Proof.
  assert (length (active_ptrs demo_oneshot) <= 5)%nat as Hf
    by (rewrite active_demo_oneshot; simpl; lia).
  split; [exact Hf|].
  exact (tmr_destroy_empties_the_registry demo_oneshot 5 reachable_demo_oneshot Hf).
Defined.

Lemma tmr_run_calls_only_due_timers_witness :
  tmr_run quiet 10 (Timeval 1 0) demo_oneshot = Some (tt, demo_oneshot_run) /\
  exists evs, calls demo_oneshot_run = calls demo_oneshot ++ evs /\
    Forall (fun e =>
      ev_now e = Timeval 1 0 /\ ev_timer e ∈ active_ptrs demo_oneshot /\
      exists r, heap demo_oneshot !! ev_timer e = Some r /\
        ev_cb e = t_cb r /\ ev_arg e = t_arg r /\
        not_ready (t_time r) (Timeval 1 0) = false) evs /\
    (forall x, x ∉ active_ptrs demo_oneshot -> fired x evs = 0%nat) /\
    (forall x r, heap demo_oneshot !! x = Some r ->
       not_ready (t_time r) (Timeval 1 0) = true -> fired x evs = 0%nat) /\
    (forall x, x ∈ active_ptrs demo_oneshot_run -> x ∈ active_ptrs demo_oneshot) /\
    alloc_count demo_oneshot_run = alloc_count demo_oneshot.
Proof.
  split; [exact run_demo_oneshot|].
  exact (tmr_run_calls_only_due_timers demo_oneshot demo_oneshot_run 10 (Timeval 1 0)
           reachable_demo_oneshot run_demo_oneshot).
Defined.

Lemma tmr_run_fate_of_each_timer_witness :
  tmr_run quiet 10 (Timeval 1 0) demo_oneshot = Some (tt, demo_oneshot_run) /\
  1%nat ∈ active_ptrs demo_oneshot /\
  heap demo_oneshot !! 1%nat = Some demo_oneshot_timer /\
  exists evs, calls demo_oneshot_run = calls demo_oneshot ++ evs /\
    (fired 1 evs = 0%nat ->
       1%nat ∈ active_ptrs demo_oneshot_run /\
       time_at (heap demo_oneshot_run) 1 = t_time demo_oneshot_timer) /\
    (t_periodic demo_oneshot_timer <> 0 ->
       1%nat ∈ active_ptrs demo_oneshot_run /\
       usecs (time_at (heap demo_oneshot_run) 1)
       = usecs (t_time demo_oneshot_timer)
         + Z.of_nat (fired 1 evs) * (1000 * t_msecs demo_oneshot_timer)) /\
    (t_periodic demo_oneshot_timer = 0 ->
       (fired 1 evs <= 1)%nat /\
       (fired 1 evs = 1%nat ->
          1%nat ∉ active_ptrs demo_oneshot_run /\
          exists fl', free_list demo_oneshot_run = Some fl' /\ 1%nat ∈ fl')).
Proof.
  split; [exact run_demo_oneshot|]. split; [exact in_active_demo_oneshot|].
  split; [exact heap_demo_oneshot|].
  exact (tmr_run_fate_of_each_timer demo_oneshot demo_oneshot_run 10 (Timeval 1 0) 1
           demo_oneshot_timer reachable_demo_oneshot run_demo_oneshot
           in_active_demo_oneshot heap_demo_oneshot).
Defined.

Lemma tmr_run_returns_witness :
  sane demo_periodic /\ normal (Timeval 0 250000) /\
  (total (firings (Timeval 0 250000) (heap demo_periodic)) (active_ptrs demo_periodic)
   < 10)%nat /\
  exists s' evs,
    tmr_run quiet 10 (Timeval 0 250000) demo_periodic = Some (tt, s') /\
    calls s' = calls demo_periodic ++ evs /\
    (length evs <= total (firings (Timeval 0 250000) (heap demo_periodic))
                     (active_ptrs demo_periodic))%nat /\
    reachable s'.
Proof.
  assert (normal (Timeval 0 250000)) as Hn by (unfold normal; simpl; lia).
  assert (total (firings (Timeval 0 250000) (heap demo_periodic))
                (active_ptrs demo_periodic) < 10)%nat as Hf by (vm_compute; lia).
  split; [exact sane_demo_periodic|]. split; [exact Hn|]. split; [exact Hf|].
  exact (tmr_run_returns demo_periodic (Timeval 0 250000) 10
           reachable_demo_periodic sane_demo_periodic Hn Hf).
Defined.

Lemma due_timer_is_called_witness :
  sane demo_oneshot /\ normal (Timeval 1 0) /\
  (total (firings (Timeval 1 0) (heap demo_oneshot)) (active_ptrs demo_oneshot) < 10)%nat /\
  1%nat ∈ active_ptrs demo_oneshot /\
  heap demo_oneshot !! 1%nat = Some demo_oneshot_timer /\
  not_ready (t_time demo_oneshot_timer) (Timeval 1 0) = false /\
  exists s',
    tmr_run quiet 10 (Timeval 1 0) demo_oneshot = Some (tt, s') /\
    (S (fired 1 (calls demo_oneshot)) <= fired 1 (calls s'))%nat /\
    (t_periodic demo_oneshot_timer = 0 ->
       fired 1 (calls s') = S (fired 1 (calls demo_oneshot)) /\
       1%nat ∉ active_ptrs s' /\ exists fl', free_list s' = Some fl' /\ 1%nat ∈ fl').
Proof.
  assert (sane demo_oneshot) as Hs by (apply kept_steady, kept_demo_oneshot).
  assert (total (firings (Timeval 1 0) (heap demo_oneshot)) (active_ptrs demo_oneshot)
          < 10)%nat as Hf by (vm_compute; lia).
  assert (not_ready (t_time demo_oneshot_timer) (Timeval 1 0) = false) as Hd
    by reflexivity.
  split; [exact Hs|]. split; [exact normal_1_0|]. split; [exact Hf|].
  split; [exact in_active_demo_oneshot|]. split; [exact heap_demo_oneshot|].
  split; [exact Hd|].
  exact (due_timer_is_called demo_oneshot (Timeval 1 0) 10 1 demo_oneshot_timer
           reachable_demo_oneshot Hs normal_1_0 Hf in_active_demo_oneshot
           heap_demo_oneshot Hd).
Defined.

Lemma tmr_run_before_any_trigger_does_nothing_witness :
  (0 < 1)%nat /\
  (forall x, x ∈ active_ptrs demo_oneshot ->
     not_ready (time_at (heap demo_oneshot) x) (Timeval 0 0) = true) /\
  tmr_run quiet 1 (Timeval 0 0) demo_oneshot = Some (tt, demo_oneshot).
Proof.
  assert (0 < 1)%nat as Hf by lia.
  assert (forall x, x ∈ active_ptrs demo_oneshot ->
            not_ready (time_at (heap demo_oneshot) x) (Timeval 0 0) = true) as Hn.
  { intros x Hx. rewrite active_demo_oneshot in Hx.
    apply list_elem_of_singleton in Hx as ->. vm_compute. reflexivity. }
  split; [exact Hf|]. split; [exact Hn|].
  exact (tmr_run_before_any_trigger_does_nothing demo_oneshot (Timeval 0 0) 1
           reachable_demo_oneshot Hf Hn).
Defined.

Lemma double_cancel_corrupts_the_free_list_witness :
  active_in demo_oneshot 1%nat /\
  exists s1 s2 r2,
    tmr_cancel (Some 1%nat) demo_oneshot = Some (tt, s1) /\
    tmr_cancel (Some 1%nat) s1 = Some (tt, s2) /\
    free_timers s2 = Some 1%nat /\ heap s2 !! 1%nat = Some r2 /\
    t_next r2 = Some 1%nat /\ free_list s2 = None /\
    timers s2 !! t_hash r2 = Some (free_timers demo_oneshot) /\
    alloc_count s2 = alloc_count demo_oneshot /\
    active_count s2 = active_count demo_oneshot - 2 /\
    free_count s2 = free_count demo_oneshot + 2 /\
    tmr_cleanup s2 = None.
Proof.
  split; [exact active_in_demo_oneshot|].
  exact (double_cancel_corrupts_the_free_list demo_oneshot 1
           reachable_demo_oneshot active_in_demo_oneshot).
Defined.

Lemma new_timer_bounds_the_next_wait_witness :
  kept startup /\
  (forall p, Some 1%nat = Some p -> heap startup !! p = None) /\
  normal (Timeval 0 0) /\ 0 < 1000 /\
  tmr_create (Some 1%nat) (Timeval 0 0) (Some (Timeval 0 0)) 7%nat 42 1000 0 startup
    = Some (Some 1%nat, demo_oneshot) /\
  exists v, tmr_mstimeout (-1) (Timeval 0 0) demo_oneshot = Some (v, demo_oneshot) /\
    1 <= v /\ (v <= 1000 \/ v = 500).
Proof.
  assert (forall p, Some 1%nat = Some p -> heap startup !! p = None) as Hf.
  { intros p _. apply lookup_empty. }
  assert (0 < 1000) as Hms by lia.
  assert (tmr_create (Some 1%nat) (Timeval 0 0) (Some (Timeval 0 0)) 7%nat 42 1000 0 startup
          = Some (Some 1%nat, demo_oneshot)) as Hc by (vm_compute; reflexivity).
  split; [exact kept_startup|]. split; [exact Hf|]. split; [exact normal_0_0|].
  split; [exact Hms|]. split; [exact Hc|].
  exact (new_timer_bounds_the_next_wait startup demo_oneshot (Some 1%nat) (Timeval 0 0)
           (Timeval 0 0) 7%nat 42 1000 0 1 (-1) kept_startup Hf normal_0_0 Hms Hc).
Defined.

Lemma reachable_demo_two : reachable demo_two.
Proof.
  apply (reachable_step demo_oneshot
           (Create (Some 2%nat) (Timeval 0 0) (Some (Timeval 0 0)) 8%nat 43 1000 0)).
  - apply kept_reachable, kept_demo_oneshot.
  - intros p [= <-]. reflexivity.
  - vm_compute. reflexivity.
Qed.

Lemma reachable_demo_spare : reachable demo_spare.
Proof.
  apply (reachable_step demo_two (Cancel (Some 2%nat))).
  - apply reachable_demo_two.
  - intros p [= <-]. exists 1%nat, [2%nat; 1%nat].
    split; [vm_compute; reflexivity|set_solver].
  - vm_compute. reflexivity.
Qed.

Lemma good_demo_spare : exists bs fl, good demo_spare bs fl.
Proof. apply reachable_good, reachable_demo_spare. Qed.

Lemma run_demo_spare :
  tmr_run spawner 10 (Timeval 1 0) demo_spare = Some (tt, demo_spawned).
Proof. vm_compute. reflexivity. Qed.

(** ** Callbacks that call back into the registry *)

Section Polite.

Variable invoke : callback -> arg_t -> timeval -> M unit.
Variable now : timeval.
Hypothesis Hpolite : polite invoke now.

(** One turn of the inner loop of [tmr_run] with a polite callback. *)
Lemma fire_polite s bs fl h l1 p l2 r s2 :
  good s bs fl -> (h < HASH_SIZE)%nat -> bs h = l1 ++ p :: l2 ->
  heap s !! p = Some r ->
  fire invoke now p r s = Some (tt, s2) ->
  exists bs2 fl2, good s2 bs2 fl2 /\
    forall n, t_next r = Some n -> exists h', (h' < HASH_SIZE)%nat /\ n ∈ bs2 h'.
Proof.
  intros Hg Hh Hbs Hr Hfire. pose proof (good_shape _ _ _ Hg) as Hs.
  set (e := Event p (t_cb r) (t_arg r) now) in *.
  set (sL := Registry (heap s) (timers s) (free_timers s)
                      (alloc_count s) (active_count s) (free_count s) (calls s ++ [e])).
  assert (good sL bs fl) as HgL by (by eapply good_agree).
  pose proof (good_shape _ _ _ HgL) as HsL.
  unfold fire in Hfire. unfold log_call at 1 in Hfire.
  erewrite bind_eq in Hfire by reflexivity. fold e in Hfire. fold sL in Hfire.
  apply bind_Some in Hfire as ([] & s1 & Hinv & Hfire).
  assert (p ∈ active_ptrs sL) as HpL.
  { apply (elem_of_active _ _ _ _ HsL). exists h. split; [done|]. rewrite Hbs. set_solver. }
  destruct (Hpolite sL p r s1 ltac:(eauto) HpL Hr Hinv)
    as ((bs1 & fl1 & Hg1) & Hp1 & Hn1).
  pose proof (good_shape _ _ _ Hg1) as Hs1.
  (* the successor of [p] at the start is another record *)
  assert (forall n, t_next r = Some n -> n ≠ p) as Hnp.
  { intros n Hn ->.
    destruct (shape_bucket _ _ _ Hs h Hh) as (hd & Hhd & Hd). rewrite Hbs in Hd.
    destruct (dseg_mid _ _ _ _ _ _ _ Hd) as (r' & Hr' & _ & Hnx).
    assert (r' = r) as -> by congruence. rewrite Hn in Hnx.
    pose proof (shape_nodup _ _ _ Hs h Hh) as Hnd. rewrite Hbs in Hnd.
    apply NoDup_app in Hnd as (_ & _ & [Hnot _]%NoDup_cons).
    destruct l2 as [|q l2']; simpl in Hnx; [done|]. injection Hnx as ->. set_solver. }
  apply (elem_of_active _ _ _ _ Hs1) in Hp1 as (h1 & Hh1 & Hp1).
  destruct (shape_hash _ _ _ Hs1 h1 p Hh1 Hp1) as (r1 & Hr1 & _).
  apply list_elem_of_split in Hp1 as (k1 & k2 & Hbs1).
  rewrite (bind_eq _ _ _ _ _ (load_eq _ _ _ Hr1)) in Hfire.
  destruct (Z.eqb_spec (t_periodic r1) 0) as [Hper|Hper].
  - destruct (tmr_cancel_good _ _ _ _ _ _ _ Hg1 Hh1 Hbs1) as (s2' & Hrun & Hg2 & _).
    rewrite Hrun in Hfire. injection Hfire as <-.
    eexists _, _. split; [exact Hg2|]. intros n Hn.
    destruct (proj1 (elem_of_active _ _ _ n Hs1) (Hn1 n Hn)) as (h' & Hh' & Hin).
    exists h'. split; [done|].
    by apply (removed_members bs1 h1 k1 p k2 h' n Hbs1 (Hnp n Hn)).
  - destruct (resched_good s1 bs1 fl1 h1 k1 p k2 r1
                (fun r => set_time (tv_add_msecs (t_time r) (t_msecs r)) r)
                (tv_add_msecs (t_time r1) (t_msecs r1)) Hg1 Hh1 Hbs1 Hr1 eq_refl)
      as (s2' & Hrun & Hg2 & _).
    rewrite Hrun in Hfire. injection Hfire as <-.
    eexists _, _. split; [exact Hg2|]. intros n Hn.
    destruct (proj1 (elem_of_active _ _ _ n Hs1) (Hn1 n Hn)) as (h' & Hh' & Hin).
    exists h'. split; [done|].
    apply (removed_members bs1 h1 k1 p k2 h' n Hbs1 (Hnp n Hn)) in Hin.
    destruct (decide (hash (tv_add_msecs (t_time r1) (t_msecs r1)) = h')) as [E|E].
    + rewrite <- E at 1. rewrite fn_lookup_insert. apply ins_incl. by rewrite E.
    + by rewrite fn_lookup_insert_ne.
Qed.

Lemma run_bucket_polite fuel : forall c s s',
  (exists bs fl, good s bs fl /\
     forall p, c = Some p -> exists h, (h < HASH_SIZE)%nat /\ p ∈ bs h) ->
  run_bucket invoke fuel now c s = Some (tt, s') ->
  exists bs' fl', good s' bs' fl'.
Proof.
  induction fuel as [|fuel IH]; intros c s s' (bs & fl & Hg & Hc) Hrun;
    (destruct c as [p|]; simpl in Hrun; [|injection Hrun as <-; eauto]).
  - discriminate Hrun.
  - destruct (Hc p eq_refl) as (h & Hh & Hp).
    pose proof (good_shape _ _ _ Hg) as Hs.
    apply list_elem_of_split in Hp as (l1 & l2 & Hbs).
    destruct (shape_hash _ _ _ Hs h p Hh) as (r & Hr & _); [rewrite Hbs; set_solver|].
    rewrite (bind_eq _ _ _ _ _ (load_eq _ _ _ Hr)) in Hrun.
    destruct (not_ready (t_time r) now); [injection Hrun as <-; eauto|].
    apply bind_Some in Hrun as ([] & s2 & Hfire & Hrun).
    destruct (fire_polite _ _ _ _ _ _ _ _ _ Hg Hh Hbs Hr Hfire) as (bs2 & fl2 & Hg2 & Hn).
    eapply IH; [|exact Hrun]. exists bs2, fl2. split; [done|]. exact Hn.
Qed.

Lemma run_buckets_polite fuel hs : forall s s',
  (exists bs fl, good s bs fl) -> Forall (fun h => (h < HASH_SIZE)%nat) hs ->
  run_buckets invoke fuel now hs s = Some (tt, s') ->
  exists bs' fl', good s' bs' fl'.
Proof.
  induction hs as [|h hs IH]; intros s s' (bs & fl & Hg) Hhs Hrun; simpl in Hrun.
  - injection Hrun as <-. eauto.
  - apply Forall_cons in Hhs as [Hh Hhs].
    pose proof (good_shape _ _ _ Hg) as Hs.
    destruct (shape_bucket _ _ _ Hs h Hh) as (hd & Hhd & Hd).
    rewrite (bind_eq _ _ _ _ _ (bucket_eq _ _ _ Hhd)) in Hrun.
    apply bind_Some in Hrun as ([] & s1 & H1 & H2).
    eapply IH; [|done|exact H2].
    eapply run_bucket_polite; [|exact H1]. exists bs, fl. split; [done|].
    intros p ->. exists h. split; [done|].
    apply dseg_head in Hd. destruct (bs h); simpl in Hd; [done|].
    injection Hd as ->. set_solver.
Qed.

End Polite.

(** The record after an active timer on its list is an active timer. *)
Lemma next_active s bs fl p r n :
  shape s bs fl -> p ∈ active_ptrs s -> heap s !! p = Some r -> t_next r = Some n ->
  n ∈ active_ptrs s.
Proof.
  intros Hs Hp Hr Hn.
  apply (elem_of_active _ _ _ _ Hs) in Hp as (h & Hh & Hp).
  apply list_elem_of_split in Hp as (l1 & l2 & Hbs).
  destruct (shape_bucket _ _ _ Hs h Hh) as (hd & Hhd & Hd). rewrite Hbs in Hd.
  destruct (dseg_mid _ _ _ _ _ _ _ Hd) as (r' & Hr' & _ & Hnx).
  assert (r' = r) as -> by congruence. rewrite Hn in Hnx.
  apply (elem_of_active _ _ _ _ Hs). exists h. split; [done|]. rewrite Hbs.
  destruct l2 as [|q l2']; simpl in Hnx; [done|]. injection Hnx as ->. set_solver.
Qed.

Lemma spawner_polite now : polite spawner now.
Proof.
  intros s p r s1 (bs & fl & Hg) Hp Hr Hinv. pose proof (good_shape _ _ _ Hg) as Hs.
  unfold spawner in Hinv. apply bind_Some in Hinv as (t & s1' & Hc & [= <-]).
  destruct fl as [|t0 fl].
  - assert (tmr_create None now (Some now) 9%nat 44 1000 0 s = Some (None, s)) as Hnull.
    { apply tmr_create_null_inv. repeat split. by pose proof (shape_free _ _ _ Hs). }
    rewrite Hnull in Hc. injection Hc as _ <-.
    split; [eauto|]. split; [done|]. intros n Hn. by eapply next_active.
  - destruct (tmr_create_reuse_good s bs t0 fl None now (Some now) 9%nat 44 1000 0 Hg)
      as (s2 & Hc2 & Hg2 & _).
    rewrite Hc2 in Hc. injection Hc as _ <-.
    pose proof (good_shape _ _ _ Hg2) as Hs2.
    assert (forall x, x ∈ active_ptrs s -> x ∈ active_ptrs s2) as Hincl.
    { intros x (h & Hh & Hx)%(elem_of_active _ _ _ _ Hs).
      apply (elem_of_active _ _ _ _ Hs2). exists h. split; [done|].
      destruct (decide (hash (tv_add_msecs (default now (Some now)) 1000) = h)) as [E|E].
      - rewrite <- E at 1. rewrite fn_lookup_insert. apply ins_incl. by rewrite E.
      - by rewrite fn_lookup_insert_ne. }
    split; [eauto|]. split; [by apply Hincl|].
    intros n Hn. apply Hincl. by eapply next_active.
Qed.

(** What a well-formed registry looks like from outside. *)
Lemma good_lists s bs fl :
  good s bs fl ->
  (forall h, (h < HASH_SIZE)%nat ->
     exists l, bucket_list s h = Some l /\ sorted (time_at (heap s)) l) /\
  exists fl', free_list s = Some fl' /\ NoDup (active_ptrs s ++ fl') /\
    free_count s = Z.of_nat (length fl').
Proof.
  intros Hg. pose proof (good_shape _ _ _ Hg) as Hs. split.
  - intros h Hh. exists (bs h). split; [by eapply shape_bucket_list|by eapply good_sorted].
  - exists fl. split; [by eapply shape_free_list|]. split; [|by eapply good_free_count].
    rewrite (active_ptrs_good _ _ _ Hs).
    apply NoDup_app. split; [|split; [|by eapply shape_free_nodup]].
    + apply NoDup_flat_map.
      * apply NoDup_seq.
      * intros h Hh%elem_of_seq. apply (shape_nodup _ _ _ Hs). lia.
      * intros h h' x Hh%elem_of_seq Hh'%elem_of_seq Hx Hx'.
        by eapply (shape_other_bucket _ _ _ h h' x Hs); [lia|lia|..].
    + intros x (h & Hh%elem_of_seq & Hx)%elem_of_flat_map.
      apply (shape_sep _ _ _ Hs h x); [lia|done].
Qed.


(** ** A callback that cancels the timer next in line *)

(** Two records that are each other's successor: the walk never ends. *)
Lemma chain_loop2 hp p q rp rq :
  hp !! p = Some rp -> t_next rp = Some q -> hp !! q = Some rq -> t_next rq = Some p ->
  forall fuel, chain fuel hp (Some p) = None.
Proof.
  intros Hp Hpn Hq Hqn.
  assert (forall fuel, chain fuel hp (Some p) = None /\ chain fuel hp (Some q) = None) as H.
  { induction fuel as [|fuel [IH1 IH2]]; simpl; [done|].
    by rewrite Hp, Hpn, Hq, Hqn, IH1, IH2. }
  intros fuel. apply H.
Qed.

(** [tmr_cancel] of a record that has no neighbour. *)
Lemma cancel_alone s p r hd :
  heap s !! p = Some r -> t_prev r = None -> t_next r = None ->
  timers s !! t_hash r = Some hd ->
  exists s' r',
    tmr_cancel (Some p) s = Some (tt, s') /\
    free_timers s' = Some p /\ heap s' !! p = Some r' /\ t_next r' = free_timers s /\
    (forall x, x ≠ p -> heap s' !! x = heap s !! x) /\
    timers s' = <[t_hash r := None]> (timers s) /\
    alloc_count s' = alloc_count s /\ active_count s' = active_count s - 1 /\
    free_count s' = free_count s + 1 /\ calls s' = calls s.
Proof.
  intros Hr Hpv Hnx Hhd.
  unfold tmr_cancel, l_remove, bind, load, store, set_bucket, add_active, get_free,
    set_free, add_free, ret.
  rewrite Hr, Hpv, Hhd. fields. rewrite Hr, Hnx. fields. rewrite Hr. fields.
  rewrite lookup_insert_eq.
  eexists _, _. split; [reflexivity|]. fields.
  rewrite lookup_insert_eq.
  split; [done|]. split; [done|]. split; [done|]. split.
  { intros x Hx. by rewrite !lookup_insert_ne. }
  split; [done|]. repeat split; lia.
Qed.

(** Buckets whose first timer is not due are passed over, whatever the
    callbacks would do. *)
Lemma run_buckets_idle invoke fuel now hs s :
  (0 < fuel)%nat ->
  (forall h, h ∈ hs -> exists hd, timers s !! h = Some hd /\
     forall p, hd = Some p ->
       exists r, heap s !! p = Some r /\ not_ready (t_time r) now = true) ->
  run_buckets invoke fuel now hs s = Some (tt, s).
Proof.
  intros Hfuel. induction hs as [|h hs IH]; intros Hidle; [done|].
  cbn [run_buckets]. destruct (Hidle h) as (hd & Hhd & Hp); [set_solver|].
  rewrite (bind_eq _ _ _ _ _ (bucket_eq _ _ _ Hhd)).
  assert (run_bucket invoke fuel now hd s = Some (tt, s)) as Hb.
  { destruct fuel as [|fuel]; [lia|]. destruct hd as [p|]; [|done].
    destruct (Hp p eq_refl) as (r & Hr & Hnr). cbn [run_bucket].
    rewrite (bind_eq _ _ _ _ _ (load_eq _ _ _ Hr)). by rewrite Hnr. }
  rewrite (bind_eq _ _ _ _ _ Hb). apply IH. intros h' Hh'. apply Hidle. set_solver.
Qed.

(** X25.  A callback must not cancel the timer that follows its own on the
    bucket list.  [tmr_run] reads [t->next] before it calls the callback of
    [t]; if that callback cancels the next timer, the run goes on with the
    cancelled record.  Here the first two timers [A] and [B] of a bucket are
    one-shot and due, the free list is empty, no timer of another bucket is
    due, and the callback of [A], which is not the callback of [B], cancels
    [B].  The run returns, but the
    callback of [B] is called although [B] was cancelled, [B] is cancelled a
    second time, the free list becomes a cycle, the bucket is left empty,
    so that the timers behind [B] are lost, and the counters are three off
    for two timers. *)
Theorem callback_cancelling_the_next_timer (s : registry) (now : timeval)
    (h A B : nat) (rest : list nat) (rA rB : timer) (fuel : nat) :
  reachable s ->
  bucket_list s h = Some (A :: B :: rest) -> free_list s = Some [] ->
  heap s !! A = Some rA -> heap s !! B = Some rB ->
  t_periodic rA = 0 -> t_periodic rB = 0 ->
  not_ready (t_time rA) now = false -> not_ready (t_time rB) now = false ->
  (forall x, x ∈ active_ptrs s -> x ∉ A :: B :: rest ->
     not_ready (time_at (heap s) x) now = true) ->
  t_cb rB ≠ t_cb rA -> (2 <= fuel)%nat ->
  exists s',
    tmr_run (canceller (t_cb rA) B) fuel now s = Some (tt, s') /\
    calls s' = calls s ++ [Event A (t_cb rA) (t_arg rA) now;
                           Event B (t_cb rB) (t_arg rB) now] /\
    free_list s' = None /\
    bucket_list s' h = Some [] /\
    alloc_count s' = alloc_count s /\
    active_count s' = active_count s - 3 /\
    free_count s' = free_count s + 3.
Proof.
  intros (bs & fl & Hg)%reachable_good Hbl Hfl HrA HrB HpA HpB HdA HdB Hothers Hcb Hfuel.
  pose proof (good_shape _ _ _ Hg) as Hs.
  destruct (bucket_list_shape _ _ _ _ _ Hs Hbl) as [Hh Hbs]. symmetry in Hbs.
  assert (fl = []) as -> by (rewrite (shape_free_list _ _ _ Hs) in Hfl; congruence).
  set (inv := canceller (t_cb rA) B).
  set (eA := Event A (t_cb rA) (t_arg rA) now).
  set (eB := Event B (t_cb rB) (t_arg rB) now).
  (* the bucket of [A] and [B] *)
  destruct (shape_bucket _ _ _ Hs h Hh) as (hd & Hhd & Hd). rewrite Hbs in Hd.
  destruct Hd as (-> & rA' & HrA' & _ & Hd).
  assert (rA' = rA) as -> by congruence.
  pose proof (dseg_head _ _ _ _ _ Hd) as HnxA. simpl in HnxA.
  pose proof (shape_nodup _ _ _ Hs h Hh) as Hnd. rewrite Hbs in Hnd.
  apply NoDup_cons in Hnd as [HA Hnd]. apply NoDup_cons in Hnd as [HB _].
  assert (A ≠ B) as HAB by set_solver.
  destruct (shape_hash _ _ _ Hs h B Hh) as (rB' & HrB' & HhB); [rewrite Hbs; set_solver|].
  assert (rB' = rB) as -> by congruence.
  (* the callback of [A] is called and cancels [B] *)
  set (sL := Registry (heap s) (timers s) (free_timers s)
                      (alloc_count s) (active_count s) (free_count s) (calls s ++ [eA])).
  assert (good sL bs []) as HgL by (by eapply good_agree).
  destruct (tmr_cancel_good sL bs [] h [A] B rest HgL Hh Hbs)
    as (s1 & Hc1 & Hg1 & Hrel1 & Hcalls1).
  pose proof (good_shape _ _ _ Hg1) as Hs1.
  destruct (shifts_tmr_cancel _ _ _ _ Hc1) as (Hal1 & Hac1 & Hfc1).
  destruct (tmr_cancel_prev _ _ _ Hc1) as (rB1 & HrB1 & HpvB1).
  pose proof (shape_free _ _ _ Hs1) as (Hfree1 & rB1' & HrB1' & HnxB1).
  assert (rB1' = rB1) as -> by congruence. simpl in HnxB1.
  destruct (relinked_lookup _ _ _ _ _ Hrel1 HrB) as (rB1' & HrB1'' & HdB1).
  assert (rB1' = rB1) as -> by congruence.
  destruct (relinked_lookup _ _ _ _ _ Hrel1 HrA) as (rA1 & HrA1 & HdA1).
  (* [A] is cancelled *)
  assert ((<[h := [A] ++ rest]> bs) h = [] ++ A :: rest) as Hbs1
    by (by rewrite fn_lookup_insert).
  destruct (tmr_cancel_good _ _ _ _ _ _ _ Hg1 Hh Hbs1)
    as (s2 & Hc2 & Hg2 & Hrel2 & Hcalls2).
  pose proof (good_shape _ _ _ Hg2) as Hs2.
  destruct (shifts_tmr_cancel _ _ _ _ Hc2) as (Hal2 & Hac2 & Hfc2).
  pose proof (shape_free _ _ _ Hs2) as (Hfree2 & rA2 & HrA2 & HnxA2 & rB2 & HrB2 & _).
  assert (heap s2 !! B = Some rB1) as HrB2'.
  { rewrite (proj1 (Hrel2 B)); [done|]. simpl. set_solver. }
  assert (rB2 = rB1) as -> by congruence.
  (* the run goes on with [B] *)
  set (sL2 := Registry (heap s2) (timers s2) (free_timers s2)
                       (alloc_count s2) (active_count s2) (free_count s2)
                       (calls s2 ++ [eB])).
  assert (t_hash rB1 = h) as HhB1 by (unfold data in HdB1; congruence).
  destruct (shape_bucket _ _ _ Hs2 h Hh) as (hd2 & Hhd2 & _).
  destruct (cancel_alone sL2 B rB1 hd2 HrB2' HpvB1 HnxB1)
    as (s3 & rB3 & Hc3 & Hfree3 & HrB3 & HnxB3 & Hheap3 & Htimers3 & Hal3 & Hac3 & Hfc3
        & Hcalls3); [by rewrite HhB1|].
  rewrite HhB1 in Htimers3. cbn [free_timers sL2] in HnxB3.
  (* the walk of the bucket *)
  assert (fire inv now A rA s = Some (tt, s2)) as HfA.
  { unfold fire. unfold log_call at 1. erewrite bind_eq by reflexivity. fold eA. fold sL.
    assert (inv (t_cb rA) (t_arg rA) now sL = Some (tt, s1)) as Hi.
    { unfold inv, canceller. by rewrite Nat.eqb_refl. }
    rewrite (bind_eq _ _ _ _ _ Hi), (bind_eq _ _ _ _ _ (load_eq _ _ _ HrA1)).
    assert (t_periodic rA1 = 0) as -> by (unfold data in HdA1; congruence).
    exact Hc2. }
  assert (fire inv now B rB1 s2 = Some (tt, s3)) as HfB.
  { unfold fire. unfold log_call at 1. erewrite bind_eq by reflexivity.
    assert (t_cb rB1 = t_cb rB) as -> by (unfold data in HdB1; congruence).
    assert (t_arg rB1 = t_arg rB) as -> by (unfold data in HdB1; congruence).
    fold eB. fold sL2.
    assert (inv (t_cb rB) (t_arg rB) now sL2 = Some (tt, sL2)) as Hi2.
    { unfold inv, canceller. by rewrite (proj2 (Nat.eqb_neq _ _) Hcb). }
    rewrite (bind_eq _ _ _ _ _ Hi2).
    assert (heap sL2 !! B = Some rB1) as HrBL by done.
    rewrite (bind_eq _ _ _ _ _ (load_eq _ _ _ HrBL)).
    assert (t_periodic rB1 = 0) as -> by (unfold data in HdB1; congruence).
    exact Hc3. }
  assert (run_bucket inv fuel now (Some A) s = Some (tt, s3)) as Hwalk.
  { destruct fuel as [|[|fuel]]; [lia..|]. cbn [run_bucket].
    rewrite (bind_eq _ _ _ _ _ (load_eq _ _ _ HrA)), HdA.
    rewrite (bind_eq _ _ _ _ _ HfA), HnxA.
    rewrite (bind_eq _ _ _ _ _ (load_eq _ _ _ HrB2')).
    assert (t_time rB1 = t_time rB) as -> by (unfold data in HdB1; congruence).
    rewrite HdB, (bind_eq _ _ _ _ _ HfB), HnxB1. by destruct fuel. }
  (* the other buckets *)
  assert (forall h', (h' < HASH_SIZE)%nat -> h' ≠ h ->
            exists hd', timers s !! h' = Some hd' /\ timers s3 !! h' = Some hd' /\
              forall p, hd' = Some p ->
                (exists r, heap s !! p = Some r /\ not_ready (t_time r) now = true) /\
                (exists r, heap s3 !! p = Some r /\ not_ready (t_time r) now = true))
    as Hidle.
  { intros h' Hh' Hne.
    destruct (shape_bucket _ _ _ Hs h' Hh') as (hd' & Hhd' & _).
    destruct (shape_bucket _ _ _ Hs2 h' Hh') as (hd2' & Hhd2' & Hd2').
    rewrite !fn_lookup_insert_ne in Hd2' by done.
    exists hd'. split; [done|].
    assert (hd2' = hd') as ->.
    { destruct (shape_bucket _ _ _ Hs h' Hh') as (hd'' & Hhd'' & Hd'').
      apply dseg_head in Hd2'. apply dseg_head in Hd''. congruence. }
    split. { rewrite Htimers3, list_lookup_insert_ne by done. exact Hhd2'. }
    intros p ->. destruct (head_in_bucket _ _ _ _ _ Hs Hh' Hhd') as (l & Hbs').
    assert (p ∈ bs h') as Hp by (rewrite Hbs'; set_solver).
    destruct (shape_hash _ _ _ Hs h' p Hh' Hp) as (r & Hr & _).
    assert (not_ready (t_time r) now = true) as Hnr.
    { rewrite <- (time_at_eq _ _ _ Hr).
      apply Hothers; [apply (elem_of_active _ _ _ _ Hs); eauto|].
      rewrite <- Hbs. intros Hph. apply Hne.
      by eapply (shape_other_bucket _ _ _ h' h p Hs). }
    split; [by exists r|].
    assert (p ≠ B) as HpB'.
    { intros ->. apply Hne. eapply (shape_other_bucket _ _ _ h' h B Hs); try done.
      rewrite Hbs. set_solver. }
    assert (heap sL !! p = Some r) as HrL by done.
    destruct (relinked_lookup _ _ _ _ _ Hrel1 HrL) as (r1 & Hr1 & Hd1).
    destruct (relinked_lookup _ _ _ _ _ Hrel2 Hr1) as (r2 & Hr2 & Hd2).
    exists r2. split; [by rewrite Hheap3|].
    assert (t_time r2 = t_time r) as -> by (unfold data in Hd1, Hd2; congruence).
    done. }
  assert (seq 0 HASH_SIZE = seq 0 h ++ h :: seq (S h) (HASH_SIZE - S h)) as Hseq.
  { replace HASH_SIZE with (h + S (HASH_SIZE - S h))%nat at 1 by lia.
    by rewrite seq_app. }
  exists s3. split.
  { unfold tmr_run. fold inv. rewrite Hseq, run_buckets_app.
    erewrite bind_eq.
    2:{ apply run_buckets_idle; [lia|]. intros h' Hh'%elem_of_seq.
        destruct (Hidle h') as (hd' & E & _ & Hp); [lia..|].
        exists hd'. split; [done|]. intros p Ep. by destruct (Hp p Ep). }
    cbn [run_buckets]. rewrite (bind_eq _ _ _ _ _ (bucket_eq _ _ _ Hhd)).
    rewrite (bind_eq _ _ _ _ _ Hwalk).
    apply run_buckets_idle; [lia|]. intros h' Hh'%elem_of_seq.
    destruct (Hidle h') as (hd' & _ & E & Hp); [lia..|].
    exists hd'. split; [done|]. intros p Ep. by destruct (Hp p Ep). }
  split. { rewrite Hcalls3. cbn [calls sL2]. rewrite Hcalls2, Hcalls1. cbn [calls sL].
           by rewrite <- app_assoc. }
  split.
  { unfold free_list. rewrite Hfree3.
    apply (chain_loop2 _ B A rB3 rA2); [done|by rewrite HnxB3| |done].
    rewrite Hheap3 by done. exact HrA2. }
  split.
  { unfold bucket_list. rewrite Htimers3, list_lookup_insert_eq.
    - by destruct (size (heap s3)).
    - cbn [timers sL2]. rewrite (shape_len _ _ _ Hs2). exact Hh. }
  cbn [alloc_count active_count free_count sL2 sL] in *. repeat split; lia.
Qed.

(** ** Callbacks that call back, at concrete inputs *)


Lemma callback_cancelling_the_next_timer_witness :
  reachable demo_two /\
  bucket_list demo_two 1 = Some [2%nat; 1%nat] /\ free_list demo_two = Some [] /\
  heap demo_two !! 2%nat = Some demo_two_first /\
  heap demo_two !! 1%nat = Some demo_two_second /\
  exists s',
    tmr_run (canceller (t_cb demo_two_first) 1) 10 (Timeval 1 0) demo_two
      = Some (tt, s') /\
    calls s' = calls demo_two ++
      [Event 2 (t_cb demo_two_first) (t_arg demo_two_first) (Timeval 1 0);
       Event 1 (t_cb demo_two_second) (t_arg demo_two_second) (Timeval 1 0)] /\
    free_list s' = None /\
    bucket_list s' 1 = Some [] /\
    alloc_count s' = alloc_count demo_two /\
    active_count s' = active_count demo_two - 3 /\
    free_count s' = free_count demo_two + 3.
Proof.
  assert (bucket_list demo_two 1 = Some [2%nat; 1%nat]) as Hbl by (vm_compute; reflexivity).
  assert (free_list demo_two = Some []) as Hfl by (vm_compute; reflexivity).
  assert (heap demo_two !! 2%nat = Some demo_two_first) as HrA by (vm_compute; reflexivity).
  assert (heap demo_two !! 1%nat = Some demo_two_second) as HrB by (vm_compute; reflexivity).
  split; [exact reachable_demo_two|]. split; [exact Hbl|]. split; [exact Hfl|].
  split; [exact HrA|]. split; [exact HrB|].
  refine (callback_cancelling_the_next_timer demo_two (Timeval 1 0) 1 2 1 []
            demo_two_first demo_two_second 10 reachable_demo_two Hbl Hfl HrA HrB
            eq_refl eq_refl eq_refl eq_refl _ _ _).
  - intros x Hx Hnx. exfalso. apply Hnx.
    assert (active_ptrs demo_two = [2%nat; 1%nat]) as E by (vm_compute; reflexivity).
    by rewrite E in Hx.
  - simpl. lia.
  - lia.
Defined.

Lemma tv_add_msecs_adds_exactly_witness :
  2147483647 <= 2 ^ 63 - 1 /\
  tv_add_msecs_long (2 ^ 63 - 1) (Timeval 1 600000) 1500 = Some (Timeval 3 100000) /\
  tv_add_msecs_long (2 ^ 63 - 1) (Timeval 1 600000) 1500
    = Some (tv_add_msecs (Timeval 1 600000) 1500) /\
  usecs (tv_add_msecs (Timeval 1 600000) 1500) = usecs (Timeval 1 600000) + 1000 * 1500 /\
  (normal (Timeval 1 600000) -> 0 <= 1500 -> normal (tv_add_msecs (Timeval 1 600000) 1500)) /\
  (normal (Timeval 1 600000) -> 1500 < 0 ->
     tv_add_msecs (Timeval 1 600000) 1500
     = Timeval (1 + Z.quot 1500 1000) (600000 + Z.rem 1500 1000 * 1000) /\
     -1000000 < tv_usec (tv_add_msecs (Timeval 1 600000) 1500) < 1000000).
Proof.
  split; [lia|]. split; [vm_compute; reflexivity|].
  exact (tv_add_msecs_adds_exactly (2 ^ 63 - 1) (Timeval 1 600000) 1500
           ltac:(lia) eq_refl eq_refl eq_refl).
Defined.
